(* ===== verification/_CoqProject ===== *)
-Q . S2P
Prelude.v
GoStd.v
Escape.v
Util.v
Sockaddr.v
Redis.v
Ws.v
Http.v
HttpSpec.v
HttpQuery.v
HttpResp.v
HttpGo.v
State.v
StateSpec.v
GoMem.v
ConnMem.v
RespClient.v
ConnList.v
Server.v
ServerInv.v
ServerFrame.v
ServerSpec.v
ServerWatch.v
ServeLoop.v
ConnRace.v
ServerHttp.v
Tls.v
TlsWrite.v
Listen.v
FdMap.v
FdMapRace.v
Client.v
ClientInv.v
ClientCalls.v
ClientSpec.v
ClientRace.v
MultiClients.v
LockQueue.v
PollLoop.v
Poll.v
PollBsd.v
Wire.v
Echo.v
