(* ===== verification/Prelude.v ===== *)
(** * resh: an event-driven server and client for HTTP, websockets and Redis

    A verification library for the Go package under src/.  The program reads the
    bytes of many connections in one event loop, finds out for each request
    whether it is a Redis command or HTTP, hands it to a handler of the user and
    sends what the handler wrote; a second package is a Redis client on the same
    poller.

    ** The parts and the files that model them

    - [Prelude]: bytes, fixed-width integers, slices, the result monad [res]
      (a value, a Go error, a panic of the Go runtime, or fuel that ran out),
      search in byte strings, the hint and rewrite databases.
    - [GoStd]: what the program calls of Go's standard library ([strconv],
      [encoding/hex], [bytes], [net/url], [encoding/binary], [crypto/sha1],
      [encoding/base64]), by its documentation.
    - [Sockaddr]: src/internal/socktoaddr.go and the address of a client.
    - [Util], [Escape]: src/util.go.  [readByteAndNumberCrLf] reads the headers of
      RESP; [UnescapeInplace] decodes percent signs in the buffer it reads.
    - [Redis]: src/redis.go and the loop of src/state.go that reads the arguments
      of a command ([readBulk], [readBulks]).
    - [Http], [HttpSpec]: the request side of src/http.go; [parse] rewrites the
      buffer in place, and so does the model.
    - [HttpQuery]: the query of a request as a map, with the map as a parameter, and
      its URL.
    - [HttpResp]: the response side of src/http.go.
    - [HttpGo]: handlers of net/http over a request and its response
      ([RunGoHandler]), with the response writer of src/util.go.
    - [Ws]: src/ws.go: frames ([ws_parse], [ws_frame]) and messages
      ([onWebsocket]).
    - [State], [StateSpec]: src/state.go: [process], which is called again with
      the whole buffer whenever bytes arrive and goes on at its [stage].
    - [ConnList]: the pointers of src/conn.go and src/server.go that order the
      connections by activity.
    - [Server], [ServerInv], [ServerFrame], [ServerSpec], [ServerWatch], [ServeLoop],
      [ServerHttp]: src/server.go and
      src/conn.go: the callback of the poller ([iter]) and all it calls.  A
      connection holds the buffers that [State] and [Ws] parse; [readConn] calls
      [process] or [ws_parse] and then the handler; [closeConnWithError] keeps the
      descriptor map, the list and the counter together.  A panic ends an event in the
      state that it leaves ([Panicked]), and [Serve] goes on from there: it reports
      the panic and closes what is open ([close_all]).  [OnWSData] and [OnWSClose] can be
      nil, as [Serve] sets no default for them; calling them then is such a panic.
    - [ConnRace]: the lock of a connection (src/conn.go), with every compare-and-swap,
      load and store as a step, and the sections of src/redis.go, src/conn.go and
      src/server.go that it protects.
    - [GoMem]: slices as windows on arrays, and [append].  [ConnMem]: the input of a
      connection and its requests in that memory.
    - [Tls]: src/ssl_cgo.go in that event loop: [titer] is [iter] on connections with
      an [SSL] object, which a map holds until the object is freed.  [TlsWrite]: writes
      that OpenSSL wants repeated from the same memory.
    - [Listen]: [Listen], [LoadCertPEMs] and [Close] of src/server.go, [X_init] and
      [X_accept] of src/ssl_cgo.go, [SetKeepAlive] of src/internal: what they take from
      the system and give back.
    - [RespClient]: src/redis/parser.go: how the client measures a reply
      ([readElement]) and reads it ([Reader]).
    - [FdMap]: src/redis/fd_map.go, behind the class [FdTable] that the client is
      proved against; [FdMapRace]: the same operations with each access to shared
      memory as a step, and when that is the same as one.
    - [Client], [ClientInv], [ClientCalls], [ClientSpec]: src/redis/client.go: [Exec], the
      events of its poller ([on_event]), its timers ([on_timer]) and [Close].  A call is
      steps ([call_step]), one for each access to the channel of idle connections, the
      table and a timer; [ClientCalls] has any number of calls at a time, in any order with
      events and timers ([pool_step]), and [Exec] is a call that nobody disturbs.
      [ClientRace]: one connection of it, with each access of the loop, of a call and of
      the timer's goroutine to what they share as a step, and a server that may also go
      away or answer what it was not asked.
    - [MultiClients]: src/redis/multi_clients.go: calls dealt to several clients, each with
      its calls as in [ClientCalls].
    - [LockQueue]: src/internal/lockqueue.go, one step for each access to shared
      memory, under every schedule.  [PollLoop]: [Trigger] and the loop of [Wait]
      over that queue, for any kernel object (class [PollKernel]); [Poll]: the
      eventfd and epoll of src/internal/internal_linux.go, with what it watches and what
      [EpollCtl] refuses; [PollBsd]: the kqueue of
      src/internal/internal_bsd.go.
    - [Wire]: a client and a server on the two ends of a connection: the bytes that
      one sends are the reads of the other, cut and delayed as the network likes.
    - [Echo]: the handlers of the servers of src/examples over the models of requests
      and responses.

    A definition has the name of the function it translates where Rocq allows it
    ([ws_parse] is [Websocket.parse], [ws_frame] is [Websocket.write]).  Go's
    errors are the constructors of the inductive type [Util.error] (for the
    client [RespClient.rerror]); an index or a slice out of range is [Panic] (in
    the event loop [Panicked]), as the runtime has it, and never a default value.  A [uint16], [uint32] or
    64-bit conversion is written out ([u16], [u32], [i64]).

    ** What the theorems show

    - Reading requests.  Bytes give the same requests however the network cuts
      them ([process_chunks], [process_command_prefix]); a command and an HTTP
      request are read back to their parts ([process_command],
      [process_http_request], [parse_request], [GetHeader_parse_request],
      [ForeachQuery_request], [GetQueries_request], [GetQueryInt64_request]);
      decoding in place is decoding ([UnescapeInplace_decode],
      [UnescapeInplace_QueryEscape]).
    - Safety on arbitrary input.  Parsers end, never write outside their buffer,
      and panic on exactly the inputs named ([process_panics_only], [parse_total],
      [readBulk_panic_iff], [ws_parse_panic_iff], [readElement_total],
      [readNext_accepted]).
    - Writing.  A reader written from the protocol's documents reads back what
      the writers send ([respFull_read], [chunked_read], [UpgradeWebsocket_read],
      [server_frame_ws_frame]), and short writes lose nothing ([writeConn_sent]).
      A net/http handler sees the request that was sent, and its response is read
      back ([RunGoHandler_serves]).
    - Websockets: [ws_parse_client_frame], [ws_parse_prefix], [ws_run_fragments],
      [ws_run_refused].
    - The event loop.  [reachable_invariant]: the maps, the list and the counter
      agree in every reachable state and no event leaves a lock held on an open
      connection.  [reads_command], [reads_request], [reads_frames]: bytes that
      arrive over several events call the handler once for each request or
      message, with what was asked.  [Serve_stops]: when the loop ends
      or something panics, every connection is closed, once, if [OnWSClose] is set.
      [output_watched]: the output
      of a connection is watched, or triggered, until it is sent.
      [server_never_refused]: the poller is never asked to watch a descriptor that it
      would refuse, which would be a panic.  [touch_front] and
      [sweepTail_closes] are the list at the level of pointers.
    - TLS.  [tls_refines]: the event loop with TLS is the plain one with reads and writes
      that [read_outcome] and [write_outcome] say for each answer of OpenSSL, before and
      after the handshake, and it ends in the same state, panics included; a freed object
      is used only when writing closed the connection.  So the theorems above hold of it.  [tls_handshake_first]: nothing of a request is
      read before the handshake is done.
    - Goroutines at one connection.  [writers_serialize]: under every schedule of the
      writers, the poller and closing, at most one is inside the lock, and what is sent is
      what each writes, whole, in the order of the lock; [writers_finish]: everybody comes
      to an end.  [requests_keep]: a request stays what was sent while its memory is read
      into; that is the refinement by [ConnMem] of the values that [Server] has.
      [Close_gives_back]: a listener gives back what it took.  [tls_retry]: when a write
      over TLS can be repeated.
    - The client.  [client_invariant]: with at most [P] calls at a time between finding
      the table not full and adding their connection, the table never exceeds the size of
      the pool by more than [P - 1], which [calls_race] reaches, and is within it again
      when no connection is in use; [loop_trims]: what the loop of [fillIdleConn] is for.
      [Exec_sends]: a call that nobody disturbs sends its command on an
      idle connection or on a new one, behind the authentication;
      [one_reply_one_callback]: a reply in any number of pieces calls the callback
      once; [timeout_calls_back], [Close_calls_back]: so does the time-out, and
      closing the client.  Its reader: [readElement_reply], [readElement_prefix],
      [Next_reply].  Several of them: [multi_round_robin], [multi_pool],
      [multi_counts], [multi_Close_all].  Its address: [client_addr_shown].  Its loop,
      calls and timers against each other: [prompt_call_once], as long as the loop is
      faster than the time-out and the server only answers what it was asked; [eof_crashes]
      and [unsound_replies] show why.
    - Shared structures.  [lockQueue_refines]: under every schedule the queue is a bag
      that each operation changes at one moment; [SwapOutForEach_drains] and
      [Add_alone]: its operations end; [trigger_served]: what is triggered is
      written, once; [trigger_wakes]: on the BSDs a trigger is never lost.
      [fdMap_refines]: the table of the client is a finite map;
      [no_growth_linearizes]: under every schedule in which no call grows it, each
      call takes effect at one moment of its own.
    - Client and server together.  [call_answered]: a call on an idle connection is
      answered by what the server's handler wrote, whatever the network does
      with the bytes.
    - Examples.  [http_echo], [redis_echo], [ssl_echo]: the example servers send back
      what they were sent.
    - What does not work, each with an input or a schedule that shows it.  In the
      server: [client_stops_server], [oversize_keeps_lock],
      [pipelined_command_waits], [again_unwatches], [process_negative_count],
      [readBulk_accepts_minus_two], [ws_parse_panic_iff], [Close_status_code],
      [GetHeader_injected], [ForeachQuery_twice], [Method_of_empty_request],
      [Redirect_unframed], [UnescapeInplace_truncated], [RequestURI_not_target],
      [release_overwrites], [Close_closes_another], [no_OnWSClose_leaks], [query_injects].  In
      the client:
      [readElement_overflow], [Next_null], [closed_connection_panics],
      [closed_idle_connection_taken], [early_reply_panics],
      [concurrent_Add_lost], [counts_stale], [reset_sets_again], [callback_twice], [calls_race], [loop_waits],
      [eof_crashes]; in the
      pollers [wakeup_lost], [change_lost], [idle_connection_closed]; with TLS
      [tls_use_after_free], [tls_retry], [alpn_selected]; between client and
      server [authenticated_call_waits].

    ** Bounds and fuel

    Buffers are assumed shorter than 2^32 bytes where offsets are [uint32]: the
    event loop refuses buffers over [RequestMaxBytes] (1 MB by default), so
    [max_ok] asks that this variable is set below 2^32.  Fuel: the loops over a
    buffer ([unescape_loop], [parse_loop], [header_loop], [query_loop]) get the
    length of the buffer and consume at least one byte per turn; [readElement]
    gets twice the length plus one, as an element needs a byte and each level of
    arrays another ([read_fuel_enough]); [parse_next] gets the length of what is
    buffered and read plus one, as each turn takes a frame; a call of [Exec] that nobody
    disturbs gets three steps for each idle connection, as its loop closes one each time
    round ([call_fuel], [Exec_fill]).  Theorems that the
    answer is never [OutOfFuel] stand beside each ([process_panics_only],
    [parse_total], [readElement_total], [reachable_invariant]).

    ** Parameters

    [Env]: [RequestMaxBytes], and [url.Parse], which the program calls only for a
    target that does not start with a slash.  [Handlers]: the user's callbacks
    and whether closing a descriptor fails.  [QueryMap]: the map behind the query
    cache; [GoHandler]: a handler of net/http.  [Client.config]: the settings of a
    client.  [OpenSSL]: the numbers of its errors; [PollKernel]: the kernel's side of a
    poller; [InterfaceByIndex]: the names of the network interfaces.  The answers of
    [read], [write], [accept], [EpollWait], [Kevent] and of OpenSSL are part of
    the inputs and schedules: of [iter], of [titer], of [on_event], of [pstep].

    ** What is not modelled, and why

    OpenSSL itself and the memory of C; the system calls that open a socket of the
    client or a kqueue, beyond their answers; resolving the address of a client; the
    methods that format for humans ([String]) and the texts of errors of OpenSSL; the
    example programs other than the handlers of [Echo]: clients, benchmarks of other
    libraries, set-up.  Reading the counts of the pool over several cores while a callback
    writes them, and the initialisation of [pool.New] in the queue: both are data races,
    of which Go says nothing.  So is the length of the output that [readConn] reads
    without the lock.

    In [Server] and [Client] an event, a call and a timer are one step each.  The steps
    inside them are in models of one component each: [ConnRace] for the lock of a
    connection of the server, [ClientRace] for a connection of the client, [LockQueue],
    [PollLoop] and [FdMapRace] for what the goroutines share besides.  [ConnRace] has the
    sections between [spinLock] and [spinUnlock]; what [iter] does outside them belongs to
    the loop alone.  [ClientRace] has calls without authentication whose replies come in
    one read, and one connection for one descriptor; that another connection gets the same
    number while an event is under way is not modelled.  [ConnMem] has the
    requests of Redis and HTTP, and not the frames of websockets. *)

From stdpp Require Export base tactics option list list_numbers numbers strings sets.
From Stdlib Require Export ZArith Lia.

#[global] Open Scope Z_scope.

(** ** Bytes and machine integers *)

(** A Go [byte] is an integer in [0, 256); a [[]byte] is a list of them. *)
Abbreviation byte := Z.
Abbreviation bytes := (list Z).

Definition is_byte (b : byte) : Prop := 0 <= b < 256.

#[export] Instance is_byte_dec b : Decision (is_byte b).
Proof. unfold is_byte. apply _. Defined.

(** Conversions to fixed-width integers: [uint8(x)], [uint16(x)], [uint32(x)],
    [uint64(x)] and the two's complement [int]/[int64] result of an operation. *)
Definition u8 (z : Z) : Z := z mod 2 ^ 8.
Definition u16 (z : Z) : Z := z mod 2 ^ 16.
Definition u32 (z : Z) : Z := z mod 2 ^ 32.
Definition u64 (z : Z) : Z := z mod 2 ^ 64.
Definition i64 (z : Z) : Z := (z + 2 ^ 63) mod 2 ^ 64 - 2 ^ 63.

Lemma i64_small z : - 2 ^ 63 <= z < 2 ^ 63 -> i64 z = z.
Proof. intros H. unfold i64. rewrite Z.mod_small; lia. Qed.
Lemma u32_small z : 0 <= z < 2 ^ 32 -> u32 z = z.
Proof. intros H. unfold u32. by rewrite Z.mod_small. Qed.
Lemma u16_small z : 0 <= z < 2 ^ 16 -> u16 z = z.
Proof. intros H. unfold u16. by rewrite Z.mod_small. Qed.
Lemma u8_small z : 0 <= z < 2 ^ 8 -> u8 z = z.
Proof. intros H. unfold u8. by rewrite Z.mod_small. Qed.
Lemma u64_small z : 0 <= z < 2 ^ 64 -> u64 z = z.
Proof. intros H. unfold u64. by rewrite Z.mod_small. Qed.

(** ** String literals as bytes *)
Fixpoint bs (s : String.string) : bytes :=
  match s with
  | String.EmptyString => []
  | String.String a s => Z.of_N (Ascii.N_of_ascii a) :: bs s
  end.
Arguments bs s%_string.

Definition CR : byte := 13.
Definition LF : byte := 10.
Definition SP : byte := 32.
Definition crlf : bytes := [CR; LF].

(** ** Results of Go code

    A call returns a value, returns an error, or panics.  [OutOfFuel] is the
    answer of a loop whose fuel ran out; the theorems of each component show
    that it never is the answer. *)
Inductive res (E A : Type) : Type :=
| Ok (a : A)
| Err (e : E)
| Panic
| OutOfFuel.
Arguments Ok {E A} a.
Arguments Err {E A} e.
Arguments Panic {E A}.
Arguments OutOfFuel {E A}.

#[global] Instance res_eq_dec {E A} `{EqDecision E, EqDecision A} : EqDecision (res E A).
Proof. solve_decision. Defined.

Definition rbind {E A B} (m : res E A) (k : A -> res E B) : res E B :=
  match m with
  | Ok a => k a
  | Err e => Err e
  | Panic => Panic
  | OutOfFuel => OutOfFuel
  end.

Lemma rbind_ret {E A} (m : res E A) : rbind m (fun a => Ok a) = m.
Proof. by destruct m. Qed.

(** An access the Go runtime checks: [None] is the run-time panic. *)
Definition checked {E A} (o : option A) : res E A :=
  match o with Some a => Ok a | None => Panic end.

Declare Scope go_scope.
Delimit Scope go_scope with go.
Notation "'let!' x ':=' m 'in' k" := (rbind m (fun x => k))
  (at level 10, x pattern, m at level 100, k at level 200,
   format "'[v' 'let!'  x  ':='  m  'in' '/' k ']'") : go_scope.
#[global] Open Scope go_scope.

(** ** Go slices *)

Definition len {A} (l : list A) : Z := Z.of_nat (length l).

(** [s[i]] with its bounds check. *)
Definition at_ {A} (s : list A) (i : Z) : option A :=
  if bool_decide (0 <= i) then s !! Z.to_nat i else None.

(** [s[a:b]] with its bounds check.  Go admits [b] up to the capacity of [s];
    the uses modelled here never rely on that (their guards bound [b] by
    [len(s)], or [b < a] and Go panics whatever the capacity). *)
Definition slice {A} (s : list A) (a b : Z) : option (list A) :=
  if bool_decide (0 <= a <= b /\ b <= len s)
  then Some (take (Z.to_nat (b - a)) (drop (Z.to_nat a) s)) else None.

(** [s[a:]] *)
Definition slice_from {A} (s : list A) (a : Z) : option (list A) := slice s a (len s).
(** [s[:b]] *)
Definition slice_to {A} (s : list A) (b : Z) : option (list A) := slice s 0 b.

(** Writing the bytes [seg] in place at offset [off] of [s]: what the caller
    sees in [s] after a callee modified the slice [s[off:off+len(seg)]]. *)
Definition overwrite {A} (s : list A) (off : nat) (seg : list A) : list A :=
  take off s ++ seg ++ drop (off + length seg) s.

(** ** Searching, as [bytes.Index] and [bytes.IndexByte]

    [None] is Go's [-1]. *)
Fixpoint prefixb (p l : bytes) : bool :=
  match p, l with
  | [], _ => true
  | x :: p, y :: l => (x =? y) && prefixb p l
  | _ :: _, [] => false
  end.

Fixpoint index_of (sep l : bytes) : option nat :=
  if prefixb sep l then Some 0%nat
  else match l with
       | [] => None
       | _ :: l => S <$> index_of sep l
       end.

Fixpoint index_byte (c : byte) (l : bytes) : option nat :=
  match l with
  | [] => None
  | x :: l => if x =? c then Some 0%nat else S <$> index_byte c l
  end.

Fixpoint last_index_byte (c : byte) (l : bytes) : option nat :=
  match l with
  | [] => None
  | x :: l => match last_index_byte c l with
              | Some i => Some (S i)
              | None => if x =? c then Some 0%nat else None
              end
  end.

(** ** Generic lemmas and automation

    [go] is the hint database of the facts about slices and lengths that the
    components use without naming them; [len] is its rewriting counterpart. *)
Create HintDb go discriminated.
#[export] Hint Constants Opaque : go.
Create Rewrite HintDb len.

Section len.
Context {A : Type}.
Implicit Types l k : list A.

Lemma len_nil : len (@nil A) = 0.
Proof. done. Qed.
Lemma len_cons x l : len (x :: l) = 1 + len l.
Proof. unfold len. cbn [length]. lia. Qed.
Lemma len_app l k : len (l ++ k) = len l + len k.
Proof. unfold len. rewrite length_app. lia. Qed.
Lemma len_nonneg l : 0 <= len l.
Proof. unfold len. lia. Qed.
Lemma len_take n l : len (take n l) = Z.min (Z.of_nat n) (len l).
Proof. unfold len. rewrite length_take. lia. Qed.
Lemma len_drop n l : len (drop n l) = Z.max 0 (len l - Z.of_nat n).
Proof. unfold len. rewrite length_drop. lia. Qed.
Lemma len_0_inv l : len l = 0 -> l = [].
Proof. destruct l; [done|]. rewrite len_cons. pose proof (len_nonneg l). lia. Qed.
End len.
Lemma elem_of_drop_l {A} (x : A) n (l : list A) : x ∈ drop n l -> x ∈ l.
Proof. intros Hx. rewrite <- (take_drop n l). apply elem_of_app. by right. Qed.

#[export] Hint Rewrite @len_nil @len_cons @len_app @len_take @len_drop : len.
#[export] Hint Resolve len_nonneg : go.

(** Arithmetic goals about lengths. *)
Ltac len_lia :=
  autorewrite with len in *;
  repeat match goal with
         | l : list ?A |- _ =>
             lazymatch goal with
             | _ : 0 <= len l |- _ => fail
             | _ => pose proof (len_nonneg l)
             end
         end;
  unfold len in *; rewrite ?length_app in *; cbn [length] in *; lia.

Section slices.
Context {A : Type}.
Implicit Types s t : list A.

Lemma slice_Some s a b r :
  slice s a b = Some r <->
  0 <= a <= b /\ b <= len s /\ r = take (Z.to_nat (b - a)) (drop (Z.to_nat a) s).
Proof.
  unfold slice. case_bool_decide; split; intros H'; [|intuition congruence|done|].
  - injection H' as <-. tauto.
  - exfalso. tauto.
Qed.

Lemma slice_len s a b r : slice s a b = Some r -> len r = b - a.
Proof. intros (? & ? & ->)%slice_Some. len_lia. Qed.

(** Slices and accesses that succeed do not change when bytes are appended. *)
Lemma slice_stable s t a b r : slice s a b = Some r -> slice (s ++ t) a b = Some r.
Proof.
  intros (Hab & Hb & ->)%slice_Some. apply slice_Some. split_and!; [lia..|len_lia|].
  rewrite drop_app_le, take_app_le; [done| |]; unfold len in *;
    rewrite ?length_drop; lia.
Qed.

Lemma at_stable s t i x : at_ s i = Some x -> at_ (s ++ t) i = Some x.
Proof. unfold at_. case_bool_decide; [|done]. apply lookup_app_l_Some. Qed.

Lemma at_app_lt s t i : i < len s -> at_ (s ++ t) i = at_ s i.
Proof.
  intros Hi. unfold at_. case_bool_decide; [|done]. apply lookup_app_l.
  unfold len in Hi. lia.
Qed.

Lemma slice_app_le s t a b : b <= len s -> slice (s ++ t) a b = slice s a b.
Proof.
  intros Hb. unfold slice at 2. case_bool_decide.
  - apply slice_stable, slice_Some. tauto.
  - unfold slice. rewrite bool_decide_false; [done|tauto].
Qed.

Lemma at_Some_bound s i x : at_ s i = Some x -> 0 <= i < len s.
Proof.
  unfold at_. case_bool_decide; [|done]. intros Hi%lookup_lt_Some. unfold len. lia.
Qed.

Lemma at_take s n i : i < Z.of_nat n -> at_ (take n s) i = at_ s i.
Proof.
  intros Hi. unfold at_. case_bool_decide; [|done]. apply lookup_take_lt. lia.
Qed.

Lemma at_is_Some s i : 0 <= i < len s -> is_Some (at_ s i).
Proof.
  intros Hi. unfold at_. rewrite bool_decide_true by lia.
  apply lookup_lt_is_Some. unfold len in *. lia.
Qed.

Lemma at_middle s x t : at_ (s ++ x :: t) (len s) = Some x.
Proof.
  unfold at_, len. rewrite bool_decide_true by lia.
  rewrite Nat2Z.id. by apply list_lookup_middle.
Qed.

Lemma slice_is_Some s a b : 0 <= a <= b -> b <= len s -> is_Some (slice s a b).
Proof. intros. unfold slice. rewrite bool_decide_true by lia. eauto. Qed.

Lemma slice_middle s m t a b :
  a = len s -> b = len s + len m -> slice (s ++ m ++ t) a b = Some m.
Proof.
  intros -> ->. apply slice_Some. split_and!; [len_lia..|].
  rewrite drop_app_length' by (unfold len; lia).
  by rewrite take_app_length' by (unfold len; lia).
Qed.

Lemma slice_prefix s t b : b = len s -> slice (s ++ t) 0 b = Some s.
Proof. intros ->. by apply (slice_middle [] s t). Qed.

Lemma slice_suffix s t a : a = len s -> slice_from (s ++ t) a = Some t.
Proof.
  intros ->. unfold slice_from. rewrite <- (app_nil_r t) at 1.
  apply slice_middle; len_lia.
Qed.

Lemma drop_len_app s t : drop (Z.to_nat (len s)) (s ++ t) = t.
Proof. unfold len. by rewrite Nat2Z.id, drop_app_length. Qed.

Lemma take_len_app s t : take (Z.to_nat (len s)) (s ++ t) = s.
Proof. unfold len. by rewrite Nat2Z.id, take_app_length. Qed.

Lemma slice_from_0 s : slice_from s 0 = Some s.
Proof. by apply (slice_suffix []). Qed.

Lemma slice_to_Some (s : list A) b t :
  slice_to s b = Some t <-> 0 <= b <= len s /\ t = take (Z.to_nat b) s.
Proof.
  unfold slice_to. rewrite slice_Some. rewrite Z.sub_0_r. cbn. split; [intros (? & ? & ->)|intros (? & ->)].
  - split; [lia|done].
  - split_and!; [lia..|done].
Qed.

Lemma slice_from_Some s a r :
  slice_from s a = Some r <-> 0 <= a <= len s /\ r = drop (Z.to_nat a) s.
Proof.
  unfold slice_from. rewrite slice_Some. split.
  - intros (? & ? & ->). split; [lia|]. apply take_ge.
    rewrite length_drop. unfold len. lia.
  - intros [? ->]. split_and!; [lia..|]. symmetry. apply take_ge.
    rewrite length_drop. unfold len. lia.
Qed.

Lemma slice_from_app s t a r :
  slice_from s a = Some r -> slice_from (s ++ t) a = Some (r ++ t).
Proof.
  intros [Ha ->]%slice_from_Some. apply slice_from_Some. split; [len_lia|].
  rewrite drop_app_le; [done|]. unfold len in Ha. lia.
Qed.

Lemma slice_from_is_Some s a : 0 <= a <= len s -> is_Some (slice_from s a).
Proof. intros. unfold slice_from. apply slice_is_Some; lia. Qed.

Lemma length_overwrite s off seg :
  (off + length seg <= length s)%nat -> length (overwrite s off seg) = length s.
Proof.
  intros. unfold overwrite. rewrite !length_app, length_take, length_drop. lia.
Qed.

Lemma drop_overwrite s off seg k :
  (off + length seg <= k)%nat -> (off + length seg <= length s)%nat ->
  drop k (overwrite s off seg) = drop k s.
Proof.
  intros Hk Hs. unfold overwrite. rewrite (app_assoc (take off s)).
  rewrite drop_app_ge; rewrite length_app, length_take; [|lia].
  rewrite drop_drop. f_equal. lia.
Qed.

Lemma take_overwrite s off seg : (off <= length s)%nat -> take off (overwrite s off seg) = take off s.
Proof.
  intros Ho. unfold overwrite. rewrite take_app_length'; [done|]. rewrite length_take. lia.
Qed.

Lemma overwrite_middle pre s post seg :
  length seg = length s -> overwrite (pre ++ s ++ post) (length pre) seg = pre ++ seg ++ post.
Proof.
  intros Hl. unfold overwrite. rewrite take_app_length, Hl, drop_app_add, drop_app_length. done.
Qed.

Lemma overwrite_app s t off seg :
  (off + length seg <= length s)%nat ->
  overwrite (s ++ t) off seg = overwrite s off seg ++ t.
Proof.
  intros. unfold overwrite. rewrite take_app_le, drop_app_le by lia.
  by rewrite <- !app_assoc.
Qed.
End slices.
#[export] Hint Resolve slice_stable at_stable : go.

Lemma prefixb_true p l : prefixb p l = true <-> exists t, l = p ++ t.
Proof.
  revert l. induction p as [|x p IH]; intros l; simpl; [split; eauto|].
  destruct l as [|y l]; simpl.
  - split; [discriminate|]. intros [t ?]. discriminate.
  - rewrite andb_true_iff, Z.eqb_eq, IH. split.
    + intros [-> [t ->]]. eauto.
    + intros [t [= -> ->]]. eauto.
Qed.

Lemma prefixb_app p l t : prefixb p l = true -> prefixb p (l ++ t) = true.
Proof. rewrite !prefixb_true. intros [u ->]. exists (u ++ t). by rewrite app_assoc. Qed.

Lemma prefixb_app_inv p l t :
  (length p <= length l)%nat -> prefixb p (l ++ t) = prefixb p l.
Proof.
  revert l. induction p as [|x p IH]; intros [|y l] Hl; simpl in *; [done..|lia|].
  by rewrite IH by lia.
Qed.

(** [index_of] finds the first occurrence. *)
Lemma index_of_Some sep l n :
  index_of sep l = Some n <->
  (n <= length l)%nat /\ prefixb sep (drop n l) = true /\
  forall m, (m < n)%nat -> prefixb sep (drop m l) = false.
Proof.
  revert n. induction l as [|x l IH]; intros n.
  - simpl. destruct (prefixb sep []) eqn:E; split.
    + intros [= <-]. split_and!; [done..|]. intros; lia.
    + intros (Hn & ? & ?). f_equal. simpl in Hn. lia.
    + done.
    + intros (? & H & _). rewrite drop_nil in H. congruence.
  - cbn [index_of]. destruct (prefixb sep (x :: l)) eqn:E; split.
    + intros [= <-]. split_and!; [simpl; lia|done|]. intros; lia.
    + intros (Hn & _ & Hm). destruct n as [|n]; [done|].
      specialize (Hm 0%nat ltac:(lia)). rewrite drop_0 in Hm. congruence.
    + intros (m & (? & ? & Hm)%IH & ->)%fmap_Some. split_and!; [simpl; lia|done|].
      intros [|k] Hk; [by rewrite drop_0|]. simpl. apply Hm. lia.
    + intros (Hn & Hp & Hm). destruct n as [|n]; [rewrite drop_0 in Hp; congruence|].
      apply fmap_Some. exists n. split; [|done]. apply IH. split_and!.
      * simpl in Hn. lia.
      * done.
      * intros k Hk. apply (Hm (S k)). lia.
Qed.

Lemma index_of_bound sep l n :
  index_of sep l = Some n -> (n + length sep <= length l)%nat.
Proof.
  intros (Hn & Hp & _)%index_of_Some. apply prefixb_true in Hp as [t Ht].
  apply (f_equal length) in Ht. rewrite length_drop, length_app in Ht. lia.
Qed.

Lemma index_of_split sep l n :
  index_of sep l = Some n -> l = take n l ++ sep ++ drop (n + length sep) l.
Proof.
  intros (Hn & Hp & _)%index_of_Some. apply prefixb_true in Hp as [t Ht].
  rewrite <- (take_drop n l) at 1. rewrite Ht. do 2 f_equal.
  replace (n + length sep)%nat with (length (take n l) + length sep)%nat
    by (rewrite length_take; lia).
  rewrite <- (take_drop n l) at 2. rewrite Ht, drop_app_add.
  by rewrite drop_app_length.
Qed.

Lemma index_of_stable sep l t n :
  index_of sep l = Some n -> index_of sep (l ++ t) = Some n.
Proof.
  intros H. pose proof (index_of_bound _ _ _ H) as Hb.
  apply index_of_Some in H as (Hn & Hp & Hm). apply index_of_Some. split_and!.
  - rewrite length_app. lia.
  - rewrite drop_app_le by done. by apply prefixb_app.
  - intros m Hlt. rewrite drop_app_le by lia. rewrite prefixb_app_inv; [by apply Hm|].
    rewrite length_drop. lia.
Qed.
#[export] Hint Resolve index_of_stable : go.

(** An occurrence in an extended input that does not touch the extension was
    there before. *)
Lemma index_of_app_inv sep l t n :
  index_of sep (l ++ t) = Some n -> (n + length sep <= length l)%nat ->
  index_of sep l = Some n.
Proof.
  intros (Hn & Hp & Hm)%index_of_Some Hb. apply index_of_Some. split_and!; [lia|..].
  - rewrite drop_app_le in Hp by lia. rewrite prefixb_app_inv in Hp; [done|].
    rewrite length_drop. lia.
  - intros m Hlt. specialize (Hm m Hlt). rewrite drop_app_le in Hm by lia.
    rewrite prefixb_app_inv in Hm; [done|]. rewrite length_drop. lia.
Qed.

(** The first line break after text with no carriage return. *)
Lemma index_crlf_app a t :
  CR ∉ a -> index_of crlf (a ++ crlf ++ t) = Some (length a).
Proof.
  intros Ha. apply index_of_Some. split_and!.
  - rewrite length_app. lia.
  - rewrite drop_app_length. by apply prefixb_true; eexists.
  - intros m Hm. destruct (lookup_lt_is_Some_2 a m Hm) as [x Hx].
    rewrite drop_app_le by lia. rewrite (drop_S _ _ _ Hx). cbn [prefixb crlf app].
    destruct (Z.eqb_spec CR x) as [<-|]; [|done].
    exfalso. apply Ha. by eapply list_elem_of_lookup_2.
Qed.

Lemma index_crlf_None a : CR ∉ a -> index_of crlf a = None.
Proof.
  induction a as [|x a IH]; intros Ha; [done|]. cbn [index_of prefixb crlf].
  apply not_elem_of_cons in Ha as [Hx Ha].
  destruct (Z.eqb_spec CR x) as [E|E]; [congruence|]. cbn [andb]. by rewrite IH.
Qed.

Lemma index_byte_Some c l n :
  index_byte c l = Some n <->
  l !! n = Some c /\ c ∉ take n l.
Proof.
  revert n. induction l as [|x l IH]; intros n; [split; [done|intros []; done]|].
  cbn [index_byte]. destruct (Z.eqb_spec x c) as [->|Hx]; split.
  - intros [= <-]. split; [done|]. set_solver.
  - intros [_ Hn]. destruct n as [|n]; [done|]. simpl in Hn. set_solver.
  - intros (m & [? ?]%IH & ->)%fmap_Some. simpl. split; [done|]. set_solver.
  - intros [Hl Hn]. destruct n as [|n]; [simpl in Hl; congruence|]. simpl in *.
    apply fmap_Some. exists n. split; [|done]. apply IH. set_solver.
Qed.

Lemma index_byte_None c l : index_byte c l = None <-> c ∉ l.
Proof.
  induction l as [|x l IH]; simpl; [set_solver|].
  destruct (Z.eqb_spec x c) as [->|]; [set_solver|].
  rewrite fmap_None, IH. set_solver.
Qed.

Lemma index_byte_app c a t : c ∉ a -> index_byte c (a ++ c :: t) = Some (length a).
Proof.
  intros Ha. apply index_byte_Some.
  split; [by apply list_lookup_middle|by rewrite take_app_length].
Qed.

Lemma index_byte_bound c l n : index_byte c l = Some n -> (n < length l)%nat.
Proof. intros [? _]%index_byte_Some. by eapply lookup_lt_Some. Qed.

Lemma last_index_byte_None c l : last_index_byte c l = None <-> c ∉ l.
Proof.
  induction l as [|x l IH]; simpl; [set_solver|].
  destruct (last_index_byte c l); [split; [done|set_solver]|].
  destruct (Z.eqb_spec x c) as [->|]; set_solver.
Qed.

Lemma last_index_byte_app c a t :
  c ∉ t -> last_index_byte c (a ++ c :: t) = Some (length a).
Proof.
  intros Ht. induction a as [|x a IH]; simpl.
  - by rewrite (proj2 (last_index_byte_None c t) Ht), Z.eqb_refl.
  - by rewrite IH.
Qed.

Lemma last_index_byte_bound c l n :
  last_index_byte c l = Some n -> (n < length l)%nat /\ l !! n = Some c.
Proof.
  revert n. induction l as [|x l IH]; intros n; [done|]. cbn [last_index_byte].
  destruct (last_index_byte c l) as [i|].
  - intros [= <-]. destruct (IH _ eq_refl). simpl. split; [lia|done].
  - destruct (Z.eqb_spec x c) as [->|]; [|done]. intros [= <-]. simpl. split; [lia|done].
Qed.

(** ** Tactics *)

(** Split on the outermost [if]/[match] scrutinee of a hypothesis. *)
Ltac case_res H :=
  match type of H with
  | context [rbind ?m _] =>
      let E := fresh "E" in destruct m eqn:E; cbn [rbind checked] in H; try discriminate H
  end.

(** Decide the Boolean comparisons on integers of the goal and context. *)
Ltac zb :=
  repeat match goal with
         | H : context [Z.ltb ?a ?b] |- _ => destruct (Z.ltb_spec a b)
         | H : context [Z.leb ?a ?b] |- _ => destruct (Z.leb_spec a b)
         | H : context [Z.eqb ?a ?b] |- _ => destruct (Z.eqb_spec a b)
         | |- context [Z.ltb ?a ?b] => destruct (Z.ltb_spec a b)
         | |- context [Z.leb ?a ?b] => destruct (Z.leb_spec a b)
         | |- context [Z.eqb ?a ?b] => destruct (Z.eqb_spec a b)
         end; cbn [negb andb orb] in *.

(** A Boolean fact about bytes is checked on each of the 256 of them. *)
Lemma byte_check (P : byte -> bool) :
  forallb P (seqZ 0 256) = true -> forall b, is_byte b -> P b = true.
Proof.
  intros Hall b Hb. rewrite forallb_forall in Hall. apply Hall.
  apply list_elem_of_In, elem_of_seqZ. unfold is_byte in Hb. lia.
Qed.

(** Right-nested concatenations, on both sides of an equation. *)
Ltac app_norm := repeat first [rewrite <- app_assoc | progress cbn [app]].

(** [safe P m]: the call returns a value with [P] or an error; it does not
    panic and has fuel enough. *)
Definition safe {E A} (P : A -> Prop) (m : res E A) : Prop :=
  match m with Ok a => P a | Err _ => True | Panic | OutOfFuel => False end.

Lemma safe_bind {E A B} (Q : A -> Prop) (P : B -> Prop) (m : res E A) (k : A -> res E B) :
  safe Q m -> (forall a, Q a -> safe P (k a)) -> safe P (rbind m k).
Proof. destruct m; simpl; auto; done. Qed.

Lemma safe_mono {E A} (P Q : A -> Prop) (m : res E A) :
  safe P m -> (forall a, P a -> Q a) -> safe Q m.
Proof. destruct m; simpl; auto. Qed.

Lemma safe_checked {E A} (P : A -> Prop) (o : option A) :
  (exists a, o = Some a /\ P a) -> safe (E:=E) P (checked o).
Proof. by intros (a & -> & ?). Qed.

(** [ok P m]: what the call returns, if it returns, has [P]. *)
Definition ok {E A} (P : A -> Prop) (m : res E A) : Prop := match m with Ok a => P a | _ => True end.

Lemma ok_bind {E A B} (P : A -> Prop) (Q : B -> Prop) (m : res E A) k :
  ok P m -> (forall a, P a -> ok Q (k a)) -> ok Q (rbind m k).
Proof. destruct m; cbn; auto. Qed.

Lemma ok_checked {E A B} (P : A -> Prop) (Q : B -> Prop) (o : option A) (k : A -> res E B) :
  (forall a, o = Some a -> ok Q (k a)) -> ok Q (rbind (checked o) k).
Proof. destruct o; cbn; auto. Qed.

(** The first line break of a text that ends in an empty line. *)
Lemma first_line z y :
  exists idx, index_of crlf (z ++ crlf ++ crlf ++ y) = Some idx /\
    (idx = length z \/
     exists z', (idx + 2 + length z' = length z)%nat /\
       drop (idx + 2) (z ++ crlf ++ crlf ++ y) = z' ++ crlf ++ crlf ++ y).
Proof.
  destruct (index_of crlf (z ++ crlf ++ crlf ++ y)) as [idx|] eqn:Hi.
  - exists idx. split; [done|]. pose proof Hi as Hi'. apply index_of_Some in Hi as (Hb & Hp & Hm).
    destruct (decide (idx = length z)) as [|Hne]; [by left|right].
    assert (idx < length z)%nat as Hlt.
    { destruct (decide (idx < length z)%nat); [done|].
      specialize (Hm (length z) ltac:(lia)). rewrite drop_app_length in Hm. done. }
    assert (idx + 2 <= length z)%nat as Hle.
    { destruct (decide (S idx = length z)) as [E|]; [|lia]. exfalso.
      rewrite drop_app_le in Hp by lia.
      destruct (drop idx z) as [|c [|c' t]] eqn:Hd; apply (f_equal length) in Hd;
        rewrite length_drop in Hd; simpl in Hd; try lia.
      apply andb_true_iff in Hp as [_ Hp]. done. }
    exists (drop (idx + 2) z). rewrite length_drop. split; [lia|]. by rewrite drop_app_le by lia.
  - exfalso. assert (index_of crlf (z ++ crlf ++ crlf ++ y) <> None) as Hn; [|done].
    clear Hi. induction z as [|c z IH]; [done|]. cbn [app index_of].
    destruct (prefixb crlf (c :: z ++ crlf ++ crlf ++ y)); [done|].
    by destruct (index_of crlf (z ++ crlf ++ crlf ++ y)).
Qed.

Lemma filter_all {A} (P : A -> Prop) `{forall x, Decision (P x)} (l : list A) :
  (forall x, x ∈ l -> P x) -> filter P l = l.
Proof.
  induction l as [|x l IH]; intros HP; [done|]. rewrite filter_cons_True by (apply HP; by left).
  f_equal. apply IH. intros y Hy. apply HP. by right.
Qed.

(** Taking out the one occurrence of an element. *)
Lemma filter_ne_middle (x : Z) l1 l2 :
  NoDup (l1 ++ x :: l2) -> filter (fun y => y <> x) (l1 ++ x :: l2) = l1 ++ l2.
Proof.
  intros (_ & Hdis & Hn)%NoDup_app. apply NoDup_cons in Hn as [Hn _].
  assert (forall l : list Z, (x ∉ l) -> filter (fun y => y <> x) l = l) as Hfil
    by (intros l Hl; apply filter_all; by intros y Hy ->).
  rewrite filter_app, filter_cons, (decide_False (P := x <> x)) by tauto.
  rewrite !Hfil; [done|done|]. intros Hin. apply (Hdis x Hin). by apply list_elem_of_here.
Qed.

(** Decide a closed proposition by evaluation. *)
Ltac compute_done := apply (bool_decide_eq_true_1 _); vm_compute; reflexivity.
