(* ===== verification/GoStd.v ===== *)
(** The parts of the Go standard library that the program calls: [strconv]
    (integers to and from text), [encoding/hex], [bytes.TrimSpace],
    [strings.EqualFold], [net/url], [net/textproto], the big-endian numbers of
    [encoding/binary], [sha1.Sum] and [base64.StdEncoding].  Each definition follows the documented behaviour of
    the library function, its error cases included. *)

From S2P Require Import Prelude.

(** ** [strconv] *)
Module strconv.

(** [strconv.NumError.Err] *)
Inductive NumErr := ErrSyntax | ErrRange.

#[global] Instance NumErr_eq_dec : EqDecision NumErr.
Proof. solve_decision. Defined.

Definition is_digit (c : byte) : bool := (48 <=? c) && (c <=? 57).

Lemma is_digit_true c : is_digit c = true <-> 48 <= c <= 57.
Proof. unfold is_digit. rewrite andb_true_iff, !Z.leb_le. done. Qed.

Definition maxUint64 : Z := 2 ^ 64 - 1.
Definition maxInt64 : Z := 2 ^ 63 - 1.
Definition minInt64 : Z := - 2 ^ 63.

(** The loop of [ParseUint(s, 10, 64)]: a character that is no digit is a
    syntax error, a value over 64 bits a range error (and the loop stops). *)
Fixpoint parse_uint_loop (n : Z) (s : bytes) : Z * option NumErr :=
  match s with
  | [] => (n, None)
  | c :: s =>
      if negb (is_digit c) then (0, Some ErrSyntax)
      else if maxUint64 / 10 + 1 <=? n then (maxUint64, Some ErrRange)
      else let n1 := n * 10 + (c - 48) in
           if maxUint64 <? n1 then (maxUint64, Some ErrRange)
           else parse_uint_loop n1 s
  end.

Definition ParseUint (s : bytes) : Z * option NumErr :=
  match s with [] => (0, Some ErrSyntax) | _ => parse_uint_loop 0 s end.

(** [ParseInt(s, 10, 64)]: an optional sign, then [ParseUint]; out of range
    values are clamped to the 64-bit bounds and reported. *)
Definition parse_signed (neg : bool) (s : bytes) : Z * option NumErr :=
  match ParseUint s with
  | (_, Some ErrSyntax) => (0, Some ErrSyntax)
  | (un, _) =>
      if negb neg && (2 ^ 63 <=? un) then (maxInt64, Some ErrRange)
      else if neg && (2 ^ 63 <? un) then (minInt64, Some ErrRange)
      else (if neg then - un else un, None)
  end.

Definition ParseInt (s : bytes) : Z * option NumErr :=
  match s with
  | [] => (0, Some ErrSyntax)
  | c :: t =>
      if c =? 43 then parse_signed false t
      else if c =? 45 then parse_signed true t
      else parse_signed false s
  end.

(** [Atoi] is [ParseInt] at the width of [int] (64 bits). *)
Definition Atoi (s : bytes) : Z * option NumErr := ParseInt s.

(** Lower-case digits, as [FormatInt] and [AppendInt] write them. *)
Definition digit_char (d : Z) : byte := if d <? 10 then 48 + d else 87 + d.
Definition digit_val (c : byte) : Z := if c <? 58 then c - 48 else c - 87.

Fixpoint digits_of (fuel : nat) (base n : Z) (acc : bytes) : bytes :=
  match fuel with
  | O => acc
  | S fuel =>
      let acc := digit_char (n mod base) :: acc in
      if n <? base then acc else digits_of fuel base (n / base) acc
  end.

Definition FormatUint (base n : Z) : bytes :=
  digits_of (S (Z.to_nat (Z.log2 n))) base n [].

Definition FormatInt (base i : Z) : bytes :=
  if i <? 0 then 45 :: FormatUint base (- i) else FormatUint base i.

(** [strconv.AppendInt(dst, i, base)] *)
Definition AppendInt (dst : bytes) (i base : Z) : bytes := dst ++ FormatInt base i.

Definition value (base n : Z) (s : bytes) : Z :=
  foldl (fun a c => a * base + digit_val c) n s.

Section digits.
Variable base : Z.
Hypothesis Hbase : 2 <= base <= 16.

Lemma digit_val_char d : 0 <= d < 16 -> digit_val (digit_char d) = d.
Proof using. intros. unfold digit_val, digit_char. zb; lia. Qed.

Lemma value_digits_of fuel n acc :
  0 <= n < base ^ Z.of_nat fuel ->
  value base 0 (digits_of fuel base n acc) = value base n acc.
Proof using Hbase.
  revert n acc. induction fuel as [|fuel IH]; intros n acc Hn.
  { simpl in *. by replace n with 0 by lia. }
  rewrite Nat2Z.inj_succ, Z.pow_succ_r in Hn by lia. cbn [digits_of].
  pose proof (Z.mod_pos_bound n base ltac:(lia)) as Hm.
  assert (value base (n / base) (digit_char (n mod base) :: acc) = value base n acc) as Hv.
  { unfold value. simpl. rewrite digit_val_char by lia.
    by replace (n / base * base + n mod base) with n
      by (rewrite (Z.div_mod n base) at 1; lia). }
  destruct (Z.ltb_spec n base) as [Hlt|Hge].
  - rewrite <- Hv. by rewrite (Z.div_small n base) by lia.
  - rewrite IH; [done|]. split; [apply Z.div_pos; lia|].
    apply Z.div_lt_upper_bound; lia.
Qed.

Lemma value_FormatUint n : 0 <= n -> value base 0 (FormatUint base n) = n.
Proof using Hbase.
  intros Hn. unfold FormatUint. rewrite value_digits_of; [done|]. split; [done|].
  destruct (Z.eq_dec n 0) as [->|Hn0]; [simpl; lia|].
  pose proof (Z.log2_spec n ltac:(lia)) as [_ Hl].
  pose proof (Z.log2_nonneg n).
  rewrite Nat2Z.inj_succ, Z2Nat.id by done.
  eapply Z.lt_le_trans; [done|]. apply Z.pow_le_mono_l. lia.
Qed.

Lemma digits_of_Forall (P : byte -> Prop) fuel n acc :
  0 <= n ->
  (forall d, 0 <= d < base -> P (digit_char d)) -> Forall P acc ->
  Forall P (digits_of fuel base n acc).
Proof using Hbase.
  intros Hn HP. revert n Hn acc. induction fuel as [|fuel IH]; intros n Hn acc Hacc; [done|].
  cbn [digits_of]. assert (Forall P (digit_char (n mod base) :: acc)).
  { constructor; [|done]. apply HP. apply Z.mod_pos_bound. lia. }
  destruct (n <? base); [done|]. apply IH; [|done]. apply Z.div_pos; lia.
Qed.

Lemma FormatUint_nonempty n : FormatUint base n <> [].
Proof using.
  unfold FormatUint. cbn [digits_of].
  assert (forall f n acc, acc <> [] -> digits_of f base n acc <> []) as H.
  { induction f as [|f IH]; intros m acc Ha; [done|]. cbn [digits_of].
    destruct (m <? base); [done|]. by apply IH. }
  destruct (n <? base); [done|]. by apply H.
Qed.
End digits.

Lemma FormatUint_digits n : 0 <= n -> Forall (fun c => is_digit c = true) (FormatUint 10 n).
Proof.
  intros Hn. apply digits_of_Forall; [lia|done| |by constructor].
  intros d Hd. apply is_digit_true. unfold digit_char. zb; lia.
Qed.

Lemma value_ge n s :
  0 <= n -> Forall (fun c => is_digit c = true) s -> n <= value 10 n s.
Proof.
  intros Hn Hs. revert n Hn. induction Hs as [|c s Hc Hs IH]; intros n Hn; [done|].
  unfold value in *. cbn [foldl].
  apply is_digit_true in Hc.
  assert (digit_val c = c - 48) as -> by (unfold digit_val; zb; lia).
  specialize (IH (n * 10 + (c - 48)) ltac:(lia)). lia.
Qed.

Lemma parse_uint_loop_digits n s :
  0 <= n -> Forall (fun c => is_digit c = true) s -> value 10 n s <= maxUint64 ->
  parse_uint_loop n s = (value 10 n s, None).
Proof.
  intros Hn Hs. revert n Hn. induction Hs as [|c s Hc Hs IH]; intros n Hn Hv; [done|].
  cbn [parse_uint_loop]. rewrite Hc. cbn [negb].
  apply is_digit_true in Hc as Hc'.
  assert (value 10 n (c :: s) = value 10 (n * 10 + (c - 48)) s) as E.
  { unfold value. cbn [foldl].
    by replace (digit_val c) with (c - 48) by (unfold digit_val; zb; lia). }
  rewrite E in *. pose proof (value_ge (n * 10 + (c - 48)) s ltac:(lia) Hs).
  assert (maxUint64 / 10 = 1844674407370955161) as -> by reflexivity.
  assert (maxUint64 = 18446744073709551615) as HM by reflexivity.
  zb; try lia. apply IH; lia.
Qed.

(** Formatting a 64-bit integer and parsing it back. *)
Lemma ParseInt_FormatInt i :
  minInt64 <= i <= maxInt64 -> ParseInt (FormatInt 10 i) = (i, None).
Proof.
  intros Hi. unfold minInt64, maxInt64 in Hi.
  assert (forall n, 0 <= n <= 2 ^ 63 -> ParseUint (FormatUint 10 n) = (n, None)) as HU.
  { intros n Hn. pose proof (FormatUint_nonempty 10 n) as Hne.
    assert (ParseUint (FormatUint 10 n) = parse_uint_loop 0 (FormatUint 10 n)) as ->
      by (by destruct (FormatUint 10 n)).
    pose proof (value_FormatUint 10 ltac:(lia) n ltac:(lia)) as Hv.
    rewrite parse_uint_loop_digits; rewrite ?Hv; [done|lia|by apply FormatUint_digits; lia|].
    unfold maxUint64. lia. }
  unfold FormatInt. destruct (Z.ltb_spec i 0) as [Hneg|Hpos].
  - cbn [ParseInt]. cbn [Z.eqb Pos.eqb]. unfold parse_signed. rewrite HU by lia.
    cbn [negb andb]. zb; try lia. f_equal. lia.
  - pose proof (FormatUint_nonempty 10 i) as Hne.
    pose proof (FormatUint_digits i Hpos) as Hd.
    assert (ParseInt (FormatUint 10 i) = parse_signed false (FormatUint 10 i)) as ->.
    { destruct (FormatUint 10 i) as [|c t]; [done|]. apply Forall_cons in Hd as [Hc _].
      apply is_digit_true in Hc. cbn [ParseInt]. zb; try lia. done. }
    unfold parse_signed. rewrite HU by lia. cbn [negb andb]. zb; try lia. done.
Qed.

Lemma FormatInt_no_CR i : CR ∉ FormatInt 10 i.
Proof.
  assert (forall n, 0 <= n -> CR ∉ FormatUint 10 n) as HU.
  { intros n Hn Hin. pose proof (FormatUint_digits n Hn) as Hd.
    rewrite Forall_forall in Hd. by specialize (Hd _ Hin). }
  unfold FormatInt. destruct (Z.ltb_spec i 0).
  - apply not_elem_of_cons. split; [done|]. apply HU. lia.
  - by apply HU.
Qed.

Lemma FormatInt_no_SP i : SP ∉ FormatInt 10 i.
Proof.
  assert (forall n, 0 <= n -> SP ∉ FormatUint 10 n) as HU.
  { intros n Hn Hin. pose proof (FormatUint_digits n Hn) as Hd.
    rewrite Forall_forall in Hd. by specialize (Hd _ Hin). }
  unfold FormatInt. destruct (Z.ltb_spec i 0).
  - apply not_elem_of_cons. split; [done|]. apply HU. lia.
  - by apply HU.
Qed.

Lemma FormatInt_nonempty i : FormatInt 10 i <> [].
Proof. unfold FormatInt. destruct (i <? 0); [done|]. apply FormatUint_nonempty. Qed.

Lemma FormatInt_length i :
  minInt64 <= i <= maxInt64 -> (length (FormatInt 10 i) <= 65)%nat.
Proof.
  intros Hi. unfold minInt64, maxInt64 in Hi.
  assert (forall f n acc, (length (digits_of f 10 n acc) <= f + length acc)%nat) as Hd.
  { induction f as [|f IH]; intros n acc; [done|]. cbn [digits_of].
    destruct (n <? 10); [simpl; lia|]. etransitivity; [apply IH|]. simpl. lia. }
  assert (forall n, 0 <= n <= 2 ^ 63 -> (length (FormatUint 10 n) <= 64)%nat) as HU.
  { intros n Hn. unfold FormatUint. etransitivity; [apply Hd|].
    assert (Z.log2 n <= 63) by (rewrite <- (Z.log2_pow2 63) by lia; apply Z.log2_le_mono; lia).
    cbn [length]. lia. }
  unfold FormatInt. destruct (Z.ltb_spec i 0); cbn [length]; [specialize (HU (- i))|specialize (HU i)]; lia.
Qed.

(** [ParseInt] answers a 64-bit integer, clamped when it reports an error. *)
Lemma parse_uint_loop_range n s v e :
  0 <= n <= maxUint64 -> parse_uint_loop n s = (v, e) -> 0 <= v <= maxUint64.
Proof.
  revert n. induction s as [|c s IH]; intros n Hn; simpl; [by intros [= <- <-]|].
  destruct (is_digit c) eqn:Hc; cbn [negb]; [|intros [= <- <-]; unfold maxUint64; lia].
  apply is_digit_true in Hc.
  destruct (_ <=? n); [intros [= <- <-]; unfold maxUint64; lia|].
  destruct (Z.ltb_spec maxUint64 (n * 10 + (c - 48))).
  - intros [= <- <-]. unfold maxUint64. lia.
  - apply IH. lia.
Qed.

Lemma ParseInt_range s v e : ParseInt s = (v, e) -> minInt64 <= v <= maxInt64.
Proof.
  assert (forall neg t v e, parse_signed neg t = (v, e) -> minInt64 <= v <= maxInt64) as HS.
  { intros neg t v' e'. unfold parse_signed, ParseUint.
    destruct (match t with [] => _ | _ => _ end) as [un ue] eqn:Hp.
    assert (0 <= un <= maxUint64) as Hun.
    { destruct t; [injection Hp as <- <-; unfold maxUint64; lia|].
      eapply parse_uint_loop_range; [|exact Hp]. unfold maxUint64. lia. }
    unfold minInt64, maxInt64, maxUint64 in *.
    destruct ue as [[]|]; try (intros [= <- <-]; lia);
      destruct neg; cbn [negb andb]; zb; intros [= <- <-]; lia. }
  unfold ParseInt. destruct s as [|c t].
  - intros [= <- <-]. unfold minInt64, maxInt64. lia.
  - destruct (c =? 43); [apply HS|]. destruct (c =? 45); apply HS.
Qed.
End strconv.

(** ** [encoding/hex] *)
Module hex.
(** [fromHexChar] *)
Definition hex_val (c : byte) : option Z :=
  if (48 <=? c) && (c <=? 57) then Some (c - 48)
  else if (97 <=? c) && (c <=? 102) then Some (c - 87)
  else if (65 <=? c) && (c <=? 70) then Some (c - 55)
  else None.

(** [hex.Decode] of a source of two characters: the byte it stores, nothing
    when one of them is no hexadecimal digit. *)
Definition Decode2 (p q : byte) : option byte :=
  match hex_val p, hex_val q with
  | Some a, Some b => Some (Z.lor (Z.shiftl a 4) b)
  | _, _ => None
  end.

(** Upper-case digits, as [url.QueryEscape] writes them. *)
Definition upper_digit (d : Z) : byte := if d <? 10 then 48 + d else 55 + d.

Lemma Decode2_encode b :
  is_byte b -> Decode2 (upper_digit (Z.shiftr b 4)) (upper_digit (Z.land b 15)) = Some b.
Proof.
  intros Hb.
  pose proof (byte_check (fun c => bool_decide
    (Decode2 (upper_digit (Z.shiftr c 4)) (upper_digit (Z.land c 15)) = Some c))
    ltac:(by vm_compute) b Hb) as Hc.
  by apply bool_decide_eq_true_1 in Hc.
Qed.

(** [EncodeToString], with its digits in lower case, and [DecodeString]: the bytes
    before the first error, and whether there is one. *)
Definition lower_digit (d : Z) : byte := if d <? 10 then 48 + d else 87 + d.
Definition EncodeToString (s : bytes) : bytes :=
  concat ((fun b => [lower_digit (Z.shiftr b 4); lower_digit (Z.land b 15)]) <$> s).
Fixpoint DecodeString (s : bytes) : bytes * bool :=
  match s with
  | [] => ([], false)
  | [_] => ([], true)
  | p :: q :: s =>
      match Decode2 p q with
      | Some b => let (r, e) := DecodeString s in (b :: r, e)
      | None => ([], true)
      end
  end.

Lemma DecodeString_Encode s : Forall is_byte s -> DecodeString (EncodeToString s) = (s, false).
Proof.
  induction 1 as [|b s Hb _ IH]; [done|]. unfold EncodeToString in *. cbn [fmap list_fmap concat app DecodeString].
  pose proof (byte_check (fun c => bool_decide
    (Decode2 (lower_digit (Z.shiftr c 4)) (lower_digit (Z.land c 15)) = Some c))
    ltac:(by vm_compute) b Hb) as Hc.
  apply bool_decide_eq_true_1 in Hc as ->. by rewrite IH.
Qed.
End hex.

(** ** [bytes] and [strings] *)
Module gobytes.

(** The UTF-8 encodings of the runes [unicode.IsSpace] accepts. *)
Definition space_runes : list bytes :=
  [[9]; [10]; [11]; [12]; [13]; [32]; [194; 133]; [194; 160]; [225; 154; 128];
   [226; 128; 128]; [226; 128; 129]; [226; 128; 130]; [226; 128; 131]; [226; 128; 132];
   [226; 128; 133]; [226; 128; 134]; [226; 128; 135]; [226; 128; 136]; [226; 128; 137];
   [226; 128; 138]; [226; 128; 168]; [226; 128; 169]; [226; 128; 175]; [226; 129; 159];
   [227; 128; 128]].

(** Strip leading occurrences of the patterns [ps]. *)
Fixpoint strip (fuel : nat) (ps : list bytes) (s : bytes) : bytes :=
  match fuel with
  | O => s
  | S fuel =>
      match list_find (fun p => prefixb p s = true) ps with
      | Some (_, p) => strip fuel ps (drop (length p) s)
      | None => s
      end
  end.

Definition trim_left (s : bytes) : bytes := strip (length s) space_runes s.
Definition trim_right (s : bytes) : bytes :=
  reverse (strip (length s) (reverse <$> space_runes) (reverse s)).

(** [bytes.TrimSpace] *)
Definition TrimSpace (s : bytes) : bytes := trim_right (trim_left s).

(** [strings.EqualFold] against an ASCII lower-case target: the simple case
    folding of ASCII letters, and the two runes outside ASCII whose folding
    orbit meets it (U+017F with [s], U+212A with [k]). *)
Definition ascii_lower (c : byte) : byte :=
  if (65 <=? c) && (c <=? 90) then c + 32 else c.

Fixpoint fold_ascii (s : bytes) : bytes :=
  match s with
  | 197 :: ((191 :: t) as _) => 115 :: fold_ascii t
  | 226 :: ((132 :: ((170 :: t) as _)) as _) => 107 :: fold_ascii t
  | c :: t => ascii_lower c :: fold_ascii t
  | [] => []
  end.

Definition EqualFold (s target : bytes) : bool := bool_decide (fold_ascii s = target).

(** Text that starts and ends with a visible ASCII character. *)
Definition visible (c : byte) : Prop := 33 <= c < 127.
Definition trimmed (s : bytes) : Prop :=
  match s, reverse s with
  | c :: _, d :: _ => visible c /\ visible d
  | _, _ => True
  end.

Lemma strip_visible fuel ps c s :
  visible c ->
  forallb (fun p => match p with x :: _ => (x <? 33) || (127 <=? x) | [] => false end) ps
    = true ->
  strip fuel ps (c :: s) = c :: s.
Proof.
  intros Hc Hps. destruct fuel as [|fuel]; [done|]. cbn [strip].
  assert (list_find (fun p => prefixb p (c :: s) = true) ps = None) as ->; [|done].
  apply list_find_None, Forall_forall. intros p Hp.
  rewrite forallb_forall in Hps. apply list_elem_of_In, Hps in Hp.
  destruct p as [|x p]; [done|]. simpl. unfold visible in Hc.
  apply orb_true_iff in Hp as [Hx|Hx]; zb; simpl; auto; lia.
Qed.

Lemma TrimSpace_trimmed s : trimmed s -> TrimSpace s = s.
Proof.
  intros Hs. unfold trimmed in Hs. unfold TrimSpace.
  destruct s as [|c s]; [done|].
  destruct (reverse (c :: s)) as [|d r] eqn:E.
  { apply (f_equal reverse) in E. by rewrite reverse_involutive in E. }
  destruct Hs as [Hc Hd].
  assert (trim_left (c :: s) = c :: s) as ->.
  { by apply strip_visible. }
  unfold trim_right. rewrite E, strip_visible by done.
  rewrite <- E. apply reverse_involutive.
Qed.

(** One leading space, as between a header name and its value. *)
Lemma TrimSpace_sp s : trimmed s -> TrimSpace (SP :: s) = s.
Proof.
  intros Hs. rewrite <- (TrimSpace_trimmed s) at 2 by done. reflexivity.
Qed.
End gobytes.

(** ** [net/url] *)
Module neturl.
(** Letters, digits and [-_.~] are kept by [url.QueryEscape]. *)
Definition unreserved (c : byte) : bool :=
  ((97 <=? c) && (c <=? 122)) || ((65 <=? c) && (c <=? 90)) || ((48 <=? c) && (c <=? 57))
  || (c =? 45) || (c =? 95) || (c =? 46) || (c =? 126).

Definition escape_byte (c : byte) : bytes :=
  if c =? SP then [43]
  else if unreserved c then [c]
  else [37; hex.upper_digit (Z.shiftr c 4); hex.upper_digit (Z.land c 15)].

(** [url.QueryEscape] *)
Definition QueryEscape (s : bytes) : bytes := concat (escape_byte <$> s).

(** [escape(s, mode)], which writes a space as [%20]; [keep] tells the bytes that
    the mode leaves alone besides the unreserved ones. *)
Definition escape_with (keep : bytes) (s : bytes) : bytes :=
  concat ((fun c => if unreserved c || bool_decide (c ∈ keep) then [c]
                    else [37; hex.upper_digit (Z.shiftr c 4); hex.upper_digit (Z.land c 15)]) <$> s).

Definition escapePath : bytes -> bytes := escape_with (bs "$&+,/:;=@").
Definition escapeHost : bytes -> bytes := escape_with (bs "!$&'()*+,;=:[]<>" ++ [34]).

(** [url.URL], the fields that the program sets. *)
Record URL := mkURL { Scheme : bytes; Host : bytes; Path : bytes; RawQuery : bytes }.

(** [EscapedPath()], for an empty [RawPath]. *)
Definition EscapedPath (u : URL) : bytes :=
  if bool_decide (u.(Path) = bs "*") then bs "*" else escapePath u.(Path).

(** [String()]: [scheme://host/path?query]; a relative path whose first segment has
    a colon gets [./] in front. *)
Definition String (u : URL) : bytes :=
  let buf := if bool_decide (u.(Scheme) = []) then [] else u.(Scheme) ++ bs ":" in
  let buf :=
    if bool_decide (u.(Scheme) = []) && bool_decide (u.(Host) = []) then buf
    else
      let buf := if bool_decide (u.(Host) = []) && bool_decide (u.(Path) = []) then buf
                 else buf ++ bs "//" in
      if bool_decide (u.(Host) = []) then buf else buf ++ escapeHost u.(Host) in
  let path := EscapedPath u in
  let buf := if negb (bool_decide (path = [])) && negb (prefixb (bs "/") path)
                && negb (bool_decide (u.(Host) = []))
             then buf ++ bs "/" else buf in
  let segment := match index_byte 47 path with Some i => take i path | None => path end in
  let buf := if bool_decide (buf = []) && bool_decide (58 ∈ segment) then buf ++ bs "./" else buf in
  let buf := buf ++ path in
  if bool_decide (u.(RawQuery) = []) then buf else buf ++ bs "?" ++ u.(RawQuery).
End neturl.

(** ** [net/textproto] *)
Module textproto.
(** The bytes of a token (RFC 7230). *)
Definition is_token (c : byte) : bool :=
  ((97 <=? c) && (c <=? 122)) || ((65 <=? c) && (c <=? 90)) || ((48 <=? c) && (c <=? 57))
  || bool_decide (c ∈ bs "!#$%&'*+-.^_`|~").

Fixpoint canonical (up : bool) (s : bytes) : bytes :=
  match s with
  | [] => []
  | c :: s =>
      let c := if up && ((97 <=? c) && (c <=? 122)) then c - 32
               else if negb up && ((65 <=? c) && (c <=? 90)) then c + 32 else c in
      c :: canonical (c =? 45) s
  end.

(** [CanonicalMIMEHeaderKey]: the first letter and any letter after a hyphen are
    made upper case, the rest lower case; what is not a token is left alone. *)
Definition CanonicalMIMEHeaderKey (s : bytes) : bytes :=
  if forallb is_token s then canonical true s else s.
End textproto.

(** ** [encoding/binary]: big-endian integers *)
Module binary.

Definition be_decode (l : bytes) : Z := foldl (fun a b => a * 256 + b) 0 l.

Fixpoint be_encode (n : nat) (v : Z) : bytes :=
match n with
| O => []
| S n => be_encode n (Z.shiftr v 8) ++ [u8 v]
end.

Lemma length_be_encode n v : length (be_encode n v) = n.
Proof. revert v. induction n as [|n IH]; intros v; simpl; [done|]. rewrite length_app, IH. simpl. lia. Qed.

Lemma be_decode_app l x : be_decode (l ++ [x]) = be_decode l * 256 + x.
Proof. unfold be_decode. by rewrite foldl_app. Qed.

Lemma be_decode_encode n v : 0 <= v < 256 ^ Z.of_nat n -> be_decode (be_encode n v) = v.
Proof.
revert v. induction n as [|n IH]; intros v Hv.
{ simpl in *. cbn. lia. }
rewrite Nat2Z.inj_succ, Z.pow_succ_r in Hv by lia. cbn [be_encode].
rewrite be_decode_app, Z.shiftr_div_pow2 by lia. change (2 ^ 8) with 256.
rewrite IH.
- unfold u8. change (2 ^ 8) with 256. rewrite (Z.div_mod v 256) at 3; lia.
- split; [apply Z.div_pos; lia|apply Z.div_lt_upper_bound; lia].
Qed.

Lemma be_decode_bound l :
Forall is_byte l -> 0 <= be_decode l < 256 ^ Z.of_nat (length l).
Proof.
induction l as [|x l IH] using rev_ind; intros Hl; [done|].
apply Forall_app in Hl as [Hl Hx]. rewrite Forall_singleton in Hx. specialize (IH Hl).
rewrite be_decode_app, length_app. unfold is_byte in Hx.
replace (Z.of_nat (length l + length [x])) with (Z.succ (Z.of_nat (length l))) by (simpl; lia).
rewrite Z.pow_succ_r by lia. lia.
Qed.
End binary.

(** ** [crypto/sha1] *)
Module sha1.
Definition rotl (n x : Z) : Z := Z.lor (u32 (Z.shiftl x n)) (Z.shiftr x (32 - n)).

Fixpoint words (fuel : nat) (l : bytes) : list Z :=
  match fuel, l with
  | S fuel, _ :: _ => binary.be_decode (take 4 l) :: words fuel (drop 4 l)
  | _, _ => []
  end.

(** The message followed by a 1 bit, zeros and its length in bits, a multiple
    of 64 bytes. *)
Definition pad (msg : bytes) : bytes :=
  msg ++ [128] ++ repeat 0 (Z.to_nat ((55 - len msg) mod 64))
    ++ binary.be_encode 8 (u64 (8 * len msg)).

(** The message schedule, last word first. *)
Fixpoint schedule (n : nat) (w : list Z) : list Z :=
  match n with
  | O => w
  | S n =>
      let x i := nth i w 0 in
      schedule n (rotl 1 (Z.lxor (Z.lxor (x 2%nat) (x 7%nat)) (Z.lxor (x 13%nat) (x 15%nat))) :: w)
  end.

Definition round_const (t : nat) : Z :=
  if (t <? 20)%nat then 0x5A827999 else if (t <? 40)%nat then 0x6ED9EBA1
  else if (t <? 60)%nat then 0x8F1BBCDC else 0xCA62C1D6.
Definition round_fun (t : nat) (b c d : Z) : Z :=
  if (t <? 20)%nat then Z.lor (Z.land b c) (Z.land (Z.lxor b 0xFFFFFFFF) d)
  else if (t <? 40)%nat then Z.lxor (Z.lxor b c) d
  else if (t <? 60)%nat then Z.lor (Z.lor (Z.land b c) (Z.land b d)) (Z.land c d)
  else Z.lxor (Z.lxor b c) d.

Definition state : Type := Z * Z * Z * Z * Z.

Fixpoint rounds (t : nat) (ws : list Z) (s : state) : state :=
  match ws with
  | [] => s
  | w :: ws =>
      let '(a, b, c, d, e) := s in
      rounds (S t) ws
        (u32 (rotl 5 a + round_fun t b c d + e + round_const t + w), a, rotl 30 b, c, d)
  end.

Definition block (s : state) (l : bytes) : state :=
  let '(a0, b0, c0, d0, e0) := s in
  let '(a, b, c, d, e) := rounds 0 (rev (schedule 64 (rev (words 16 l)))) s in
  (u32 (a0 + a), u32 (b0 + b), u32 (c0 + c), u32 (d0 + d), u32 (e0 + e)).

Fixpoint blocks (fuel : nat) (s : state) (l : bytes) : state :=
  match fuel, l with
  | S fuel, _ :: _ => blocks fuel (block s (take 64 l)) (drop 64 l)
  | _, _ => s
  end.

(** [sha1.Sum] *)
Definition Sum (msg : bytes) : bytes :=
  let p := pad msg in
  let '(a, b, c, d, e) :=
    blocks (length p) (0x67452301, 0xEFCDAB89, 0x98BADCFE, 0x10325476, 0xC3D2E1F0) p in
  concat (map (binary.be_encode 4) [a; b; c; d; e]).
End sha1.

(** ** [encoding/base64] *)
Module base64.
Definition alphabet : bytes :=
  bs "ABCDEFGHIJKLMNOPQRSTUVWXYZabcdefghijklmnopqrstuvwxyz0123456789+/".
Definition sym (v : Z) : byte := nth (Z.to_nat (Z.land v 63)) alphabet 0.

(** [base64.StdEncoding.EncodeToString] *)
Fixpoint EncodeToString (s : bytes) : bytes :=
  match s with
  | [] => []
  | [a] => [sym (Z.shiftr a 2); sym (Z.shiftl a 4); 61; 61]
  | [a; b] => [sym (Z.shiftr a 2); sym (Z.lor (Z.shiftl a 4) (Z.shiftr b 4)); sym (Z.shiftl b 2); 61]
  | a :: b :: c :: s =>
      sym (Z.shiftr a 2) :: sym (Z.lor (Z.shiftl a 4) (Z.shiftr b 4))
        :: sym (Z.lor (Z.shiftl b 2) (Z.shiftr c 6)) :: sym c :: EncodeToString s
  end.

(** The encoding is made of visible characters. *)
Lemma sym_no_CR v : sym v <> CR.
Proof.
  unfold sym. set (i := Z.to_nat (Z.land v 63)).
  assert (i < length alphabet)%nat as Hi.
  { change (length alphabet) with 64%nat. unfold i. change 63 with (Z.ones 6).
    rewrite Z.land_ones by lia. pose proof (Z.mod_pos_bound v (2 ^ 6)). lia. }
  assert (Forall (fun c => c <> CR) alphabet) as HF by compute_done.
  rewrite Forall_forall in HF. apply HF, list_elem_of_In, nth_In, Hi.
Qed.

Lemma EncodeToString_no_CR s : CR ∉ EncodeToString s.
Proof.
  assert (forall n s, (length s <= n)%nat -> CR ∉ EncodeToString s) as H; [|by apply (H (length s))].
  clear s. induction n as [|n IH]; intros s Hl;
    (destruct s as [|a [|b [|c s]]]; cbn [EncodeToString];
     [apply not_elem_of_nil| | |]; try (simpl in Hl; lia)).
  all: rewrite ?not_elem_of_cons;
    repeat (split; [intros E; first [discriminate E|symmetry in E; revert E; apply sym_no_CR]|]);
    try apply not_elem_of_nil.
  apply IH. simpl in Hl. lia.
Qed.
End base64.

Example sha1_abc : sha1.Sum (bs "abc") =
  [169; 153; 62; 54; 71; 6; 129; 106; 186; 62; 37; 113; 120; 80; 194; 108; 156; 208; 216; 157].
Proof. by vm_compute. Qed.

Example base64_sure : base64.EncodeToString (bs "sure.") = bs "c3VyZS4=".
Proof. by vm_compute. Qed.
