(* ===== verification/Escape.v ===== *)
(** [UnescapeInplace] (src/util.go): percent-decoding inside the buffer that
    holds the request.  The loop writes at [x] while it reads at [i >= x] of
    the same slice, so bytes it does not write keep their old value. *)

From S2P Require Import Prelude GoStd.

(** The loop of [UnescapeInplace]; the answer is the buffer, the final write
    position and the final read position.  [fuel] bounds the iterations left:
    [i] grows in each, so [len(s) - i] is enough ([unescape_loop_exit]). *)
Fixpoint unescape_loop (fuel : nat) (plusSpace : bool) (s : bytes) (x i : nat)
  : bytes * nat * nat :=
  match fuel with
  | O => (s, x, i)
  | S fuel =>
      match s !! i with
      | None => (s, x, i)
      | Some c =>
          if c =? 37 (* '%' *) then
            match s !! (i + 1)%nat, s !! (i + 2)%nat with
            | Some p, Some q =>
                let s := match hex.Decode2 p q with Some b => <[x := b]> s | None => s end in
                unescape_loop fuel plusSpace s (S x) (i + 3)
            | _, _ => unescape_loop fuel plusSpace s (S x) (S i)
            end
          else if c =? 43 (* '+' *) then
            unescape_loop fuel plusSpace (<[x := if plusSpace then SP else 43]> s) (S x) (S i)
          else unescape_loop fuel plusSpace (<[x := c]> s) (S x) (S i)
      end
  end.

(** The buffer afterwards, and the returned slice [s[:x]]. *)
Definition UnescapeInplace (s : bytes) (plusSpace : bool) : bytes * bytes :=
  let '(s', x, _) := unescape_loop (length s) plusSpace s 0 0 in (s', take x s').

(** ** What it computes

    [unesc p tl rest] is the decoded text of the unread bytes [rest]; [tl] is
    the buffer from the write position on, whose head an escape that cannot be
    decoded leaves in place. *)
Fixpoint unesc (plusSpace : bool) (tl rest : bytes) : bytes :=
  match rest with
  | [] => []
  | c :: rest1 =>
      if c =? 37 then
        match rest1 with
        | p :: q :: rest2 =>
            default (default 0 (head tl)) (hex.Decode2 p q) :: unesc plusSpace (tail tl) rest2
        | _ => default 0 (head tl) :: unesc plusSpace (tail tl) rest1
        end
      else (if c =? 43 then if plusSpace then SP else 43 else c)
             :: unesc plusSpace (tail tl) rest1
  end.

(** The decoder of well-formed text: every ['%'] starts an escape. *)
Fixpoint decode (plusSpace : bool) (s : bytes) : option bytes :=
  match s with
  | [] => Some []
  | c :: t =>
      if c =? 37 then
        match t with
        | p :: q :: t => b ← hex.Decode2 p q; cons b <$> decode plusSpace t
        | _ => None
        end
      else cons (if c =? 43 then if plusSpace then SP else 43 else c) <$> decode plusSpace t
  end.

Lemma unesc_decode p tl s out : decode p s = Some out -> unesc p tl s = out.
Proof.
  revert tl out. induction s as [s IH] using (induction_ltof1 _ length).
  unfold ltof in IH. intros tl out. destruct s as [|c t]; [by intros [= <-]|].
  cbn [decode unesc]. destruct (c =? 37).
  - destruct t as [|a [|b t]]; [done..|]. destruct (hex.Decode2 a b) as [v|]; [|done].
    intros (r & Hr & ->)%fmap_Some. simpl. f_equal. apply IH; [simpl; lia|done].
  - intros (r & Hr & ->)%fmap_Some. f_equal. apply IH; [simpl; lia|done].
Qed.

Lemma length_unesc p tl s : (length (unesc p tl s) <= length s)%nat.
Proof.
  revert tl. induction s as [s IH] using (induction_ltof1 _ length).
  unfold ltof in IH. intros tl. destruct s as [|c t]; [done|].
  cbn [unesc]. destruct (c =? 37); [|simpl; specialize (IH t ltac:(simpl; lia) (tail tl)); lia].
  destruct t as [|a [|b t]]; simpl.
  - lia.
  - specialize (IH [a] ltac:(simpl; lia) (tail tl)). simpl in IH. lia.
  - specialize (IH t ltac:(simpl; lia) (tail tl)). lia.
Qed.

Lemma insert_at_end (out : bytes) t tl b : <[length out := b]> (out ++ t :: tl) = (out ++ [b]) ++ tl.
Proof. by rewrite insert_app_r_alt, Nat.sub_diag, <- app_assoc by lia. Qed.

(** The loop against [unesc]: [out] is written, [tl] is the rest of the buffer
    and [rest] the unread part of it. *)
Lemma unescape_loop_spec fuel p out tl rest k :
  (length rest <= fuel)%nat -> drop k tl = rest ->
  let r := unesc p tl rest in
  unescape_loop fuel p (out ++ tl) (length out) (length out + k)
  = (out ++ r ++ drop (length r) tl, length out + length r, length out + k + length rest)%nat.
Proof.
  revert out tl rest k. induction fuel as [|fuel IH]; intros out tl rest k Hf Hk; cbn zeta.
  { destruct rest; [|simpl in Hf; lia]. simpl. by rewrite !Nat.add_0_r. }
  cbn [unescape_loop].
  assert (forall j, (out ++ tl) !! (length out + k + j)%nat = rest !! j) as Hget.
  { intros j. rewrite lookup_app_r by lia. rewrite <- Hk, lookup_drop. f_equal. lia. }
  pose proof (Hget 0%nat) as H0. rewrite Nat.add_0_r in H0. rewrite H0, !Hget.
  destruct rest as [|c rest]; cbn [lookup list_lookup].
  { simpl. by rewrite !Nat.add_0_r. }
  destruct tl as [|t tl].
  { by rewrite drop_nil in Hk. }
  assert (forall j, drop j (c :: rest) = drop (k + j) (t :: tl)) as Hdrop
    by (intros j; by rewrite <- Hk, drop_drop).
  assert (forall b j r1, drop (S j) (c :: rest) = r1 -> (S j <= length (c :: rest))%nat ->
    unescape_loop fuel p (out ++ b :: tl) (S (length out)) (length out + k + S j)%nat
    = (out ++ b :: unesc p tl r1 ++ drop (length (unesc p tl r1)) tl,
       S (length out + length (unesc p tl r1)), length out + k + length (c :: rest))%nat)
    as Hstep.
  { intros b j r1 Hr1 Hj.
    pose proof (IH (out ++ [b]) tl r1 (k + j)%nat) as Hi. cbn zeta in Hi.
    rewrite <- !app_assoc, !length_app in Hi. cbn [app length] in Hi.
    replace (S (length out)) with (length out + 1)%nat by lia.
    replace (length out + k + S j)%nat with (length out + 1 + (k + j))%nat by lia.
    rewrite Hi.
    - f_equal; [f_equal; lia|].
      apply (f_equal length) in Hr1. rewrite length_drop in Hr1. lia.
    - apply (f_equal length) in Hr1. rewrite length_drop in Hr1. simpl in Hf, Hr1, Hj. lia.
    - rewrite <- Hr1, Hdrop. replace (k + S j)%nat with (S (k + j)) by lia. done. }
  cbn [unesc]. destruct (c =? 37).
  - destruct rest as [|a [|b rest]]; cbn [lookup list_lookup].
    + replace (S (length out + k)) with (length out + k + 1)%nat by lia.
      rewrite (Hstep t 0%nat []) by (simpl; done || lia). simpl. repeat f_equal; lia.
    + replace (S (length out + k)) with (length out + k + 1)%nat by lia.
      rewrite (Hstep t 0%nat [a]) by (simpl; done || lia). simpl. repeat f_equal; lia.
    + replace (length out + k + 3)%nat with (length out + k + S 2)%nat by lia.
      destruct (hex.Decode2 a b) as [v|]; cbn [default head tail from_option id].
      * rewrite insert_at_end, <- app_assoc. cbn [app].
        rewrite (Hstep v 2%nat rest) by (simpl; done || lia). simpl. repeat f_equal; lia.
      * rewrite (Hstep t 2%nat rest) by (simpl; done || lia). simpl. repeat f_equal; lia.
  - replace (S (length out + k)) with (length out + k + 1)%nat by lia.
    destruct (c =? 43); rewrite insert_at_end, <- app_assoc; cbn [app];
      rewrite (Hstep _ 0%nat rest) by (simpl; done || lia); simpl; repeat f_equal; lia.
Qed.

Lemma UnescapeInplace_unesc s p :
  let r := unesc p s s in UnescapeInplace s p = (r ++ drop (length r) s, r).
Proof.
  cbn zeta. unfold UnescapeInplace.
  pose proof (unescape_loop_spec (length s) p [] s s 0 ltac:(lia) eq_refl) as H.
  cbn zeta in H. cbn [app length] in H. rewrite !Nat.add_0_l in H. rewrite H.
  by rewrite take_app_length.
Qed.

(** With the fuel [UnescapeInplace] gives it, the loop ends by its own guard
    [i < len(s)]. *)
Lemma unescape_loop_exit s p :
  exists s' x, unescape_loop (length s) p s 0 0 = (s', x, length s).
Proof.
  pose proof (unescape_loop_spec (length s) p [] s s 0 ltac:(lia) eq_refl) as H.
  cbn zeta in H. cbn [app length] in H. rewrite !Nat.add_0_l in H. rewrite H. eauto.
Qed.

Lemma length_UnescapeInplace s p s' r :
  UnescapeInplace s p = (s', r) -> length s' = length s /\ (length r <= length s)%nat.
Proof.
  rewrite UnescapeInplace_unesc. intros [= <- <-].
  pose proof (length_unesc p s s). rewrite length_app, length_drop. lia.
Qed.

Lemma decode_escape_byte c t out :
  is_byte c -> decode true t = Some out ->
  decode true (neturl.escape_byte c ++ t) = Some (c :: out).
Proof.
  intros Hc Ht. unfold neturl.escape_byte.
  destruct (Z.eqb_spec c SP) as [->|Hsp]; [simpl; by rewrite Ht|].
  destruct (neturl.unreserved c) eqn:Hu.
  - simpl. assert (c <> 37 /\ c <> 43) as [H1 H2] by (split; intros ->; done).
    apply Z.eqb_neq in H1, H2. by rewrite H1, H2, Ht.
  - cbn [app decode]. cbn [Z.eqb Pos.eqb]. rewrite hex.Decode2_encode by done.
    simpl. by rewrite Ht.
Qed.

Lemma decode_app p s t out out' :
  decode p s = Some out -> decode p t = Some out' -> decode p (s ++ t) = Some (out ++ out').
Proof.
  intros Hs Ht. revert out Hs. induction s as [s IH] using (induction_ltof1 _ length).
  unfold ltof in IH. intros out. destruct s as [|c s]; [by intros [= <-]|].
  cbn [decode app]. destruct (c =? 37).
  - destruct s as [|a [|b s]]; [done..|]. cbn [app].
    destruct (hex.Decode2 a b) as [v|]; [|done]. simpl.
    intros (r & Hr & ->)%fmap_Some. rewrite (IH s) with (out := r); [done|simpl; lia|done].
  - intros (r & Hr & ->)%fmap_Some. rewrite (IH s) with (out := r); [done|simpl; lia|done].
Qed.

Lemma decode_QueryEscape s : Forall is_byte s -> decode true (neturl.QueryEscape s) = Some s.
Proof. induction 1 as [|c s Hc Hs IH]; [done|]. by apply decode_escape_byte. Qed.

(** Text with no percent sign is its own decoding when ['+'] is kept. *)
Lemma decode_plain s : (37 ∉ s) -> decode false s = Some s.
Proof.
  induction s as [|c s IH]; [done|]. intros [Hc Hs]%not_elem_of_cons. cbn [decode].
  destruct (Z.eqb_spec c 37); [congruence|]. rewrite IH by done. simpl.
  by destruct (Z.eqb_spec c 43) as [->|].
Qed.

(** ** Properties *)

(** C36: on well-formed text (every percent sign starts an escape of two
    hexadecimal digits) the in-place loop returns exactly the decoded text, and
    it changes no byte of the buffer behind the text it returns. *)
Theorem UnescapeInplace_decode s p out :
  decode p s = Some out ->
  UnescapeInplace s p = (out ++ drop (length out) s, out).
Proof. intros H. rewrite UnescapeInplace_unesc. by rewrite (unesc_decode _ _ _ _ H). Qed.

Lemma UnescapeInplace_decode_witness :
  decode true (bs "a+b%2Fc") = Some (bs "a b/c") /\
  UnescapeInplace (bs "a+b%2Fc") true = (bs "a b/c" ++ bs "Fc", bs "a b/c").
Proof.
  split; [by vm_compute|].
  apply (UnescapeInplace_decode (bs "a+b%2Fc") true (bs "a b/c")). by vm_compute.
Defined.

(** what [url.QueryEscape] writes, [UnescapeInplace] with [plusSpace] reads
    back, whatever the bytes. *)
Theorem UnescapeInplace_QueryEscape s :
  Forall is_byte s -> (UnescapeInplace (neturl.QueryEscape s) true).2 = s.
Proof.
  intros Hs. rewrite UnescapeInplace_unesc. simpl. by apply unesc_decode, decode_QueryEscape.
Qed.

Lemma UnescapeInplace_QueryEscape_witness :
  Forall is_byte [97; 32; 37; 0; 255] /\
  (UnescapeInplace (neturl.QueryEscape [97; 32; 37; 0; 255]) true).2 = [97; 32; 37; 0; 255].
Proof.
  assert (Forall is_byte [97; 32; 37; 0; 255]) as H
    by (repeat constructor; unfold is_byte; lia).
  split; [exact H|]. apply (UnescapeInplace_QueryEscape _ H).
Defined.

(** a percent sign at the end of the text, with no room for two digits, is
    not copied: the byte returned for it is whatever the buffer held at the
    write position, which is a byte of an earlier escape as soon as one was
    decoded before. *)
Theorem UnescapeInplace_truncated s p out :
  decode p s = Some out ->
  (UnescapeInplace (s ++ [37]) p).2
  = out ++ [default 37 (s !! length out)].
Proof.
  intros H. rewrite UnescapeInplace_unesc. simpl.
  assert (forall tl, unesc p tl (s ++ [37]) = out ++ [default 0 (tl !! length out)]) as Hu.
  { revert out H. induction s as [s IH] using (induction_ltof1 _ length).
    unfold ltof in IH. intros out. destruct s as [|c s].
    { intros [= <-] [|t tl]; done. }
    intros Hd tl.
    assert (forall r : bytes, default 0 (tail tl !! length r) = default 0 (tl !! S (length r))) as Htl
      by (intros r; by destruct tl).
    cbn [decode unesc app] in *. destruct (c =? 37).
    - destruct s as [|a [|b s]]; [done..|]. cbn [app].
      destruct (hex.Decode2 a b) as [v|]; [|done]. simpl in Hd |- *.
      apply fmap_Some in Hd as (r & Hr & ->). cbn [app length]. f_equal.
      rewrite (IH s) with (out := r); [by rewrite Htl|simpl; lia|done].
    - apply fmap_Some in Hd as (r & Hr & ->). cbn [app length]. f_equal.
      rewrite (IH s) with (out := r); [by rewrite Htl|simpl; lia|done]. }
  rewrite Hu. do 2 f_equal.
  pose proof (length_unesc p s s) as Hl. rewrite (unesc_decode _ _ _ _ H) in Hl.
  destruct (decide (length out = length s)) as [E|E].
  - rewrite lookup_app_r by lia. rewrite E, Nat.sub_diag.
    by rewrite (lookup_ge_None_2 s) by lia.
  - destruct (lookup_lt_is_Some_2 s (length out) ltac:(lia)) as [x Hx].
    by rewrite (lookup_app_l_Some _ _ _ _ Hx), Hx.
Qed.

Lemma UnescapeInplace_truncated_witness :
  decode false (bs "%41") = Some (bs "A") /\
  (UnescapeInplace (bs "%41" ++ [37]) false).2 = bs "A4".
Proof.
  split; [by vm_compute|].
  apply (UnescapeInplace_truncated (bs "%41") false (bs "A")). by vm_compute.
Defined.
