(* ===== verification/Util.v ===== *)
(** src/util.go: the errors of the server side and the reader of RESP headers
    ([*N\r\n], [$N\r\n]).  [UnescapeInplace], of the same file, has its own
    development in [Escape]. *)

From S2P Require Import Prelude GoStd.

(** The errors that parsing can return: [errWaitMore], the errors of [strconv],
    and one constructor per [fmt.Errorf] of state.go, http.go and ws.go with the
    values it prints. *)
Inductive error :=
| errWaitMore
| errNum (e : strconv.NumErr)
| errTooManyArgs
| errBulkHead (b : byte)
| errBulkLength (n : Z)
| errBulkTail (s : bytes)
| errFirstLine (line : bytes)
| errPath (line : bytes)
| errHeader (line : bytes)
| errContentLength (value : bytes)
| errStage (n : Z).

#[export] Instance error_eq_dec : EqDecision error.
Proof. solve_decision. Defined.

(** What the server side takes from outside: the package variable
    [RequestMaxBytes] (server.go sets it to 1 MiB, a program may change it) and
    [net/url.Parse], of which the code uses the path and the host ([None]: the
    call returned an error).  The theorems hold for every value of both. *)
Class Env := {
  RequestMaxBytes : Z;
  url_Parse : bytes -> option (bytes * bytes);
}.

(** [readByteAndNumberCrLf(head, in)]: the number and the width of the header,
    width 0 when [in] starts with another byte. *)
Definition readByteAndNumberCrLf (head : byte) (inp : bytes) : res error (Z * Z) :=
  if len inp <? 4 then Err errWaitMore
  else
    let! c := checked (at_ inp 0) in
    if negb (c =? head) then Ok (0, 0)
    else
      match index_of crlf inp with
      | None => Err errWaitMore
      | Some idx =>
          let! num := checked (slice inp 1 (Z.of_nat idx)) in
          match strconv.ParseInt num with
          | (_, Some e) => Err (errNum e)
          | (v, None) => Ok (v, Z.of_nat idx + 2)
          end
      end.

(** The header that announces the number [v]. *)
Definition resp_header (head : byte) (v : Z) : bytes := head :: strconv.FormatInt 10 v ++ crlf.

Lemma index_of_head head inp idx :
  head <> CR -> at_ inp 0 = Some head -> index_of crlf inp = Some idx -> (1 <= idx)%nat.
Proof.
  intros Hh Ha (_ & Hp & _)%index_of_Some. destruct idx; [|lia].
  rewrite drop_0 in Hp. apply prefixb_true in Hp as [t ->]. by injection Ha.
Qed.

Section header.
Variable head : byte.
Hypothesis Hhead : head <> CR.

(** Every outcome of the header reader; it cannot panic. *)
Lemma readHeader_cases inp :
  readByteAndNumberCrLf head inp = Err errWaitMore \/
  readByteAndNumberCrLf head inp = Ok (0, 0) \/
  (exists e, readByteAndNumberCrLf head inp = Err (errNum e)) \/
  (exists v w, readByteAndNumberCrLf head inp = Ok (v, w) /\ 3 <= w <= len inp /\
     strconv.minInt64 <= v <= strconv.maxInt64).
Proof using Hhead.
  unfold readByteAndNumberCrLf. destruct (Z.ltb_spec (len inp) 4); [by left|].
  destruct (at_is_Some inp 0 ltac:(lia)) as [c Hc]. rewrite Hc. cbn [checked rbind].
  destruct (Z.eqb_spec c head) as [->|]; cbn [negb]; [|by right; left].
  destruct (index_of crlf inp) as [idx|] eqn:Hi; [|by left].
  pose proof (index_of_head _ _ _ Hhead Hc Hi) as Hi1.
  pose proof (index_of_bound _ _ _ Hi) as Hb. cbn [length crlf] in Hb.
  destruct (slice_is_Some inp 1 (Z.of_nat idx)) as [num Hn]; [lia|unfold len; lia|].
  rewrite Hn. cbn [checked rbind].
  destruct (strconv.ParseInt num) as [v e] eqn:Hp.
  destruct e as [e|]; [by right; right; left; exists e|].
  right; right; right. exists v, (Z.of_nat idx + 2). split_and!; [done|lia|unfold len; lia|..];
    apply strconv.ParseInt_range in Hp; lia.
Qed.

(** More input changes nothing but the answer "wait for more". *)
Lemma readHeader_stable inp t :
  readByteAndNumberCrLf head inp <> Err errWaitMore ->
  readByteAndNumberCrLf head (inp ++ t) = readByteAndNumberCrLf head inp.
Proof using Hhead.
  unfold readByteAndNumberCrLf. intros Hw.
  destruct (Z.ltb_spec (len inp) 4); [done|].
  destruct (at_is_Some inp 0 ltac:(lia)) as [c Hc].
  rewrite Hc in Hw |- *. rewrite (at_stable _ t _ _ Hc), len_app. pose proof (len_nonneg t).
  destruct (Z.ltb_spec (len inp + len t) 4); [lia|]. cbn [checked rbind] in *.
  destruct (Z.eqb_spec c head) as [Hch|Hch]; cbn [negb] in Hw |- *; [subst c|done].
  destruct (index_of crlf inp) as [idx|] eqn:Hi; [|done].
  rewrite (index_of_stable _ _ t _ Hi).
  pose proof (index_of_head _ _ _ Hhead Hc Hi) as Hi1.
  pose proof (index_of_bound _ _ _ Hi) as Hb. cbn [length crlf] in Hb.
  destruct (slice_is_Some inp 1 (Z.of_nat idx)) as [num Hn]; [lia|unfold len; lia|].
  by rewrite Hn, (slice_stable _ t _ _ _ Hn).
Qed.

Lemma readHeader_resp_header v t :
  strconv.minInt64 <= v <= strconv.maxInt64 ->
  readByteAndNumberCrLf head (resp_header head v ++ t) = Ok (v, len (resp_header head v)).
Proof using Hhead.
  intros Hv. unfold resp_header, readByteAndNumberCrLf.
  assert (1 <= len (strconv.FormatInt 10 v)) as Hl.
  { pose proof (strconv.FormatInt_nonempty v).
    destruct (strconv.FormatInt 10 v); [done|]. len_lia. }
  rewrite !len_app, !len_cons, len_app. change (len crlf) with 2. pose proof (len_nonneg t).
  destruct (Z.ltb_spec (1 + (len (strconv.FormatInt 10 v) + 2) + len t) 4); [lia|].
  cbn [app at_]. change (at_ (head :: _) 0) with (Some head). cbn [checked rbind].
  rewrite Z.eqb_refl. cbn [negb]. rewrite <- app_assoc.
  change (head :: strconv.FormatInt 10 v ++ crlf ++ t)
    with ((head :: strconv.FormatInt 10 v) ++ crlf ++ t).
  rewrite index_crlf_app.
  2: { apply not_elem_of_cons. split; [done|]. apply strconv.FormatInt_no_CR. }
  cbn [length app]. change (head :: strconv.FormatInt 10 v ++ crlf ++ t)
    with ([head] ++ strconv.FormatInt 10 v ++ (crlf ++ t)).
  rewrite (slice_middle [head] (strconv.FormatInt 10 v)) by len_lia.
  cbn [checked rbind]. rewrite strconv.ParseInt_FormatInt by done.
  do 2 f_equal. len_lia.
Qed.
End header.

(** A strict prefix of a header is not enough. *)
Lemma readHeader_prefix head v p q :
  head <> CR -> strconv.minInt64 <= v <= strconv.maxInt64 ->
  resp_header head v = p ++ q -> q <> [] ->
  readByteAndNumberCrLf head p = Err errWaitMore.
Proof.
  intros Hh Hv Hpq Hq.
  destruct (decide (readByteAndNumberCrLf head p = Err errWaitMore)) as [|Hn]; [done|].
  pose proof (readHeader_stable head Hh p q Hn) as Hs. rewrite <- Hpq in Hs.
  rewrite <- (app_nil_r (resp_header head v)), readHeader_resp_header in Hs by done.
  destruct (readHeader_cases head Hh p) as [H|[H|[[e H]|(v' & w & H & Hw & _)]]];
    rewrite H in Hs; try done.
  injection Hs as <- <-. apply (f_equal len) in Hpq. destruct q; [done|]. len_lia.
Qed.
