(* ===== verification/Sockaddr.v ===== *)
(** Socket addresses (src/internal/socktoaddr.go), and the address of a client
    (src/redis/client.go, lines 40 to 52): from the resolved address of package
    net to a [syscall.Sockaddr], and back to what is shown.

    The names of the network interfaces are the system's: a parameter. *)

From S2P Require Import Prelude.

(** [syscall.Sockaddr]: the three types that the code looks at, and any other. *)
Inductive Sockaddr :=
| SockaddrInet4 (Port : Z) (Addr : bytes)
| SockaddrInet6 (Port : Z) (ZoneId : Z) (Addr : bytes)
| SockaddrUnix (Name : bytes)
| SockaddrOther.

(** [net.TCPAddr] and [net.UnixAddr]. *)
Record TCPAddr := mkTCPAddr { IP : bytes; Port : Z; Zone : bytes }.
Inductive Addr := ATCP (a : TCPAddr) | AUnix (Net Name : bytes).

(** [copy(dst[:], src)] into an array of [n] zero bytes. *)
Definition copy_into (n : nat) (src : bytes) : bytes := take n (src ++ replicate n 0).

Section addr.
(** [net.InterfaceByIndex]: the name, unless it fails. *)
Context (InterfaceByIndex : Z -> option bytes).

Definition SockaddrToAddr (sa : Sockaddr) : option Addr :=
  match sa with
  | SockaddrInet4 port addr => Some (ATCP (mkTCPAddr ([] ++ addr) port []))
  | SockaddrInet6 port zoneId addr =>
      let zone := [] in
      let zone := if negb (zoneId =? 0)
                  then match InterfaceByIndex zoneId with Some name => name | None => zone end else zone in
      Some (ATCP (mkTCPAddr ([] ++ addr) port zone))
  | SockaddrUnix name => Some (AUnix (bs "unix") name)
  | SockaddrOther => None
  end.

(** The address that [NewClient] keeps. *)
Definition client_addr (taddr : TCPAddr) : Sockaddr :=
  if len taddr.(IP) =? 4 then SockaddrInet4 taddr.(Port) (copy_into 4 taddr.(IP))
  else SockaddrInet6 taddr.(Port) 0 (copy_into 16 taddr.(IP)).

(** [activateFreeConn]: the family of the socket. *)
Inductive family := AF_INET | AF_INET6.
Definition socket_family (sa : Sockaddr) : family :=
  match sa with SockaddrInet6 _ _ _ => AF_INET6 | _ => AF_INET end.

(** ** Lemmas *)

Lemma copy_into_exact n src : length src = n -> copy_into n src = src.
Proof using. intros Hl. unfold copy_into. by apply take_app_length'. Qed.

Lemma length_copy_into n src : length (copy_into n src) = n.
Proof using. unfold copy_into. rewrite length_take, length_app, length_replicate. lia. Qed.

(** ** Theorems *)

(** A client connects to the address that was resolved: what it shows is that
    address and port again, the array has the length that the family of its socket
    asks for, and an address that was resolved to nothing is the wildcard of IPv6;
    only the zone of a link-local address is lost, which the kernel needs. *)
Theorem client_addr_shown (a : TCPAddr) :
  length a.(IP) = 4%nat \/ length a.(IP) = 16%nat \/ a.(IP) = [] ->
  SockaddrToAddr (client_addr a)
  = Some (ATCP (mkTCPAddr (if bool_decide (a.(IP) = []) then replicate 16 0 else a.(IP)) a.(Port) [])) /\
  match client_addr a with
  | SockaddrInet4 _ x => socket_family (client_addr a) = AF_INET /\ length x = 4%nat
  | SockaddrInet6 _ z x => socket_family (client_addr a) = AF_INET6 /\ length x = 16%nat /\ z = 0
  | _ => False
  end.
Proof using.
  intros Hl. unfold client_addr, len. destruct Hl as [Hl|[Hl|Hl]].
  - rewrite Hl. change (Z.of_nat 4 =? 4) with true. cbv iota. rewrite copy_into_exact by done.
    rewrite bool_decide_false by (intros E; by rewrite E in Hl). done.
  - rewrite Hl. change (Z.of_nat 16 =? 4) with false. cbv iota. rewrite copy_into_exact by done.
    rewrite bool_decide_false by (intros E; by rewrite E in Hl). done.
  - rewrite Hl, bool_decide_true by done. by split.
Qed.

(** The zone of a peer's address is the name of its interface, if it has one. *)
Theorem SockaddrToAddr_zone port z addr a :
  SockaddrToAddr (SockaddrInet6 port z addr) = Some (ATCP a) ->
  a.(Zone) = if z =? 0 then [] else default [] (InterfaceByIndex z).
Proof using. cbn. intros [= <-]. cbn. destruct (z =? 0); cbn; [done|]. by destruct (InterfaceByIndex z). Qed.
End addr.

Lemma client_addr_shown_witness :
  SockaddrToAddr (fun _ => None) (client_addr (mkTCPAddr [127; 0; 0; 1] 6379 []))
  = Some (ATCP (mkTCPAddr [127; 0; 0; 1] 6379 [])) /\
  socket_family (client_addr (mkTCPAddr [127; 0; 0; 1] 6379 [])) = AF_INET.
Proof.
  destruct (client_addr_shown (fun _ => None) (mkTCPAddr [127; 0; 0; 1] 6379 [])) as [E [F _]]; [by left|].
  split; [exact E|exact F].
Defined.
