(* ===== verification/Redis.v ===== *)
(** The server's RESP requests and replies: the bulk-string loop of
    [serverReadState.process] (src/state.go, stage 1) and the accessors and
    reply writers of src/redis.go. *)

From S2P Require Import Prelude GoStd Util.

(** ** Data

    [Redis]: the request under construction.  [read] is a [uint32], [nargs] a
    [uint16], [ai] the pairs (start, length) of [uint32]. *)
Record Redis := mkRedis {
  data : bytes;
  read : Z;
  nargs : Z;
  ai : list (Z * Z);
}.

#[export] Instance Redis_eq_dec : EqDecision Redis.
Proof. solve_decision. Defined.

(** ** Parsing *)

(** One iteration of the loop of stage 1: the next bulk string. *)
Definition readBulk (inp : bytes) (r : Redis) : res error Redis :=
  let! rest := checked (slice_from inp r.(read)) in
  let! (length_, w) := readByteAndNumberCrLf 36 rest in
  if w =? 0 then
    let! b := checked (at_ inp r.(read)) in Err (errBulkHead b)
  else if 2 ^ 32 - 1 <? length_ then Err (errBulkLength length_)
  else
    let x := i64 (r.(read) + w + length_) in
    if len inp <? i64 (x + 2) then Err errWaitMore
    else
      let! c0 := checked (at_ inp x) in
      let! tail_ok :=
        if negb (c0 =? CR) then Ok false
        else let! c1 := checked (at_ inp (i64 (x + 1))) in Ok (c1 =? LF) in
      if negb tail_ok then
        let! tl := checked (slice inp x (i64 (x + 2))) in Err (errBulkTail tl)
      else
        Ok {| data := r.(data);
              read := u32 (r.(read) + u32 (i64 (w + length_ + 2)));
              nargs := r.(nargs);
              ai := r.(ai) ++ [(u32 (r.(read) + u32 w), u32 length_)] |}.

(** The loop [for len(ai) < int(nargs)]: [todo] is the number of iterations its
    guard still allows. *)
Fixpoint readBulks (todo : nat) (inp : bytes) (r : Redis) : Redis * res error unit :=
  match todo with
  | O => (r, Ok tt)
  | S todo =>
      match readBulk inp r with
      | Ok r' => readBulks todo inp r'
      | Err e => (r, Err e)
      | Panic => (r, Panic)
      | OutOfFuel => (r, OutOfFuel)
      end
  end.

Definition bulks_todo (r : Redis) : nat := Z.to_nat (r.(nargs) - len r.(ai)).

(** ** Access *)

Definition Len (r : Redis) : Z := len r.(ai).

(** [Get(i)]: [None] is Go's [nil]; the end of the slice is a [uint32] sum.
    (Go lets a slice end anywhere up to the capacity of [data]; that matters only
    for a request whose negative lengths moved [read] back over an argument,
    where this model panics.) *)
Definition Get (r : Redis) (i : Z) : res error (option bytes) :=
  if i <? len r.(ai) then
    let! x := checked (at_ r.(ai) i) in
    let! s := checked (slice r.(data) x.1 (u32 (x.1 + x.2))) in
    Ok (Some s)
  else Ok None.

Definition Str (r : Redis) (i : Z) : res error bytes :=
  let! s := Get r i in Ok (default [] s).

Definition Int64 (r : Redis) (i : Z) : res error (Z * option strconv.NumErr) :=
  let! s := Str r i in Ok (strconv.ParseInt s).

Definition Int64Default (r : Redis) (i v : Z) : res error Z :=
  let! s := Str r i in
  Ok (match strconv.ParseInt s with (n, None) => n | (_, Some _) => v end).

(** ** Replies: what each writer appends to [Conn.out] *)

Definition WriteRawBytes (out p : bytes) : bytes := out ++ p.
Definition WriteError (out err : bytes) : bytes := out ++ [45] ++ err ++ crlf.
Definition WriteSimpleString (out p : bytes) : bytes := out ++ [43] ++ p ++ crlf.
Definition WriteBulkString (out p : bytes) : bytes :=
  strconv.AppendInt (out ++ [36]) (len p) 10 ++ crlf ++ p ++ crlf.
Definition WriteBulk (out p : bytes) : bytes := WriteBulkString out p.
Definition WriteArrayBegin (out : bytes) (n : Z) : bytes :=
  strconv.AppendInt (out ++ [42]) n 10 ++ crlf.

(** ** Lemmas *)

(** A bulk string and a command as RESP writes them. *)
Definition bulk (a : bytes) : bytes := resp_header 36 (len a) ++ a ++ crlf.
Definition bulks (args : list bytes) : bytes := concat (bulk <$> args).
Definition command (args : list bytes) : bytes := resp_header 42 (len args) ++ bulks args.

Lemma bulks_cons a args : bulks (a :: args) = bulk a ++ bulks args.
Proof. done. Qed.

Lemma len_resp_header h v : 4 <= len (resp_header h v).
Proof.
  unfold resp_header. pose proof (strconv.FormatInt_nonempty v).
  destruct (strconv.FormatInt 10 v); [done|]. rewrite len_cons, len_app, len_cons.
  change (len crlf) with 2. pose proof (len_nonneg l). lia.
Qed.

Lemma WriteBulkString_bulk out p : WriteBulkString out p = out ++ bulk p.
Proof.
  unfold WriteBulkString, bulk, resp_header, strconv.AppendInt. by app_norm.
Qed.

Lemma WriteArrayBegin_header out n : WriteArrayBegin out n = out ++ resp_header 42 n.
Proof.
  unfold WriteArrayBegin, resp_header, strconv.AppendInt. by app_norm.
Qed.

(** The position invariant of the loop: the read cursor is inside the input,
    which fits the [uint32] cursor. *)
Definition cursor_ok (inp : bytes) (r : Redis) : Prop :=
  0 <= r.(read) <= len inp /\ len inp < 2 ^ 32.

Lemma cursor_ok_app inp t r :
  cursor_ok inp r -> len (inp ++ t) < 2 ^ 32 -> cursor_ok (inp ++ t) r.
Proof. unfold cursor_ok. rewrite len_app. pose proof (len_nonneg t). lia. Qed.

(** The outcomes of one iteration.  [length_] is the announced length, [w] the
    width of its header; a negative length is not refused. *)
Inductive bulk_outcome (inp : bytes) (r : Redis) : res error Redis -> Prop :=
| BulkWait : bulk_outcome inp r (Err errWaitMore)
| BulkNum e : bulk_outcome inp r (Err (errNum e))
| BulkHead b : bulk_outcome inp r (Err (errBulkHead b))
| BulkLength n : bulk_outcome inp r (Err (errBulkLength n))
| BulkTail s : bulk_outcome inp r (Err (errBulkTail s))
| BulkPanic length_ w :
    readByteAndNumberCrLf 36 (drop (Z.to_nat r.(read)) inp) = Ok (length_, w) ->
    r.(read) + w + length_ < 0 ->
    bulk_outcome inp r Panic
| BulkOk length_ w :
    readByteAndNumberCrLf 36 (drop (Z.to_nat r.(read)) inp) = Ok (length_, w) ->
    3 <= w -> r.(read) + w <= len inp -> length_ <= 2 ^ 32 - 1 ->
    0 <= r.(read) + w + length_ -> r.(read) + w + length_ + 2 <= len inp ->
    bulk_outcome inp r
      (Ok {| data := r.(data); read := r.(read) + w + length_ + 2; nargs := r.(nargs);
             ai := r.(ai) ++ [(r.(read) + w, u32 length_)] |}).

Lemma readBulk_outcome inp r : cursor_ok inp r -> bulk_outcome inp r (readBulk inp r).
Proof.
  intros [Hr Hl]. unfold readBulk.
  destruct (slice_from_is_Some inp r.(read) Hr) as [rest Hrest].
  apply slice_from_Some in Hrest as Hd. destruct Hd as [_ Hd].
  rewrite Hrest, Hd. cbn [checked rbind].
  destruct (readHeader_cases 36 ltac:(done) (drop (Z.to_nat r.(read)) inp))
    as [H|[H|[[e H]|(v & w & H & Hw & Hv)]]]; rewrite H; cbn [rbind].
  - apply BulkWait.
  - cbn [Z.eqb]. destruct (at_ inp r.(read)) as [b|] eqn:Hb; cbn [checked rbind].
    + apply BulkHead.
    + exfalso. rewrite drop_ge in H; [done|].
      destruct (decide (r.(read) < len inp)); [|unfold len in *; lia].
      destruct (at_is_Some inp r.(read)) as [b' Hb']; [lia|congruence].
  - apply BulkNum.
  - rewrite len_drop in Hw. unfold strconv.minInt64, strconv.maxInt64 in Hv.
    destruct (Z.eqb_spec w 0); [lia|]. destruct (Z.ltb_spec (2 ^ 32 - 1) v); [apply BulkLength|].
    rewrite (i64_small (r.(read) + w + v)) by lia. cbn zeta.
    rewrite (i64_small (r.(read) + w + v + 2)) by lia.
    destruct (Z.ltb_spec (len inp) (r.(read) + w + v + 2)); [apply BulkWait|].
    destruct (decide (0 <= r.(read) + w + v)) as [Hx|Hx].
    2: { unfold at_ at 1. rewrite bool_decide_false by lia. simpl. eapply BulkPanic; [done|lia]. }
    destruct (at_is_Some inp (r.(read) + w + v)) as [c0 Hc0]; [lia|].
    destruct (slice_is_Some inp (r.(read) + w + v) (r.(read) + w + v + 2)) as [tl Htl]; [lia..|].
    rewrite Hc0, (i64_small (_ + 1)), Htl by lia. cbn [checked rbind].
    destruct (negb (c0 =? CR)); cbn [rbind negb]; [apply BulkTail|].
    destruct (at_is_Some inp (r.(read) + w + v + 1)) as [c1 Hc1]; [lia|].
    rewrite Hc1. cbn [checked rbind]. destruct (c1 =? LF); cbn [negb]; [|apply BulkTail].
    rewrite (u32_small w), (u32_small (r.(read) + w)) by lia.
    assert (u32 (r.(read) + u32 (i64 (w + v + 2))) = r.(read) + w + v + 2) as ->.
    { rewrite i64_small by lia. unfold u32. rewrite Zplus_mod_idemp_r.
      rewrite Z.mod_small; lia. }
    apply BulkOk; [done|lia..].
Qed.

(** More input changes nothing but the answer "wait for more". *)
Lemma readBulk_stable inp t r :
  cursor_ok inp r -> len (inp ++ t) < 2 ^ 32 -> readBulk inp r <> Err errWaitMore ->
  readBulk (inp ++ t) r = readBulk inp r.
Proof.
  intros [Hr _] Hl Hw. unfold readBulk in *. rewrite len_app in Hl. pose proof (len_nonneg t).
  destruct (slice_from_is_Some inp r.(read) Hr) as [rest Hrest].
  rewrite Hrest in Hw |- *. rewrite (slice_from_app _ t _ _ Hrest). cbn [checked rbind] in *.
  assert (readByteAndNumberCrLf 36 rest <> Err errWaitMore) as Hh
    by (intros E; by rewrite E in Hw).
  rewrite (readHeader_stable 36 ltac:(done) rest t Hh).
  apply slice_from_Some in Hrest as [_ Hrest].
  destruct (readHeader_cases 36 ltac:(done) rest) as [H'|[H'|[[e H']|(v & w & H' & Hwb & Hv)]]];
    rewrite H' in Hw |- *; cbn [rbind] in *; [done| |done|].
  - cbn [Z.eqb] in *. rewrite at_app_lt; [done|].
    destruct (decide (r.(read) < len inp)); [done|].
    exfalso. rewrite Hrest, drop_ge in Hh; [done|]. unfold len in *; lia.
  - rewrite Hrest, len_drop in Hwb. unfold strconv.minInt64, strconv.maxInt64 in Hv.
    destruct (Z.eqb_spec w 0); [lia|]. destruct (Z.ltb_spec (2 ^ 32 - 1) v); [done|].
    cbn zeta in *. rewrite (i64_small (r.(read) + w + v)) in * by lia.
    rewrite (i64_small (r.(read) + w + v + 2)) in * by lia.
    rewrite (i64_small (r.(read) + w + v + 1)) in * by lia.
    destruct (Z.ltb_spec (len inp) (r.(read) + w + v + 2)); [done|].
    rewrite len_app. destruct (Z.ltb_spec (len inp + len t) (r.(read) + w + v + 2)); [lia|].
    rewrite !at_app_lt by lia. rewrite slice_app_le by lia. done.
Qed.

(** After any iteration the cursor is still inside the input. *)
Lemma readBulk_cursor inp r r' :
  cursor_ok inp r -> readBulk inp r = Ok r' ->
  cursor_ok inp r' /\ len r'.(ai) = len r.(ai) + 1 /\ r'.(nargs) = r.(nargs) /\ r'.(data) = r.(data).
Proof.
  intros Hc Hb. pose proof (readBulk_outcome inp r Hc) as Ho. rewrite Hb in Ho.
  inversion Ho; subst; cbn. unfold cursor_ok in *. cbn.
  rewrite len_app. split_and!; [lia..|by cbn|done|done].
Qed.

Lemma bulks_todo_step inp r r' todo :
  cursor_ok inp r -> readBulk inp r = Ok r' -> bulks_todo r = S todo -> bulks_todo r' = todo.
Proof.
  intros Hc Hb Ht. destruct (readBulk_cursor _ _ _ Hc Hb) as (_ & Hl & Hn & _).
  unfold bulks_todo in *. rewrite Hl, Hn. lia.
Qed.

(** The loop started on a part of the input and resumed on more of it does what
    it does when started on the whole. *)
Lemma readBulks_resume inp t r r1 res :
  cursor_ok inp r -> len (inp ++ t) < 2 ^ 32 ->
  readBulks (bulks_todo r) inp r = (r1, res) ->
  cursor_ok inp r1 /\ r1.(nargs) = r.(nargs) /\ r1.(data) = r.(data) /\
  readBulks (bulks_todo r) (inp ++ t) r
  = if decide (res = Err errWaitMore) then readBulks (bulks_todo r1) (inp ++ t) r1
    else (r1, res).
Proof.
  intros Hc Hl. remember (bulks_todo r) as todo eqn:Ht.
  revert r Hc Ht. induction todo as [|todo IH]; intros r Hc Ht; simpl.
  { intros [= <- <-]. by rewrite decide_False. }
  destruct (readBulk inp r) as [r'|e| |] eqn:Hb.
  - intros H. destruct (readBulk_cursor _ _ _ Hc Hb) as (Hc' & _ & Hn & Hd).
    destruct (IH r' Hc' (eq_sym (bulks_todo_step _ _ _ _ Hc Hb (eq_sym Ht))) H) as (? & Hn1 & Hd1 & Heq).
    split_and!; [done|congruence|congruence|].
    rewrite readBulk_stable by (done || by rewrite Hb). by rewrite Hb.
  - intros [= <- <-]. split_and!; [done..|]. case_decide as E.
    + injection E as ->. by rewrite <- Ht.
    + rewrite readBulk_stable, Hb; [done..|]. rewrite Hb. congruence.
  - intros [= <- <-]. rewrite decide_False, readBulk_stable, Hb by (done || by rewrite Hb). done.
  - intros [= <- <-]. rewrite decide_False, readBulk_stable, Hb by (done || by rewrite Hb). done.
Qed.

(** One well-formed bulk string at the cursor. *)
Lemma readBulk_bulk pre a post r :
  r.(read) = len pre -> len (pre ++ bulk a ++ post) < 2 ^ 32 ->
  readBulk (pre ++ bulk a ++ post) r
  = Ok {| data := r.(data); read := len (pre ++ bulk a); nargs := r.(nargs);
          ai := r.(ai) ++ [(len pre + len (resp_header 36 (len a)), len a)] |}.
Proof.
  intros Hr Hl. unfold readBulk. rewrite Hr, slice_suffix by done.
  cbn [checked rbind]. unfold bulk in *. rewrite <- !app_assoc in *.
  set (h := resp_header 36 (len a)) in *. rewrite !len_app in Hl. change (len crlf) with 2 in Hl.
  pose proof (len_nonneg pre). pose proof (len_nonneg a). pose proof (len_nonneg post).
  pose proof (len_resp_header 36 (len a)) as Hh. fold h in Hh.
  assert (strconv.minInt64 <= len a <= strconv.maxInt64) as Ha
    by (unfold strconv.minInt64, strconv.maxInt64; lia).
  pose proof (readHeader_resp_header 36 ltac:(done) (len a) (a ++ crlf ++ post) Ha) as E.
  fold h in E. rewrite E. cbn [rbind].
  destruct (Z.eqb_spec (len h) 0); [lia|]. destruct (Z.ltb_spec (2 ^ 32 - 1) (len a)); [lia|].
  cbn zeta. rewrite (i64_small (len pre + len h + len a)) by lia.
  rewrite !i64_small by lia. rewrite !len_app. change (len crlf) with 2.
  destruct (Z.ltb_spec (len pre + (len h + (len a + (2 + len post)))) (len pre + len h + len a + 2));
    [lia|].
  replace (pre ++ h ++ a ++ crlf ++ post) with ((pre ++ h ++ a) ++ CR :: LF :: post) by by app_norm.
  replace (len pre + len h + len a) with (len (pre ++ h ++ a)) by (rewrite !len_app; lia).
  rewrite at_middle. cbn [checked rbind]. change (negb (CR =? CR)) with false. cbn iota.
  replace ((pre ++ h ++ a) ++ CR :: LF :: post)
    with (((pre ++ h ++ a) ++ [CR]) ++ LF :: post) by by app_norm.
  replace (len (pre ++ h ++ a) + 1) with (len ((pre ++ h ++ a) ++ [CR]))
    by (rewrite (len_app _ [CR]); done).
  rewrite at_middle. cbn [checked rbind]. change (negb (LF =? LF)) with false. cbn iota.
  rewrite (u32_small (len h)), (u32_small (len h + len a + 2)) by lia.
  rewrite !u32_small by lia. do 2 f_equal. lia.
Qed.

(** The entries of [ai] for the arguments [args] encoded from offset [pos]. *)
Fixpoint spans (pos : Z) (args : list bytes) : list (Z * Z) :=
  match args with
  | [] => []
  | a :: args =>
      (pos + len (resp_header 36 (len a)), len a) :: spans (pos + len (bulk a)) args
  end.

Lemma length_spans pos args : length (spans pos args) = length args.
Proof. revert pos. induction args as [|a args IH]; intros pos; simpl; [done|by rewrite IH]. Qed.

Lemma readBulks_bulks pre args post r :
  r.(read) = len pre -> len (pre ++ bulks args ++ post) < 2 ^ 32 ->
  readBulks (length args) (pre ++ bulks args ++ post) r
  = ({| data := r.(data); read := len (pre ++ bulks args); nargs := r.(nargs);
        ai := r.(ai) ++ spans (len pre) args |}, Ok tt).
Proof.
  revert pre r. induction args as [|a args IH]; intros pre r Hr Hl.
  - simpl. rewrite !app_nil_r, <- Hr. by destruct r.
  - cbn [length readBulks]. rewrite bulks_cons, <- !app_assoc in *.
    rewrite readBulk_bulk by done. rewrite (app_assoc pre (bulk a)) in *.
    rewrite IH by done. cbn [data nargs ai read]. rewrite <- !app_assoc. cbn [app spans].
    by rewrite !(len_app pre (bulk a)).
Qed.

Lemma spans_lookup pre args i a :
  args !! i = Some a ->
  exists u v, pre ++ bulks args = u ++ a ++ v /\ spans (len pre) args !! i = Some (len u, len a).
Proof.
  revert pre i. induction args as [|b args IH]; intros pre i Hi; [done|].
  destruct i as [|i]; cbn in Hi.
  - injection Hi as ->. exists (pre ++ resp_header 36 (len a)), (crlf ++ bulks args).
    split; [rewrite bulks_cons; unfold bulk; by app_norm|]. simpl. by rewrite len_app.
  - destruct (IH (pre ++ bulk b) i Hi) as (u & v & Huv & Hs). exists u, v.
    rewrite bulks_cons. rewrite <- app_assoc in Huv. split; [done|].
    simpl. by rewrite <- len_app.
Qed.

(** The invariant of the entries of [ai]: each was read at offset [p.1] with an
    announced length [L], possibly negative, whose end lies in the input. *)
Definition entry (inp : bytes) (p : Z * Z) (L : Z) : Prop :=
  p.2 = u32 L /\ L <= 2 ^ 32 - 1 /\ 0 <= p.1 /\ 0 <= p.1 + L /\
  p.1 + L + 2 <= len inp /\ p.1 <= len inp.
Definition entries_ok (inp : bytes) (r : Redis) : Prop :=
  Forall (fun p => exists L, entry inp p L) r.(ai).

Lemma readBulk_entries inp r r' :
  cursor_ok inp r -> entries_ok inp r -> readBulk inp r = Ok r' -> entries_ok inp r'.
Proof.
  intros Hc He Hb. pose proof (readBulk_outcome inp r Hc) as Ho. rewrite Hb in Ho.
  inversion Ho; subst. unfold entries_ok in *. cbn. apply Forall_app. split; [done|].
  apply Forall_singleton. exists length_. unfold entry, cursor_ok in *. cbn. lia.
Qed.

Lemma readBulks_entries todo inp r r' res :
  cursor_ok inp r -> entries_ok inp r -> readBulks todo inp r = (r', res) -> entries_ok inp r'.
Proof.
  revert r. induction todo as [|todo IH]; intros r Hc He; simpl; [by intros [= <- _]|].
  destruct (readBulk inp r) as [r1|e| |] eqn:Hb; try by intros [= <- _].
  intros Hr. eapply IH; [..|exact Hr].
  - by eapply readBulk_cursor.
  - by eapply readBulk_entries.
Qed.

(** A length that reaches back before the buffer. *)
Lemma readBulk_negative inp r L w :
  cursor_ok inp r ->
  readByteAndNumberCrLf 36 (drop (Z.to_nat r.(read)) inp) = Ok (L, w) ->
  r.(read) + w + L < 0 -> readBulk inp r = Panic.
Proof.
  intros [Hr Hl] Hh Hx.
  destruct (readHeader_cases 36 ltac:(done) (drop (Z.to_nat r.(read)) inp))
    as [H|[H|[[e H]|(v & w' & H & Hw & Hv)]]]; rewrite Hh in H; try done.
  - injection H as -> ->. lia.
  - injection H as <- <-. rewrite len_drop in Hw.
    unfold strconv.minInt64, strconv.maxInt64 in Hv.
    destruct (slice_from_is_Some inp r.(read) Hr) as [rest Hrest].
    apply slice_from_Some in Hrest as Hd. destruct Hd as [_ Hd].
    unfold readBulk. rewrite Hrest, Hd. cbn [checked rbind]. rewrite Hh. cbn [rbind].
    destruct (Z.eqb_spec w 0); [lia|]. destruct (Z.ltb_spec (2 ^ 32 - 1) L); [lia|].
    cbn zeta. rewrite (i64_small (r.(read) + w + L)) by lia. rewrite i64_small by lia.
    destruct (Z.ltb_spec (len inp) (r.(read) + w + L + 2)); [lia|].
    unfold at_ at 1. by rewrite bool_decide_false by lia.
Qed.

(** ** Properties *)

(** reading the next argument panics exactly when its header announces a
    negative length that reaches back before the start of the buffer. *)
Theorem readBulk_panic_iff inp r :
  cursor_ok inp r ->
  readBulk inp r = Panic <->
  exists length_ w,
    readByteAndNumberCrLf 36 (drop (Z.to_nat r.(read)) inp) = Ok (length_, w) /\
    r.(read) + w + length_ < 0.
Proof.
  intros Hc. pose proof (readBulk_outcome inp r Hc) as Ho. split.
  - intros Hb. rewrite Hb in Ho. inversion Ho; eauto.
  - intros (L & w & Hh & Hx). by apply (readBulk_negative inp r L w).
Qed.

Lemma readBulk_panic_iff_witness :
  let inp := bs "*1" ++ crlf ++ bs "$-100" ++ crlf in
  let r := mkRedis [] 4 1 [] in
  cursor_ok inp r /\ readBulk inp r = Panic.
Proof.
  intros inp r. assert (cursor_ok inp r) as Hc by (unfold cursor_ok; vm_compute; intuition congruence).
  split; [exact Hc|]. apply (readBulk_panic_iff inp r Hc).
  exists (-100), 7. split; [by vm_compute|]. vm_compute. reflexivity.
Defined.

(** [Get] of an argument whose announced length was not negative returns its
    bytes; of an argument accepted with a negative length it panics, because the
    32-bit sum of start and length wraps below the start. *)
Theorem Get_entry r i p L :
  len r.(data) < 2 ^ 32 -> at_ r.(ai) i = Some p -> entry r.(data) p L ->
  Get r i
  = if L <? 0 then Panic
    else Ok (Some (take (Z.to_nat L) (drop (Z.to_nat p.1) r.(data)))).
Proof.
  intros Hl Hi (Hn & HL & Ha & Hx & Hend & Hal). unfold Get.
  assert (i < len r.(ai)) as Hil.
  { unfold at_ in Hi. case_bool_decide; [|done]. apply lookup_lt_Some in Hi.
    unfold len. lia. }
  destruct (Z.ltb_spec i (len r.(ai))); [|lia]. rewrite Hi. cbn [checked rbind].
  assert (u32 (p.1 + p.2) = p.1 + L) as ->.
  { rewrite Hn. unfold u32. rewrite Zplus_mod_idemp_r. apply Z.mod_small. lia. }
  destruct (Z.ltb_spec L 0).
  - unfold slice. by rewrite bool_decide_false by lia.
  - unfold slice. rewrite bool_decide_true by lia. cbn [checked rbind].
    do 3 f_equal. lia.
Qed.

Lemma Get_entry_witness :
  let d := bs "*1" ++ crlf ++ bs "$-2" ++ crlf in
  let r := mkRedis d 9 1 [(9, 2 ^ 32 - 2)] in
  entry d (9, 2 ^ 32 - 2) (-2) /\ Get r 0 = Panic.
Proof.
  intros d r.
  assert (entry d (9, 2 ^ 32 - 2) (-2)) as He by (vm_compute; intuition congruence).
  split; [exact He|].
  apply (Get_entry r 0 (9, 2 ^ 32 - 2) (-2) eq_refl eq_refl He).
Defined.

(** the header [$-2\r\n] is accepted as an argument wherever it stands: its
    end "before" the header is the header's own line break. *)
Theorem readBulk_accepts_minus_two pre post r :
  r.(read) = len pre -> len (pre ++ bs "$-2" ++ crlf ++ post) < 2 ^ 32 ->
  readBulk (pre ++ bs "$-2" ++ crlf ++ post) r
  = Ok {| data := r.(data); read := len pre + 5; nargs := r.(nargs);
          ai := r.(ai) ++ [(len pre + 5, 2 ^ 32 - 2)] |}.
Proof.
  intros Hr Hl. pose proof (len_nonneg pre). pose proof (len_nonneg post).
  unfold readBulk. rewrite Hr, slice_suffix by done. cbn [checked rbind].
  pose proof (readHeader_resp_header 36 ltac:(done) (-2) post ltac:(vm_compute; intuition congruence)) as E.
  change (resp_header 36 (-2)) with (bs "$-2" ++ crlf) in E. rewrite <- app_assoc in E.
  rewrite E. change (len (bs "$-2" ++ crlf)) with 5. cbn [rbind].
  rewrite !len_app in *. change (len (bs "$-2")) with 3 in *. change (len crlf) with 2 in *.
  change (5 =? 0) with false. change (2 ^ 32 - 1 <? -2) with false. cbn zeta iota.
  rewrite (i64_small (len pre + 5 + -2)) by lia. rewrite !i64_small by lia.
  destruct (Z.ltb_spec (len pre + (3 + (2 + len post))) (len pre + 5 + -2 + 2)); [lia|].
  replace (pre ++ bs "$-2" ++ crlf ++ post) with ((pre ++ bs "$-2") ++ CR :: LF :: post)
    by by app_norm.
  replace (len pre + 5 + -2) with (len (pre ++ bs "$-2"))
    by (rewrite len_app; change (len (bs "$-2")) with 3; lia).
  rewrite at_middle. cbn [checked rbind]. change (negb (CR =? CR)) with false. cbn iota.
  replace ((pre ++ bs "$-2") ++ CR :: LF :: post)
    with (((pre ++ bs "$-2") ++ [CR]) ++ LF :: post) by by app_norm.
  replace (len (pre ++ bs "$-2") + 1) with (len ((pre ++ bs "$-2") ++ [CR]))
    by (rewrite (len_app _ [CR]); done).
  rewrite at_middle. cbn [checked rbind]. change (negb (LF =? LF)) with false. cbn iota.
  change (u32 (5 + -2 + 2)) with 5. change (u32 5) with 5. change (u32 (-2)) with (2 ^ 32 - 2).
  by rewrite !u32_small by lia.
Qed.

Lemma readBulk_accepts_minus_two_witness :
  let inp := (bs "*1" ++ crlf) ++ bs "$-2" ++ crlf ++ [] in
  readBulk inp (mkRedis [] 4 1 []) = Ok (mkRedis [] 9 1 [(9, 2 ^ 32 - 2)]).
Proof.
  intros inp.
  apply (readBulk_accepts_minus_two (bs "*1" ++ crlf) [] (mkRedis [] 4 1 [])); reflexivity.
Defined.
