(* ===== verification/Ws.v ===== *)
(** Websocket frames (src/ws.go): parsing a client's frame in place, writing a
    server's frame, and the reassembly of fragmented messages. *)

From S2P Require Import Prelude GoStd Util.
Import binary.

(** ** Data *)

(** [wsFrame]; its field [len] is [flen] here. *)
Record wsFrame := mkFrame {
  data : bytes;
  opcode : byte;
  fin : bool;
  flen : Z;
}.

#[export] Instance wsFrame_eq_dec : EqDecision wsFrame.
Proof. solve_decision. Defined.

(** [Websocket] without the connection; [contFrame] is [None] when Go's slice is
    [nil] (an empty slice that is not [nil] is [Some []]). *)
Record Websocket := mkWebsocket {
  parsedFrame : wsFrame;
  contFrame : option bytes;
  closed : bool;
  closingData : option bytes;
}.

Definition newWebsocket : Websocket := mkWebsocket (mkFrame [] 0 false 0) None false None.

(** ** Parsing *)

(** [data[i] ^= mask[i%4]] for each [i]. *)
Fixpoint unmask (i : nat) (mask data : bytes) : bytes :=
  match data with
  | [] => []
  | b :: data => Z.lxor b (mask !!! (i mod 4)%nat) :: unmask (S i) mask data
  end.

(** The end of [parse]: header of width [off], mask at [off-4]. *)
Definition take_frame (inp : bytes) (op : byte) (f : bool) (size off : Z) : bytes * res error wsFrame :=
  match slice inp (off - 4) off, slice inp off (i64 (off + size)) with
  | Some mask, Some d =>
      let d := unmask 0 mask d in
      (overwrite inp (Z.to_nat off) d, Ok (mkFrame d op f (i64 (off + size))))
  | _, _ => (inp, Panic)
  end.

(** [parse(in)]: the buffer after it and the frame. *)
Definition ws_parse (inp : bytes) : bytes * res error wsFrame :=
  if len inp <? 2 then (inp, Err errWaitMore)
  else
    match at_ inp 0, at_ inp 1 with
    | Some b0, Some b1 =>
        let op := Z.land b0 15 in
        let f := 0 <? Z.shiftr b0 7 in
        let size := Z.land b1 127 in
        if size =? 126 then
          if len inp <? 2 + 2 + 4 then (inp, Err errWaitMore)
          else
            match slice inp 2 4 with
            | None => (inp, Panic)
            | Some l =>
                let size := be_decode l in
                if len inp <? i64 (2 + 2 + 4 + size) then (inp, Err errWaitMore)
                else take_frame inp op f size 8
            end
        else if size =? 127 then
          if len inp <? 2 + 2 + 6 + 4 then (inp, Err errWaitMore)
          else
            match slice inp 2 10 with
            | None => (inp, Panic)
            | Some l =>
                let size := i64 (be_decode l) in
                if len inp <? i64 (2 + 2 + 6 + 4 + size) then (inp, Err errWaitMore)
                else take_frame inp op f size 14
            end
        else if len inp <? 2 + 4 + size then (inp, Err errWaitMore)
        else take_frame inp op f size 6
    | _, _ => (inp, Panic)
    end.

(** ** Writing *)

(** The bytes that [write(typ, p)] hands to [Conn.Write]. *)
Definition ws_frame (typ : byte) (p : bytes) : bytes :=
  let tmp := [Z.lor 128 typ] in
  let tmp :=
    if len p <? 126 then tmp ++ [u8 (len p)]
    else if len p <? 65536 then
      let v := u16 (len p) in tmp ++ [126; u8 (Z.shiftr v 8); u8 v]
    else tmp ++ [127] ++ be_encode 8 (u64 (len p)) in
  tmp ++ p.

Definition WriteText (msg : bytes) : bytes := ws_frame 1 msg.
Definition WriteBinary (p : bytes) : bytes := ws_frame 2 p.

(** [Close()]: the flag, and the frame it writes. *)
Definition Close (ws : Websocket) : Websocket * bytes :=
  (mkWebsocket ws.(parsedFrame) ws.(contFrame) true ws.(closingData),
   ws_frame 8 (bs "websocket: close 1000 (normal)")).

(** ** Messages *)

(** What [onWebsocket] does outside the [Websocket], in order. *)
Inductive ws_event :=
| OnWSData (p : bytes)
| WriteFrame (b : bytes)
| CloseConn (errType : bytes) (err : option bytes).

#[export] Instance ws_event_eq_dec : EqDecision ws_event.
Proof. solve_decision. Defined.

Definition set_contFrame (f : option bytes) (ws : Websocket) : Websocket :=
  mkWebsocket ws.(parsedFrame) f ws.(closed) ws.(closingData).

Section messages.
Context `{Env}.

(** [onWebsocket(req, c)] on [c.ws]. *)
Definition onWebsocket (req : wsFrame) (ws : Websocket) : Websocket * list ws_event * bool :=
  match req.(opcode) with
  | 0 =>
      match ws.(contFrame) with
      | None => (ws, [CloseConn (bs "websocket") (Some (bs "unexpected continuation frame"))], false)
      | Some cf =>
          let cf := cf ++ req.(data) in
          let ws := set_contFrame (Some cf) ws in
          if RequestMaxBytes <? len cf then
            (ws, [CloseConn (bs "websocket") (Some (bs "continuation frame too large"))], false)
          else if req.(fin) then (set_contFrame None ws, [OnWSData cf], true)
          else (ws, [], true)
      end
  | 8 =>
      (mkWebsocket ws.(parsedFrame) ws.(contFrame) ws.(closed) (Some req.(data)),
       [CloseConn [] None], false)
  | 9 => (ws, [WriteFrame (ws_frame 10 req.(data))], true)
  | 10 => (ws, [], true)
  | _ =>
      if req.(fin) then (ws, [OnWSData req.(data)], true)
      else (set_contFrame (Some req.(data)) ws, [], true)
  end.

(** The frames of a connection one after the other, as the loop of [readConn]
    hands them over; the last component tells whether it is still open. *)
Fixpoint ws_run (frames : list wsFrame) (ws : Websocket) : Websocket * list ws_event * bool :=
  match frames with
  | [] => (ws, [], true)
  | f :: frames =>
      let '(ws, ev, more) := onWebsocket f ws in
      if more : bool then
        let '(ws, ev', more) := ws_run frames ws in (ws, ev ++ ev', more)
      else (ws, ev, false)
  end.
End messages.

(** ** Lemmas *)

Lemma length_unmask i mask d : length (unmask i mask d) = length d.
Proof. revert i. induction d as [|b d IH]; intros i; simpl; [done|by rewrite IH]. Qed.

Lemma unmask_involutive i mask d : unmask i mask (unmask i mask d) = d.
Proof.
  revert i. induction d as [|b d IH]; intros i; simpl; [done|].
  by rewrite Z.lxor_assoc, Z.lxor_nilpotent, Z.lxor_0_r, IH.
Qed.

(** ** The wire format

    A client's frame: flags and opcode, mask bit and length (7 bits, or 126 and
    16 bits, or 127 and 64 bits), masking key, masked payload. *)

Definition frame_b0 (f : bool) (rsv op : Z) : byte := (if f then 128 else 0) + rsv * 16 + op.

Definition length_field (maskbit n : Z) : bytes :=
  if n <? 126 then [maskbit * 128 + n]
  else if n <? 65536 then (maskbit * 128 + 126) :: be_encode 2 n
  else (maskbit * 128 + 127) :: be_encode 8 n.

Definition client_header (f : bool) (rsv op maskbit : Z) (key : bytes) (n : Z) : bytes :=
  frame_b0 f rsv op :: length_field maskbit n ++ key.

(** The payload under the mask: the key over and over, added to the payload. *)
Definition masked (key p : bytes) : bytes :=
  zip_with Z.lxor p (concat (replicate (length p) key)).

Definition client_frame (f : bool) (rsv op : Z) (key p : bytes) : bytes :=
  client_header f rsv op 1 key (len p) ++ masked key p.

Lemma lookup_unmask i mask d j :
  unmask i mask d !! j = (fun b => Z.lxor b (mask !!! ((i + j) mod 4)%nat)) <$> d !! j.
Proof.
  revert i j. induction d as [|b d IH]; intros i [|j]; cbn [unmask lookup list_lookup]; try done.
  - by rewrite Nat.add_0_r.
  - change (list_lookup j ?l) with (l !! j). rewrite IH. by replace (S i + j)%nat with (i + S j)%nat by lia.
Qed.

Lemma lookup_cycle (key : bytes) n j :
  length key = 4%nat -> (j < 4 * n)%nat ->
  concat (replicate n key) !! j = Some (key !!! (j mod 4)%nat).
Proof.
  intros Hk. revert j. induction n as [|n IH]; intros j Hj; [lia|]. cbn [replicate concat].
  destruct (decide (j < 4)%nat) as [Hs|Hs].
  - rewrite lookup_app_l by lia. rewrite Nat.mod_small by done. apply list_lookup_lookup_total_lt. lia.
  - rewrite lookup_app_r by lia. rewrite Hk, IH by lia. do 2 f_equal.
    replace j with (j - 4 + 1 * 4)%nat at 2 by lia. by rewrite Nat.Div0.mod_add.
Qed.

Lemma masked_unmask key p : length key = 4%nat -> masked key p = unmask 0 key p.
Proof.
  intros Hk. apply list_eq. intros j. unfold masked. rewrite lookup_unmask, lookup_zip_with.
  destruct (p !! j) as [b|] eqn:E; cbn [mbind option_bind fmap option_fmap option_map]; [|done].
  apply lookup_lt_Some in E. by rewrite lookup_cycle by lia.
Qed.

(** A client's reading of a server's frame (final, not masked, shortest length):
    the opcode, the payload and what follows. *)
Definition server_payload (op : byte) (n : Z) (l : bytes) : option (byte * bytes * bytes) :=
  if n <=? len l then Some (op, take (Z.to_nat n) l, drop (Z.to_nat n) l) else None.

Definition server_long (op : byte) (k : nat) (lo hi : Z) (l : bytes) : option (byte * bytes * bytes) :=
  let n := be_decode (take k l) in
  if (Z.of_nat k <=? len l) && (lo <=? n) && (n <? hi) then server_payload op n (drop k l)
  else None.

Definition server_frame (l : bytes) : option (byte * bytes * bytes) :=
  match l with
  | b0 :: b1 :: l =>
      let op := b0 - 128 in
      if (0 <=? op) && (op <? 16) then
        if b1 <? 126 then server_payload op b1 l
        else if b1 =? 126 then server_long op 2 126 65536 l
        else if b1 =? 127 then server_long op 8 65536 (2 ^ 63) l
        else None
      else None
  | _ => None
  end.

Lemma server_payload_app op p rest : server_payload op (len p) (p ++ rest) = Some (op, p, rest).
Proof.
  unfold server_payload. rewrite len_app. pose proof (len_nonneg rest).
  destruct (Z.leb_spec (len p) (len p + len rest)); [|lia].
  unfold len. rewrite Nat2Z.id. by rewrite take_app_length, drop_app_length.
Qed.

Lemma server_long_app op k lo hi p rest :
  lo <= len p < hi -> hi <= 256 ^ Z.of_nat k ->
  server_long op k lo hi (be_encode k (len p) ++ p ++ rest) = Some (op, p, rest).
Proof.
  intros Hp Hk. pose proof (len_nonneg p). unfold server_long.
  pose proof (length_be_encode k (len p)) as Hl.
  rewrite take_app_length', drop_app_length' by done. rewrite be_decode_encode by lia. cbn zeta.
  rewrite server_payload_app. rewrite (len_app (be_encode k (len p))). unfold len at 1. rewrite Hl.
  pose proof (len_nonneg (p ++ rest)). zb; (done || lia).
Qed.

Lemma frame_b0_fields f rsv op :
  0 <= rsv < 8 -> 0 <= op < 16 ->
  Z.land (frame_b0 f rsv op) 15 = op /\ (0 <? Z.shiftr (frame_b0 f rsv op) 7) = f.
Proof.
  intros Hr Ho. unfold frame_b0. change 15 with (Z.ones 4).
  rewrite Z.land_ones, Z.shiftr_div_pow2 by lia. change (2 ^ 4) with 16. change (2 ^ 7) with 128.
  destruct f.
  - split; [symmetry; apply (Z.mod_unique _ _ (8 + rsv)); lia|].
    apply Z.ltb_lt. replace ((128 + rsv * 16 + op) / 128) with 1; [lia|].
    apply (Z.div_unique _ _ _ (rsv * 16 + op)); lia.
  - split; [symmetry; apply (Z.mod_unique _ _ rsv); lia|].
    by rewrite Z.div_small by lia.
Qed.

Lemma length_byte maskbit n : 0 <= maskbit < 2 -> 0 <= n < 128 -> Z.land (maskbit * 128 + n) 127 = n.
Proof.
  intros Hm Hn. change 127 with (Z.ones 7). rewrite Z.land_ones by lia. change (2 ^ 7) with 128.
  symmetry. apply (Z.mod_unique _ _ maskbit); lia.
Qed.

Lemma take_frame_at hdr key d post op f off :
  length key = 4%nat -> off = len (hdr ++ key) -> off + len d < 2 ^ 63 ->
  take_frame (hdr ++ key ++ d ++ post) op f (len d) off
  = (hdr ++ key ++ unmask 0 key d ++ post,
     Ok (mkFrame (unmask 0 key d) op f (off + len d))).
Proof.
  intros Hk -> Hb. rewrite len_app in *. unfold take_frame.
  pose proof (len_nonneg hdr). pose proof (len_nonneg d).
  assert (len key = 4) as Hk4 by (unfold len; lia).
  rewrite (slice_middle hdr key) by lia.
  rewrite i64_small by lia. rewrite app_assoc, (slice_middle (hdr ++ key) d) by (rewrite ?len_app; lia).
  f_equal. rewrite (app_assoc hdr key).
  replace (Z.to_nat (len hdr + len key)) with (length (hdr ++ key))
    by (rewrite length_app; unfold len; lia).
  apply overwrite_middle, length_unmask.
Qed.

Lemma ltb_eq a b c d : a - b = c - d -> (a <? b) = (c <? d).
Proof. intros. destruct (Z.ltb_spec a b), (Z.ltb_spec c d); lia. Qed.

(** Parsing a header whose payload is [n] bytes long. *)
Lemma ws_parse_header f rsv op mb key n t :
  0 <= rsv < 8 -> 0 <= op < 16 -> 0 <= mb < 2 -> length key = 4%nat -> 0 <= n < 2 ^ 62 ->
  let hdr := client_header f rsv op mb key n in
  ws_parse (hdr ++ t)
  = if len t <? n then (hdr ++ t, Err errWaitMore)
    else take_frame (hdr ++ t) op f n (len hdr).
Proof.
  intros Hr Ho Hm Hk Hn hdr.
  destruct (frame_b0_fields f rsv op Hr Ho) as [Eop Efin].
  assert (len key = 4) as Hk4 by (unfold len; lia).
  unfold ws_parse. pose proof (len_nonneg t).
  unfold hdr, client_header, length_field.
  destruct (Z.ltb_spec n 126); [|destruct (Z.ltb_spec n 65536)].
  - cbn [app]. set (tl := _ :: _ :: _).
    assert (len tl = 6 + len t) as Hl by (unfold tl; autorewrite with len; lia).
    rewrite Hl. destruct (Z.ltb_spec (6 + len t) 2); [lia|].
    change (at_ tl 0) with (Some (frame_b0 f rsv op)).
    change (at_ tl 1) with (Some (mb * 128 + n)). cbn iota beta zeta.
    rewrite Eop, Efin, length_byte by lia.
    destruct (Z.eqb_spec n 126); [lia|]. destruct (Z.eqb_spec n 127); [lia|].
    rewrite (ltb_eq (6 + len t) (2 + 4 + n) (len t) n) by lia. by rewrite !len_cons, Hk4.
  - cbn [app]. set (tl := _ :: _ :: _).
    assert (len (be_encode 2 n) = 2) as Hb by (unfold len; by rewrite length_be_encode).
    assert (len tl = 8 + len t) as Hl by (unfold tl; rewrite !len_cons, !len_app; lia).
    rewrite Hl. destruct (Z.ltb_spec (8 + len t) 2); [lia|].
    change (at_ tl 0) with (Some (frame_b0 f rsv op)).
    change (at_ tl 1) with (Some (mb * 128 + 126)). cbn iota beta zeta.
    rewrite Eop, Efin, length_byte by lia. cbn [Z.eqb Pos.eqb].
    destruct (Z.ltb_spec (8 + len t) (2 + 2 + 4)); [lia|].
    assert (slice tl 2 4 = Some (be_encode 2 n)) as ->.
    { unfold tl. rewrite <- app_assoc.
      apply (slice_middle [frame_b0 f rsv op; mb * 128 + 126] (be_encode 2 n)); [done|].
      rewrite Hb. done. }
    rewrite be_decode_encode by (change (256 ^ Z.of_nat 2) with 65536; lia).
    rewrite i64_small, (ltb_eq (8 + len t) (2 + 2 + 4 + n) (len t) n) by lia.
    by rewrite !len_cons, len_app, Hk4, Hb.
  - cbn [app]. set (tl := _ :: _ :: _).
    assert (len (be_encode 8 n) = 8) as Hb by (unfold len; by rewrite length_be_encode).
    assert (len tl = 14 + len t) as Hl by (unfold tl; rewrite !len_cons, !len_app; lia).
    rewrite Hl. destruct (Z.ltb_spec (14 + len t) 2); [lia|].
    change (at_ tl 0) with (Some (frame_b0 f rsv op)).
    change (at_ tl 1) with (Some (mb * 128 + 127)). cbn iota beta zeta.
    rewrite Eop, Efin, length_byte by lia. cbn [Z.eqb Pos.eqb].
    destruct (Z.ltb_spec (14 + len t) (2 + 2 + 6 + 4)); [lia|].
    assert (slice tl 2 10 = Some (be_encode 8 n)) as ->.
    { unfold tl. rewrite <- app_assoc.
      apply (slice_middle [frame_b0 f rsv op; mb * 128 + 127] (be_encode 8 n)); [done|].
      rewrite Hb. done. }
    rewrite be_decode_encode by (change (256 ^ Z.of_nat 8) with (2 ^ 64); lia).
    rewrite (i64_small n) by lia. rewrite i64_small by lia.
    rewrite (ltb_eq (14 + len t) (2 + 2 + 6 + 4 + n) (len t) n) by lia.
    by rewrite !len_cons, len_app, Hk4, Hb.
Qed.

(** ** Waiting *)

Lemma take_frame_stable inp t op f size off inp' r :
  4 <= off <= len inp -> i64 (off + size) <= len inp ->
  take_frame inp op f size off = (inp', r) ->
  take_frame (inp ++ t) op f size off = (inp' ++ t, r) /\
  length inp' = length inp /\ r <> Err errWaitMore /\
  (forall fr, r = Ok fr -> 0 < fr.(flen) <= len inp).
Proof.
  intros Ho Hb. unfold take_frame. rewrite !slice_app_le by lia.
  destruct (slice inp (off - 4) off) as [mask|]; [|by intros [= <- <-]].
  destruct (slice inp off (i64 (off + size))) as [d|] eqn:Hd; [|by intros [= <- <-]].
  apply slice_Some in Hd as (Hod & _ & Hd).
  intros [= <- <-].
  assert (Z.to_nat off + length (unmask 0 mask d) <= length inp)%nat as Hlen.
  { rewrite length_unmask, Hd, length_take, length_drop. unfold len in *. lia. }
  rewrite overwrite_app by done. split_and!; [done|by apply length_overwrite|done|].
  intros fr [= <-]. cbn [flen]. lia.
Qed.

(** What [ws_parse] answers on a prefix it answers on the whole, unless it waits;
    waiting leaves the buffer as it was. *)
Lemma ws_parse_stable inp t inp' r :
  ws_parse inp = (inp', r) ->
  length inp' = length inp /\
  if decide (r = Err errWaitMore) then inp' = inp
  else ws_parse (inp ++ t) = (inp' ++ t, r) /\
       (forall fr, r = Ok fr -> 0 < fr.(flen) <= len inp).
Proof.
  intros Hp. unfold ws_parse in *. rewrite len_app. pose proof (len_nonneg t).
  destruct (Z.ltb_spec (len inp) 2); [injection Hp as <- <-; by rewrite decide_True|].
  destruct (Z.ltb_spec (len inp + len t) 2); [lia|]. rewrite !at_app_lt by lia.
  destruct (at_is_Some inp 0) as [b0 E0]; [lia|]. destruct (at_is_Some inp 1) as [b1 E1]; [lia|].
  rewrite E0, E1 in *. cbn zeta in *.
  assert (forall need size off, 4 <= off -> (need <= len inp -> off <= len inp) ->
    i64 (off + size) <= need ->
    (if len inp <? need then (inp, Err errWaitMore)
     else take_frame inp (Z.land b0 15) (0 <? b0 ≫ 7) size off) = (inp', r) ->
    length inp' = length inp /\
    if decide (r = Err errWaitMore) then inp' = inp
    else (if len inp + len t <? need then (inp ++ t, Err errWaitMore)
          else take_frame (inp ++ t) (Z.land b0 15) (0 <? b0 ≫ 7) size off) = (inp' ++ t, r) /\
         (forall fr, r = Ok fr -> 0 < fr.(flen) <= len inp)) as Hgen.
  { intros need size off H4 Ho Hn. destruct (Z.ltb_spec (len inp) need).
    - intros [= <- <-]. by rewrite decide_True.
    - intros Ht. specialize (Ho ltac:(lia)). destruct (Z.ltb_spec (len inp + len t) need); [lia|].
      destruct (take_frame_stable inp t _ _ size off _ _ ltac:(lia) ltac:(lia) Ht) as (-> & ? & ? & ?).
      by rewrite decide_False. }
  pose proof (Z.land_ones b1 7 ltac:(lia)) as Hsz. change (Z.ones 7) with 127 in Hsz.
  pose proof (Z.mod_pos_bound b1 (2 ^ 7) ltac:(lia)).
  destruct (Z.eqb_spec (Z.land b1 127) 126); [|destruct (Z.eqb_spec (Z.land b1 127) 127)].
  - destruct (Z.ltb_spec (len inp) (2 + 2 + 4)); [injection Hp as <- <-; by rewrite decide_True|].
    destruct (Z.ltb_spec (len inp + len t) (2 + 2 + 4)); [lia|]. rewrite slice_app_le by lia.
    destruct (slice inp 2 4); [|injection Hp as <- <-; by rewrite decide_False].
    apply Hgen; [lia..| |exact Hp]. change (2 + 2 + 4) with 8. lia.
  - destruct (Z.ltb_spec (len inp) (2 + 2 + 6 + 4)); [injection Hp as <- <-; by rewrite decide_True|].
    destruct (Z.ltb_spec (len inp + len t) (2 + 2 + 6 + 4)); [lia|]. rewrite slice_app_le by lia.
    destruct (slice inp 2 10); [|injection Hp as <- <-; by rewrite decide_False].
    apply Hgen; [lia..| |exact Hp]. change (2 + 2 + 6 + 4) with 14. lia.
  - apply Hgen; [lia..| |exact Hp]. rewrite i64_small; lia.
Qed.

(** There is no loop to run out of fuel. *)
Lemma ws_parse_fuel inp : (ws_parse inp).2 <> OutOfFuel.
Proof.
  unfold ws_parse, take_frame. destruct (_ <? _); [done|].
  destruct (at_ inp 0), (at_ inp 1); try done. cbn zeta.
  repeat match goal with
         | |- context [if ?b then _ else _] => destruct b
         | |- context [match ?o with Some _ => _ | None => _ end] => destruct o
         end; done.
Qed.

Lemma len_length_field mb n : 1 <= len (length_field mb n) <= 9.
Proof.
  unfold length_field, len. destruct (n <? 126); [simpl; lia|].
  destruct (n <? 65536); cbn [length]; rewrite length_be_encode; lia.
Qed.

Lemma ws_parse_whole f rsv op key p rest :
  0 <= rsv < 8 -> 0 <= op < 16 -> length key = 4%nat -> len p < 2 ^ 62 ->
  let hdr := client_header f rsv op 1 key (len p) in
  ws_parse (client_frame f rsv op key p ++ rest)
  = (hdr ++ p ++ rest, Ok (mkFrame p op f (len (client_frame f rsv op key p)))).
Proof.
  intros Hr Ho Hk Hp hdr. unfold client_frame. rewrite masked_unmask by done.
  fold hdr. rewrite <- app_assoc.
  pose proof (len_nonneg p). pose proof (len_nonneg rest). pose proof (len_nonneg hdr).
  assert (len (unmask 0 key p) = len p) as Hlu by (unfold len; by rewrite length_unmask).
  unfold hdr at 1. rewrite ws_parse_header by (done || lia). fold hdr.
  destruct (Z.ltb_spec (len (unmask 0 key p ++ rest)) (len p)); [rewrite len_app in *; lia|].
  rewrite len_app, Hlu.
  pose proof (len_length_field 1 (len p)).
  unfold hdr, client_header in *. set (h := frame_b0 f rsv op :: length_field 1 (len p)).
  replace (frame_b0 f rsv op :: length_field 1 (len p) ++ key) with (h ++ key) in * by done.
  rewrite <- !app_assoc. rewrite <- Hlu at 1. rewrite take_frame_at; [|done|done|].
  - by rewrite unmask_involutive, Hlu.
  - rewrite Hlu, len_app. assert (len key = 4) as -> by (unfold len; lia).
    unfold h. rewrite len_cons. lia.
Qed.

Lemma ws_parse_strict f rsv op key pl p q :
  0 <= rsv < 8 -> 0 <= op < 16 -> length key = 4%nat -> len pl < 2 ^ 62 ->
  client_frame f rsv op key pl = p ++ q -> q <> [] ->
  ws_parse p = (p, Err errWaitMore).
Proof.
  intros Hr Ho Hk Hp Hpq Hq. destruct (ws_parse p) as [p' r] eqn:E.
  destruct (ws_parse_stable p q p' r E) as [_ Hs]. case_decide as Hw; [by subst|].
  exfalso. destruct Hs as [Hs Hf]. rewrite <- Hpq in Hs.
  pose proof (ws_parse_whole f rsv op key pl [] Hr Ho Hk Hp) as Hc.
  rewrite !app_nil_r, Hs in Hc.
  injection Hc as _ ->. specialize (Hf _ eq_refl). cbn [flen] in Hf.
  rewrite Hpq, len_app in Hf. apply Hq, len_0_inv. pose proof (len_nonneg q). lia.
Qed.

(** ** Properties *)

(** C33: a client's frame of any length is parsed to its final bit, its opcode and
    its payload without the mask, whatever follows it (and whatever its reserved
    bits); only its payload is rewritten in the buffer. *)
Theorem ws_parse_client_frame f rsv op key p rest :
  0 <= rsv < 8 -> 0 <= op < 16 -> length key = 4%nat -> len p < 2 ^ 62 ->
  let hdr := client_header f rsv op 1 key (len p) in
  ws_parse (client_frame f rsv op key p ++ rest)
  = (hdr ++ p ++ rest, Ok (mkFrame p op f (len (client_frame f rsv op key p)))).
Proof. apply ws_parse_whole. Qed.

Lemma ws_parse_client_frame_witness :
  ws_parse (client_frame true 0 1 [1; 2; 3; 4] (bs "hello") ++ bs "more")
  = ([129; 133; 1; 2; 3; 4] ++ bs "hello" ++ bs "more", Ok (mkFrame (bs "hello") 1 true 11)).
Proof. apply (ws_parse_client_frame true 0 1 [1; 2; 3; 4] (bs "hello") (bs "more")); by vm_compute. Defined.

(** a strict prefix of a client's frame is never taken for a frame or
    refused, and the bytes received so far stay as they were. *)
Theorem ws_parse_prefix f rsv op key pl p q :
  0 <= rsv < 8 -> 0 <= op < 16 -> length key = 4%nat -> len pl < 2 ^ 62 ->
  client_frame f rsv op key pl = p ++ q -> q <> [] ->
  ws_parse p = (p, Err errWaitMore).
Proof. apply ws_parse_strict. Qed.

Lemma ws_parse_prefix_witness :
  ws_parse [129; 254; 0; 200; 1; 2; 3; 4; 5] = ([129; 254; 0; 200; 1; 2; 3; 4; 5], Err errWaitMore).
Proof.
  apply (ws_parse_prefix true 0 1 [1; 2; 3; 4] (4 :: repeat 0 199)
           [129; 254; 0; 200; 1; 2; 3; 4; 5] (drop 9 (client_frame true 0 1 [1; 2; 3; 4] (4 :: repeat 0 199))));
    by vm_compute.
Defined.

Lemma take_frame_fits inp op f size off :
  4 <= off -> off <= i64 (off + size) -> i64 (off + size) <= len inp ->
  (take_frame inp op f size off).2 <> Panic.
Proof.
  intros H4 Ho Hb. unfold take_frame.
  destruct (slice_is_Some inp (off - 4) off) as [? ->]; [lia..|].
  by destruct (slice_is_Some inp off (i64 (off + size))) as [? ->]; [lia..|].
Qed.

Lemma take_frame_negative inp op f size off :
  i64 (off + size) < off -> (take_frame inp op f size off).2 = Panic.
Proof.
  intros Ho. unfold take_frame. destruct (slice inp (off - 4) off); [|done].
  unfold slice. by rewrite bool_decide_false by lia.
Qed.

(** A length of 16 bits or less cannot make the parser panic. *)
Lemma ws_parse_short inp b1 :
  Forall is_byte inp -> len inp < 2 ^ 62 -> at_ inp 1 = Some b1 -> Z.land b1 127 <> 127 ->
  (ws_parse inp).2 <> Panic.
Proof.
  intros Hby Hl E1 E127. unfold ws_parse.
  destruct (Z.ltb_spec (len inp) 2); [done|].
  destruct (at_is_Some inp 0) as [b0 E0]; [lia|]. rewrite E0, E1. cbn zeta.
  pose proof (Z.land_ones b1 7 ltac:(lia)) as Hsz. change (Z.ones 7) with 127 in Hsz.
  pose proof (Z.mod_pos_bound b1 (2 ^ 7) ltac:(lia)).
  destruct (Z.eqb_spec (Z.land b1 127) 126) as [E126|E126].
  - destruct (Z.ltb_spec (len inp) (2 + 2 + 4)); [done|].
    destruct (slice_is_Some inp 2 4) as [l Hs]; [lia..|]. rewrite Hs.
    pose proof (slice_len _ _ _ _ Hs) as Hsl. apply slice_Some in Hs as (_ & _ & Hs).
    assert (Forall is_byte l) as Hlb by (subst l; by apply Forall_take, Forall_drop).
    pose proof (be_decode_bound l Hlb) as Hb. replace (length l) with 2%nat in Hb
      by (unfold len in Hsl; lia). change (256 ^ Z.of_nat 2) with 65536 in Hb.
    rewrite i64_small by lia. destruct (Z.ltb_spec (len inp) (2 + 2 + 4 + be_decode l)); [done|].
    apply take_frame_fits; rewrite ?i64_small; lia.
  - destruct (Z.eqb_spec (Z.land b1 127) 127); [done|].
    destruct (Z.ltb_spec (len inp) (2 + 4 + Z.land b1 127)); [done|].
    apply take_frame_fits; rewrite ?i64_small; lia.
Qed.

(** A 64-bit length of [2^63 - 14] and more ends before the frame begins. *)
Lemma i64_long_length v : 2 ^ 63 - 14 <= v < 2 ^ 64 -> i64 (14 + i64 v) < 14.
Proof.
  intros Hv. destruct (decide (v < 2 ^ 63)).
  - rewrite (i64_small v) by lia. unfold i64.
    rewrite <- (Z.mod_unique (14 + v + 2 ^ 63) (2 ^ 64) 1 (14 + v + 2 ^ 63 - 2 ^ 64)); lia.
  - assert (i64 v = v - 2 ^ 64) as ->
      by (unfold i64; rewrite <- (Z.mod_unique (v + 2 ^ 63) (2 ^ 64) 1 (v - 2 ^ 63)); lia).
    rewrite i64_small; lia.
Qed.

(** parsing a frame panics exactly when the frame announces a 64-bit length
    of 2^63-14 or more, once the 14 bytes of its header are there: the length is
    negative as an [int], or the end of the frame is. *)
Theorem ws_parse_panic_iff inp :
  Forall is_byte inp -> len inp < 2 ^ 62 ->
  (ws_parse inp).2 = Panic <->
  14 <= len inp /\ (exists b1, at_ inp 1 = Some b1 /\ Z.land b1 127 = 127) /\
  2 ^ 63 - 14 <= be_decode (take 8 (drop 2 inp)).
Proof.
  intros Hby Hl. destruct (Z.ltb_spec (len inp) 2) as [Hs|Hs].
  { unfold ws_parse. rewrite (proj2 (Z.ltb_lt _ _) Hs). split; [done|lia]. }
  destruct (at_is_Some inp 1) as [b1 E1]; [lia|].
  destruct (decide (Z.land b1 127 = 127)) as [E127|E127].
  2: { split; [by intros ?%(ws_parse_short inp b1)|]. by intros (_ & (b & E & ?) & _); simplify_eq. }
  unfold ws_parse. destruct (Z.ltb_spec (len inp) 2); [lia|].
  destruct (at_is_Some inp 0) as [b0 E0]; [lia|]. rewrite E0, E1, E127. cbn [Z.eqb Pos.eqb].
  destruct (Z.ltb_spec (len inp) (2 + 2 + 6 + 4)); [split; [done|lia]|].
  assert (slice inp 2 10 = Some (take 8 (drop 2 inp))) as ->
    by (apply slice_Some; split_and!; [lia..|done]).
  set (l := take 8 (drop 2 inp)).
  assert (Forall is_byte l) as Hlb by (by apply Forall_take, Forall_drop).
  pose proof (be_decode_bound l Hlb) as Hb. replace (length l) with 8%nat in Hb
    by (unfold l; rewrite length_take, length_drop; unfold len in *; lia).
  change (256 ^ Z.of_nat 8) with (2 ^ 64) in Hb. set (v := be_decode l) in *.
  change (2 + 2 + 6 + 4) with 14 in *.
  destruct (decide (2 ^ 63 - 14 <= v)) as [Hv|Hv].
  - split; [intros _; split_and!; [lia|by exists b1|done]|intros _].
    pose proof (i64_long_length v ltac:(lia)).
    destruct (Z.ltb_spec (len inp) (i64 (14 + i64 v))); [lia|]. by apply take_frame_negative.
  - split; [|lia]. rewrite (i64_small v), (i64_small (14 + v)) by lia. intros Hp. exfalso.
    destruct (Z.ltb_spec (len inp) (14 + v)); [done|]. revert Hp.
    apply take_frame_fits; rewrite ?i64_small; lia.
Qed.

Lemma ws_parse_panic_iff_witness :
  (ws_parse ([130; 255] ++ be_encode 8 (2 ^ 63 - 1) ++ [1; 2; 3; 4])).2 = Panic.
Proof.
  apply (ws_parse_panic_iff ([130; 255] ++ be_encode 8 (2 ^ 63 - 1) ++ [1; 2; 3; 4])).
  - compute_done.
  - by vm_compute.
  - split_and!; [by vm_compute|by exists 255|by vm_compute].
Defined.

(** what the server writes is a frame: a client reads back the opcode and the
    payload, of any length, and stops where the frame ends. *)
Theorem server_frame_ws_frame typ p rest :
  0 <= typ < 16 -> len p < 2 ^ 63 ->
  server_frame (ws_frame typ p ++ rest) = Some (typ, p, rest).
Proof.
  intros Ht Hp. pose proof (len_nonneg p). pose proof (len_nonneg rest).
  assert (Z.lor 128 typ = 128 + typ) as Hlor.
  { rewrite <- Z.lxor_lor, <- Z.add_nocarry_lxor; [done| |];
      apply Z.bits_inj'; intros i Hi; rewrite Z.land_spec, Z.bits_0;
      change 128 with (2 ^ 7); rewrite Z.pow2_bits_eqb by lia;
      destruct (Z.eqb_spec 7 i) as [<-|]; try done;
      rewrite Z.testbit_eqb by lia; rewrite Z.div_small by (split; [lia|]; lia); done. }
  unfold ws_frame. rewrite Hlor. set (b0 := 128 + typ).
  assert (b0 - 128 = typ) as Hb0 by lia.
  destruct (Z.ltb_spec (len p) 126); [|destruct (Z.ltb_spec (len p) 65536)].
  - rewrite u8_small by lia. unfold server_frame. cbn [app]. rewrite Hb0, server_payload_app.
    zb; (done || lia).
  - rewrite u16_small by lia.
    change ((([b0] ++ [126; u8 (Z.shiftr (len p) 8); u8 (len p)]) ++ p) ++ rest)
      with (b0 :: 126 :: (be_encode 2 (len p) ++ p) ++ rest).
    rewrite <- app_assoc. unfold server_frame. rewrite Hb0, server_long_app by lia. zb; (done || lia).
  - rewrite u64_small by lia.
    change ((([b0] ++ [127] ++ be_encode 8 (len p)) ++ p) ++ rest)
      with (b0 :: 127 :: (be_encode 8 (len p) ++ p) ++ rest).
    rewrite <- app_assoc. unfold server_frame.
    rewrite Hb0, server_long_app by (change (256 ^ Z.of_nat 8) with (2 ^ 64); lia).
    zb; (done || lia).
Qed.

Lemma server_frame_ws_frame_witness :
  server_frame (ws_frame 1 (repeat 120 300) ++ bs "x") = Some (1, repeat 120 300, bs "x").
Proof. apply (server_frame_ws_frame 1 (repeat 120 300) (bs "x")); by vm_compute. Defined.

(** the frame that [Close] writes does not carry the status it names: the
    first two bytes of the payload of a close frame are the status code, and those
    of its text are 30565. *)
Theorem Close_status_code ws :
  exists p, server_frame (Close ws).2 = Some (8, p, []) /\ be_decode (take 2 p) = 30565 /\
    (Close ws).1.(closed) = true.
Proof. eexists. split_and!; [by vm_compute|by vm_compute|done]. Qed.

(** ** Messages *)

(** The frames between the first fragment of a message and its last: further
    fragments, pings and pongs. *)
Definition middle_ok (f : wsFrame) : Prop :=
  (f.(opcode) = 0 /\ f.(fin) = false) \/ f.(opcode) = 9 \/ f.(opcode) = 10.
Definition fragment (f : wsFrame) : bytes := if f.(opcode) =? 0 then f.(data) else [].
Definition answers (f : wsFrame) : list ws_event :=
  if f.(opcode) =? 9 then [WriteFrame (ws_frame 10 f.(data))] else [].

Section message_theorems.
Context `{Env}.

Lemma ws_run_middle frames more cf ws :
  Forall middle_ok frames -> ws.(contFrame) = Some cf ->
  len (cf ++ concat (fragment <$> frames)) <= RequestMaxBytes ->
  ws_run (frames ++ more) ws
  = let '(ws', ev, ok) :=
      ws_run more (set_contFrame (Some (cf ++ concat (fragment <$> frames))) ws) in
    (ws', concat (answers <$> frames) ++ ev, ok).
Proof using.
  revert cf ws. induction frames as [|f frames IH]; intros cf ws Hok Hcf Hl.
  - cbn [fmap list_fmap concat app]. rewrite app_nil_r.
    replace (set_contFrame (Some cf) ws) with ws
      by (unfold set_contFrame; rewrite <- Hcf; by destruct ws).
    by destruct (ws_run more ws) as [[? ?] ?].
  - apply Forall_cons in Hok as [Hf Hok]. cbn [fmap list_fmap concat] in *.
    rewrite app_assoc in *.
    assert (len (cf ++ fragment f) <= RequestMaxBytes) as Hlf.
    { rewrite len_app in Hl. pose proof (len_nonneg (concat (fragment <$> frames))). lia. }
    assert (onWebsocket f ws = (set_contFrame (Some (cf ++ fragment f)) ws, answers f, true)) as Hstep.
    { unfold onWebsocket, fragment, answers.
      assert (set_contFrame (Some cf) ws = ws) as Hid
        by (unfold set_contFrame; rewrite <- Hcf; by destruct ws).
      destruct Hf as [[Ho Hfin]|[Ho|Ho]]; rewrite Ho; cbn [Z.eqb Pos.eqb].
      - rewrite Hcf, Hfin. unfold fragment in Hlf. rewrite Ho in Hlf. cbn [Z.eqb] in Hlf.
        cbn zeta. destruct (Z.ltb_spec RequestMaxBytes (len (cf ++ f.(data)))); [lia|]. done.
      - by rewrite app_nil_r, Hid.
      - by rewrite app_nil_r, Hid. }
    cbn [app ws_run]. rewrite Hstep.
    rewrite (IH (cf ++ fragment f)); [|done|done|done].
    unfold set_contFrame at 2. cbn [parsedFrame closed closingData].
    change (mkWebsocket ws.(parsedFrame) (Some ((cf ++ fragment f) ++ concat (fragment <$> frames)))
              ws.(closed) ws.(closingData))
      with (set_contFrame (Some ((cf ++ fragment f) ++ concat (fragment <$> frames))) ws).
    destruct (ws_run more _) as [[? ?] ?]. by rewrite <- app_assoc.
Qed.

(** reassembly.  A fragmented message, with pings and pongs between its
    fragments, is handed to [OnWSData] once, whole and in order, when its last
    fragment arrives; each ping is answered with its own payload at once, and
    nothing of the message is left behind. *)
Theorem ws_run_fragments op d frames d' n ws :
  op <> 0 /\ op <> 8 /\ op <> 9 /\ op <> 10 -> Forall middle_ok frames ->
  let msg := d ++ concat (fragment <$> frames) ++ d' in
  len msg <= RequestMaxBytes ->
  ws_run (mkFrame d op false n :: frames ++ [mkFrame d' 0 true n]) ws
  = (set_contFrame None ws, concat (answers <$> frames) ++ [OnWSData msg], true).
Proof using.
  intros Hop Hok msg Hl. unfold msg in *. rewrite app_assoc in *.
  assert (onWebsocket (mkFrame d op false n) ws = (set_contFrame (Some d) ws, [], true)) as Hfst.
  { unfold onWebsocket. cbn [opcode fin data].
    destruct op as [|op|op]; [lia| |done].
    do 10 (destruct op as [op|op|]; try lia; try done). }
  cbn [ws_run]. rewrite Hfst. rewrite len_app in Hl. pose proof (len_nonneg d').
  rewrite (ws_run_middle frames _ d) by (done || lia).
  cbn [ws_run]. unfold onWebsocket.
  cbn [opcode contFrame data fin set_contFrame parsedFrame closed closingData].
  cbn zeta. rewrite len_app.
  destruct (Z.ltb_spec RequestMaxBytes (len (d ++ concat (fragment <$> frames)) + len d')); [lia|].
  done.
Qed.

(** a continuation frame without a message to continue, or one that makes
    the message exceed [RequestMaxBytes], closes the connection with an error
    and hands nothing over; the frames behind it are not looked at. *)
Theorem ws_run_refused f frames ws :
  f.(opcode) = 0 ->
  (forall cf, ws.(contFrame) = Some cf -> RequestMaxBytes < len (cf ++ f.(data))) ->
  exists ws' err, ws_run (f :: frames) ws
    = (ws', [CloseConn (bs "websocket") (Some err)], false).
Proof using.
  intros Ho Hcf. cbn [ws_run]. unfold onWebsocket. rewrite Ho.
  destruct ws.(contFrame) as [cf|]; [|by eexists _, _].
  specialize (Hcf cf eq_refl). cbn zeta.
  destruct (Z.ltb_spec RequestMaxBytes (len (cf ++ f.(data)))); [|lia]. by eexists _, _.
Qed.
End message_theorems.

Definition small_env : Env := {| RequestMaxBytes := 100; url_Parse := fun _ => None |}.

Lemma ws_run_fragments_witness :
  @ws_run small_env [mkFrame (bs "he") 1 false 8; mkFrame (bs "l") 0 false 7; mkFrame (bs "p") 9 true 7;
                     mkFrame (bs "lo") 0 true 8] newWebsocket
  = (newWebsocket, [WriteFrame ([138; 1] ++ bs "p"); OnWSData (bs "hello")], true).
Proof.
  apply (@ws_run_fragments small_env 1 (bs "he") [mkFrame (bs "l") 0 false 7; mkFrame (bs "p") 9 true 7]
           (bs "lo") 8 newWebsocket).
  - lia.
  - constructor; [by left|]. constructor; [by right; left|]. constructor.
  - by vm_compute.
Defined.

Lemma ws_run_refused_witness :
  exists ws' err, @ws_run small_env [mkFrame (bs "x") 0 true 7; mkFrame (bs "y") 1 true 7] newWebsocket
    = (ws', [CloseConn (bs "websocket") (Some err)], false).
Proof.
  apply (@ws_run_refused small_env (mkFrame (bs "x") 0 true 7) [mkFrame (bs "y") 1 true 7] newWebsocket).
  - reflexivity.
  - intros cf E. discriminate E.
Defined.
