(* ===== verification/Http.v ===== *)
(** HTTP requests (src/http.go, lines 36 to 165): parsing in place, headers,
    query, body.

    [r.data] is a slice of the connection's input buffer and the parser writes
    into it: it lower-cases header names and percent-decodes the path where they
    stand.  The model keeps the buffer in the record and every write in it.
    After an error the connection is closed and nothing reads the buffer again,
    so [Err] carries no buffer. *)

From S2P Require Import Prelude GoStd Escape Util.

(** ** Data *)

(** [HTTP] without the connection pointer and the query cache [qmap]. *)
Record HTTP := mkHTTP {
  Host : bytes;
  Path : bytes;
  data : bytes;
  qStart : Z;
  qEnd : Z;
  hdrLen : Z;
  bodyLen : Z;
  wsUpgrade : bool;
  chunked : bool;
  chkbuf : bytes;
}.

(** [&HTTP{}] *)
Definition newHTTP : HTTP := mkHTTP [] [] [] 0 0 0 0 false false [].

Definition set_data (d : bytes) (r : HTTP) : HTTP :=
  mkHTTP r.(Host) r.(Path) d r.(qStart) r.(qEnd) r.(hdrLen) r.(bodyLen) r.(wsUpgrade)
         r.(chunked) r.(chkbuf).
Definition set_Path (p : bytes) (r : HTTP) : HTTP :=
  mkHTTP r.(Host) p r.(data) r.(qStart) r.(qEnd) r.(hdrLen) r.(bodyLen) r.(wsUpgrade)
         r.(chunked) r.(chkbuf).
Definition set_Host (h : bytes) (r : HTTP) : HTTP :=
  mkHTTP h r.(Path) r.(data) r.(qStart) r.(qEnd) r.(hdrLen) r.(bodyLen) r.(wsUpgrade)
         r.(chunked) r.(chkbuf).
Definition set_query (s e : Z) (r : HTTP) : HTTP :=
  mkHTTP r.(Host) r.(Path) r.(data) s e r.(hdrLen) r.(bodyLen) r.(wsUpgrade)
         r.(chunked) r.(chkbuf).
Definition set_hdrLen (n : Z) (r : HTTP) : HTTP :=
  mkHTTP r.(Host) r.(Path) r.(data) r.(qStart) r.(qEnd) n r.(bodyLen) r.(wsUpgrade)
         r.(chunked) r.(chkbuf).
Definition set_bodyLen (n : Z) (r : HTTP) : HTTP :=
  mkHTTP r.(Host) r.(Path) r.(data) r.(qStart) r.(qEnd) r.(hdrLen) n r.(wsUpgrade)
         r.(chunked) r.(chkbuf).
Definition set_wsUpgrade (b : bool) (r : HTTP) : HTTP :=
  mkHTTP r.(Host) r.(Path) r.(data) r.(qStart) r.(qEnd) r.(hdrLen) r.(bodyLen) b
         r.(chunked) r.(chkbuf).

(** ** Operations *)

(** [Method()]: everything before the first space, upper-cased in place. *)
Definition upper (c : byte) : byte := if (97 <=? c) && (c <=? 122) then c - 97 + 65 else c.

Definition Method (r : HTTP) : res error (HTTP * bytes) :=
  let! method :=
    checked (slice_to r.(data)
      (match index_byte SP r.(data) with Some i => Z.of_nat i | None => -1 end)) in
  let method := upper <$> method in
  Ok (set_data (overwrite r.(data) 0 method) r, method).

(** [Body()] *)
Definition Body (r : HTTP) : res error bytes :=
  checked (slice_from r.(data) (len r.(data) - r.(bodyLen))).

(** The loop that lower-cases a header name in place. *)
Fixpoint lower_key (key : bytes) : bytes :=
  match key with
  | [] => []
  | c :: t =>
      if c =? 58 then key
      else (if (65 <=? c) && (c <=? 90) then c - 65 + 97 else c) :: lower_key t
  end.

Section parse.
Context `{Env}.

(** The first line, [data[0:idx]]. *)
Definition parseFirstLine (r : HTTP) (idx : nat) : res error HTTP :=
  let! line := checked (slice r.(data) 0 (Z.of_nat idx)) in
  match index_byte SP line, last_index_byte SP line with
  | Some idx0, Some idx1 =>
      if (idx0 =? idx1)%nat || (65535 <? Z.of_nat idx1) then Err (errFirstLine line)
      else
        let! uri := checked (slice line (Z.of_nat (idx0 + 1)) (Z.of_nat idx1)) in
        let (r, uri) :=
          match index_byte 63 (* '?' *) uri with
          | Some q => (set_query (u16 (Z.of_nat (idx0 + 1 + q + 1))) (u16 (Z.of_nat idx1)) r,
                       take q uri)
          | None => (r, uri)
          end in
        let (uri', path) := UnescapeInplace uri false in
        let r := set_Path path (set_data (overwrite r.(data) (idx0 + 1) uri') r) in
        if prefixb [47] (* '/' *) path then Ok r
        else
          match url_Parse path with
          | None => Err (errPath (take idx r.(data)))
          | Some (p, h) => Ok (set_Host h (set_Path p r))
          end
  | _, _ => Err (errFirstLine line)
  end.

(** A header line, [data[start:start+idx]]. *)
Definition parseHeader (r : HTTP) (start : Z) (idx : nat) : res error HTTP :=
  let! line := checked (slice r.(data) start (start + Z.of_nat idx)) in
  match index_byte 58 (* ':' *) line with
  | None | Some O => Err (errHeader line)
  | Some colon =>
      let key := lower_key (take colon line) in
      let r := set_data (overwrite r.(data) (Z.to_nat start) key) r in
      let value := gobytes.TrimSpace (drop (colon + 1) line) in
      if bool_decide (key = bs "upgrade") then
        Ok (set_wsUpgrade (gobytes.EqualFold value (bs "websocket")) r)
      else if bool_decide (key = bs "host") then Ok (set_Host value r)
      else if bool_decide (key = bs "content-length") then
        match strconv.Atoi value with
        | (cl, err) =>
            if (RequestMaxBytes <? cl) || (cl <? 0) || bool_decide (err <> None)
            then Err (errContentLength value)
            else Ok (set_bodyLen (u32 cl) r)
        end
      else Ok r
  end.

(** The loop of [parse]; [fuel] bounds the lines left. *)
Fixpoint parse_loop (fuel : nat) (start : Z) (r : HTTP) : res error HTTP :=
  match fuel with
  | O => OutOfFuel
  | S fuel =>
      if start <? len r.(data) then
        let! rest := checked (slice_from r.(data) start) in
        match index_of crlf rest with
        | None => Panic (* [data[start:start-1]] *)
        | Some O => Ok r
        | Some idx =>
            let! r := if start =? 0 then parseFirstLine r idx else parseHeader r start idx in
            parse_loop fuel (start + Z.of_nat idx + 2) r
        end
      else Ok r
  end.

(** [parse()] *)
Definition parse (r : HTTP) : res error HTTP :=
  parse_loop (S (length r.(data))) 0 (set_hdrLen (u32 (len r.(data))) r).
End parse.

(** [ForeachHeader(f)]: the callback passes a state along and answers whether
    to go on. *)
Fixpoint header_loop {S} (f : bytes -> bytes -> S -> S * bool) (fuel : nat)
    (start : Z) (data : bytes) (s : S) : res error S :=
  match fuel with
  | O => OutOfFuel
  | Datatypes.S fuel =>
      if start <? len data then
        let! rest := checked (slice_from data start) in
        match index_of crlf rest with
        | Some O => Ok s
        | idx =>
            let idx := match idx with Some i => Z.of_nat i | None => -1 end in
            let! (s, more) :=
              if start =? 0 then Ok (s, true)
              else
                let! line := checked (slice data start (start + idx)) in
                match index_byte 58 line with
                | None | Some O => Ok (s, true)
                | Some colon =>
                    Ok (f (take colon line) (gobytes.TrimSpace (drop (colon + 1) line)) s)
                end in
            if more : bool then header_loop f fuel (start + idx + 2) data s else Ok s
        end
      else Ok s
  end.

Definition ForeachHeader {S} (f : bytes -> bytes -> S -> S * bool) (r : HTTP) (s : S)
  : res error S :=
  header_loop f (Datatypes.S (length r.(data))) 0 r.(data) s.

(** [GetHeader(key)]: the value of the first header of that name, else [""]. *)
Definition GetHeader (r : HTTP) (key : bytes) : res error bytes :=
  ForeachHeader (fun k v value => if bool_decide (k = key) then (v, false) else (value, true))
    r [].

(** [bytes.Cut(s, sep)] for a separator of one byte. *)
Definition Cut (s : bytes) (sep : byte) : bytes * bytes * bool :=
  match index_byte sep s with
  | Some i => (take i s, drop (i + 1) s, true)
  | None => (s, [], false)
  end.

(** [ForeachQuery(f)]: the loop over [data[off:qEnd]]; keys and values are
    decoded in place. *)
Fixpoint query_loop {S} (f : bytes -> bytes -> S -> S) (fuel : nat)
    (off stop : nat) (data : bytes) (s : S) : res error (bytes * S) :=
  match fuel with
  | O => OutOfFuel
  | Datatypes.S fuel =>
      let query := take (stop - off) (drop off data) in
      if 0 <? len query then
        let '(part, query', _) := Cut query 38 (* '&' *) in
        let '(key, value, _) := Cut part 61 (* '=' *) in
        let '(key', k) := UnescapeInplace key true in
        let '(value', v) := UnescapeInplace value true in
        let data := overwrite data off key' in
        let data := overwrite data (off + (length part - length value)) value' in
        query_loop f fuel (stop - length query') stop data (f k v s)
      else Ok (data, s)
  end.

Definition ForeachQuery {S} (f : bytes -> bytes -> S -> S) (r : HTTP) (s : S)
  : res error (HTTP * S) :=
  if r.(qStart) =? 0 then Ok (r, s)
  else
    let! query := checked (slice r.(data) r.(qStart) r.(qEnd)) in
    let! (d, s) := query_loop f (Datatypes.S (length query)) (Z.to_nat r.(qStart))
                     (Z.to_nat r.(qEnd)) r.(data) s in
    Ok (set_data d r, s).

(** ** The buffer as the parser leaves it *)

(** The query bounds that parsing the first line establishes. *)
Definition query_ok (r : HTTP) : Prop :=
  r.(qStart) = 0 \/ (0 < r.(qStart) <= r.(qEnd) /\ r.(qEnd) <= 65535 /\ r.(qEnd) <= len r.(data)).

Lemma length_lower_key key : length (lower_key key) = length key.
Proof. induction key as [|c key IH]; simpl; [done|]. destruct (c =? 58); simpl; congruence. Qed.

Lemma uri_split line idx0 idx1 uri :
  last_index_byte SP line = Some idx1 -> index_byte SP line = Some idx0 -> idx0 <> idx1 ->
  slice line (Z.of_nat (idx0 + 1)) (Z.of_nat idx1) = Some uri ->
  (idx0 < idx1 < length line)%nat /\ length uri = (idx1 - idx0 - 1)%nat /\
  uri = take (idx1 - idx0 - 1) (drop (idx0 + 1) line).
Proof.
  intros [Hl1 _]%last_index_byte_bound _ Hne (H1 & H2 & ->)%slice_Some.
  assert (idx0 < idx1)%nat by lia. split_and!; [lia|lia| |].
  - rewrite length_take, length_drop. lia.
  - f_equal; [lia|]. f_equal. lia.
Qed.

Lemma index_le_last c l i j :
  index_byte c l = Some i -> last_index_byte c l = Some j -> (i <= j)%nat.
Proof.
  revert i j. induction l as [|x l IH]; intros i j; simpl; [done|].
  destruct (Z.eqb_spec x c) as [->|Hx]; [by intros [= <-]; lia|].
  intros (m & Hm & ->)%fmap_Some. destruct (last_index_byte c l) as [k|]; [|done].
  intros [= <-]. specialize (IH _ _ Hm eq_refl). lia.
Qed.

Section parse_safe.
Context `{Env}.

Lemma parseFirstLine_safe r idx :
  (idx <= length r.(data))%nat -> r.(qStart) = 0 ->
  safe (fun r' => length r'.(data) = length r.(data) /\
                  drop idx r'.(data) = drop idx r.(data) /\
                  query_ok r' /\ r'.(hdrLen) = r.(hdrLen) /\ r'.(bodyLen) = r.(bodyLen))
    (parseFirstLine r idx).
Proof.
  intros Hidx Hq. unfold parseFirstLine.
  destruct (slice_is_Some r.(data) 0 (Z.of_nat idx)) as [line Hline]; [lia|unfold len; lia|].
  rewrite Hline. cbn [checked rbind]. apply slice_len in Hline as Hll.
  destruct (index_byte SP line) as [idx0|] eqn:H0; [|done].
  destruct (last_index_byte SP line) as [idx1|] eqn:H1; [|done].
  pose proof (index_le_last _ _ _ _ H0 H1) as Hle.
  pose proof (last_index_byte_bound _ _ _ H1) as [Hl1 _].
  assert (length line = idx) as Hll' by (unfold len in Hll; lia).
  destruct (Nat.eqb_spec idx0 idx1) as [|Hne]; [done|].
  destruct (Z.ltb_spec 65535 (Z.of_nat idx1)) as [|H64]; [done|]. cbn [orb].
  destruct (slice_is_Some line (Z.of_nat (idx0 + 1)) (Z.of_nat idx1)) as [uri Huri];
    [lia|unfold len; lia|].
  rewrite Huri. cbn [checked rbind].
  apply (uri_split _ _ _ _ H1 H0 Hne) in Huri as (_ & Hlu & _).
  set (qr := match index_byte 63 uri with Some q => _ | None => _ end).
  assert (let (r1, u) := qr in
    r1.(data) = r.(data) /\ (length u <= length uri)%nat /\ r1.(hdrLen) = r.(hdrLen) /\
    r1.(bodyLen) = r.(bodyLen) /\
    (r1.(qStart) = 0 \/ (0 < r1.(qStart) <= r1.(qEnd) /\ r1.(qEnd) = Z.of_nat idx1))) as Hqr.
  { unfold qr. destruct (index_byte 63 uri) as [q|] eqn:Hqi; cbn.
    - pose proof (index_byte_bound _ _ _ Hqi). rewrite length_take.
      rewrite !u16_small by lia. split_and!; [done|lia|done|done|]. right. lia.
    - rewrite Hq. split_and!; auto. }
  destruct qr as [r1 u]. destruct Hqr as (Hd & Hu & Hh & Hb & Hqs).
  destruct (UnescapeInplace u false) as [u' path] eqn:Hue.
  apply length_UnescapeInplace in Hue as [Hlu' _].
  assert (forall r2, r2.(data) = overwrite r1.(data) (idx0 + 1) u' ->
    r2.(qStart) = r1.(qStart) -> r2.(qEnd) = r1.(qEnd) ->
    r2.(hdrLen) = r1.(hdrLen) -> r2.(bodyLen) = r1.(bodyLen) ->
    length r2.(data) = length r.(data) /\ drop idx r2.(data) = drop idx r.(data) /\
    query_ok r2 /\ r2.(hdrLen) = r.(hdrLen) /\ r2.(bodyLen) = r.(bodyLen)) as Hfin.
  { intros r2 E1 E2 E3 E4 E5. unfold query_ok, len. rewrite E1, E2, E3, E4, E5, Hd.
    rewrite length_overwrite, drop_overwrite by lia.
    split_and!; [done..| |done|done]. destruct Hqs as [?|[? ?]]; [by left|right; lia]. }
  cbn zeta. cbn [data set_Path set_data].
  destruct (prefixb [47] path); [by apply Hfin|].
  destruct (url_Parse path) as [[p h]|]; [by apply Hfin|done].
Qed.

Definition max_ok : Prop := RequestMaxBytes < 2 ^ 32.
Definition body_ok (r : HTTP) : Prop :=
  0 <= r.(bodyLen) /\ (r.(bodyLen) <= RequestMaxBytes \/ r.(bodyLen) = 0).

Lemma parseHeader_safe r start idx :
  0 <= start -> start + Z.of_nat idx <= len r.(data) -> max_ok ->
  query_ok r -> body_ok r ->
  safe (fun r' => length r'.(data) = length r.(data) /\
                  drop (Z.to_nat start + idx) r'.(data) = drop (Z.to_nat start + idx) r.(data) /\
                  query_ok r' /\ r'.(hdrLen) = r.(hdrLen) /\ body_ok r')
    (parseHeader r start idx).
Proof.
  intros Hs Hidx Hmax Hq Hb. unfold parseHeader.
  destruct (slice_is_Some r.(data) start (start + Z.of_nat idx)) as [line Hline]; [lia..|].
  rewrite Hline. cbn [checked rbind]. apply slice_len in Hline as Hll.
  assert (length line = idx) as Hll' by (unfold len in Hll; lia).
  destruct (index_byte 58 line) as [colon|] eqn:Hc; [|done].
  pose proof (index_byte_bound _ _ _ Hc) as Hcb.
  destruct colon as [|colon]; [done|]. set (c := S colon) in *. cbn zeta.
  assert (forall r2, r2.(data) = overwrite r.(data) (Z.to_nat start) (lower_key (take c line)) ->
    r2.(qStart) = r.(qStart) -> r2.(qEnd) = r.(qEnd) ->
    r2.(hdrLen) = r.(hdrLen) -> body_ok r2 ->
    length r2.(data) = length r.(data) /\
    drop (Z.to_nat start + idx) r2.(data) = drop (Z.to_nat start + idx) r.(data) /\
    query_ok r2 /\ r2.(hdrLen) = r.(hdrLen) /\ body_ok r2) as Hfin.
  { intros r2 E1 E2 E3 E4 E5. unfold query_ok, len in *. rewrite E1, E2, E3, E4.
    rewrite length_overwrite, drop_overwrite;
      rewrite ?length_lower_key, ?length_take; [by split_and!|lia..]. }
  case_bool_decide; [by apply Hfin|]. case_bool_decide; [by apply Hfin|].
  case_bool_decide; [|by apply Hfin].
  destruct (strconv.Atoi _) as [cl err].
  destruct (Z.ltb_spec RequestMaxBytes cl); [done|]. destruct (Z.ltb_spec cl 0); [done|].
  cbn [orb]. case_bool_decide; [done|]. apply Hfin; [done..|].
  unfold body_ok, max_ok in *. cbn. rewrite u32_small by lia. lia.
Qed.

Lemma parse_loop_safe fuel start r z y :
  0 <= start -> (length z + 4 + length y <= fuel)%nat ->
  len r.(data) = start + Z.of_nat (length z) + 4 + len y ->
  drop (Z.to_nat start) r.(data) = z ++ crlf ++ crlf ++ y ->
  max_ok -> query_ok r -> body_ok r -> (start = 0 -> r.(qStart) = 0) ->
  safe (fun r' => length r'.(data) = length r.(data) /\ query_ok r' /\
                  r'.(hdrLen) = r.(hdrLen) /\ body_ok r' /\
                  exists pre, r'.(data) = pre ++ crlf ++ crlf ++ y)
    (parse_loop fuel start r).
Proof.
  intros Hs Hf Hl Hd Hmax Hq Hb H0. revert start r z Hs Hf Hl Hd Hq Hb H0.
  induction fuel as [|fuel IH]; intros start r z Hs Hf Hl Hd Hq Hb H0; [lia|].
  cbn [parse_loop]. pose proof (len_nonneg y).
  assert (start < len r.(data)) as Hsl by lia. apply Z.ltb_lt in Hsl as ->.
  destruct (slice_from_is_Some r.(data) start) as [rest Hrest]; [lia|].
  rewrite Hrest. cbn [checked rbind]. apply slice_from_Some in Hrest as [_ ->]. rewrite Hd.
  destruct (first_line z y) as (idx & -> & Hidx).
  set (P := fun r' => _).
  destruct (decide (idx = 0%nat)) as [->|Hidx0].
  { (* the empty line *)
    simpl. split_and!; [done..|]. exists (take (Z.to_nat start) r.(data) ++ z).
    rewrite <- app_assoc, <- Hd. symmetry. apply take_drop. }
  destruct idx as [|idx']; [done|]. set (idx := S idx') in *.
  assert (idx <= length z)%nat as Hiz by (destruct Hidx as [E|(z' & E & _)]; lia).
  (* whatever the line was, the text behind it is untouched *)
  assert (forall r', length r'.(data) = length r.(data) ->
    drop (Z.to_nat start + idx) r'.(data) = drop (Z.to_nat start + idx) r.(data) ->
    query_ok r' -> r'.(hdrLen) = r.(hdrLen) -> body_ok r' ->
    safe P (parse_loop fuel (start + Z.of_nat idx + 2) r')) as Hnext.
  { intros r' Hl' Hd' Hq' Hh' Hb'.
    assert (forall k, drop (Z.to_nat (start + Z.of_nat idx + Z.of_nat k)) r'.(data)
                      = drop (idx + k) (z ++ crlf ++ crlf ++ y)) as Hrest.
    { intros k. rewrite <- Hd, drop_drop.
      replace (Z.to_nat (start + Z.of_nat idx + Z.of_nat k))
        with ((Z.to_nat start + idx) + k)%nat by lia.
      rewrite <- drop_drop, Hd', drop_drop. f_equal. lia. }
    specialize (Hrest 2%nat). change (Z.of_nat 2) with 2 in Hrest.
    destruct Hidx as [E|(z' & E & Ez)].
    - destruct fuel as [|fuel]; [lia|]. cbn [parse_loop].
      assert (start + Z.of_nat idx + 2 < len r'.(data)) as Hlt by (unfold len in *; lia).
      apply Z.ltb_lt in Hlt as ->.
      destruct (slice_from_is_Some r'.(data) (start + Z.of_nat idx + 2)) as [rest Hr];
        [unfold len in *; lia|].
      rewrite Hr. cbn [checked rbind]. apply slice_from_Some in Hr as [_ ->].
      rewrite E, drop_app_add in Hrest. cbn [crlf app drop] in Hrest. rewrite E, Hrest.
      cbn [index_of]. change (prefixb crlf (CR :: LF :: y)) with true. unfold P. cbn [safe]. rewrite Hl', Hh'. split_and!; [done..|].
      exists (take (Z.to_nat (start + Z.of_nat (length z))) r'.(data)).
      rewrite <- (take_drop (Z.to_nat (start + Z.of_nat (length z))) r'.(data)) at 1.
      f_equal. rewrite <- E.
      replace (Z.to_nat (start + Z.of_nat idx)) with (Z.to_nat start + idx)%nat by lia.
      rewrite Hd', <- drop_drop, Hd, E. by rewrite drop_app_length.
    - eapply safe_mono.
      + apply (IH _ _ z'); try done; try lia.
        * unfold len in *. lia.
        * by rewrite Hrest.
      + unfold P. intros r2 (E1 & E2 & E3 & E4 & E5). rewrite E1, E3, Hl', Hh'. by split_and!. }
  destruct (Z.eqb_spec start 0) as [->|Hs0].
  - eapply safe_bind; [apply parseFirstLine_safe; [|by apply H0]|].
    + unfold len in *. lia.
    + intros r' (E1 & E2 & E3 & E4 & E5). apply Hnext; try done.
      unfold body_ok in *. by rewrite E5.
  - eapply safe_bind; [apply parseHeader_safe; try done|].
    + unfold len in *. lia.
    + intros r' (E1 & E2 & E3 & E4 & E5). by apply Hnext.
Qed.
End parse_safe.

(** ** Well-formed requests

    A request line, header lines [Name: value], an empty line.  Names and values
    are arbitrary apart from the characters that delimit them. *)
Definition header_line (h : bytes * bytes) : bytes := h.1 ++ 58 :: SP :: h.2 ++ crlf.
Definition header_block (hs : list (bytes * bytes)) : bytes := concat (header_line <$> hs) ++ crlf.
Definition request_line (method target ver : bytes) : bytes :=
  method ++ SP :: target ++ SP :: ver.
Definition request (method target ver : bytes) (hs : list (bytes * bytes)) : bytes :=
  request_line method target ver ++ crlf ++ header_block hs.

(** A name in lower case, for the letters of ASCII. *)
Definition lower (k : bytes) : bytes := gobytes.ascii_lower <$> k.
Definition ascii_upper (c : byte) : byte := if (97 <=? c) && (c <=? 122) then c - 32 else c.

Definition header_ok (h : bytes * bytes) : Prop :=
  h.1 <> [] /\ (58 ∉ h.1) /\ (CR ∉ h.1) /\ (CR ∉ h.2) /\ gobytes.trimmed h.2.
Definition lower_name (h : bytes * bytes) : bytes * bytes := (lower h.1, h.2).

(** The part of the target before the question mark. *)
Definition target_path (target : bytes) : bytes :=
  match index_byte 63 target with Some q => take q target | None => target end.

(** What the parser keeps of a header, its name already in lower case. *)
Definition apply_header (h : bytes * bytes) (r : HTTP) : HTTP :=
  if bool_decide (h.1 = bs "upgrade") then
    set_wsUpgrade (gobytes.EqualFold h.2 (bs "websocket")) r
  else if bool_decide (h.1 = bs "host") then set_Host h.2 r
  else if bool_decide (h.1 = bs "content-length") then set_bodyLen (strconv.Atoi h.2).1 r
  else r.

Definition content_length_ok `{Env} (h : bytes * bytes) : Prop :=
  lower h.1 = bs "content-length" ->
  exists n, h.2 = strconv.FormatInt 10 n /\ 0 <= n <= RequestMaxBytes.

Lemma length_lower k : length (lower k) = length k.
Proof. apply length_fmap. Qed.

Lemma not_elem_of_lower c k :
  (65 <= c <= 90 -> False) -> (97 <= c <= 122 -> False) -> (c ∉ k) -> c ∉ lower k.
Proof.
  intros Hu Hl Hc. unfold lower. rewrite list_elem_of_fmap. intros (d & E & Hd).
  unfold gobytes.ascii_lower in E.
  destruct (Z.leb_spec 65 d), (Z.leb_spec d 90); cbn [andb] in E; [lia|..]; by subst.
Qed.

Lemma CR_lower k : CR ∉ k -> CR ∉ lower k.
Proof. apply not_elem_of_lower; unfold CR; lia. Qed.
Lemma colon_lower k : 58 ∉ k -> 58 ∉ lower k.
Proof. apply not_elem_of_lower; lia. Qed.

(** Up to a colon, the parser's loop does that. *)
Lemma lower_key_lower k : 58 ∉ k -> lower_key k = lower k.
Proof.
  induction k as [|c k IH]; cbn [lower_key]; [done|]. intros [Hc Hk]%not_elem_of_cons.
  destruct (Z.eqb_spec c 58); [congruence|]. unfold lower in *. cbn [fmap list_fmap].
  rewrite IH by done. f_equal. unfold gobytes.ascii_lower.
  destruct (Z.leb_spec 65 c), (Z.leb_spec c 90); cbn [andb]; lia.
Qed.

Lemma upper_ascii (s : bytes) : upper <$> s = ascii_upper <$> s.
Proof.
  apply list_fmap_ext. intros i c _. unfold upper, ascii_upper.
  destruct (Z.leb_spec 97 c), (Z.leb_spec c 122); cbn [andb]; lia.
Qed.

Lemma lower_name_ok h : header_ok h -> header_ok (lower_name h).
Proof.
  intros (Hne & Hc & Hk & Hv & Ht). unfold header_ok, lower_name. simpl. split_and!.
  - intros E. apply Hne. apply (f_equal length) in E. rewrite length_lower in E.
    by destruct h.1.
  - by apply colon_lower.
  - by apply CR_lower.
  - done.
  - done.
Qed.

Lemma length_header_block hs : (length hs < length (header_block hs))%nat.
Proof.
  unfold header_block. rewrite length_app. change (length crlf) with 2%nat.
  induction hs as [|h hs IH]; cbn [fmap list_fmap concat length] in *; [lia|].
  rewrite length_app. unfold header_line at 1. rewrite length_app. cbn [length]. lia.
Qed.

Lemma CR_header h : header_ok h -> CR ∉ h.1 ++ 58 :: SP :: h.2.
Proof.
  intros (_ & _ & Hk & Hv & _). unfold CR, SP in *. rewrite elem_of_app, !elem_of_cons.
  intros [?|[?|[?|?]]]; [done|lia|lia|done].
Qed.

Section parse_request.
Context `{Env}.

Lemma parseHeader_line pre h post r :
  r.(data) = pre ++ header_line h ++ post -> header_ok h -> content_length_ok h ->
  max_ok ->
  parseHeader r (len pre) (length (h.1 ++ 58 :: SP :: h.2))
  = Ok (apply_header (lower_name h)
          (set_data (pre ++ header_line (lower_name h) ++ post) r)).
Proof.
  intros Hd (Hne & Hcol & Hk & Hv & Ht) Hcl Hmax. destruct h as [k v]. cbn [fst snd] in *.
  unfold parseHeader. rewrite Hd. unfold header_line. cbn [fst snd].
  replace (pre ++ (k ++ 58 :: SP :: v ++ crlf) ++ post)
    with (pre ++ (k ++ 58 :: SP :: v) ++ (crlf ++ post)) by by app_norm.
  rewrite slice_middle by (unfold len; lia). cbn [checked rbind].
  rewrite index_byte_app by done. destruct k as [|c k]; [done|]. cbn [length].
  set (kk := c :: k) in *. rewrite take_app_length' by done.
  replace (drop (S (length k) + 1) (kk ++ 58 :: SP :: v)) with (SP :: v).
  2: { replace (S (length k) + 1)%nat with (length kk + 1)%nat by done.
       by rewrite drop_app_add. }
  rewrite gobytes.TrimSpace_sp by done.
  replace (Z.to_nat (len pre)) with (length pre) by (unfold len; lia).
  replace (pre ++ (kk ++ 58 :: SP :: v) ++ crlf ++ post)
    with (pre ++ kk ++ (58 :: SP :: v ++ crlf ++ post)) by by app_norm.
  rewrite lower_key_lower by done. rewrite overwrite_middle by apply length_lower.
  cbn zeta. unfold apply_header, lower_name. cbn [fst snd].
  replace (pre ++ (lower kk ++ 58 :: SP :: v ++ crlf) ++ post)
    with (pre ++ lower kk ++ 58 :: SP :: v ++ crlf ++ post) by by app_norm.
  case_bool_decide; [done|]. case_bool_decide; [done|].
  case_bool_decide as Hclen; [|done].
  destruct (Hcl Hclen) as (n & Hn & Hn0 & HnM). cbn [snd] in Hn.
  assert (strconv.Atoi v = (n, None)) as ->.
  { rewrite Hn. apply strconv.ParseInt_FormatInt. unfold max_ok in Hmax.
    unfold strconv.minInt64, strconv.maxInt64. lia. }
  unfold max_ok in Hmax.
  destruct (Z.ltb_spec RequestMaxBytes n); [lia|]. destruct (Z.ltb_spec n 0); [lia|].
  rewrite bool_decide_false by congruence. cbn [orb]. by rewrite u32_small by lia.
Qed.

Lemma set_data_apply_header h d r :
  set_data d (apply_header h r) = apply_header h (set_data d r).
Proof. unfold apply_header. by repeat case_bool_decide. Qed.

Lemma data_apply_header h r : (apply_header h r).(data) = r.(data).
Proof. unfold apply_header. by repeat case_bool_decide. Qed.

Lemma foldl_apply_header d r hs :
  foldl (fun r h => apply_header (lower_name h) r) (set_data d r) hs
  = set_data d (foldl (fun r h => apply_header (lower_name h) r) r hs).
Proof.
  revert r. induction hs as [|h hs IH]; intros r; cbn [foldl]; [done|].
  by rewrite <- set_data_apply_header, IH.
Qed.

Lemma parse_loop_headers fuel pre hs r :
  r.(data) = pre ++ header_block hs -> Forall header_ok hs -> Forall content_length_ok hs ->
  max_ok -> (length hs < fuel)%nat -> pre <> [] ->
  parse_loop fuel (len pre) r
  = Ok (set_data (pre ++ header_block (lower_name <$> hs))
          (foldl (fun r h => apply_header (lower_name h) r) r hs)).
Proof.
  intros Hd Hok Hcl Hmax. revert fuel pre r Hd.
  induction hs as [|h hs IH]; intros fuel pre r Hd Hf Hpre;
    (destruct fuel as [|fuel]; [simpl in Hf; lia|]); cbn [parse_loop].
  - assert (len pre < len r.(data)) as Hlt by (rewrite Hd, len_app; change (len (header_block [])) with 2; lia).
    apply Z.ltb_lt in Hlt as ->. rewrite Hd, slice_suffix by done. cbn [checked rbind].
    change (index_of crlf (header_block [])) with (Some 0%nat).
    cbn [fmap list_fmap foldl]. rewrite <- Hd. by destruct r.
  - apply Forall_cons in Hok as [Hh Hok], Hcl as [Hc Hcl].
    assert (header_block (h :: hs) = header_line h ++ header_block hs) as Hblk
      by (unfold header_block; cbn; by app_norm).
    assert (header_line h ++ header_block hs
            = (h.1 ++ 58 :: SP :: h.2) ++ crlf ++ header_block hs) as Hline
      by (unfold header_line; by app_norm).
    assert (len pre < len r.(data)) as Hlt.
    { rewrite Hd, Hblk, Hline. autorewrite with len. change (len crlf) with 2.
      pose proof (len_nonneg h.1). pose proof (len_nonneg h.2).
      pose proof (len_nonneg (header_block hs)). lia. }
    apply Z.ltb_lt in Hlt as ->. rewrite Hd, slice_suffix by done. cbn [checked rbind].
    rewrite Hblk, Hline, index_crlf_app by by apply CR_header.
    destruct (length (h.1 ++ 58 :: SP :: h.2)) as [|n] eqn:Hln.
    { rewrite length_app in Hln. simpl in Hln. lia. }
    destruct (Z.eqb_spec (len pre) 0) as [E|_]; [by apply len_0_inv in E|].
    rewrite <- Hln.
    rewrite (parseHeader_line pre h (header_block hs)) by (done || by rewrite Hd, Hblk).
    cbn [rbind].
    replace (len pre + Z.of_nat (length (h.1 ++ 58 :: SP :: h.2)) + 2)
      with (len (pre ++ header_line (lower_name h))).
    2: { unfold header_line, lower_name. cbn [fst snd]. autorewrite with len.
         change (len crlf) with 2. rewrite length_app. unfold len.
         rewrite length_lower. cbn [length]. lia. }
    rewrite IH; try done.
    + cbn [foldl fmap list_fmap]. f_equal.
      rewrite <- set_data_apply_header, foldl_apply_header.
      unfold header_block. cbn [fmap list_fmap concat]. by app_norm.
    + by rewrite data_apply_header; cbn [data set_data]; rewrite <- app_assoc.
    + simpl in Hf. lia.
    + intros E. by destruct pre.
Qed.
End parse_request.

(** The value of the last header of that name, and of the first. *)
Definition named (name : bytes) (h : bytes * bytes) : Prop := lower h.1 = name.
#[export] Instance named_dec name h : Decision (named name h).
Proof. unfold named. apply _. Defined.
Definition last_value (name : bytes) (hs : list (bytes * bytes)) : option bytes :=
  last (snd <$> filter (named name) hs).
Definition first_value (name : bytes) (hs : list (bytes * bytes)) : option bytes :=
  head (snd <$> filter (named name) hs).

Lemma last_value_snoc name hs h :
  last_value name (hs ++ [h]) = if decide (named name h) then Some h.2 else last_value name hs.
Proof.
  unfold last_value. rewrite filter_app, fmap_app. cbn [filter list_filter].
  case_decide; cbn [fmap list_fmap]; [by rewrite last_snoc|by rewrite app_nil_r].
Qed.

(** What the header fields are after all the headers. *)
Lemma foldl_apply_header_fields r hs :
  let r' := foldl (fun r h => apply_header (lower_name h) r) r hs in
  r'.(Host) = default r.(Host) (last_value (bs "host") hs) /\
  r'.(bodyLen) = default r.(bodyLen)
                   ((fun v => (strconv.Atoi v).1) <$> last_value (bs "content-length") hs) /\
  r'.(wsUpgrade) = default r.(wsUpgrade)
                     ((fun v => gobytes.EqualFold v (bs "websocket"))
                        <$> last_value (bs "upgrade") hs) /\
  r'.(Path) = r.(Path) /\ r'.(qStart) = r.(qStart) /\ r'.(qEnd) = r.(qEnd) /\
  r'.(hdrLen) = r.(hdrLen).
Proof.
  cbn zeta. induction hs as [|h hs IH] using rev_ind; [done|].
  rewrite foldl_app, !last_value_snoc. cbn [foldl].
  set (r1 := foldl _ _ _) in *. destruct IH as (? & ? & ? & ? & ? & ? & ?).
  unfold apply_header, lower_name, named. cbn [fst snd].
  assert (bs "upgrade" <> bs "host") by done. assert (bs "upgrade" <> bs "content-length") by done.
  assert (bs "host" <> bs "content-length") by done.
  repeat case_bool_decide; repeat case_decide; try congruence; cbn; split_and!; try done; congruence.
Qed.

Section parse_theorem.
Context `{Env}.

Lemma target_path_split target :
  exists rest, target = target_path target ++ rest.
Proof.
  unfold target_path. destruct (index_byte 63 target) as [q|].
  - exists (drop q target). by rewrite take_drop.
  - exists []. by rewrite app_nil_r.
Qed.

Definition query_of (method target : bytes) (r : HTTP) : HTTP :=
  match index_byte 63 target with
  | Some q => set_query (len method + 1 + Z.of_nat q + 1) (len method + 1 + len target) r
  | None => r
  end.

Lemma parseFirstLine_request method target ver tail r :
  let path := target_path target in
  let out := unesc false path path in
  r.(data) = request_line method target ver ++ tail ->
  (SP ∉ method) -> (SP ∉ ver) -> len method + 1 + len target <= 65535 ->
  prefixb [47] out = true ->
  parseFirstLine r (length (request_line method target ver))
  = Ok (set_Path out (set_data (request_line method (out ++ drop (length out) target) ver ++ tail)
                        (query_of method target r))).
Proof.
  intros path out Hd Hm Hv Hlen Hout. unfold parseFirstLine.
  rewrite Hd, slice_prefix by done. cbn [checked rbind]. unfold request_line at 1.
  rewrite index_byte_app by done.
  assert (last_index_byte SP (request_line method target ver)
          = Some (length method + 1 + length target)%nat) as ->.
  { unfold request_line.
    replace (method ++ SP :: target ++ SP :: ver) with ((method ++ SP :: target) ++ SP :: ver)
      by by app_norm.
    rewrite last_index_byte_app by done. f_equal. rewrite length_app. simpl. lia. }
  destruct (Nat.eqb_spec (length method) (length method + 1 + length target)); [lia|].
  unfold len in Hlen.
  destruct (Z.ltb_spec 65535 (Z.of_nat (length method + 1 + length target))); [lia|].
  cbn [orb]. unfold request_line at 1.
  replace (method ++ SP :: target ++ SP :: ver) with ((method ++ [SP]) ++ target ++ (SP :: ver))
    by by app_norm.
  rewrite slice_middle; [|rewrite len_app; unfold len; simpl; lia..].
  cbn [checked rbind].
  set (qr := match index_byte 63 target with Some q => _ | None => _ end).
  assert (qr = (query_of method target r, path)) as ->.
  { unfold qr, query_of, path, target_path. destruct (index_byte 63 target) as [q|] eqn:Hq; [|done].
    apply index_byte_bound in Hq. rewrite !u16_small by lia. do 2 f_equal; unfold len; lia. }
  rewrite UnescapeInplace_unesc. fold out. cbn zeta. rewrite Hout. do 3 f_equal.
  destruct (target_path_split target) as [rest Hrest].
  assert ((query_of method target r).(data) = r.(data)) as ->
    by (unfold query_of; by destruct (index_byte 63 target)).
  rewrite Hd. unfold request_line.
  pose proof (length_unesc false path path) as Hlo. fold out in Hlo.
  replace ((method ++ SP :: target ++ SP :: ver) ++ tail)
    with ((method ++ [SP]) ++ path ++ (rest ++ SP :: ver ++ tail)).
  2: { rewrite Hrest at 1. fold path. by app_norm. }
  replace (length method + 1)%nat with (length (method ++ [SP])) by (rewrite length_app; done).
  rewrite overwrite_middle by (rewrite length_app, length_drop; lia).
  rewrite Hrest at 1. fold path. rewrite drop_app_le by done. by app_norm.
Qed.

(** Side conditions of the request-level theorems. *)
Record request_ok (method target ver : bytes) (hs : list (bytes * bytes)) : Prop := {
  ok_method : (SP ∉ method) /\ (CR ∉ method);
  ok_target : (CR ∉ target) /\ len method + 1 + len target <= 65535;
  ok_ver : (SP ∉ ver) /\ (CR ∉ ver);
  ok_headers : Forall header_ok hs;
  ok_length : Forall content_length_ok hs;
  ok_size : len (request method target ver hs) < 2 ^ 32;
  ok_max : max_ok;
}.

Lemma CR_request_line method target ver :
  (CR ∉ method) -> (CR ∉ target) -> (CR ∉ ver) -> CR ∉ request_line method target ver.
Proof.
  intros ? ? ?. unfold request_line. rewrite !elem_of_app, !elem_of_cons, elem_of_app, elem_of_cons.
  unfold CR, SP in *. intros [?|[?|[?|[?|?]]]]; (done || lia).
Qed.

Lemma parse_request_eq method target ver hs :
  let path := target_path target in
  let out := unesc false path path in
  request_ok method target ver hs -> prefixb [47] out = true ->
  let d' := request method (out ++ drop (length out) target) ver (lower_name <$> hs) in
  parse (set_data (request method target ver hs) newHTTP)
  = Ok (set_data d'
          (foldl (fun r h => apply_header (lower_name h) r)
             (set_Path out (query_of method target
                (set_hdrLen (len (request method target ver hs)) newHTTP))) hs)).
Proof.
  intros path out Hok Hout d'. destruct Hok as [[Hm HmC] [HtC Htl] [Hv HvC] Hh Hcl Hsz Hmax].
  unfold parse. cbn [data set_data]. rewrite u32_small by (unfold len in *; lia).
  cbn [parse_loop].
  assert (0 < len (request method target ver hs)) as Hpos.
  { unfold request, request_line. autorewrite with len. pose proof (len_nonneg method).
    pose proof (len_nonneg target). pose proof (len_nonneg ver).
    pose proof (len_nonneg (header_block hs)). change (len crlf) with 2. lia. }
  cbn [data set_hdrLen set_data]. apply Z.ltb_lt in Hpos as Hpos'. rewrite Hpos'.
  rewrite slice_from_0. cbn [checked rbind].
  assert (index_of crlf (request method target ver hs)
          = Some (length (request_line method target ver))) as ->
    by (unfold request; apply index_crlf_app; by apply CR_request_line).
  destruct (length (request_line method target ver)) as [|n] eqn:Hl.
  { unfold request_line in Hl. rewrite length_app in Hl. simpl in Hl. lia. }
  rewrite <- Hl. cbn [Z.eqb].
  rewrite (parseFirstLine_request method target ver (crlf ++ header_block hs)) by done.
  cbn [rbind]. fold path out.
  set (line' := request_line method (out ++ drop (length out) target) ver).
  assert (len line' = len (request_line method target ver)) as Hll.
  { unfold line', request_line. destruct (target_path_split target) as [rest Hrest].
    pose proof (length_unesc false path path) as Hlo. fold out in Hlo.
    assert (length out <= length target)%nat.
    { rewrite Hrest, length_app. fold path. lia. }
    autorewrite with len. unfold len. lia. }
  replace (0 + Z.of_nat (length (request_line method target ver)) + 2)
    with (len (line' ++ crlf)) by (rewrite len_app, Hll; unfold len; simpl; lia).
  rewrite (parse_loop_headers _ _ hs).
  - f_equal. unfold d', request. fold line'. rewrite <- app_assoc.
    rewrite <- !foldl_apply_header.
    f_equal. unfold query_of. by destruct (index_byte 63 target).
  - cbn. by rewrite <- app_assoc.
  - done.
  - done.
  - done.
  - unfold request. rewrite !length_app, Hl.
    pose proof (length_header_block hs). simpl. lia.
  - intros E. apply (f_equal len) in E. rewrite len_app in E. simpl in E.
    pose proof (len_nonneg line'). unfold len in *. simpl in *. lia.
Qed.
End parse_theorem.

(** ** Reading headers back *)

(** The callback along a list of headers, stopped when it answers [false]. *)
Fixpoint fold_headers {S} (f : bytes -> bytes -> S -> S * bool) (hs : list (bytes * bytes)) (s : S)
  : S :=
  match hs with
  | [] => s
  | h :: hs => let (s', more) := f h.1 h.2 s in if more then fold_headers f hs s' else s'
  end.

Section header_loop.
Context {S : Type} (f : bytes -> bytes -> S -> S * bool).

Lemma header_loop_first fuel line post s :
  (CR ∉ line) -> line <> [] ->
  header_loop f (Datatypes.S fuel) 0 (line ++ crlf ++ post) s
  = header_loop f fuel (len (line ++ crlf)) (line ++ crlf ++ post) s.
Proof using.
  intros Hl Hne. cbn [header_loop].
  assert (0 < len (line ++ crlf ++ post)) as Hlt.
  { rewrite !len_app. change (len crlf) with 2. pose proof (len_nonneg line).
    pose proof (len_nonneg post). lia. }
  apply Z.ltb_lt in Hlt as ->. rewrite slice_from_0. cbn [checked rbind].
  rewrite index_crlf_app by done. destruct (length line) as [|n] eqn:E.
  { by destruct line. }
  cbn [Z.eqb rbind]. f_equal. rewrite len_app. unfold len. rewrite E. simpl. lia.
Qed.

Lemma header_loop_line fuel pre line post s :
  (CR ∉ line) -> line <> [] -> pre <> [] ->
  header_loop f (Datatypes.S fuel) (len pre) (pre ++ line ++ crlf ++ post) s
  = let (s', more) :=
      match index_byte 58 line with
      | None | Some O => (s, true)
      | Some colon => f (take colon line) (gobytes.TrimSpace (drop (colon + 1) line)) s
      end in
    if more then header_loop f fuel (len (pre ++ line ++ crlf)) (pre ++ line ++ crlf ++ post) s'
    else Ok s'.
Proof using.
  intros Hl Hne Hpre. cbn [header_loop].
  assert (len pre < len (pre ++ line ++ crlf ++ post)) as Hlt.
  { rewrite !len_app. change (len crlf) with 2. pose proof (len_nonneg line).
    pose proof (len_nonneg post). lia. }
  apply Z.ltb_lt in Hlt as ->. rewrite slice_suffix by done. cbn [checked rbind].
  rewrite index_crlf_app by done. destruct (length line) as [|n] eqn:E.
  { by destruct line. }
  destruct (Z.eqb_spec (len pre) 0) as [E0|_]; [by apply len_0_inv in E0|].
  rewrite slice_middle by (unfold len in *; lia). cbn [checked rbind].
  replace (len pre + Z.of_nat (Datatypes.S n) + 2) with (len (pre ++ line ++ crlf))
    by (rewrite !len_app; unfold len; rewrite E; simpl; lia).
  destruct (index_byte 58 line) as [[|c]|]; cbn [rbind];
    [done| |done]. by destruct (f _ _ s).
Qed.

Lemma header_loop_stop fuel pre y s :
  header_loop f (Datatypes.S fuel) (len pre) (pre ++ crlf ++ y) s = Ok s.
Proof using.
  cbn [header_loop].
  assert (len pre < len (pre ++ crlf ++ y)) as Hlt.
  { rewrite !len_app. change (len crlf) with 2. pose proof (len_nonneg y). lia. }
  apply Z.ltb_lt in Hlt as ->. rewrite slice_suffix by done. cbn [checked rbind].
  by change (index_of crlf (crlf ++ y)) with (Some 0%nat).
Qed.

Lemma header_loop_block fuel pre hs y s :
  Forall header_ok hs -> (length hs < fuel)%nat -> pre <> [] ->
  header_loop f fuel (len pre) (pre ++ header_block hs ++ y) s = Ok (fold_headers f hs s).
Proof using.
  intros Hok. revert fuel pre s. induction Hok as [|h hs Hh Hok IH]; intros fuel pre s Hf Hpre;
    (destruct fuel as [|fuel]; [simpl in Hf; lia|]).
  - unfold header_block. cbn [fmap list_fmap concat app fold_headers]. apply header_loop_stop.
  - destruct h as [k v]. pose proof (CR_header _ Hh) as HC.
    destruct Hh as (Hne & Hc & _ & _ & Ht). cbn [fst snd] in *.
    assert (pre ++ header_block ((k, v) :: hs) ++ y
            = pre ++ (k ++ 58 :: SP :: v) ++ crlf ++ header_block hs ++ y) as ->
      by (unfold header_block, header_line; cbn [fmap list_fmap concat fst snd]; by app_norm).
    rewrite header_loop_line; [|done|by destruct k|done].
    rewrite index_byte_app by done. destruct k as [|c k]; [done|]. cbn [length].
    set (kk := c :: k) in *. rewrite take_app_length' by done.
    replace (Datatypes.S (length k) + 1)%nat with (length kk + 1)%nat by done.
    rewrite drop_app_add. cbn [drop]. rewrite gobytes.TrimSpace_sp by done.
    cbn [fold_headers fst snd]. destruct (f kk v s) as [s' more]. destruct more; [|done].
    replace (pre ++ (kk ++ 58 :: SP :: v) ++ crlf ++ header_block hs ++ y)
      with ((pre ++ (kk ++ 58 :: SP :: v) ++ crlf) ++ header_block hs ++ y) by by app_norm.
    apply IH; [simpl in Hf; lia|]. intros E. by destruct pre.
Qed.
End header_loop.

Lemma fold_headers_get key hs :
  fold_headers (fun k v value => if bool_decide (k = key) then (v, false) else (value, true)) hs []
  = default [] (head (snd <$> filter (fun h => h.1 = key) hs)).
Proof.
  induction hs as [|h hs IH]; [done|]. cbn [fold_headers filter list_filter].
  case_bool_decide; case_decide; done.
Qed.

Lemma first_value_lower name hs :
  head (snd <$> filter (fun h => h.1 = name) (lower_name <$> hs)) = first_value name hs.
Proof.
  unfold first_value. induction hs as [|h hs IH]; [done|].
  cbn [fmap list_fmap filter list_filter]. unfold named. case_decide as E; cbn [lower_name fst snd] in E.
  - rewrite decide_True by done. done.
  - rewrite decide_False by done. apply IH.
Qed.

Lemma GetHeader_request method line_target ver hs body r name :
  Forall header_ok hs -> (CR ∉ request_line method line_target ver) ->
  r.(data) = request method line_target ver (lower_name <$> hs) ++ body ->
  GetHeader r name = Ok (default [] (first_value name hs)).
Proof.
  intros Hok HC Hd. unfold GetHeader, ForeachHeader. rewrite Hd. unfold request.
  set (line := request_line method line_target ver) in *.
  replace ((line ++ crlf ++ header_block (lower_name <$> hs)) ++ body)
    with (line ++ crlf ++ header_block (lower_name <$> hs) ++ body) by by app_norm.
  assert (line <> []) as Hne by (unfold line, request_line; by destruct method).
  rewrite header_loop_first by done.
  replace (line ++ crlf ++ header_block (lower_name <$> hs) ++ body)
    with ((line ++ crlf) ++ header_block (lower_name <$> hs) ++ body) by by app_norm.
  rewrite header_loop_block.
  - by rewrite fold_headers_get, first_value_lower.
  - apply Forall_fmap. eapply Forall_impl; [exact Hok|]. intros h. apply lower_name_ok.
  - rewrite !length_app. pose proof (length_header_block (lower_name <$> hs)). rewrite length_fmap in *. lia.
  - by destruct line.
Qed.

(** The header scan of any buffer that holds an empty line ends there. *)
Lemma header_loop_safe {S} (f : bytes -> bytes -> S -> S * bool) fuel start d z y s :
  0 <= start -> (length z < fuel)%nat -> drop (Z.to_nat start) d = z ++ crlf ++ crlf ++ y ->
  safe (fun _ => True) (header_loop f fuel start d s).
Proof.
  revert start z s. induction fuel as [|fuel IH]; intros start z s Hs Hf Hd; [lia|].
  cbn [header_loop].
  assert (Z.of_nat (length z) + 4 + len y + start = len d) as Hlen.
  { apply (f_equal length) in Hd. rewrite length_drop, !length_app in Hd. simpl in Hd.
    unfold len. lia. }
  pose proof (len_nonneg y).
  assert (start < len d) as Hlt by lia. apply Z.ltb_lt in Hlt as ->.
  destruct (slice_from_is_Some d start) as [rest Hrest]; [lia|].
  rewrite Hrest. cbn [checked rbind]. apply slice_from_Some in Hrest as [_ ->]. rewrite Hd.
  destruct (first_line z y) as (idx & -> & Hidx).
  destruct idx as [|i]; [done|]. set (idx := Datatypes.S i) in *.
  assert (idx <= length z)%nat as Hiz by (destruct Hidx as [E|(z' & E & _)]; lia).
  eapply safe_bind with (Q := fun _ => True).
  - destruct (start =? 0); [done|].
    destruct (slice_is_Some d start (start + Z.of_nat idx)) as [line Hl]; [lia..|].
    rewrite Hl. cbn [checked rbind]. by destruct (index_byte 58 line) as [[|c]|].
  - intros [s' more] _. destruct more; [|done].
    assert (forall k, drop (Z.to_nat (start + Z.of_nat idx + Z.of_nat k)) d
                      = drop (idx + k) (z ++ crlf ++ crlf ++ y)) as Hr.
    { intros k. rewrite <- Hd, drop_drop. f_equal. lia. }
    destruct Hidx as [E|(z' & E & Ez)].
    + destruct fuel as [|fuel]; [lia|].
      specialize (Hr 2%nat). rewrite E, drop_app_add in Hr.
      change (drop 2 (crlf ++ crlf ++ y)) with (crlf ++ y) in Hr.
      assert (take (Z.to_nat (start + Z.of_nat idx + 2)) d ++ crlf ++ y = d) as Hsplit.
      { rewrite E. change 2 with (Z.of_nat 2). rewrite <- Hr. apply take_drop. }
      rewrite <- Hsplit at 1.
      replace (start + Z.of_nat idx + 2)
        with (len (take (Z.to_nat (start + Z.of_nat idx + 2)) d)) at 1
        by (unfold len in *; rewrite length_take; lia).
      by rewrite header_loop_stop.
    + apply (IH _ z'); [lia..|]. rewrite <- Ez, <- Hr. f_equal.
Qed.

(** ** Reading the query back *)

Definition query_pair (p : bytes * bytes) : bytes :=
  neturl.QueryEscape p.1 ++ 61 :: neturl.QueryEscape p.2.
Fixpoint query_string (kvs : list (bytes * bytes)) : bytes :=
  match kvs with
  | [] => []
  | [p] => query_pair p
  | p :: kvs => query_pair p ++ 38 :: query_string kvs
  end.

Lemma QueryEscape_delims s : Forall is_byte s ->
  (38 ∉ neturl.QueryEscape s) /\ (61 ∉ neturl.QueryEscape s) /\ (CR ∉ neturl.QueryEscape s).
Proof.
  intros Hs.
  assert (forall b, is_byte b ->
    forallb (fun c => negb ((c =? 38) || (c =? 61) || (c =? CR))) (neturl.escape_byte b) = true) as Hb
    by (apply byte_check; by vm_compute).
  assert (forall c, c ∈ neturl.QueryEscape s -> c <> 38 /\ c <> 61 /\ c <> CR) as Hc.
  { induction Hs as [|b s Hbb Hs IH]; intros c; [by intros ?%not_elem_of_nil|].
    unfold neturl.QueryEscape in *. cbn [fmap list_fmap concat].
    rewrite elem_of_app. intros [Hin|?]; [|by apply IH].
    specialize (Hb b Hbb). rewrite forallb_forall in Hb. apply list_elem_of_In, Hb in Hin.
    apply negb_true_iff, orb_false_iff in Hin as [Hin ?].
    apply orb_false_iff in Hin as [? ?]. zb; try done; lia. }
  split_and!; intros Hin; apply Hc in Hin; lia.
Qed.

Definition bytes_pair (p : bytes * bytes) : Prop := Forall is_byte p.1 /\ Forall is_byte p.2.

Definition no_CR_pair (p : bytes * bytes) : Prop := (CR ∉ p.1) /\ (CR ∉ p.2).

(** One pair [key=value] followed by [tl], which is empty or starts with ['&']. *)
Lemma query_loop_pair {S} (f : bytes -> bytes -> S -> S) fuel pre p tl post s :
  bytes_pair p -> (tl = [] \/ exists t, tl = 38 :: t) ->
  let q := query_pair p ++ tl in
  exists q', length q' = length (query_pair p) /\
  ((CR ∉ p.1) -> (CR ∉ p.2) -> CR ∉ q') /\
  query_loop f (Datatypes.S fuel) (length pre) (length pre + length q) (pre ++ q ++ post) s
  = query_loop f fuel (length pre + length q - length (tail tl)) (length pre + length q)
      (pre ++ q' ++ tl ++ post) (f p.1 p.2 s).
Proof.
  intros [Hk Hv] Htl q. destruct p as [k v]. cbn [fst snd] in *.
  destruct (QueryEscape_delims k Hk) as (Hk38 & Hk61 & HkC).
  destruct (QueryEscape_delims v Hv) as (Hv38 & _ & HvC).
  assert (UnescapeInplace (neturl.QueryEscape k) true
          = (k ++ drop (length k) (neturl.QueryEscape k), k)) as Ek
    by (rewrite UnescapeInplace_unesc; by rewrite (unesc_decode _ _ _ _ (decode_QueryEscape k Hk))).
  assert (UnescapeInplace (neturl.QueryEscape v) true
          = (v ++ drop (length v) (neturl.QueryEscape v), v)) as Ev
    by (rewrite UnescapeInplace_unesc; by rewrite (unesc_decode _ _ _ _ (decode_QueryEscape v Hv))).
  apply length_UnescapeInplace in Ek as Lk. apply length_UnescapeInplace in Ev as Lv.
  unfold query_pair in *. cbn [fst snd] in *.
  set (ek := neturl.QueryEscape k) in *. set (ev := neturl.QueryEscape v) in *.
  set (ek' := k ++ drop (length k) ek) in *. set (ev' := v ++ drop (length v) ev) in *.
  assert (38 ∉ ek ++ 61 :: ev) as H38.
  { rewrite elem_of_app, elem_of_cons. intros [?|[?|?]]; done. }
  exists (ek' ++ 61 :: ev'). split; [rewrite !length_app; simpl; lia|]. split.
  { unfold ek', ev'. clear -HkC HvC. intros H1 H2. rewrite !elem_of_app, elem_of_cons, elem_of_app.
    intros [[?|Hd]|[E|[?|Hd]]]; [done| |by vm_compute in E|done|].
    - by apply HkC, (elem_of_drop_l _ (length k)).
    - by apply HvC, (elem_of_drop_l _ (length v)). }
  cbn [query_loop].
  replace (length pre + length q - length pre)%nat with (length q) by lia.
  rewrite drop_app_length, take_app_length.
  assert (0 < len q) as Hq by (unfold q; autorewrite with len;
    pose proof (len_nonneg ek); pose proof (len_nonneg ev); pose proof (len_nonneg tl); lia).
  apply Z.ltb_lt in Hq as ->.
  assert (exists b, Cut q 38 = (ek ++ 61 :: ev, tail tl, b)) as [b ->].
  { unfold Cut, q. destruct Htl as [->|[t ->]].
    - rewrite app_nil_r, (proj2 (index_byte_None _ _)) by done. eauto.
    - rewrite index_byte_app by done. rewrite take_app_length, drop_app_add. eauto. }
  assert (Cut (ek ++ 61 :: ev) 61 = (ek, ev, true)) as ->
    by (unfold Cut; rewrite index_byte_app by done; by rewrite take_app_length, drop_app_add).
  rewrite Ek, Ev. cbn zeta. f_equal. unfold q.
  replace (pre ++ ((ek ++ 61 :: ev) ++ tl) ++ post)
    with (pre ++ ek ++ (61 :: ev ++ tl ++ post)) by by app_norm.
  rewrite overwrite_middle by lia.
  replace (pre ++ ek' ++ 61 :: ev ++ tl ++ post)
    with ((pre ++ ek' ++ [61]) ++ ev ++ (tl ++ post)) by by app_norm.
  replace (length pre + (length (ek ++ 61%Z :: ev) - length ev))%nat
    with (length (pre ++ ek' ++ [61])) by (rewrite !length_app; simpl; lia).
  rewrite overwrite_middle by lia. by app_norm.
Qed.

Lemma query_loop_string {S} (f : bytes -> bytes -> S -> S) fuel pre kvs post s :
  Forall bytes_pair kvs -> (length kvs < fuel)%nat ->
  exists q', length q' = length (query_string kvs) /\
  (Forall no_CR_pair kvs -> CR ∉ q') /\
  query_loop f fuel (length pre) (length pre + length (query_string kvs))
    (pre ++ query_string kvs ++ post) s
  = Ok (pre ++ q' ++ post, foldl (fun s p => f p.1 p.2 s) s kvs).
Proof.
  intros Hb. revert fuel pre s.
  assert (forall fuel pre d s, query_loop f (Datatypes.S fuel) pre pre d s = Ok (d, s)) as Hend
    by (intros; cbn [query_loop]; by rewrite Nat.sub_diag, take_0).
  induction Hb as [|p kvs Hp Hb IH]; intros fuel pre s Hf;
    (destruct fuel as [|fuel]; [simpl in Hf; lia|]).
  - exists []. split; [done|]. split; [intros _; apply not_elem_of_nil|]. cbn [query_string length]. rewrite Nat.add_0_r. apply Hend.
  - destruct kvs as [|p2 kvs].
    + destruct (query_loop_pair f fuel pre p [] post s Hp (or_introl eq_refl)) as (q' & Hl & HC & Hq).
      cbn zeta in Hq. rewrite app_nil_r in Hq. exists q'. split; [done|].
      split; [intros [[??] _]%Forall_cons; by apply HC|].
      cbn [query_string]. rewrite Hq. cbn [tail length].
      destruct fuel as [|fuel]; [simpl in Hf; lia|]. rewrite Nat.sub_0_r. apply Hend.
    + set (qs := query_string (p2 :: kvs)) in *.
      destruct (query_loop_pair f fuel pre p (38 :: qs) post s Hp
                  (or_intror (ex_intro _ qs eq_refl))) as (q' & Hl & HC & Hq).
      cbn zeta in Hq. cbn [tail] in Hq.
      destruct (IH fuel (pre ++ q' ++ [38]) (f p.1 p.2 s)) as (q2 & Hl2 & HC2 & Hq2); [simpl in *; lia|].
      exists (q' ++ 38 :: q2).
      change (query_string (p :: p2 :: kvs)) with (query_pair p ++ 38 :: qs).
      split; [rewrite !length_app; cbn [length]; lia|]. split.
      { intros [[??] Hk]%Forall_cons. rewrite elem_of_app, elem_of_cons.
        intros [Hi|[E|Hi]]; [by apply HC|by vm_compute in E|by apply HC2]. }
      rewrite Hq.
      replace (length pre + length (query_pair p ++ 38%Z :: qs) - length qs)%nat
        with (length (pre ++ q' ++ [38])) by (rewrite !length_app; cbn [length]; lia).
      replace (length pre + length (query_pair p ++ 38%Z :: qs))%nat
        with (length (pre ++ q' ++ [38%Z]) + length qs)%nat by (rewrite !length_app; cbn [length]; lia).
      replace (pre ++ q' ++ (38 :: qs) ++ post) with ((pre ++ q' ++ [38]) ++ qs ++ post) by by app_norm.
      rewrite Hq2. f_equal. f_equal. by app_norm.
Qed.

Lemma length_query_string kvs : (length kvs <= length (query_string kvs))%nat.
Proof.
  induction kvs as [|p kvs IH]; [done|].
  assert (1 <= length (query_pair p))%nat
    by (unfold query_pair; rewrite length_app; cbn [length]; lia).
  destruct kvs as [|p2 kvs]; [cbn [query_string length]; lia|].
  change (query_string (p :: p2 :: kvs)) with (query_pair p ++ 38 :: query_string (p2 :: kvs)).
  rewrite length_app. cbn [length] in *. lia.
Qed.

Lemma foldl_snoc_pairs {A B} (acc l : list (A * B)) :
  foldl (fun s p => s ++ [(p.1, p.2)]) acc l = acc ++ l.
Proof.
  revert acc. induction l as [|[a b] l IH]; intros acc; simpl; [by rewrite app_nil_r|].
  by rewrite IH, <- app_assoc.
Qed.

(** The query loop over a buffer region that holds escaped pairs. *)
Lemma ForeachQuery_fold {S} (f : bytes -> bytes -> S -> S) r pre kvs post s :
  r.(data) = pre ++ query_string kvs ++ post ->
  r.(qStart) = len pre -> r.(qEnd) = len pre + len (query_string kvs) ->
  pre <> [] -> Forall bytes_pair kvs ->
  exists q', length q' = length (query_string kvs) /\ (Forall no_CR_pair kvs -> CR ∉ q') /\
    ForeachQuery f r s = Ok (set_data (pre ++ q' ++ post) r, foldl (fun s p => f p.1 p.2 s) s kvs).
Proof.
  intros Hd Hs He Hpre Hkvs. unfold ForeachQuery. rewrite Hd, Hs, He.
  destruct (Z.eqb_spec (len pre) 0) as [E|_]; [by apply len_0_inv in E|].
  rewrite slice_middle by done. cbn [checked rbind].
  replace (Z.to_nat (len pre)) with (length pre) by (unfold len; lia).
  replace (Z.to_nat (len pre + len (query_string kvs)))
    with (length pre + length (query_string kvs))%nat by (unfold len; lia).
  destruct (query_loop_string f (Datatypes.S (length (query_string kvs))) pre kvs post s Hkvs)
    as (q' & Hlq & HC & Hloop).
  { pose proof (length_query_string kvs). lia. }
  exists q'. by rewrite Hloop.
Qed.

Section parse_errors.
Context `{Env}.

(** The parser's errors are its own; it never asks for more input. *)
Lemma parse_loop_not_wait fuel start r : parse_loop fuel start r <> Err errWaitMore.
Proof.
  revert start r. induction fuel as [|fuel IH]; intros start r; [done|]. cbn [parse_loop].
  destruct (start <? len r.(data)); [|done].
  destruct (slice_from r.(data) start) as [rest|]; [|done]. cbn [checked rbind].
  destruct (index_of crlf rest) as [[|idx]|]; [done| |done].
  assert (parseFirstLine r (Datatypes.S idx) <> Err errWaitMore) as H1.
  { unfold parseFirstLine. destruct (slice _ _ _) as [line|]; [|done]. cbn [checked rbind].
    destruct (index_byte SP line), (last_index_byte SP line); try done.
    destruct (_ || _); [done|]. destruct (slice _ _ _) as [uri|]; [|done]. cbn [checked rbind].
    destruct (index_byte 63 uri); destruct (UnescapeInplace _ _); destruct (prefixb _ _);
      try done; by destruct (url_Parse _) as [[? ?]|]. }
  assert (parseHeader r start (Datatypes.S idx) <> Err errWaitMore) as H2.
  { unfold parseHeader. destruct (slice _ _ _) as [line|]; [|done]. cbn [checked rbind].
    destruct (index_byte 58 line) as [[|c]|]; try done. cbn zeta.
    repeat case_bool_decide; try done; destruct (strconv.Atoi _) as [cl err];
      by destruct (_ || _). }
  destruct (start =? 0).
  - destruct (parseFirstLine _ _) as [r'|e| |]; cbn [rbind]; [apply IH|congruence|done|done].
  - destruct (parseHeader _ _ _) as [r'|e| |]; cbn [rbind]; [apply IH|congruence|done|done].
Qed.

Lemma parse_not_wait r : parse r <> Err errWaitMore.
Proof. apply parse_loop_not_wait. Qed.

(** Parsing a block that ends in an empty line. *)
Lemma parse_safe z :
  max_ok ->
  safe (fun r => length r.(data) = length (z ++ crlf ++ crlf) /\ query_ok r /\
                 r.(hdrLen) = u32 (len (z ++ crlf ++ crlf)) /\ body_ok r /\
                 exists pre, r.(data) = pre ++ crlf ++ crlf)
    (parse (set_data (z ++ crlf ++ crlf) newHTTP)).
Proof.
  intros Hmax. unfold parse. cbn [data set_data].
  apply (parse_loop_safe (S (length (z ++ crlf ++ crlf))) 0
           (set_hdrLen (u32 (len (z ++ crlf ++ crlf))) (set_data (z ++ crlf ++ crlf) newHTTP))
           z []); try done.
  - rewrite !length_app. simpl. lia.
  - cbn. autorewrite with len. change (len crlf) with 2. unfold len. simpl. lia.
  - by left.
  - unfold body_ok. simpl. lia.
Qed.

(** Where the empty line that ends a request is. *)
Lemma index_empty_line_skip a y :
  (CR ∉ a) ->
  index_of (crlf ++ crlf) (a ++ y) = Nat.add (length a) <$> index_of (crlf ++ crlf) y.
Proof.
  intros Ha. induction a as [|c a IH]; cbn [app length].
  - by destruct (index_of _ y).
  - apply not_elem_of_cons in Ha as [Hc Ha]. cbn [index_of prefixb crlf app].
    destruct (Z.eqb_spec CR c) as [E|]; [congruence|]. cbn [andb].
    change (CR :: LF :: crlf) with (crlf ++ crlf). rewrite IH by done.
    by destruct (index_of _ y).
Qed.

Lemma index_empty_line_next c y :
  c <> CR ->
  index_of (crlf ++ crlf) (crlf ++ c :: y) = Nat.add 2 <$> index_of (crlf ++ crlf) (c :: y).
Proof.
  intros Hc. unfold crlf. cbn [app index_of prefixb].
  change (CR =? CR) with true. change (LF =? LF) with true. change (CR =? LF) with false.
  destruct (Z.eqb_spec CR c) as [E|]; [congruence|]. cbn [andb].
  by destruct (index_of _ y).
Qed.

Lemma index_empty_line_headers line hs y :
  (CR ∉ line) -> Forall header_ok hs ->
  index_of (crlf ++ crlf) (line ++ crlf ++ header_block hs ++ y)
  = Some (length (line ++ crlf ++ header_block hs) - 4)%nat.
Proof.
  revert line. induction hs as [|h hs IH]; intros line Hl Hh.
  - rewrite index_empty_line_skip by done. cbn.
    f_equal. rewrite !length_app. simpl. lia.
  - apply Forall_cons in Hh as [Hh Hhs]. pose proof (CR_header _ Hh) as HC.
    assert (header_block (h :: hs) = (h.1 ++ 58 :: SP :: h.2) ++ crlf ++ header_block hs) as ->
      by (unfold header_block, header_line; cbn [fmap list_fmap concat]; by app_norm).
    rewrite index_empty_line_skip by done. specialize (IH _ HC Hhs).
    destruct Hh as (Hne & _ & HC1 & _). destruct h as [[|c k] v]; [done|]. cbn [fst snd app] in *.
    apply not_elem_of_cons in HC1 as [HC1 _].
    rewrite index_empty_line_next by done.
    rewrite <- (app_assoc (k ++ 58 :: SP :: v) (crlf ++ header_block hs) y),
      <- (app_assoc crlf (header_block hs) y), IH.
    cbn [fmap option_fmap option_map].
    f_equal. rewrite !length_app. cbn [length app crlf]. rewrite !length_app. cbn [length].
    unfold header_block. rewrite length_app. cbn [length crlf]. lia.
Qed.

Lemma index_empty_line_request method target ver hs y :
  request_ok method target ver hs ->
  index_of (crlf ++ crlf) (request method target ver hs ++ y)
  = Some (length (request method target ver hs) - 4)%nat.
Proof.
  intros Hok. destruct Hok as [[Hm HmC] [HtC Htl] [Hv HvC] Hh _ _ _].
  unfold request. rewrite <- !app_assoc. apply index_empty_line_headers; [|done].
  by apply CR_request_line.
Qed.
End parse_errors.
