(* ===== verification/HttpSpec.v ===== *)
(** What the HTTP parser guarantees (src/http.go): the properties of [Http]. *)

From S2P Require Import Prelude GoStd Escape Util Http.

(** An environment to instantiate the theorems at: the default size limit and a
    [url.Parse] that accepts nothing. *)
Definition default_env : Env :=
  {| RequestMaxBytes := 1 * 1024 * 1024; url_Parse := fun _ => None |}.

Section properties.
Context `{Env}.

Lemma query_of_fields method target r :
  (query_of method target r).(Host) = r.(Host) /\
  (query_of method target r).(bodyLen) = r.(bodyLen) /\
  (query_of method target r).(wsUpgrade) = r.(wsUpgrade) /\
  (query_of method target r).(hdrLen) = r.(hdrLen).
Proof using. unfold query_of. by destruct (index_byte 63 target). Qed.

Lemma decoded_unesc target out :
  decode false (target_path target) = Some out ->
  unesc false (target_path target) (target_path target) = out.
Proof using. apply unesc_decode. Qed.

(** a well-formed request is parsed to what it says: the path is the
    decoded target up to the question mark, the host, the body length and the
    upgrade flag are those of the last header of the respective name (whatever
    the case of the name), and the header length is the length of the whole
    block. *)
Theorem parse_request method target ver hs out :
  request_ok method target ver hs ->
  decode false (target_path target) = Some (47 :: out) ->
  exists r, parse (set_data (request method target ver hs) newHTTP) = Ok r /\
    r.(Path) = 47 :: out /\
    r.(Host) = default [] (last_value (bs "host") hs) /\
    r.(bodyLen) = default 0 ((fun v => (strconv.Atoi v).1)
                               <$> last_value (bs "content-length") hs) /\
    r.(wsUpgrade) = default false ((fun v => gobytes.EqualFold v (bs "websocket"))
                                     <$> last_value (bs "upgrade") hs) /\
    r.(hdrLen) = len (request method target ver hs).
Proof.
  intros Hok Hout. apply decoded_unesc in Hout.
  eexists. split; [apply parse_request_eq; [done|by rewrite Hout]|]. rewrite Hout.
  set (r0 := set_Path _ _).
  destruct (foldl_apply_header_fields r0 hs) as (E1 & E2 & E3 & E4 & _ & _ & E5).
  cbn [set_data Path Host bodyLen wsUpgrade hdrLen]. rewrite E1, E2, E3, E4, E5.
  destruct (query_of_fields method target
              (set_hdrLen (len (request method target ver hs)) newHTTP)) as (F1 & F2 & F3 & F4).
  unfold r0. cbn [set_Path Path Host bodyLen wsUpgrade hdrLen]. by rewrite F1, F2, F3, F4.
Qed.

(** after parsing a well-formed request, [GetHeader] of any name answers
    the value of the first header of that name in lower case (the empty string
    when there is none), also when body bytes follow the headers. *)
Theorem GetHeader_parse_request method target ver hs out body name r :
  request_ok method target ver hs ->
  decode false (target_path target) = Some (47 :: out) -> (CR ∉ out) ->
  parse (set_data (request method target ver hs) newHTTP) = Ok r ->
  GetHeader (set_data (r.(data) ++ body) r) name = Ok (default [] (first_value name hs)).
Proof.
  intros Hok Hout HC Hp. apply decoded_unesc in Hout.
  rewrite parse_request_eq in Hp by (done || by rewrite Hout). injection Hp as <-.
  destruct Hok as [[Hm HmC] [HtC Htl] [Hv HvC] Hh Hcl Hsz Hmax].
  rewrite Hout. eapply GetHeader_request; [exact Hh| |cbn [set_data data]; reflexivity].
  apply CR_request_line; [done| |done].
  rewrite elem_of_app, elem_of_cons. intros [[E|?]|Hin]; [by vm_compute in E|done|].
  apply HtC. rewrite <- (take_drop (length (47%Z :: out)) target). apply elem_of_app. by right.
Qed.

(** C26: safety of the parser on arbitrary input: given a header block that
    ends at its first empty line, [parse] returns a request or an error (it
    does not panic, and its loop ends); an accepted request keeps the length
    of its buffer, its body length respects [RequestMaxBytes], its query
    bounds lie in the buffer, and scanning its headers cannot panic either. *)
Theorem parse_total z :
  max_ok ->
  safe (fun r => length r.(data) = length (z ++ crlf ++ crlf) /\ query_ok r /\ body_ok r /\
                 forall body name,
                   safe (fun _ => True) (GetHeader (set_data (r.(data) ++ body) r) name))
    (parse (set_data (z ++ crlf ++ crlf) newHTTP)).
Proof.
  intros Hmax. eapply safe_mono; [by apply parse_safe|].
  intros r (Hl & Hq & _ & Hb & pre & Hd). split_and!; [done..|]. intros body name.
  unfold GetHeader, ForeachHeader. cbn [data set_data].
    apply (header_loop_safe _ _ 0 _ pre body); [lia| |].
    + rewrite Hd, !length_app. lia.
    + rewrite Hd. cbn. by app_norm.
Qed.

(** The target of an injection, and what it decodes to. *)
Definition injected (k v : bytes) : bytes := bs "/%0D%0A" ++ k ++ bs ":" ++ v ++ bs "%0D%0A".
Definition injected_path (k v : bytes) : bytes := bs "/" ++ crlf ++ k ++ bs ":" ++ v ++ crlf.

Lemma injected_unesc k v :
  (37 ∉ k) -> (63 ∉ k) -> (37 ∉ v) -> (63 ∉ v) ->
  unesc false (target_path (injected k v)) (target_path (injected k v)) = injected_path k v.
Proof using.
  intros Hk37 Hk63 Hv37 Hv63.
  assert (target_path (injected k v) = injected k v) as ->.
  { unfold target_path. rewrite (proj2 (index_byte_None 63 (injected k v))); [done|].
    unfold injected. rewrite !elem_of_app.
    intros [E|[?|[E|[?|E]]]]; try done; revert E; by apply index_byte_None. }
  apply unesc_decode. unfold injected, injected_path.
  apply (decode_app false (bs "/%0D%0A") _ (bs "/" ++ crlf)); [done|].
  repeat apply decode_app; try done; by apply decode_plain.
Qed.

(** a header can be smuggled in through the path.  The decoded path is
    written into the buffer that [GetHeader] scans for line breaks, so with a
    target [/%0D%0Aname:value%0D%0A] the lookup of [name] answers [value],
    whatever headers the request has. *)
Theorem GetHeader_injected method ver hs k v r :
  let target := injected k v in
  request_ok method target ver hs ->
  k <> [] -> (58 ∉ k) -> (37 ∉ k) -> (63 ∉ k) -> (37 ∉ v) -> (63 ∉ v) ->
  parse (set_data (request method target ver hs) newHTTP) = Ok r ->
  GetHeader r k = Ok (gobytes.TrimSpace v).
Proof.
  intros target Hok Hk Hk58 Hk37 Hk63 Hv37 Hv63 Hp.
  assert (CR ∉ target) as HtC by apply Hok.
  assert ((CR ∉ k) /\ (CR ∉ v)) as [HkC HvC].
  { unfold target, injected in HtC. rewrite !elem_of_app in HtC. tauto. }
  pose proof (injected_unesc k v Hk37 Hk63 Hv37 Hv63) as Hun. fold target in Hun.
  set (out := injected_path k v) in *.
  rewrite parse_request_eq in Hp by (done || by rewrite Hun). injection Hp as <-.
  rewrite Hun. unfold GetHeader, ForeachHeader. cbn [data set_data].
  set (tl := drop (length out) target).
  set (rest := header_block (lower_name <$> hs)).
  assert (request method (out ++ tl) ver (lower_name <$> hs)
          = (method ++ SP :: bs "/") ++ crlf ++ (k ++ 58 :: v) ++ crlf
              ++ (tl ++ SP :: ver ++ crlf ++ rest)) as ->.
  { unfold request, request_line, out, injected_path. fold rest. by app_norm. }
  destruct (ok_method _ _ _ _ Hok) as [Hm HmC].
  assert (CR ∉ method ++ SP :: bs "/") as HC1.
  { rewrite elem_of_app, elem_of_cons. intros [?|[E|E]]; [done..|].
    revert E. by apply index_byte_None. }
  assert (CR ∉ k ++ 58 :: v) as HC2.
  { rewrite elem_of_app, elem_of_cons. intros [?|[E|E]]; done. }
  rewrite header_loop_first; [|done|by destruct method].
  replace ((method ++ SP :: bs "/") ++ crlf ++ (k ++ 58 :: v) ++ crlf
              ++ (tl ++ SP :: ver ++ crlf ++ rest))
    with (((method ++ SP :: bs "/") ++ crlf) ++ (k ++ 58 :: v) ++ crlf
              ++ (tl ++ SP :: ver ++ crlf ++ rest)) by by app_norm.
  match goal with
  | |- context [header_loop _ (length ?l) _ _ _] => destruct (length l) as [|n] eqn:En
  end.
  { rewrite !length_app in En. simpl in En. lia. }
  rewrite header_loop_line; [|done|by destruct k|by destruct method].
  rewrite index_byte_app by done. destruct k as [|c k]; [done|]. cbn [length].
  set (kk := c :: k) in *. rewrite take_app_length' by done.
  rewrite bool_decide_true by done.
  replace (Datatypes.S (length k) + 1)%nat with (length kk + 1)%nat by done.
  by rewrite drop_app_add.
Qed.

(** What parsing leaves of a request with a query: the decoded path over the
    escaped one, and the query as it came. *)
Lemma parse_query_shape method path ver hs kvs out r :
  let target := path ++ 63 :: query_string kvs in
  request_ok method target ver hs -> (63 ∉ path) ->
  decode false path = Some (47 :: out) ->
  parse (set_data (request method target ver hs) newHTTP) = Ok r ->
  exists tl, length (47 :: out ++ tl) = length path /\ ((CR ∉ path) -> CR ∉ tl) /\
    let pre := method ++ SP :: 47 :: out ++ tl ++ [63] in
    r.(data) = pre ++ query_string kvs ++ SP :: ver ++ crlf ++ header_block (lower_name <$> hs) /\
    r.(qStart) = len pre /\ r.(qEnd) = len pre + len (query_string kvs) /\
    r.(Path) = 47 :: out /\ r.(Host) = default [] (last_value (bs "host") hs).
Proof.
  intros target Hok Hq Hout Hp.
  assert (target_path target = path) as Hpath
    by (unfold target_path, target; rewrite index_byte_app by done; by rewrite take_app_length).
  rewrite <- Hpath in Hout. apply decoded_unesc in Hout.
  rewrite parse_request_eq in Hp by (done || by rewrite Hout). injection Hp as <-.
  rewrite Hout. set (o := 47 :: out) in *.
  set (r0 := set_Path o _).
  destruct (foldl_apply_header_fields r0 hs) as (EH & _ & _ & EP & E1 & E2 & _).
  set (r1 := foldl _ r0 hs) in *.
  assert (r1.(qStart) = len method + 1 + len path + 1 /\
          r1.(qEnd) = len method + 1 + len target) as [Eqs Eqe].
  { rewrite E1, E2. unfold r0, query_of, target. cbn [set_Path qStart qEnd].
    rewrite index_byte_app by done. done. }
  pose proof (length_unesc false path path) as Hlo. rewrite Hpath in Hout. rewrite Hout in Hlo.
  exists (drop (length o) path).
  assert (length (47 :: out ++ drop (length o) path) = length path) as Hlx.
  { change (47 :: out ++ ?x) with (o ++ x). rewrite length_app, length_drop. lia. }
  split; [done|]. split; [by intros HC ?%elem_of_drop_l|].
  set (pre := method ++ _).
  assert (len pre = len method + 1 + len path + 1) as Hpre.
  { unfold pre. change (47 :: out ++ ?x) with (o ++ x).
    replace (SP :: o ++ drop (length o) path ++ [63]) with (SP :: (o ++ drop (length o) path) ++ [63])
      by by app_norm.
    change (length (o ++ drop (length o) path) = length path) in Hlx.
    rewrite len_app, len_cons, len_app. unfold len. rewrite Hlx. simpl. lia. }
  cbn [set_data data qStart qEnd Path Host]. rewrite Eqs, Eqe, EH, EP, Hpre. split_and!.
  - unfold request, request_line, target. rewrite drop_app_le by done.
    unfold pre, o. by app_norm.
  - done.
  - unfold target. autorewrite with len. lia.
  - done.
  - unfold r0. cbn [set_Path Host]. by rewrite (proj1 (query_of_fields _ _ _)).
Qed.

(** The same without a query. *)
Lemma parse_plain_shape method path ver hs out r :
  request_ok method path ver hs -> (63 ∉ path) -> decode false path = Some (47 :: out) ->
  parse (set_data (request method path ver hs) newHTTP) = Ok r ->
  exists tl, ((CR ∉ path) -> CR ∉ tl) /\
    r.(data) = method ++ SP :: 47 :: out ++ tl ++ SP :: ver ++ crlf ++ header_block (lower_name <$> hs) /\
    r.(qStart) = 0 /\ r.(Path) = 47 :: out /\ r.(Host) = default [] (last_value (bs "host") hs).
Proof.
  intros Hok Hq Hout Hp. assert (index_byte 63 path = None) as Hi by by apply index_byte_None.
  assert (target_path path = path) as Hpath by (unfold target_path; by rewrite Hi).
  rewrite <- Hpath in Hout. apply decoded_unesc in Hout.
  rewrite parse_request_eq in Hp by (done || by rewrite Hout). injection Hp as <-.
  rewrite Hout. set (o := 47 :: out) in *. set (r0 := set_Path o _).
  destruct (foldl_apply_header_fields r0 hs) as (EH & _ & _ & EP & E1 & _).
  exists (drop (length o) path). split; [by intros HC ?%elem_of_drop_l|].
  cbn [set_data data qStart Path Host]. rewrite E1, EH, EP. unfold r0, query_of. rewrite Hi. split_and!; try done.
  unfold request, request_line, o. by app_norm.
Qed.

(** iterating over the query of a well-formed request visits the pairs
    that were escaped into it, in order. *)
Theorem ForeachQuery_request method path ver hs kvs out r :
  let target := path ++ 63 :: query_string kvs in
  request_ok method target ver hs -> Forall bytes_pair kvs -> (63 ∉ path) ->
  decode false path = Some (47 :: out) ->
  parse (set_data (request method target ver hs) newHTTP) = Ok r ->
  exists r', ForeachQuery (fun k v acc => acc ++ [(k, v)]) r [] = Ok (r', kvs) /\
    length r'.(data) = length r.(data).
Proof.
  intros target Hok Hkvs Hq Hout Hp.
  destruct (parse_query_shape method path ver hs kvs out r Hok Hq Hout Hp)
    as (tl & _ & _ & Hd & Hs & He & _).
  set (pre := method ++ _) in *.
  destruct (ForeachQuery_fold (fun k v acc => acc ++ [(k, v)]) r pre kvs _ [] Hd Hs He)
    as (q' & Hl & _ & E); [by destruct method|done|].
  eexists. split; [rewrite E; by rewrite foldl_snoc_pairs|].
  cbn [set_data data]. rewrite Hd, !length_app. lia.
Qed.

(** iterating over the query twice does not visit the same pairs: the
    first pass decodes in place, so the second decodes what is left in the
    buffer.  A value that escapes the text of an escape, [%25XX], is the text
    [%XX] in the first pass; in the second it is the byte [XX] followed by the
    two digits that the first pass left behind. *)
Theorem ForeachQuery_twice b :
  is_byte b ->
  let hi := hex.upper_digit (Z.shiftr b 4) in
  let lo := hex.upper_digit (Z.land b 15) in
  let r := set_query 1 8 (set_data (bs "?a=%25" ++ [hi; lo]) newHTTP) in
  let collect := fun (k v : bytes) acc => acc ++ [(k, v)] in
  exists r1 r2,
    ForeachQuery collect r [] = Ok (r1, [(bs "a", bs "%" ++ [hi; lo])]) /\
    ForeachQuery collect r1 [] = Ok (r2, [(bs "a", [b; hi; lo])]).
Proof.
  intros Hb hi lo r collect.
  pose (r1 := set_data (bs "?a=%" ++ [hi; lo; hex.upper_digit (Z.land b 15)]) r).
  assert (forall c, is_byte c ->
    let h := hex.upper_digit (Z.shiftr c 4) in
    let l := hex.upper_digit (Z.land c 15) in
    bool_decide (
      query_loop collect 8 1 8 (bs "?a=%25" ++ [h; l]) []
        = Ok (bs "?a=%" ++ [h; l] ++ [h; l], [(bs "a", bs "%" ++ [h; l])]) /\
      query_loop collect 8 1 8 (bs "?a=%" ++ [h; l] ++ [h; l]) []
        = Ok (bs "?a=" ++ [c; h; l] ++ [h; l], [(bs "a", [c; h; l])])) = true) as Hall
    by (apply byte_check; by vm_compute).
  specialize (Hall b Hb). cbn zeta in Hall. apply bool_decide_eq_true_1 in Hall as [E1 E2].
  fold hi lo in E1, E2.
  exists (set_data (bs "?a=%" ++ [hi; lo] ++ [hi; lo]) r),
         (set_data (bs "?a=" ++ [b; hi; lo] ++ [hi; lo]) r).
  split.
  - change (ForeachQuery collect r [])
      with (let! (d, s) := query_loop collect 8 1 8 (bs "?a=%25" ++ [hi; lo]) [] in
            Ok (E:=error) (set_data d r, s)).
    by rewrite E1.
  - change (ForeachQuery collect (set_data (bs "?a=%" ++ [hi; lo] ++ [hi; lo]) r) [])
      with (let! (d, s) := query_loop collect 8 1 8 (bs "?a=%" ++ [hi; lo] ++ [hi; lo]) [] in
            Ok (E:=error) (set_data d r, s)).
    by rewrite E2.
Qed.

(** an empty line alone is accepted as a request, with an empty path; the
    method of such a request cannot be read: [Method] panics. *)
Theorem Method_of_empty_request :
  exists r, parse (set_data (crlf ++ crlf) newHTTP) = Ok r /\ r.(Path) = [] /\ Method r = Panic.
Proof. eexists. split; [reflexivity|]. by vm_compute. Qed.
End properties.

(** ** Witnesses *)

Definition ex_headers : list (bytes * bytes) :=
  [(bs "Host", bs "resh.io"); (bs "X-Token", bs "t"); (bs "Content-Length", bs "2");
   (bs "x-token", bs "u")].

Lemma ex_request_ok method target :
  (SP ∉ method) /\ (CR ∉ method) -> (CR ∉ target) -> len method + len target <= 1000 ->
  @request_ok default_env method target (bs "HTTP/1.1") ex_headers.
Proof.
  intros Hm HC Hl. constructor.
  - done.
  - split; [done|]. lia.
  - split; compute_done.
  - repeat constructor; try done; compute_done.
  - repeat constructor; intros E; try discriminate E. by exists 2.
  - unfold request, request_line. autorewrite with len.
    change (len (bs "HTTP/1.1")) with 8.
    change (len (header_block ex_headers)) with 60. change (len crlf) with 2. lia.
  - by vm_compute.
Defined.

(** The request the parser makes of a header block. *)
Definition parsed (d : bytes) : HTTP :=
  match @parse default_env (set_data d newHTTP) with Ok r => r | _ => newHTTP end.

Lemma parse_request_witness :
  exists r, @parse default_env
              (set_data (request (bs "GET") (bs "/p%20q?x=1") (bs "HTTP/1.1") ex_headers) newHTTP)
            = Ok r /\
    r.(Path) = bs "/p q" /\ r.(Host) = bs "resh.io" /\ r.(bodyLen) = 2 /\
    r.(wsUpgrade) = false /\ r.(hdrLen) = 85.
Proof.
  apply (@parse_request default_env (bs "GET") (bs "/p%20q?x=1") (bs "HTTP/1.1") ex_headers
           (bs "p q")).
  - apply ex_request_ok; [compute_done|compute_done|by vm_compute].
  - by vm_compute.
Defined.

Lemma GetHeader_parse_request_witness :
  let r := parsed (request (bs "GET") (bs "/p%20q?x=1") (bs "HTTP/1.1") ex_headers) in
  GetHeader (set_data (r.(data) ++ bs "ok") r) (bs "x-token") = Ok (bs "t").
Proof.
  intros r.
  apply (@GetHeader_parse_request default_env (bs "GET") (bs "/p%20q?x=1") (bs "HTTP/1.1")
           ex_headers (bs "p q") (bs "ok") (bs "x-token") r).
  - apply ex_request_ok; [compute_done|compute_done|by vm_compute].
  - by vm_compute.
  - compute_done.
  - by vm_compute.
Defined.

Lemma parse_total_witness :
  @max_ok default_env /\
  safe (fun r => length r.(data) = 8%nat /\ query_ok r /\ @body_ok default_env r /\
                 forall body name,
                   safe (fun _ => True) (GetHeader (set_data (r.(data) ++ body) r) name))
    (@parse default_env (set_data (bs "junk" ++ crlf ++ crlf) newHTTP)).
Proof.
  assert (@max_ok default_env) as H by (by vm_compute).
  split; [exact H|]. apply (@parse_total default_env (bs "junk") H).
Defined.

Lemma GetHeader_injected_witness :
  GetHeader (parsed (request (bs "GET") (bs "/%0D%0Ax-user:root%0D%0A") (bs "HTTP/1.1")
                       ex_headers)) (bs "x-user") = Ok (bs "root").
Proof.
  apply (@GetHeader_injected default_env (bs "GET") (bs "HTTP/1.1") ex_headers
           (bs "x-user") (bs "root")).
  - apply ex_request_ok; [compute_done|compute_done|by vm_compute].
  - done.
  - compute_done.
  - compute_done.
  - compute_done.
  - compute_done.
  - compute_done.
  - by vm_compute.
Defined.

Lemma ForeachQuery_request_witness :
  let kvs := [(bs "a", bs "b c"); (bs "d", bs "&=%")] in
  let r := parsed (request (bs "GET") (bs "/s" ++ 63 :: query_string kvs) (bs "HTTP/1.1")
                     ex_headers) in
  exists r', ForeachQuery (fun k v acc => acc ++ [(k, v)]) r [] = Ok (r', kvs) /\
    length r'.(data) = length r.(data).
Proof.
  intros kvs r.
  apply (@ForeachQuery_request default_env (bs "GET") (bs "/s") (bs "HTTP/1.1") ex_headers kvs
           (bs "s") r).
  - apply ex_request_ok; [compute_done|compute_done|by vm_compute].
  - repeat constructor; by vm_compute.
  - compute_done.
  - by vm_compute.
  - by vm_compute.
Defined.

Lemma ForeachQuery_twice_witness :
  is_byte 65 /\
  exists r1 r2,
    let collect := fun (k v : bytes) acc => acc ++ [(k, v)] in
    let r := set_query 1 8 (set_data (bs "?a=%2541") newHTTP) in
    ForeachQuery collect r [] = Ok (r1, [(bs "a", bs "%41")]) /\
    ForeachQuery collect r1 [] = Ok (r2, [(bs "a", bs "A41")]).
Proof.
  assert (is_byte 65) as H by (by vm_compute).
  split; [exact H|]. apply (ForeachQuery_twice 65 H).
Defined.
