(* ===== verification/HttpQuery.v ===== *)
(** The query of a request as a map, and its URL (src/http.go, lines 113 to 123
    and 167 to 193).

    The map is [plru.Map] of another repository: a parameter here, with what a map
    promises as hypotheses.  The keys and values it holds share the bytes of the
    request; the theorems are about calls between which nothing decodes the
    query again (see [ForeachQuery_twice] for what happens otherwise). *)

From S2P Require Import Prelude GoStd Escape Util Http HttpSpec.

(** ** The map *)

(** [plru.NewMap], [Set] and [Get], and [Get] on a [nil] pointer. *)
Class QueryMap (M : Type) := {
  NewMap : M;
  MSet : bytes -> bytes -> M -> M;
  MGet : M -> bytes -> bytes;
  MGet_nil : bytes -> res error bytes;
}.

Class QueryMapLaws (M : Type) `{QueryMap M} := {
  MGet_new k : MGet NewMap k = [];
  MGet_set k v m k' : MGet (MSet k v m) k' = if decide (k' = k) then v else MGet m k';
}.

(** ** Operations *)

Section query.
Context {M : Type} `{QueryMap M}.

(** [HTTP] with its cache [qmap]. *)
Record Request := mkRequest { http : HTTP; qmap : option M }.

Definition Query (r : Request) : res error (Request * option M) :=
  match r.(qmap) with
  | Some m => Ok (r, Some m)
  | None =>
      if 0 <? r.(http).(qStart) then
        let! (h, m) := ForeachQuery MSet r.(http) NewMap in
        Ok (mkRequest h (Some m), Some m)
      else Ok (r, None)
  end.

Definition GetQuery (k : bytes) (r : Request) : res error (Request * bytes) :=
  let! (r, m) := Query r in
  let! v := match m with Some m => Ok (MGet m k) | None => MGet_nil k end in
  Ok (r, v).

Definition GetQueryInt64 (k : bytes) (r : Request)
  : res error (Request * (Z * option strconv.NumErr)) :=
  let! (r, v) := GetQuery k r in Ok (r, strconv.ParseInt v).

Definition GetQueryInt64Default (k : bytes) (v : Z) (r : Request) : res error (Request * Z) :=
  let! (r, s) := GetQuery k r in
  let (res, err) := strconv.ParseInt s in
  Ok (r, match err with Some _ => v | None => res end).

(** Several lookups, one after the other. *)
Fixpoint GetQueries (ks : list bytes) (r : Request) : res error (Request * list bytes) :=
  match ks with
  | [] => Ok (r, [])
  | k :: ks =>
      let! (r, v) := GetQuery k r in
      let! (r, vs) := GetQueries ks r in Ok (r, v :: vs)
  end.
End query.

(** [URL()] *)
Definition URL (r : HTTP) : res error (HTTP * neturl.URL) :=
  let! (r', raw) :=
    ForeachQuery (fun k v raw => raw ++ neturl.QueryEscape k ++ bs "=" ++ neturl.QueryEscape v ++ bs "&")
      r [] in
  Ok (r', neturl.mkURL (bs "http:") r.(Host) r.(Path) raw).

(** ** Lemmas *)

(** The value that the last of the pairs with this key has. *)
Definition value_of (kvs : list (bytes * bytes)) (k : bytes) : option bytes :=
  last (snd <$> filter (fun p => p.1 = k) kvs).

Lemma value_of_snoc kvs p k :
  value_of (kvs ++ [p]) k = if decide (p.1 = k) then Some p.2 else value_of kvs k.
Proof.
  unfold value_of. rewrite filter_app, fmap_app. cbn [filter list_filter].
  case_decide; cbn [fmap list_fmap]; [by rewrite last_snoc|by rewrite app_nil_r].
Qed.

Section lemmas.
Context {M : Type} `{QueryMapLaws M} `{Env}.

Lemma MGet_pairs kvs k :
  MGet (foldl (fun m p => MSet p.1 p.2 m) NewMap kvs) k = default [] (value_of kvs k).
Proof using All.
  induction kvs as [|p kvs IH] using rev_ind; [apply MGet_new|].
  rewrite foldl_snoc, MGet_set, value_of_snoc, IH.
  destruct (decide (p.1 = k)) as [->|Hn]; [by rewrite decide_True|by rewrite decide_False].
Qed.

(** Once the map is there, lookups only read it. *)
Lemma GetQueries_cached ks (r : Request) m :
  r.(qmap) = Some m -> GetQueries ks r = Ok (r, MGet m <$> ks).
Proof using.
  intros Hm. induction ks as [|k ks IH]; [done|]. cbn [GetQueries]. unfold GetQuery, Query. rewrite Hm.
  cbn [rbind]. by rewrite IH.
Qed.

Lemma Query_first method path ver hs kvs out r :
  let target := path ++ 63 :: query_string kvs in
  request_ok method target ver hs -> Forall bytes_pair kvs -> (63 ∉ path) ->
  decode false path = Some (47 :: out) ->
  parse (set_data (request method target ver hs) newHTTP) = Ok r ->
  exists h, Query (mkRequest r None)
            = Ok (mkRequest h (Some (foldl (fun m p => MSet p.1 p.2 m) NewMap kvs)),
                  Some (foldl (fun m p => MSet p.1 p.2 m) NewMap kvs)).
Proof using All.
  intros target Hok Hkvs Hq Hout Hp.
  destruct (parse_query_shape method path ver hs kvs out r Hok Hq Hout Hp)
    as (tl & _ & _ & Hd & Hs & He & _).
  set (pre := method ++ _) in *.
  destruct (ForeachQuery_fold MSet r pre kvs _ NewMap Hd Hs He) as (q' & _ & _ & E);
    [by destruct method|done|].
  unfold Query. cbn [qmap http]. rewrite E. cbn [rbind].
  assert (0 < qStart r) as Hpos.
  { rewrite Hs. unfold pre. rewrite len_app, len_cons. pose proof (len_nonneg method).
    pose proof (len_nonneg (47 :: out ++ tl ++ [63])). lia. }
  apply Z.ltb_lt in Hpos as ->. by eexists.
Qed.

(** A target, with a query or without. *)
Definition target_of (path : bytes) (q : option (list (bytes * bytes))) : bytes :=
  path ++ match q with Some kvs => 63 :: query_string kvs | None => [] end.
Definition pairs_of (q : option (list (bytes * bytes))) : list (bytes * bytes) := default [] q.

(** What [URL] writes for the pairs of the query. *)
Definition raw_query (kvs : list (bytes * bytes)) : bytes :=
  concat ((fun p => query_pair p ++ bs "&") <$> kvs).

Lemma raw_query_fold kvs s :
  foldl (fun raw p => raw ++ neturl.QueryEscape p.1 ++ bs "=" ++ neturl.QueryEscape p.2 ++ bs "&") s kvs
  = s ++ raw_query kvs.
Proof using.
  revert s. induction kvs as [|p kvs IH]; intros s; cbn [foldl].
  - by rewrite app_nil_r.
  - rewrite IH. unfold raw_query. cbn [fmap list_fmap concat]. unfold query_pair.
    change (bs "=") with [61]. by app_norm.
Qed.

Lemma CR_parts a b c : (CR ∉ a) -> (CR ∉ b) -> (CR ∉ c) -> CR ∉ a ++ b ++ c.
Proof using. intros ? ? ?. by rewrite !elem_of_app; intros [?|[?|?]]. Qed.

Lemma CR_cons c a : c <> CR -> (CR ∉ a) -> CR ∉ c :: a.
Proof using. intros ? ?. rewrite elem_of_cons. intros [?|?]; congruence. Qed.

(** The URL of a request, and the buffer it leaves: the line may hold other bytes,
    the headers and the body are as they were. *)
Lemma URL_parsed method path q ver hs out body r :
  request_ok method (target_of path q) ver hs -> Forall bytes_pair (pairs_of q) ->
  Forall no_CR_pair (pairs_of q) -> (63 ∉ path) -> (CR ∉ out) ->
  decode false path = Some (47 :: out) ->
  parse (set_data (request method (target_of path q) ver hs) newHTTP) = Ok r ->
  let host := default [] (last_value (bs "host") hs) in
  exists r' tail,
    URL (set_data (r.(data) ++ body) r)
    = Ok (r', neturl.mkURL (bs "http:") host (47 :: out) (raw_query (pairs_of q))) /\
    r'.(data) = (method ++ SP :: tail) ++ crlf ++ header_block (lower_name <$> hs) ++ body /\
    (CR ∉ method ++ SP :: tail) /\ r'.(Host) = host /\ r'.(Path) = 47 :: out.
Proof using.
  intros Hok Hb Hn Hq HC Hout Hp. pose proof Hok as [[_ HmC] [HtC _] [_ HvC] _ _ _ _].
  unfold URL, target_of, pairs_of in *. destruct q as [kvs|]; cbn [default id] in *.
  - destruct (parse_query_shape method path ver hs kvs out r Hok Hq Hout Hp)
      as (tl & _ & Htl & Hd & Hs & He & HP & HH).
    set (pre := method ++ _) in *. set (r1 := set_data (data r ++ body) r).
    assert (r1.(data) = pre ++ query_string kvs
              ++ (SP :: ver ++ crlf ++ header_block (lower_name <$> hs) ++ body)) as Hd1
      by (unfold r1; cbn [set_data data]; rewrite Hd; by app_norm).
    destruct (ForeachQuery_fold (fun k v raw => raw ++ neturl.QueryEscape k ++ bs "=" ++ neturl.QueryEscape v ++ bs "&")
                r1 pre kvs _ [] Hd1 Hs He) as (q' & _ & HqC & E); [by destruct method|done|].
    rewrite E. cbn [rbind]. rewrite raw_query_fold. change (r1.(Host)) with r.(Host).
    change (r1.(Path)) with r.(Path). rewrite HH, HP.
    eexists _, ((47 :: out ++ tl ++ [63]) ++ q' ++ SP :: ver). split; [reflexivity|].
    cbn [r1 set_data data Host Path]. split_and!; [unfold pre; by app_norm| |done|done].
    assert (CR ∉ tl) as HtlC by (apply Htl; intros Hi; by apply HtC, elem_of_app; left).
    rewrite elem_of_app. intros [Hi|Hi]; [done|revert Hi]. apply CR_cons; [done|].
    apply CR_parts; [|by apply HqC|by apply CR_cons].
    apply CR_cons; [done|]. apply CR_parts; [done..|]. by apply index_byte_None.
  - destruct (parse_plain_shape method path ver hs out r) as (tl & Htl & Hd & Hs & HP & HH);
      [by rewrite app_nil_r in *..|].
    unfold ForeachQuery. cbn [set_data qStart]. rewrite Hs. cbn [Z.eqb rbind set_data Host Path].
    rewrite HH, HP.
    eexists _, ((47 :: out ++ tl) ++ SP :: ver). split; [reflexivity|].
    cbn [set_data data Host Path]. split_and!; [|  |done|done].
    { rewrite Hd. by app_norm. }
    rewrite app_nil_r in HtC. specialize (Htl HtC).
    rewrite elem_of_app. intros [Hi|Hi]; [done|revert Hi]. apply CR_cons; [done|].
    cbn [app]. apply CR_cons; [done|]. rewrite <- app_assoc. apply CR_parts; [done..|]. by apply CR_cons.
Qed.

(** ** Properties *)

(** C25: the query as a map.  After a well-formed request is parsed whose path starts with a
    slash, contains no question mark and is escaped correctly, any lookups in any order and
    number answer for each key the value of the last pair that was escaped into the query
    under it, and the empty string for a key that is not there.  The first lookup decodes
    the query in place and fills the cache; the others read the cache, so that nothing is
    decoded twice. *)
Theorem GetQueries_request method path ver hs kvs out r ks :
  let target := path ++ 63 :: query_string kvs in
  request_ok method target ver hs -> Forall bytes_pair kvs -> (63 ∉ path) ->
  decode false path = Some (47 :: out) ->
  parse (set_data (request method target ver hs) newHTTP) = Ok r ->
  exists r', GetQueries ks (mkRequest r None) = Ok (r', (fun k => default [] (value_of kvs k)) <$> ks).
Proof using All.
  intros target Hok Hkvs Hq Hout Hp.
  destruct (Query_first method path ver hs kvs out r Hok Hkvs Hq Hout Hp) as (h & E).
  set (m := foldl _ NewMap kvs) in *.
  destruct ks as [|k ks]; [by eexists|]. cbn [GetQueries]. unfold GetQuery. rewrite E. cbn [rbind].
  rewrite (GetQueries_cached ks (mkRequest h (Some m)) m) by done. cbn [rbind].
  eexists. do 2 f_equal. cbn [fmap list_fmap]. f_equal; [apply MGet_pairs|].
  apply list_fmap_ext. intros i k' _. apply MGet_pairs.
Qed.

(** Numbers in a query: what was written in decimal is read back, and a key that is
    missing or not a number gives the default. *)
Theorem GetQueryInt64_request method path ver hs kvs out r k d :
  let target := path ++ 63 :: query_string kvs in
  request_ok method target ver hs -> Forall bytes_pair kvs -> (63 ∉ path) ->
  decode false path = Some (47 :: out) ->
  parse (set_data (request method target ver hs) newHTTP) = Ok r ->
  (forall n, value_of kvs k = Some (strconv.FormatInt 10 n) ->
     strconv.minInt64 <= n <= strconv.maxInt64 ->
     exists r', GetQueryInt64 k (mkRequest r None) = Ok (r', (n, None)) /\
                GetQueryInt64Default k d (mkRequest r None) = Ok (r', n)) /\
  (value_of kvs k = None ->
     exists r', GetQueryInt64Default k d (mkRequest r None) = Ok (r', d)).
Proof using All.
  intros target Hok Hkvs Hq Hout Hp.
  destruct (Query_first method path ver hs kvs out r Hok Hkvs Hq Hout Hp) as (h & E).
  unfold GetQueryInt64Default, GetQueryInt64, GetQuery. rewrite E. cbn [rbind]. rewrite MGet_pairs.
  split.
  - intros n -> Hn. cbn [default id]. rewrite strconv.ParseInt_FormatInt by done. by eexists.
  - intros ->. by eexists.
Qed.
End lemmas.

(** ** Witnesses *)

(** An association list as the map. *)
#[export] Instance list_query_map : QueryMap (list (bytes * bytes)) := {
  NewMap := [];
  MSet := fun k v m => (k, v) :: m;
  MGet := fun m k => default [] (snd <$> find (fun p => bool_decide (p.1 = k)) m);
  MGet_nil := fun _ => Panic;
}.

#[export] Instance list_query_map_laws : QueryMapLaws (list (bytes * bytes)).
Proof.
  constructor; [done|]. intros k v m k'. cbn. case_decide as E.
  - subst. by rewrite bool_decide_true.
  - by rewrite bool_decide_false by congruence.
Qed.

Definition ex_pairs : list (bytes * bytes) :=
  [(bs "a", bs "b c"); (bs "n", bs "-12"); (bs "a", bs "&=%")].
Definition ex_query_request : bytes :=
  request (bs "GET") (bs "/s" ++ 63 :: query_string ex_pairs) (bs "HTTP/1.1") ex_headers.

Lemma GetQueries_request_witness :
  exists r', GetQueries [bs "a"; bs "z"; bs "n"; bs "a"]
               (mkRequest (M := list (bytes * bytes)) (parsed ex_query_request) None)
             = Ok (r', [bs "&=%"; []; bs "-12"; bs "&=%"]).
Proof.
  apply (@GetQueries_request _ _ list_query_map_laws default_env (bs "GET") (bs "/s") (bs "HTTP/1.1")
           ex_headers ex_pairs (bs "s") (parsed ex_query_request) [bs "a"; bs "z"; bs "n"; bs "a"]).
  - apply ex_request_ok; [compute_done|compute_done|by vm_compute].
  - repeat constructor; by vm_compute.
  - compute_done.
  - by vm_compute.
  - by vm_compute.
Defined.
