(* ===== verification/HttpResp.v ===== *)
(** HTTP responses (src/http.go, lines 195 to 337): what the response methods
    append to the connection's output buffer.

    [sink] is that buffer with the number of times the poller was triggered to
    send it.  The response headers are a Go map of lists; the model takes them in
    the order in which the map is ranged over, which the theorems leave open.
    [_writeString] appends whatever the state of the connection; [Conn.Write] does
    so as long as the connection is open, which is assumed here. *)

From S2P Require Import Prelude GoStd Util Ws Http.

(** ** [net/http] *)

(** [http.StatusText] *)
Definition status_table : list (Z * bytes) :=
  [(100, bs "Continue"); (101, bs "Switching Protocols"); (102, bs "Processing");
   (103, bs "Early Hints"); (200, bs "OK"); (201, bs "Created"); (202, bs "Accepted");
   (203, bs "Non-Authoritative Information"); (204, bs "No Content"); (205, bs "Reset Content");
   (206, bs "Partial Content"); (207, bs "Multi-Status"); (208, bs "Already Reported");
   (226, bs "IM Used"); (300, bs "Multiple Choices"); (301, bs "Moved Permanently");
   (302, bs "Found"); (303, bs "See Other"); (304, bs "Not Modified"); (305, bs "Use Proxy");
   (307, bs "Temporary Redirect"); (308, bs "Permanent Redirect"); (400, bs "Bad Request");
   (401, bs "Unauthorized"); (402, bs "Payment Required"); (403, bs "Forbidden");
   (404, bs "Not Found"); (405, bs "Method Not Allowed"); (406, bs "Not Acceptable");
   (407, bs "Proxy Authentication Required"); (408, bs "Request Timeout"); (409, bs "Conflict");
   (410, bs "Gone"); (411, bs "Length Required"); (412, bs "Precondition Failed");
   (413, bs "Request Entity Too Large"); (414, bs "Request URI Too Long");
   (415, bs "Unsupported Media Type"); (416, bs "Requested Range Not Satisfiable");
   (417, bs "Expectation Failed"); (418, bs "I'm a teapot"); (421, bs "Misdirected Request");
   (422, bs "Unprocessable Entity"); (423, bs "Locked"); (424, bs "Failed Dependency");
   (425, bs "Too Early"); (426, bs "Upgrade Required"); (428, bs "Precondition Required");
   (429, bs "Too Many Requests"); (431, bs "Request Header Fields Too Large");
   (451, bs "Unavailable For Legal Reasons"); (500, bs "Internal Server Error");
   (501, bs "Not Implemented"); (502, bs "Bad Gateway"); (503, bs "Service Unavailable");
   (504, bs "Gateway Timeout"); (505, bs "HTTP Version Not Supported");
   (506, bs "Variant Also Negotiates"); (507, bs "Insufficient Storage");
   (508, bs "Loop Detected"); (510, bs "Not Extended");
   (511, bs "Network Authentication Required")].

Fixpoint assoc (k : Z) (l : list (Z * bytes)) : bytes :=
  match l with
  | [] => []
  | (k', v) :: l => if k =? k' then v else assoc k l
  end.

Definition StatusText (code : Z) : bytes := assoc code status_table.

(** [http.Header]: keys with their values. *)
Abbreviation Header := (list (bytes * list bytes)).

(** ** The output side of a connection *)

Record sink := mkSink { out : bytes; triggers : nat }.

Definition _writeString (v : bytes) (c : sink) : sink := mkSink (c.(out) ++ v) c.(triggers).
Definition _writeInt (v b : Z) (c : sink) : sink := mkSink (strconv.AppendInt c.(out) v b) c.(triggers).
Definition conn_Write (p : bytes) (c : sink) : sink := mkSink (c.(out) ++ p) c.(triggers).
Definition Flush (c : sink) : sink := mkSink c.(out) (S c.(triggers)).

(** ** Responses *)

(** The loop of [resp0] over the headers; [v[0]] of an empty list panics. *)
Fixpoint write_headers (hdr : Header) (c : sink) : res error sink :=
  match hdr with
  | [] => Ok c
  | (k, v) :: hdr =>
      if bool_decide (k ∈ [bs "Content-Type"; bs "Connection"; bs "Content-Length";
                           bs "Transfer-Encoding"])
      then write_headers hdr c
      else
        let c := _writeString crlf c in
        let c := _writeString k c in
        let c := _writeString (bs ": ") c in
        let! v0 := checked (at_ v 0) in
        write_headers hdr (_writeString v0 c)
  end.

Definition resp0 (code : Z) (contentType : bytes) (hdr : Header) (c : sink) : res error sink :=
  let code := if code =? 0 then 200 else code in
  let c := _writeString (bs "HTTP/1.1 ") c in
  let c := _writeInt code 10 c in
  let c := _writeString (bs " ") c in
  let c := _writeString (StatusText code) c in
  let contentType := if bool_decide (contentType = []) then bs "text/plain; charset=utf-8"
                     else contentType in
  let c := _writeString (crlf ++ bs "Content-Type: ") c in
  let c := _writeString contentType c in
  write_headers hdr c.

Definition respFull (code : Z) (contentType : bytes) (hdr : Header) (data : bytes) (c : sink)
  : res error sink :=
  let! c := resp0 code contentType hdr c in
  let c := _writeString (crlf ++ bs "Connection: Keep-Alive" ++ crlf ++ bs "Content-Length: ") c in
  let c := _writeInt (len data) 10 c in
  let c := _writeString (crlf ++ crlf) c in
  Ok (_writeString data c).

Definition Text (code : Z) (msg : bytes) (c : sink) : res error sink :=
  respFull code [] [] msg c.
Definition Bytes (code : Z) (contentType data : bytes) (c : sink) : res error sink :=
  respFull code contentType [] data c.
Definition BytesHeaders (code : Z) (contentType : bytes) (hdr : Header) (data : bytes) (c : sink)
  : res error sink :=
  respFull code contentType hdr data c.

Definition Redirect (code : Z) (location : bytes) (c : sink) : sink :=
  let c := _writeString (bs "HTTP/1.1 ") c in
  let c := _writeInt code 10 c in
  let c := _writeString (bs " ") c in
  let c := _writeString (StatusText code) c in
  let c := _writeString (crlf ++ bs "Location: ") c in
  let c := _writeString location c in
  _writeString (crlf ++ crlf) c.

(** ** Chunked responses *)

Definition set_chunk (chunked : bool) (chkbuf : bytes) (r : HTTP) : HTTP :=
  mkHTTP r.(Host) r.(Path) r.(data) r.(qStart) r.(qEnd) r.(hdrLen) r.(bodyLen) r.(wsUpgrade)
         chunked chkbuf.

Definition StartChunked (code : Z) (contentType : bytes) (hdr : Header) (r : HTTP) (c : sink)
  : res error (HTTP * sink) :=
  let! c := resp0 code contentType hdr c in
  let c := _writeString (crlf ++ bs "Connection: Keep-Alive" ++ crlf
                           ++ bs "Transfer-Encoding: chunked" ++ crlf ++ crlf) c in
  Ok (set_chunk true r.(chkbuf) r, c).

Definition writeChunked (p : bytes) (c : sink) : sink :=
  let c := _writeInt (len p) 16 c in
  let c := _writeString crlf c in
  let c := conn_Write p c in
  let c := _writeString crlf c in
  if 16 * 1024 <=? len c.(out) then Flush c else c.

Definition Write (p : bytes) (w : HTTP) (c : sink) : res error (HTTP * sink * Z) :=
  if negb w.(chunked) then Panic
  else if len p =? 0 then Ok (w, c, 0)
  else if (len p <=? 4) || (0 <? len w.(chkbuf)) then
    let w := set_chunk w.(chunked) (w.(chkbuf) ++ p) w in
    if 64 <=? len w.(chkbuf) then
      Ok (set_chunk w.(chunked) [] w, writeChunked w.(chkbuf) c, len p)
    else Ok (w, c, len p)
  else Ok (w, writeChunked p c, len p).

Definition WriteString (s : bytes) (w : HTTP) (c : sink) : res error (HTTP * sink * Z) :=
  if len s =? 0 then Ok (w, c, 0) else Write s w c.

Definition FinishChunked (w : HTTP) (c : sink) : res error (HTTP * sink) :=
  if negb w.(chunked) then Panic
  else
    let (w, c) :=
      if 0 <? len w.(chkbuf) then (set_chunk w.(chunked) [] w, writeChunked w.(chkbuf) c)
      else (w, c) in
    let c := _writeString (bs "0" ++ crlf ++ crlf) c in
    Ok (set_chunk false w.(chkbuf) w, Flush c).

(** A handler's calls of [Write] one after the other. *)
Fixpoint write_all (ps : list bytes) (w : HTTP) (c : sink) : res error (HTTP * sink) :=
  match ps with
  | [] => Ok (w, c)
  | p :: ps => let! (w, c, _) := Write p w c in write_all ps w c
  end.

(** ** Upgrade to a websocket *)

Definition ws_guid : bytes := bs "258EAFA5-E914-47DA-95CA-C5AB0DC85B11".

Fixpoint write_upgrade_headers (hdr : Header) (c : sink) : res error sink :=
  match hdr with
  | [] => Ok c
  | (k, v) :: hdr =>
      if bool_decide (k ∈ [bs "Upgrade"; bs "Connection"; bs "Sec-WebSocket-Accept"])
      then write_upgrade_headers hdr c
      else
        let c := _writeString k c in
        let c := _writeString (bs ": ") c in
        let! v0 := checked (at_ v 0) in
        let c := _writeString v0 c in
        write_upgrade_headers hdr (_writeString crlf c)
  end.

(** [UpgradeWebsocket(hdr)]: the websocket of the connection ([None]: [nil]). *)
Definition UpgradeWebsocket (hdr : Header) (w : HTTP) (c : sink)
  : res error (option Websocket * sink) :=
  if negb w.(wsUpgrade) then Ok (None, c)
  else
    let! key := GetHeader w (bs "sec-websocket-key") in
    let h := sha1.Sum (key ++ ws_guid) in
    let c := _writeString (bs "HTTP/1.1 101 Switching Protocols" ++ crlf
                           ++ bs "Upgrade: websocket" ++ crlf ++ bs "Connection: Upgrade" ++ crlf
                           ++ bs "Sec-WebSocket-Accept: ") c in
    let c := _writeString (base64.EncodeToString h) c in
    let c := _writeString crlf c in
    let! c := write_upgrade_headers hdr c in
    let c := _writeString crlf c in
    Ok (Some newWebsocket, Flush c).

(** ** How a client reads a response *)

(** A line up to its line break, and what follows. *)
Definition read_line (l : bytes) : option (bytes * bytes) :=
  match index_of crlf l with
  | Some i => Some (take i l, drop (i + 2) l)
  | None => None
  end.

(** Header lines [Name: value] up to the empty line. *)
Fixpoint read_headers (fuel : nat) (l : bytes) : option (list (bytes * bytes) * bytes) :=
  match fuel with
  | O => None
  | S fuel =>
      match read_line l with
      | None => None
      | Some ([], l) => Some ([], l)
      | Some (line, l) =>
          match index_of (bs ": ") line, read_headers fuel l with
          | Some i, Some (hs, l) => Some ((take i line, drop (i + 2) line) :: hs, l)
          | _, _ => None
          end
      end
  end.

(** The status code and the headers. *)
Definition read_head (l : bytes) : option (Z * list (bytes * bytes) * bytes) :=
  match read_line l with
  | None => None
  | Some (line, l) =>
      if prefixb (bs "HTTP/1.1 ") line then
        let rest := drop 9 line in
        match index_byte SP rest with
        | None => None
        | Some i =>
            match strconv.ParseInt (take i rest), read_headers (S (length l)) l with
            | (code, None), Some (hs, l) => Some (code, hs, l)
            | _, _ => None
            end
        end
      else None
  end.

Definition header_values (name : bytes) (hs : list (bytes * bytes)) : list bytes :=
  snd <$> filter (fun h => lower h.1 = name) hs.

(** Chunks up to the empty one. *)
Definition is_hex (c : byte) : bool := ((48 <=? c) && (c <=? 57)) || ((97 <=? c) && (c <=? 102)).
Definition parse_hex (s : bytes) : option Z :=
  match s with
  | [] => None
  | _ => if forallb is_hex s then Some (strconv.value 16 0 s) else None
  end.

Fixpoint read_chunks (fuel : nat) (l : bytes) : option (bytes * bytes) :=
  match fuel with
  | O => None
  | S fuel =>
      match read_line l with
      | None => None
      | Some (line, l) =>
          match parse_hex line with
          | None => None
          | Some n =>
              if n <=? len l then
                let d := take (Z.to_nat n) l in
                let l := drop (Z.to_nat n) l in
                if prefixb crlf l then
                  if n =? 0 then Some ([], drop 2 l)
                  else match read_chunks fuel (drop 2 l) with
                       | Some (b, l) => Some (d ++ b, l)
                       | None => None
                       end
                else None
              else None
          end
      end
  end.

(** Responses without a body, whatever their headers say. *)
Definition no_body (code : Z) : bool :=
  ((100 <=? code) && (code <? 200)) || (code =? 204) || (code =? 304).

(** The body: chunked, or as long as the one [Content-Length] says.  [None]: the
    message is malformed, or it would last until the connection is closed. *)
Definition read_response (l : bytes) : option (Z * list (bytes * bytes) * bytes * bytes) :=
  match read_head l with
  | None => None
  | Some (code, hs, l) =>
      if no_body code then Some (code, hs, [], l)
      else
      match header_values (bs "transfer-encoding") hs, header_values (bs "content-length") hs with
      | [te], [] =>
          if bool_decide (te = bs "chunked") then
            match read_chunks (S (length l)) l with
            | Some (b, l) => Some (code, hs, b, l)
            | None => None
            end
          else None
      | [], [v] =>
          match strconv.ParseInt v with
          | (n, None) =>
              if (0 <=? n) && (n <=? len l)
              then Some (code, hs, take (Z.to_nat n) l, drop (Z.to_nat n) l) else None
          | _ => None
          end
      | _, _ => None
      end
  end.

(** ** Lemmas *)

Lemma read_line_app a t : (CR ∉ a) -> read_line (a ++ crlf ++ t) = Some (a, t).
Proof.
  intros Ha. unfold read_line. rewrite index_crlf_app by done. rewrite take_app_length.
  rewrite drop_app_add. done.
Qed.

Lemma index_of_colon k v : (58 ∉ k) -> index_of (bs ": ") (k ++ bs ": " ++ v) = Some (length k).
Proof.
  induction k as [|c k IH]; intros Hk; [done|].
  apply not_elem_of_cons in Hk as [Hc Hk]. cbn [app index_of].
  assert (prefixb (bs ": ") (c :: k ++ bs ": " ++ v) = false) as ->.
  { change (bs ": ") with [58; 32] at 1. cbn [prefixb]. by destruct (Z.eqb_spec 58 c). }
  by rewrite IH.
Qed.

Definition field_ok (h : bytes * bytes) : Prop :=
  h.1 <> [] /\ (58 ∉ h.1) /\ (CR ∉ h.1) /\ (CR ∉ h.2).

Lemma read_headers_block fuel hs t :
  Forall field_ok hs -> (length hs < fuel)%nat ->
  read_headers fuel (header_block hs ++ t) = Some (hs, t).
Proof.
  revert fuel. induction hs as [|h hs IH]; intros [|fuel] Hok Hf; try (simpl in Hf; lia).
  - cbn [read_headers]. unfold header_block. cbn [fmap list_fmap concat app].
    pose proof (read_line_app [] t (not_elem_of_nil _)) as E. cbn [app] in E. by rewrite E.
  - apply Forall_cons in Hok as [(Hne & H58 & HC1 & HC2) Hok]. cbn [read_headers].
    assert (header_block (h :: hs) ++ t = (h.1 ++ bs ": " ++ h.2) ++ crlf ++ header_block hs ++ t) as ->
      by (unfold header_block, header_line; cbn [fmap list_fmap concat]; by app_norm).
    rewrite read_line_app.
    2: { rewrite !elem_of_app. intros [?|[E|?]]; try done. revert E. by apply index_byte_None. }
    destruct (h.1 ++ bs ": " ++ h.2) as [|c line] eqn:El; [by destruct h as [[|? ?] ?]|].
    rewrite <- El, index_of_colon, IH by (done || (simpl in Hf; lia)).
    rewrite take_app_length, drop_app_add. by destruct h.
Qed.

(** The crlf-first way in which the code writes header lines. *)
Definition field_lines (hs : list (bytes * bytes)) : bytes :=
  concat (map (fun h => crlf ++ h.1 ++ bs ": " ++ h.2) hs).

Lemma field_lines_block hs : field_lines hs ++ crlf ++ crlf = crlf ++ header_block hs.
Proof.
  unfold field_lines, header_block. induction hs as [|h hs IH]; [done|].
  cbn [map concat fmap list_fmap]. rewrite <- app_assoc, IH. unfold header_line. by app_norm.
Qed.

(** The headers of the caller that are sent. *)
Definition excluded (k : bytes) : Prop :=
  k ∈ [bs "Content-Type"; bs "Connection"; bs "Content-Length"; bs "Transfer-Encoding"].

Definition sent (hdr : Header) : list (bytes * bytes) :=
  (fun h => (h.1, default [] (head h.2))) <$> filter (fun h => ~ excluded h.1) hdr.

(** A header map as [http.Header] keeps it: every key has a value, and the keys
    that frame the message are in canonical case. *)
Definition hdr_ok (h : bytes * list bytes) : Prop :=
  h.2 <> [] /\ field_ok (h.1, default [] (head h.2)) /\
  (lower h.1 = bs "content-length" \/ lower h.1 = bs "transfer-encoding" -> excluded h.1).

Lemma write_headers_sent hdr c :
  Forall hdr_ok hdr ->
  write_headers hdr c = Ok (mkSink (c.(out) ++ field_lines (sent hdr)) c.(triggers)).
Proof.
  revert c. induction hdr as [|[k v] hdr IH]; intros c Hok.
  { cbn. rewrite app_nil_r. by destruct c. }
  apply Forall_cons in Hok as [(Hv & _ & _) Hok]. cbn [write_headers].
  unfold sent. rewrite filter_cons. cbn [fst]. fold (excluded k).
  case_bool_decide as He.
  - rewrite decide_False by (intros Hn; by apply Hn). by apply IH.
  - rewrite decide_True by done. destruct v as [|v0 v]; [done|]. cbn [checked rbind].
    change (at_ (v0 :: v) 0) with (Some v0). cbn [checked rbind].
    rewrite IH by done. unfold _writeString. cbn [out triggers fmap list_fmap field_lines].
    unfold field_lines. cbn [map concat fst snd head default]. do 2 f_equal. by app_norm.
Qed.

Lemma sent_ok hdr : Forall hdr_ok hdr -> Forall field_ok (sent hdr).
Proof.
  intros Hok. unfold sent. apply Forall_fmap, Forall_forall. intros h [_ Hh]%list_elem_of_filter.
  rewrite Forall_forall in Hok. apply (Hok h Hh).
Qed.

Lemma sent_values name hdr :
  name = bs "content-length" \/ name = bs "transfer-encoding" ->
  Forall hdr_ok hdr -> header_values name (sent hdr) = [].
Proof.
  intros Hn. unfold sent, header_values. induction hdr as [|[k v] hdr IH]; intros Hok; [done|].
  apply Forall_cons in Hok as [(_ & _ & Hcl) Hok]. rewrite filter_cons. cbn [fst snd] in *.
  case_decide as He; [|by apply IH]. cbn [fmap list_fmap]. rewrite filter_cons. cbn [fst].
  rewrite decide_False; [by apply IH|]. intros E. apply He, Hcl. rewrite E. by destruct Hn; [left|right].
Qed.

Lemma StatusText_no_CR code : CR ∉ StatusText code.
Proof.
  unfold StatusText. assert (forall k v, (k, v) ∈ status_table -> CR ∉ v) as Ht.
  { intros k v Hin. assert (Forall (fun h => CR ∉ h.2) status_table) as HF by compute_done.
    rewrite Forall_forall in HF. by apply (HF _ Hin). }
  induction status_table as [|[k v] l IH]; cbn [assoc]; [by apply not_elem_of_nil|].
  destruct (code =? k); [apply (Ht k), list_elem_of_here|].
  apply IH. intros k' v' Hin. by apply (Ht k'), list_elem_of_further.
Qed.

(** The status line and the first header. *)
Definition code_of (code : Z) : Z := if code =? 0 then 200 else code.
Definition type_of (contentType : bytes) : bytes :=
  if bool_decide (contentType = []) then bs "text/plain; charset=utf-8" else contentType.

Definition status_line (code : Z) : bytes :=
  bs "HTTP/1.1 " ++ strconv.FormatInt 10 code ++ bs " " ++ StatusText code.

Definition head_fields (contentType : bytes) (hdr : Header) : list (bytes * bytes) :=
  (bs "Content-Type", type_of contentType) :: sent hdr.

Lemma resp0_head code contentType hdr c :
  Forall hdr_ok hdr ->
  resp0 code contentType hdr c
  = Ok (mkSink (c.(out) ++ status_line (code_of code) ++ field_lines (head_fields contentType hdr))
          c.(triggers)).
Proof.
  intros Hok. unfold resp0. rewrite write_headers_sent by done.
  unfold _writeString, _writeInt, strconv.AppendInt, head_fields, field_lines, status_line.
  cbn [out triggers map concat fst snd]. fold (type_of contentType) (code_of code).
  do 2 f_equal. by app_norm.
Qed.

Lemma read_head_block code hs t :
  strconv.minInt64 <= code <= strconv.maxInt64 -> Forall field_ok hs ->
  read_head (status_line code ++ crlf ++ header_block hs ++ t) = Some (code, hs, t).
Proof.
  intros Hc Hok. unfold read_head.
  assert (SP ∉ strconv.FormatInt 10 code) as HSP by apply strconv.FormatInt_no_SP.
  rewrite read_line_app.
  2: { unfold status_line. rewrite !elem_of_app.
       intros [E|[E|[E|E]]]; revert E; [by apply index_byte_None|apply strconv.FormatInt_no_CR|
         by apply index_byte_None|apply StatusText_no_CR]. }
  unfold status_line at 1.
  assert (prefixb (bs "HTTP/1.1 ") (bs "HTTP/1.1 " ++ strconv.FormatInt 10 code ++ bs " " ++ StatusText code)
          = true) as -> by (apply prefixb_true; by eexists).
  cbn zeta. unfold status_line.
  rewrite (drop_app_length' (bs "HTTP/1.1 ")) by done.
  change (bs " " ++ StatusText code) with (SP :: StatusText code).
  rewrite index_byte_app, take_app_length by done.
  rewrite strconv.ParseInt_FormatInt by done.
  rewrite read_headers_block; [done|done|]. rewrite length_app.
  pose proof (length_header_block hs). lia.
Qed.

Lemma read_head_app code hs t :
  strconv.minInt64 <= code <= strconv.maxInt64 -> Forall field_ok hs ->
  read_head (status_line code ++ field_lines hs ++ crlf ++ crlf ++ t) = Some (code, hs, t).
Proof.
  intros Hc Hok. rewrite <- (read_head_block code hs t Hc Hok). f_equal.
  rewrite (app_assoc crlf (header_block hs) t), <- field_lines_block. by app_norm.
Qed.

Lemma field_ok_no_58 k v : k <> [] -> forallb (fun c => negb (c =? 58) && negb (c =? CR)) k = true ->
  (CR ∉ v) -> field_ok (k, v).
Proof.
  intros Hk Hf Hv. rewrite forallb_forall in Hf. unfold field_ok. cbn [fst snd].
  split_and!; [done| | |done]; intros Hin%list_elem_of_In; apply Hf in Hin; by vm_compute in Hin.
Qed.

Lemma FormatInt_field k v : k <> [] ->
  forallb (fun c => negb (c =? 58) && negb (c =? CR)) k = true ->
  field_ok (k, strconv.FormatInt 10 v).
Proof. intros. apply field_ok_no_58; [done..|]. apply strconv.FormatInt_no_CR. Qed.

Lemma head_fields_ok contentType hdr :
  (CR ∉ contentType) -> Forall hdr_ok hdr -> Forall field_ok (head_fields contentType hdr).
Proof.
  intros Hc Hok. constructor; [|by apply sent_ok]. apply field_ok_no_58; [done..|].
  unfold type_of. case_bool_decide; [by apply index_byte_None|done].
Qed.

Lemma header_values_app name hs1 hs2 :
  header_values name (hs1 ++ hs2) = header_values name hs1 ++ header_values name hs2.
Proof. unfold header_values. by rewrite filter_app, fmap_app. Qed.

Lemma head_fields_values name contentType hdr :
  name = bs "content-length" \/ name = bs "transfer-encoding" ->
  Forall hdr_ok hdr -> header_values name (head_fields contentType hdr) = [].
Proof.
  intros Hn Hok. change (head_fields contentType hdr)
    with ([(bs "Content-Type", type_of contentType)] ++ sent hdr).
  rewrite header_values_app, sent_values by done. by destruct Hn as [-> | ->].
Qed.

(** A message framed by its [Content-Length]. *)
Definition full_fields (contentType : bytes) (hdr : Header) (n : Z) : list (bytes * bytes) :=
  head_fields contentType hdr
    ++ [(bs "Connection", bs "Keep-Alive"); (bs "Content-Length", strconv.FormatInt 10 n)].

Definition full_response (code : Z) (contentType : bytes) (hdr : Header) (data : bytes) : bytes :=
  status_line (code_of code) ++ field_lines (full_fields contentType hdr (len data))
    ++ crlf ++ crlf ++ data.

Lemma field_lines_app hs1 hs2 : field_lines (hs1 ++ hs2) = field_lines hs1 ++ field_lines hs2.
Proof. unfold field_lines. by rewrite map_app, concat_app. Qed.

Lemma respFull_out code contentType hdr data c :
  Forall hdr_ok hdr ->
  respFull code contentType hdr data c
  = Ok (mkSink (c.(out) ++ full_response code contentType hdr data) c.(triggers)).
Proof.
  intros Hok. unfold respFull. rewrite resp0_head by done. cbn [rbind].
  unfold _writeString, _writeInt, strconv.AppendInt, full_response, full_fields.
  cbn [out triggers]. rewrite field_lines_app. do 2 f_equal.
  unfold field_lines at 3. cbn [map concat fst snd]. by app_norm.
Qed.

(** ** Properties: messages with a content length *)

Lemma respFull_reads code contentType hdr data c rest :
  strconv.minInt64 <= code <= strconv.maxInt64 -> no_body (code_of code) = false ->
  (CR ∉ contentType) -> Forall hdr_ok hdr -> len data < 2 ^ 63 ->
  exists resp, respFull code contentType hdr data c = Ok (mkSink (c.(out) ++ resp) c.(triggers)) /\
    read_response (resp ++ rest)
    = Some (code_of code, full_fields contentType hdr (len data), data, rest).
Proof.
  intros Hc Hnb Hct Hok Hl. pose proof (len_nonneg data).
  eexists. split; [by apply respFull_out|]. unfold read_response, full_response.
  rewrite <- !app_assoc. rewrite read_head_app.
  - rewrite Hnb. unfold full_fields. rewrite !header_values_app, !head_fields_values by (done || tauto).
    set (f := strconv.FormatInt 10 (len data)).
    change (header_values (bs "transfer-encoding")
      [(bs "Connection", bs "Keep-Alive"); (bs "Content-Length", f)]) with (@nil bytes).
    change (header_values (bs "content-length")
      [(bs "Connection", bs "Keep-Alive"); (bs "Content-Length", f)]) with [f].
    cbn [app]. unfold f.
    rewrite strconv.ParseInt_FormatInt by (unfold strconv.minInt64, strconv.maxInt64; lia).
    rewrite len_app. pose proof (len_nonneg rest).
    destruct (Z.leb_spec 0 (len data)); [|lia]. destruct (Z.leb_spec (len data) (len data + len rest)); [|lia].
    cbn [andb]. by rewrite take_len_app, drop_len_app.
  - unfold code_of. destruct (code =? 0); [by vm_compute|done].
  - apply Forall_app. split; [by apply head_fields_ok|]. constructor; [|constructor; [|constructor]].
    + apply field_ok_no_58; [done..|]. by apply index_byte_None.
    + by apply FormatInt_field.
Qed.

(** response framing.  Whatever the code, the content type, the headers and
    the body, and whatever is sent after it, a client reads from the bytes of
    [respFull] exactly that response: the code (200 for 0), the headers sent, the
    body, and then what follows. *)
Theorem respFull_read code contentType hdr data c rest :
  strconv.minInt64 <= code <= strconv.maxInt64 -> no_body (code_of code) = false ->
  (CR ∉ contentType) -> Forall hdr_ok hdr -> len data < 2 ^ 63 ->
  exists resp, respFull code contentType hdr data c = Ok (mkSink (c.(out) ++ resp) c.(triggers)) /\
    read_response (resp ++ rest)
    = Some (code_of code, full_fields contentType hdr (len data), data, rest).
Proof. apply respFull_reads. Qed.

(** ** Chunks *)

Definition chunk (p : bytes) : bytes := strconv.FormatInt 16 (len p) ++ crlf ++ p ++ crlf.
Definition last_chunk : bytes := bs "0" ++ crlf ++ crlf.

Lemma writeChunked_out p c : (writeChunked p c).(out) = c.(out) ++ chunk p.
Proof.
  unfold writeChunked, chunk, _writeString, _writeInt, conn_Write, strconv.AppendInt, Flush.
  cbn [out triggers]. destruct (_ <=? _); cbn [out]; by app_norm.
Qed.

Lemma FormatInt16_hex n : 0 <= n -> Forall (fun c => is_hex c = true) (strconv.FormatInt 16 n).
Proof.
  intros Hn. unfold strconv.FormatInt. destruct (Z.ltb_spec n 0); [lia|].
  apply strconv.digits_of_Forall; [lia|done| |by constructor].
  intros d Hd. unfold is_hex, strconv.digit_char. zb; (done || lia).
Qed.

Lemma parse_hex_FormatInt n : 0 <= n -> parse_hex (strconv.FormatInt 16 n) = Some n.
Proof.
  intros Hn. unfold parse_hex. pose proof (FormatInt16_hex n Hn) as Hh.
  assert (strconv.value 16 0 (strconv.FormatInt 16 n) = n) as Hv.
  { unfold strconv.FormatInt. destruct (Z.ltb_spec n 0); [lia|]. by apply strconv.value_FormatUint; [lia|]. }
  destruct (strconv.FormatInt 16 n) as [|d ds] eqn:E.
  { exfalso. unfold strconv.FormatInt in E. destruct (n <? 0); [done|].
    by apply (strconv.FormatUint_nonempty 16 n). }
  rewrite Hv. assert (forallb is_hex (d :: ds) = true) as ->; [|done].
  apply forallb_forall. intros x Hx. rewrite Forall_forall in Hh. apply Hh. by apply list_elem_of_In.
Qed.

Lemma read_chunks_app fuel ds rest :
  Forall (fun d => d <> []) ds -> (length ds < fuel)%nat ->
  read_chunks fuel (concat (map chunk ds) ++ last_chunk ++ rest) = Some (concat ds, rest).
Proof.
  revert fuel. induction ds as [|d ds IH]; intros [|fuel] Hne Hf; try (simpl in Hf; lia).
  - cbn [map concat app read_chunks].
    assert (read_line (last_chunk ++ rest) = Some (bs "0", crlf ++ rest)) as -> by done.
    change (parse_hex (bs "0")) with (Some 0). pose proof (len_nonneg (crlf ++ rest)).
    destruct (Z.leb_spec 0 (len (crlf ++ rest))); [|lia]. done.
  - apply Forall_cons in Hne as [Hd Hne]. cbn [map concat read_chunks].
    assert ((chunk d ++ concat (map chunk ds)) ++ last_chunk ++ rest
            = strconv.FormatInt 16 (len d) ++ crlf
                ++ (d ++ crlf ++ (concat (map chunk ds) ++ last_chunk ++ rest))) as ->
      by (unfold chunk; by app_norm).
    pose proof (len_nonneg d).
    rewrite read_line_app.
    2: { intros Hin. pose proof (FormatInt16_hex (len d) ltac:(lia)) as Hh.
         rewrite Forall_forall in Hh. by apply Hh in Hin. }
    rewrite parse_hex_FormatInt by lia. rewrite len_app.
    set (tl := crlf ++ concat (map chunk ds) ++ last_chunk ++ rest). pose proof (len_nonneg tl).
    destruct (Z.leb_spec (len d) (len d + len tl)); [|lia]. rewrite take_len_app, drop_len_app.
    assert (prefixb crlf tl = true) as -> by (apply prefixb_true; by eexists). cbn zeta.
    destruct (Z.eqb_spec (len d) 0) as [E|_]; [by apply len_0_inv in E|].
    change (drop 2 tl) with (concat (map chunk ds) ++ last_chunk ++ rest).
    rewrite IH by (done || (simpl in Hf; lia)). done.
Qed.

(** What the calls of [Write] send and keep. *)
Definition chunks_sent (w : HTTP) (c : sink) (p : bytes) (w' : HTTP) (c' : sink) : Prop :=
  exists ds, Forall (fun d => d <> []) ds /\ c'.(out) = c.(out) ++ concat (map chunk ds) /\
    w'.(chunked) = w.(chunked) /\ concat ds ++ w'.(chkbuf) = w.(chkbuf) ++ p.

Lemma Write_sent p w c :
  w.(chunked) = true ->
  exists w' c', Write p w c = Ok (w', c', len p) /\ chunks_sent w c p w' c'.
Proof.
  intros Hw. unfold Write. rewrite Hw. cbn [negb]. destruct (Z.eqb_spec (len p) 0) as [Hp|Hp].
  { apply len_0_inv in Hp as ->. eexists _, _. split; [done|]. exists [].
    split_and!; [constructor|by rewrite app_nil_r|done|by rewrite app_nil_r]. }
  destruct ((len p <=? 4) || (0 <? len w.(chkbuf))) eqn:Hb.
  - cbn [set_chunk chunked chkbuf]. destruct (Z.leb_spec 64 (len (w.(chkbuf) ++ p))).
    + eexists _, _. split; [done|]. exists [w.(chkbuf) ++ p]. rewrite writeChunked_out.
      split_and!; [|by cbn; rewrite app_nil_r|done|by cbn; rewrite !app_nil_r].
      constructor; [|constructor]. intros E. rewrite E in *. done.
    + eexists _, _. split; [done|]. exists []. cbn [map concat]. rewrite app_nil_r.
      by split_and!; [constructor|..].
  - eexists _, _. split; [done|]. exists [p]. rewrite writeChunked_out.
    apply orb_false_iff in Hb as [_ Hb%Z.ltb_ge].
    assert (w.(chkbuf) = []) as -> by (apply len_0_inv; pose proof (len_nonneg w.(chkbuf)); lia).
    split_and!; [|by cbn; rewrite app_nil_r|done|by cbn; rewrite !app_nil_r].
    constructor; [|constructor]. by intros ->.
Qed.

Lemma write_all_sent ps w c :
  w.(chunked) = true ->
  exists w' c', write_all ps w c = Ok (w', c') /\ chunks_sent w c (concat ps) w' c'.
Proof.
  revert w c. induction ps as [|p ps IH]; intros w c Hw.
  - eexists _, _. split; [done|]. exists []. cbn [map concat].
    split_and!; [constructor|by rewrite app_nil_r|done|by rewrite app_nil_r].
  - cbn [write_all]. destruct (Write_sent p w c Hw) as (w1 & c1 & -> & ds1 & Hne1 & Ho1 & Hc1 & Hd1).
    cbn [rbind]. destruct (IH w1 c1) as (w2 & c2 & -> & ds2 & Hne2 & Ho2 & Hc2 & Hd2); [congruence|].
    eexists _, _. split; [done|]. exists (ds1 ++ ds2). rewrite map_app, !concat_app. split_and!.
    + by apply Forall_app.
    + rewrite Ho2, Ho1. by app_norm.
    + congruence.
    + rewrite <- app_assoc, Hd2, app_assoc, Hd1. cbn [concat]. by app_norm.
Qed.

Definition chunked_fields (contentType : bytes) (hdr : Header) : list (bytes * bytes) :=
  head_fields contentType hdr
    ++ [(bs "Connection", bs "Keep-Alive"); (bs "Transfer-Encoding", bs "chunked")].

Definition chunked_head (code : Z) (contentType : bytes) (hdr : Header) : bytes :=
  status_line (code_of code) ++ field_lines (chunked_fields contentType hdr) ++ crlf ++ crlf.

Lemma StartChunked_out code contentType hdr r c :
  Forall hdr_ok hdr ->
  StartChunked code contentType hdr r c
  = Ok (set_chunk true r.(chkbuf) r,
        mkSink (c.(out) ++ chunked_head code contentType hdr) c.(triggers)).
Proof.
  intros Hok. unfold StartChunked. rewrite resp0_head by done. cbn [rbind].
  unfold _writeString, chunked_head, chunked_fields.
  cbn [out triggers]. rewrite field_lines_app. do 3 f_equal.
  unfold field_lines at 3. cbn [map concat fst snd]. by app_norm.
Qed.

Lemma length_chunks ds : (length ds <= length (concat (map chunk ds)))%nat.
Proof.
  induction ds as [|d ds IH]; [done|]. cbn [map concat length]. rewrite length_app.
  assert (1 <= length (chunk d))%nat by (unfold chunk; rewrite !length_app; simpl; lia). lia.
Qed.

(** A client reads a chunked response back, whatever follows it. *)
Lemma chunked_response_read code contentType hdr ds rest :
  strconv.minInt64 <= code <= strconv.maxInt64 -> no_body (code_of code) = false ->
  (CR ∉ contentType) -> Forall hdr_ok hdr -> Forall (fun d => d <> []) ds ->
  read_response ((chunked_head code contentType hdr ++ concat (map chunk ds) ++ last_chunk) ++ rest)
  = Some (code_of code, chunked_fields contentType hdr, concat ds, rest).
Proof.
  intros Hc Hnb Hct Hok Hne. unfold read_response, chunked_head. rewrite <- !app_assoc.
  rewrite read_head_app.
  - rewrite Hnb. unfold chunked_fields.
    rewrite !header_values_app, !head_fields_values by (done || tauto). cbn [app].
    change (header_values (bs "transfer-encoding")
      [(bs "Connection", bs "Keep-Alive"); (bs "Transfer-Encoding", bs "chunked")]) with [bs "chunked"].
    change (header_values (bs "content-length")
      [(bs "Connection", bs "Keep-Alive"); (bs "Transfer-Encoding", bs "chunked")]) with (@nil bytes).
    cbv beta iota. rewrite bool_decide_true by done. rewrite read_chunks_app; [done|done|].
    rewrite length_app. pose proof (length_chunks ds). lia.
  - unfold code_of. destruct (code =? 0); [by vm_compute|done].
  - apply Forall_app. split; [by apply head_fields_ok|].
    constructor; [|constructor; [|constructor]]; (apply field_ok_no_58; [done..|]);
      by apply index_byte_None.
Qed.

(** C32: chunked responses.  Whatever pieces a handler writes between
    [StartChunked] and [FinishChunked] (small ones are buffered and merged, empty
    ones skipped), no call fails, and a client reads from the bytes sent exactly
    the response whose body is their concatenation, then what follows. *)
Theorem chunked_read code contentType hdr ps r c rest :
  strconv.minInt64 <= code <= strconv.maxInt64 -> no_body (code_of code) = false ->
  (CR ∉ contentType) -> Forall hdr_ok hdr -> r.(chkbuf) = [] ->
  exists r' c' resp,
    (let! (r, c) := StartChunked code contentType hdr r c in
     let! (r, c) := write_all ps r c in
     FinishChunked r c) = Ok (r', c') /\
    r'.(chunked) = false /\ r'.(chkbuf) = [] /\ c'.(out) = c.(out) ++ resp /\
    read_response (resp ++ rest)
    = Some (code_of code, chunked_fields contentType hdr, concat ps, rest).
Proof.
  intros Hc Hnb Hct Hok Hr. rewrite StartChunked_out by done. cbn [rbind]. rewrite Hr.
  set (c0 := mkSink _ _).
  destruct (write_all_sent ps (set_chunk true [] r) c0 eq_refl)
    as (w & c1 & -> & ds & Hne & Ho & Hw & Hd).
  cbn [set_chunk chunked chkbuf app] in Hw, Hd. cbn [rbind]. unfold FinishChunked. rewrite Hw.
  cbn [negb].
  (* the last buffered bytes make one more chunk *)
  set (ds' := if 0 <? len w.(chkbuf) then ds ++ [w.(chkbuf)] else ds).
  assert (concat ds' = concat ps /\ Forall (fun d => d <> []) ds') as [Hds' Hne'].
  { unfold ds'. destruct (Z.ltb_spec 0 (len w.(chkbuf))) as [Hl|Hl].
    - split; [by rewrite concat_app; cbn; rewrite app_nil_r|].
      apply Forall_app. split; [done|]. constructor; [|constructor]. intros E. by rewrite E in Hl.
    - assert (w.(chkbuf) = []) as E by (apply len_0_inv; pose proof (len_nonneg w.(chkbuf)); lia).
      split; [|done]. by rewrite <- Hd, E, app_nil_r. }
  exists (set_chunk false [] w).
  exists (Flush (_writeString (bs "0" ++ crlf ++ crlf)
            (if 0 <? len w.(chkbuf) then writeChunked w.(chkbuf) c1 else c1))).
  exists (chunked_head code contentType hdr ++ concat (map chunk ds') ++ last_chunk).
  pose proof (chunked_response_read code contentType hdr ds' rest Hc Hnb Hct Hok Hne') as Hread.
  rewrite Hds' in Hread.
  unfold ds' in *. destruct (Z.ltb_spec 0 (len w.(chkbuf))) as [Hl|Hl].
  - split_and!; [done|done|done| |exact Hread].
    unfold Flush, _writeString. cbn [out]. rewrite writeChunked_out, Ho. unfold c0. cbn [out].
    rewrite map_app, concat_app. cbn [map concat]. unfold last_chunk. by app_norm.
  - assert (w.(chkbuf) = []) as E by (apply len_0_inv; pose proof (len_nonneg w.(chkbuf)); lia).
    split_and!; [by rewrite E|done|done| |exact Hread].
    unfold Flush, _writeString. cbn [out]. rewrite Ho. unfold c0. cbn [out].
    unfold last_chunk. by app_norm.
Qed.

(** a redirect is not framed: it has neither a content length nor a transfer
    encoding, so a client that keeps the connection cannot tell where it ends. *)
Theorem Redirect_unframed code location c rest :
  strconv.minInt64 <= code <= strconv.maxInt64 -> no_body code = false -> (CR ∉ location) ->
  exists resp, (Redirect code location c).(out) = c.(out) ++ resp /\
    read_head (resp ++ rest) = Some (code, [(bs "Location", location)], rest) /\
    read_response (resp ++ rest) = None.
Proof.
  intros Hc Hnb Hl.
  assert (Forall field_ok [(bs "Location", location)]) as Hf
    by (constructor; [by apply field_ok_no_58|constructor]).
  exists (status_line code ++ field_lines [(bs "Location", location)] ++ crlf ++ crlf).
  assert (read_head ((status_line code ++ field_lines [(bs "Location", location)] ++ crlf ++ crlf) ++ rest)
          = Some (code, [(bs "Location", location)], rest)) as Hh
    by (rewrite <- !app_assoc; by apply read_head_app).
  split_and!; [|done|].
  - unfold Redirect, _writeString, _writeInt, strconv.AppendInt, status_line, field_lines.
    cbn [out map concat fst snd]. by app_norm.
  - unfold read_response. rewrite Hh, Hnb. done.
Qed.

(** ** The upgrade *)

Definition upgrade_excluded (k : bytes) : Prop :=
  k ∈ [bs "Upgrade"; bs "Connection"; bs "Sec-WebSocket-Accept"].

Definition upgrade_sent (hdr : Header) : list (bytes * bytes) :=
  (fun h => (h.1, default [] (head h.2))) <$> filter (fun h => ~ upgrade_excluded h.1) hdr.

Lemma write_upgrade_headers_sent hdr c :
  Forall (fun h => h.2 <> []) hdr ->
  write_upgrade_headers hdr c
  = Ok (mkSink (c.(out) ++ concat (header_line <$> upgrade_sent hdr)) c.(triggers)).
Proof.
  revert c. induction hdr as [|[k v] hdr IH]; intros c Hok.
  { cbn. rewrite app_nil_r. by destruct c. }
  apply Forall_cons in Hok as [Hv Hok]. cbn [write_upgrade_headers].
  unfold upgrade_sent. rewrite filter_cons. cbn [fst]. fold (upgrade_excluded k).
  case_bool_decide as He.
  - rewrite decide_False by (intros Hn; by apply Hn). by apply IH.
  - rewrite decide_True by done. destruct v as [|v0 v]; [done|].
    change (at_ (v0 :: v) 0) with (Some v0). cbn [checked rbind].
    rewrite IH by done. unfold _writeString, header_line. cbn [out triggers fmap list_fmap].
    cbn [concat fst snd head default]. do 2 f_equal. by app_norm.
Qed.

(** the handshake.  A request that asks for a websocket is answered with
    status 101 and the accept key that RFC 6455 prescribes for its key (SHA-1 and
    base64 computed by the definitions of [GoStd]), with the caller's headers but
    those three, and is sent at once; a request that does not is left alone. *)
Theorem UpgradeWebsocket_read hdr r c key rest :
  GetHeader r (bs "sec-websocket-key") = Ok key ->
  Forall (fun h => h.2 <> [] /\ field_ok (h.1, default [] (head h.2))) hdr ->
  exists resp,
    UpgradeWebsocket hdr r c
    = Ok (if r.(wsUpgrade) then (Some newWebsocket, mkSink (c.(out) ++ resp) (S c.(triggers)))
          else (None, c)) /\
    read_head (resp ++ rest)
    = Some (101, [(bs "Upgrade", bs "websocket"); (bs "Connection", bs "Upgrade");
                  (bs "Sec-WebSocket-Accept", base64.EncodeToString (sha1.Sum (key ++ ws_guid)))]
                 ++ upgrade_sent hdr, rest).
Proof.
  intros Hkey Hok. set (acc := base64.EncodeToString (sha1.Sum (key ++ ws_guid))).
  set (hs := _ ++ upgrade_sent hdr).
  exists (status_line 101 ++ crlf ++ header_block hs). split.
  - unfold UpgradeWebsocket. destruct r.(wsUpgrade); [|done]. cbn [negb]. rewrite Hkey. cbn [rbind].
    fold acc. rewrite write_upgrade_headers_sent.
    2: { eapply Forall_impl; [exact Hok|]. by intros h [? _]. }
    cbn [rbind]. unfold Flush, _writeString, hs, header_block. cbn [out triggers].
    rewrite fmap_app, concat_app. cbn [fmap list_fmap concat]. unfold header_line at 2 3 4.
    cbn [fst snd]. do 3 f_equal.
    change (status_line 101) with (bs "HTTP/1.1 101 Switching Protocols"). by app_norm.
  - rewrite <- !app_assoc. apply read_head_block; [by vm_compute|].
    apply Forall_app. split.
    + constructor; [|constructor; [|constructor; [|constructor]]]; (apply field_ok_no_58; [done..|]);
        [by apply index_byte_None|by apply index_byte_None|apply base64.EncodeToString_no_CR].
    + unfold upgrade_sent. apply Forall_fmap, Forall_forall. intros h [_ Hh]%list_elem_of_filter.
      rewrite Forall_forall in Hok. by apply (Hok h Hh).
Qed.

(** ** Witnesses *)

Definition ex_hdr : Header :=
  [(bs "X-A", [bs "1"; bs "2"]); (bs "Content-Length", [bs "7"]); (bs "Set-Cookie", [bs "k=v"])].

Lemma ex_hdr_ok : Forall hdr_ok ex_hdr.
Proof.
  unfold ex_hdr. repeat (apply Forall_cons; split); [..|by constructor].
  all: split; [done|split; [apply field_ok_no_58; [done|done|by apply index_byte_None]|]].
  2: intros _; unfold excluded; compute_done.
  all: intros [E|E]; by vm_compute in E.
Qed.

Lemma respFull_read_witness :
  exists resp, respFull 0 [] ex_hdr (bs "hi") (mkSink (bs "old") 0)
               = Ok (mkSink (bs "old" ++ resp) 0) /\
    read_response (resp ++ bs "next")
    = Some (200, [(bs "Content-Type", bs "text/plain; charset=utf-8"); (bs "X-A", bs "1");
                  (bs "Set-Cookie", bs "k=v"); (bs "Connection", bs "Keep-Alive");
                  (bs "Content-Length", bs "2")], bs "hi", bs "next").
Proof.
  apply (respFull_read 0 [] ex_hdr (bs "hi") (mkSink (bs "old") 0) (bs "next")).
  - by vm_compute.
  - done.
  - apply not_elem_of_nil.
  - apply ex_hdr_ok.
  - by vm_compute.
Defined.

Lemma chunked_read_witness :
  exists r' c' resp,
    (let! (r, c) := StartChunked 200 (bs "a/b") ex_hdr newHTTP (mkSink [] 0) in
     let! (r, c) := write_all [bs "ab"; []; bs "c"; repeat 120 70; bs "defgh"] r c in
     FinishChunked r c) = Ok (r', c') /\
    r'.(chunked) = false /\ r'.(chkbuf) = [] /\ c'.(out) = resp /\
    read_response (resp ++ bs "next")
    = Some (200, chunked_fields (bs "a/b") ex_hdr, bs "abc" ++ repeat 120 70 ++ bs "defgh", bs "next").
Proof.
  apply (chunked_read 200 (bs "a/b") ex_hdr [bs "ab"; []; bs "c"; repeat 120 70; bs "defgh"] newHTTP
           (mkSink [] 0) (bs "next")).
  - by vm_compute.
  - done.
  - by apply index_byte_None.
  - apply ex_hdr_ok.
  - done.
Defined.

Lemma Redirect_unframed_witness :
  exists resp, (Redirect 302 (bs "/x") (mkSink [] 0)).(out) = resp /\
    read_head (resp ++ bs "HTTP") = Some (302, [(bs "Location", bs "/x")], bs "HTTP") /\
    read_response (resp ++ bs "HTTP") = None.
Proof.
  apply (Redirect_unframed 302 (bs "/x") (mkSink [] 0) (bs "HTTP")); [by vm_compute|done|].
  by apply index_byte_None.
Defined.

(** The example of RFC 6455, section 1.3. *)
Definition ex_upgrade : HTTP :=
  set_wsUpgrade true
    (set_data (request (bs "GET") (bs "/chat") (bs "HTTP/1.1")
                 [(bs "upgrade", bs "websocket");
                  (bs "sec-websocket-key", bs "dGhlIHNhbXBsZSBub25jZQ==")]) newHTTP).

Lemma UpgradeWebsocket_read_witness :
  exists resp,
    UpgradeWebsocket [] ex_upgrade (mkSink [] 0) = Ok (Some newWebsocket, mkSink resp 1) /\
    read_head (resp ++ [])
    = Some (101, [(bs "Upgrade", bs "websocket"); (bs "Connection", bs "Upgrade");
                  (bs "Sec-WebSocket-Accept", bs "s3pPLMBiTxaQ9kYGzzhZRbK+xOo=")], []).
Proof.
  assert (base64.EncodeToString (sha1.Sum (bs "dGhlIHNhbXBsZSBub25jZQ==" ++ ws_guid))
          = bs "s3pPLMBiTxaQ9kYGzzhZRbK+xOo=") as <- by (by vm_compute).
  apply (UpgradeWebsocket_read [] ex_upgrade (mkSink [] 0) (bs "dGhlIHNhbXBsZSBub25jZQ==") []).
  - by vm_compute.
  - constructor.
Defined.
