(* ===== verification/HttpGo.v ===== *)
(** Handlers of net/http over a request (src/http.go, lines 339 to 377, and the
    response writer of src/util.go, lines 68 to 96).

    A handler of net/http is a parameter: from the [http.Request] that it gets it
    makes a sequence of calls of the [http.ResponseWriter].  Nothing that the
    writer answers depends on the connection, so the request determines them.
    The order in which Go ranges over a map is a parameter as well ([enum]). *)

From stdpp Require Import gmap.
From S2P Require Import Prelude GoStd Escape Util Http HttpSpec HttpResp HttpQuery.

(** ** [http.Header] *)

Abbreviation header_map := (gmap bytes (list bytes)).

Definition HeaderGet (k : bytes) (m : header_map) : bytes :=
  default [] (m !! textproto.CanonicalMIMEHeaderKey k ≫= head).
Definition HeaderSet (k v : bytes) (m : header_map) : header_map :=
  <[textproto.CanonicalMIMEHeaderKey k := [v]]> m.
Definition HeaderAdd (k v : bytes) (m : header_map) : header_map :=
  let k := textproto.CanonicalMIMEHeaderKey k in <[k := default [] (m !! k) ++ [v]]> m.
Definition HeaderDel (k : bytes) (m : header_map) : header_map :=
  delete (textproto.CanonicalMIMEHeaderKey k) m.

(** ** The request *)

(** [http.Request], the fields that [RunGoHandler] sets. *)
Record GoRequest := mkGoRequest {
  rqURL : neturl.URL;
  RequestURI : bytes;
  rqMethod : bytes;
  ProtoMajor : Z;
  ProtoMinor : Z;
  rqHost : bytes;
  rqHeader : header_map;
  TransferEncoding : list bytes;
}.

(** ** The response writer *)

Record netHTTPResponseWriter := mkWriter { code : Z; h : option header_map; w : bytes }.
Definition newWriter : netHTTPResponseWriter := mkWriter 0 None [].

Definition StatusCode (rw : netHTTPResponseWriter) : Z := if rw.(code) =? 0 then 200 else rw.(code).

(** [Header()], and what the caller then does to the map. *)
Definition Header_ (f : header_map -> header_map) (rw : netHTTPResponseWriter) : netHTTPResponseWriter :=
  mkWriter rw.(code) (Some (f (default ∅ rw.(h)))) rw.(w).
Definition WriteHeader (statusCode : Z) (rw : netHTTPResponseWriter) : netHTTPResponseWriter :=
  mkWriter statusCode rw.(h) rw.(w).
Definition writer_Write (p : bytes) (rw : netHTTPResponseWriter) : netHTTPResponseWriter * Z :=
  (mkWriter rw.(code) rw.(h) (rw.(w) ++ p), len p).

(** What a handler can do with its writer; [WPut] assigns to the map itself. *)
Inductive call :=
| WSet (k v : bytes)
| WAdd (k v : bytes)
| WDel (k : bytes)
| WPut (k : bytes) (vs : list bytes)
| WCode (statusCode : Z)
| WWrite (p : bytes)
| WFlush.

Definition do_call (rw : netHTTPResponseWriter) (a : call) : netHTTPResponseWriter :=
  match a with
  | WSet k v => Header_ (HeaderSet k v) rw
  | WAdd k v => Header_ (HeaderAdd k v) rw
  | WDel k => Header_ (HeaderDel k) rw
  | WPut k vs => Header_ (<[k := vs]>) rw
  | WCode statusCode => WriteHeader statusCode rw
  | WWrite p => (writer_Write p rw).1
  | WFlush => rw
  end.

Definition do_calls (l : list call) : netHTTPResponseWriter := foldl do_call newWriter l.

(** ** The bridge *)

Section bridge.
Context (enum : header_map -> Header).

Definition GoHandler : Type := GoRequest -> list call.

(** What [RunGoHandler] does with one header. *)
Definition go_header (sk v : bytes) (s : list bytes * header_map) : list bytes * header_map * bool :=
  let '(te, m) := s in
  if bool_decide (sk = bs "transfer-encoding") then (te ++ [v], m, true)
  else (te, HeaderSet sk v m, true).

Definition RunGoHandler (f : GoHandler) (sh : HTTP) (c : sink) : res error (HTTP * sink) :=
  let! (sh, u) := URL sh in
  let uri := neturl.String u in
  let! (sh, method) := Method sh in
  let! (te, hd) := ForeachHeader go_header sh ([], ∅) in
  let r := mkGoRequest u uri method 1 1 sh.(Host) hd te in
  let rw := do_calls (f r) in
  let! c := BytesHeaders rw.(code) (HeaderGet (bs "Content-Type") (default ∅ rw.(h)))
              (enum (default ∅ rw.(h))) rw.(w) c in
  Ok (sh, Flush c).

(** [RunPprof]: the handler is chosen by the path. *)
Definition RunPprof (cmdline profile symbol trace index : GoHandler) (sh : HTTP) (c : sink)
  : res error (HTTP * sink) :=
  if prefixb (bs "/debug/pprof/cmdline") sh.(Path) then RunGoHandler cmdline sh c
  else if prefixb (bs "/debug/pprof/profile") sh.(Path) then RunGoHandler profile sh c
  else if prefixb (bs "/debug/pprof/symbol") sh.(Path) then RunGoHandler symbol sh c
  else if prefixb (bs "/debug/pprof/trace") sh.(Path) then RunGoHandler trace sh c
  else RunGoHandler index sh c.
End bridge.

(** ** Lemmas: names of headers *)








(** ** Lemmas: the headers of the request *)

Definition transfer_encoding : bytes := bs "transfer-encoding".


(** ** Lemmas: the writer *)



(** ** Properties *)

(** What the handler is told of a request. *)
Record go_asks (method path : bytes) (kvs hs : list (bytes * bytes)) (r : GoRequest) : Prop := {
  ga_method : r.(rqMethod) = ascii_upper <$> method;
  ga_host : r.(rqHost) = default [] (last_value (bs "host") hs);
  ga_url : r.(rqURL) = neturl.mkURL (bs "http:") r.(rqHost) path (raw_query kvs);
  ga_uri : r.(RequestURI) = bs "http:://" ++ neturl.escapeHost r.(rqHost) ++ neturl.escapePath path
                              ++ match kvs with [] => [] | _ => 63 :: raw_query kvs end;
  ga_header k : forallb textproto.is_token k = true -> lower k <> transfer_encoding ->
    HeaderGet k r.(rqHeader) = default [] (last_value (lower k) hs);
  ga_encoding : r.(TransferEncoding) = snd <$> filter (named transfer_encoding) hs;
}.




Section serve.
Context `{Env} (enum : header_map -> Header).



(** The handler never sees the target that was sent: [RequestURI] is the text of a
    URL whose scheme is [http:], with its colon. *)
Theorem RequestURI_not_target method path q hs o req :
  go_asks method (47 :: o) (pairs_of q) hs req -> decode false path = Some (47 :: o) ->
  req.(RequestURI) <> target_of path q.
Proof using.
  intros Ha Hout E. rewrite (ga_uri _ _ _ _ _ Ha) in E. unfold target_of in E.
  destruct path as [|c path]; [done|]. injection E as <- _. cbn [decode] in Hout.
  change (104 =? 37) with false in Hout. cbn [andb] in Hout.
  destruct (decode false path); by simplify_eq/=.
Qed.
End serve.

(** ** Witnesses *)



(** The condition on the query is needed: the query is decoded in place before the headers
    are read, so an encoded line end in it tells the handler a header that was not sent. *)
Definition ex_injected : bytes :=
  request (bs "GET") (bs "/p?a=%0D%0Ax-admin:yes%0D%0A") (bs "HTTP/1.1") ex_headers.

Theorem query_injects :
  exists r', RunGoHandler map_to_list (fun req => [WWrite (HeaderGet (bs "X-Admin") req.(rqHeader))])
      (parsed ex_injected) (mkSink [] 0)
    = Ok (r', mkSink (bs "HTTP/1.1 200 OK" ++ crlf ++ bs "Content-Type: text/plain; charset=utf-8" ++ crlf ++
        bs "Connection: Keep-Alive" ++ crlf ++ bs "Content-Length: 3" ++ crlf ++ crlf ++ bs "yes") 1) /\
    last_value (bs "x-admin") ex_headers = None.
Proof. eexists. split; [vm_compute; reflexivity|vm_compute; reflexivity]. Qed.
