(* ===== verification/State.v ===== *)
(** [serverReadState.process] (src/state.go): the incremental reader that
    decides between RESP and HTTP and resumes when more bytes arrive.

    The answer is the input buffer (HTTP headers are rewritten in place), the
    new state and the result.  After an error or a panic the connection is
    closed; the buffer answered then is the one given. *)

From S2P Require Import Prelude GoStd Escape Util Redis Http.

(** ** The state machine *)

Record serverReadState := mkState {
  stage : Z;
  redis : option Redis;
  http : option HTTP;
}.

(** [serverReadState{}] *)
Definition newState : serverReadState := mkState 0 None None.

Section process.
Context `{Env}.

Definition step_result : Type := bytes * serverReadState * res error unit.

(** Stage 1: read all bulk strings. *)
Definition process_bulks (inp : bytes) (s : serverReadState) : step_result :=
  match s.(redis) with
  | None => (inp, s, Panic)
  | Some r =>
      let (r, result) := readBulks (bulks_todo r) inp r in
      match result with
      | Ok _ =>
          match slice_to inp r.(read) with
          | Some d => (inp, mkState 999 (Some (mkRedis d r.(read) r.(nargs) r.(ai))) s.(http), Ok tt)
          | None => (inp, mkState 999 (Some r) s.(http), Panic)
          end
      | Err e => (inp, mkState s.(stage) (Some r) s.(http), Err e)
      | Panic => (inp, mkState s.(stage) (Some r) s.(http), Panic)
      | OutOfFuel => (inp, mkState s.(stage) (Some r) s.(http), OutOfFuel)
      end
  end.

(** Stage 7: read the body. *)
Definition process_body (inp : bytes) (s : serverReadState) : step_result :=
  match s.(http) with
  | None => (inp, s, Panic)
  | Some h =>
      let sz := u32 (h.(hdrLen) + h.(bodyLen)) in
      if len inp <? sz then (inp, s, Err errWaitMore)
      else
        match slice_to inp sz with
        | Some d => (inp, mkState 999 s.(redis) (Some (set_data d h)), Ok tt)
        | None => (inp, s, Panic)
        end
  end.

(** Stage 6: read all HTTP lines. *)
Definition process_headers (inp : bytes) (s : serverReadState) : step_result :=
  match index_of (crlf ++ crlf) inp with
  | None => (inp, s, Err errWaitMore)
  | Some idx =>
      match s.(http) with
      | None => (inp, s, Panic)
      | Some h =>
          match slice_to inp (Z.of_nat (idx + 4)) with
          | None => (inp, s, Panic)
          | Some d =>
              match parse (set_data d h) with
              | Err e => (inp, s, Err e)
              | Panic => (inp, s, Panic)
              | OutOfFuel => (inp, s, OutOfFuel)
              | Ok h =>
                  let inp := h.(data) ++ drop (idx + 4) inp in
                  if h.(bodyLen) =? 0 then (inp, mkState 8 s.(redis) (Some h), Ok tt)
                  else process_body inp (mkState 7 s.(redis) (Some h))
              end
          end
      end
  end.

Definition process (inp : bytes) (s : serverReadState) : step_result :=
  match s.(stage) with
  | 0 =>
      match readByteAndNumberCrLf 42 inp with
      | Err e => (inp, s, Err e)
      | Panic => (inp, s, Panic)
      | OutOfFuel => (inp, s, OutOfFuel)
      | Ok (num, w) =>
          if w =? 0 then process_headers inp (mkState 6 s.(redis) (Some newHTTP))
          else if 65535 <? num then (inp, s, Err errTooManyArgs)
          else process_bulks inp (mkState 1 (Some (mkRedis [] (u32 w) (u16 num) [])) s.(http))
      end
  | 1 => process_bulks inp s
  | 6 => process_headers inp s
  | 7 => process_body inp s
  | 999 => (inp, s, Ok tt)
  | n => (inp, s, Err (errStage n))
  end.

(** The states that [process] leaves behind when it waits, together with the
    buffer they belong to. *)
Definition state_ok (inp : bytes) (s : serverReadState) : Prop :=
  len inp < 2 ^ 32 /\
  (s.(stage) = 0 \/
   (s.(stage) = 1 /\ exists r, s.(redis) = Some r /\ cursor_ok inp r) \/
   (s.(stage) = 6 /\ s.(http) = Some newHTTP) \/
   (s.(stage) = 7 /\ exists h, s.(http) = Some h /\ 0 <= h.(hdrLen) /\ 0 <= h.(bodyLen))).

(** What a result says about more input: [process] can be resumed after "wait
    for more", and any other answer stands. *)
Definition resumes (inp t : bytes) (whole part : step_result) : Prop :=
  let '(inp', s', r) := part in
  if decide (r = Err errWaitMore) then
    whole = process (inp' ++ t) s' /\ (len inp' = len inp) /\ state_ok inp' s'
  else whole = (inp' ++ t, s', r).

Lemma process_bulks_resumes inp t s r :
  s.(stage) = 1 -> s.(redis) = Some r -> cursor_ok inp r -> len (inp ++ t) < 2 ^ 32 ->
  resumes inp t (process_bulks (inp ++ t) s) (process_bulks inp s).
Proof using.
  intros Hst Hr Hc Hl. unfold process_bulks. rewrite Hr.
  destruct (readBulks (bulks_todo r) inp r) as [r1 result] eqn:Hb.
  destruct (readBulks_resume inp t r r1 result Hc Hl Hb) as (Hc1 & Hn1 & Hd1 & Hw).
  rewrite Hw. unfold resumes. case_decide as Hres.
  - subst result. rewrite decide_True by done. split_and!; [|done|].
    + unfold process. cbn [stage]. rewrite Hst. by unfold process_bulks.
    + split; [by apply Hc1|]. right; left. cbn. eauto.
  - destruct result as [[]|e| |].
    + unfold slice_to. destruct (slice_is_Some inp 0 r1.(read)) as [d Hd];
        [destruct Hc1 as [[? ?] ?]; lia..|].
      rewrite Hd, (slice_stable _ t _ _ _ Hd). by rewrite decide_False.
    + rewrite decide_False by done. done.
    + by rewrite decide_False.
    + by rewrite decide_False.
Qed.

Lemma process_body_resumes inp t s h :
  s.(stage) = 7 -> s.(http) = Some h -> 0 <= h.(hdrLen) -> 0 <= h.(bodyLen) ->
  len (inp ++ t) < 2 ^ 32 ->
  resumes inp t (process_body (inp ++ t) s) (process_body inp s).
Proof using.
  intros Hst Hh H0 H1 Hl. rewrite len_app in Hl. pose proof (len_nonneg t).
  assert (0 <= u32 (h.(hdrLen) + h.(bodyLen))) as Hu by (apply Z.mod_pos_bound; lia).
  unfold process_body at 2. rewrite Hh. cbn zeta.
  destruct (Z.ltb_spec (len inp) (u32 (h.(hdrLen) + h.(bodyLen)))) as [Hlt|Hge].
  - unfold resumes. rewrite decide_True by done. split_and!; [|done|].
    + unfold process. by rewrite Hst.
    + split; [lia|]. do 3 right. eauto 6.
  - unfold process_body. rewrite Hh. cbn zeta. rewrite len_app.
    destruct (Z.ltb_spec (len inp + len t) (u32 (h.(hdrLen) + h.(bodyLen)))); [lia|].
    destruct (slice_is_Some inp 0 (u32 (h.(hdrLen) + h.(bodyLen)))) as [d Hd]; [lia..|].
    unfold slice_to. rewrite Hd, (slice_stable _ t _ _ _ Hd). unfold resumes.
    by rewrite decide_False.
Qed.

(** The header block up to its first empty line, and what parsing it keeps. *)
Lemma header_block_split inp idx :
  index_of (crlf ++ crlf) inp = Some idx ->
  slice_to inp (Z.of_nat (idx + 4)) = Some (take idx inp ++ crlf ++ crlf) /\
  inp = (take idx inp ++ crlf ++ crlf) ++ drop (idx + 4) inp.
Proof using.
  intros Hi. pose proof (index_of_split _ _ _ Hi) as Hs.
  change (length (crlf ++ crlf)) with 4%nat in Hs.
  assert (inp = (take idx inp ++ crlf ++ crlf) ++ drop (idx + 4) inp) as Hsplit
    by (rewrite Hs at 1; by app_norm).
  split; [|done]. rewrite Hsplit at 1. apply slice_prefix. autorewrite with len.
  apply index_of_bound in Hi. change (len crlf) with 2. unfold len. simpl in Hi. lia.
Qed.

Lemma parse_Ok_facts z h :
  max_ok -> parse (set_data (z ++ crlf ++ crlf) newHTTP) = Ok h ->
  length h.(data) = length (z ++ crlf ++ crlf) /\ 0 <= h.(hdrLen) /\ 0 <= h.(bodyLen).
Proof using.
  intros Hmax Hp. pose proof (parse_safe z Hmax) as Hsafe.
  rewrite Hp in Hsafe. destruct Hsafe as (Hl & _ & Hh & Hb & _).
  split_and!; [done| |by apply Hb]. rewrite Hh. apply Z.mod_pos_bound. lia.
Qed.

Lemma process_headers_resumes inp t s :
  max_ok -> s.(stage) = 6 -> s.(http) = Some newHTTP -> len (inp ++ t) < 2 ^ 32 ->
  resumes inp t (process_headers (inp ++ t) s) (process_headers inp s).
Proof using.
  intros Hmax Hst Hh Hl.
  pose proof (len_nonneg t). rewrite len_app in Hl.
  destruct (index_of (crlf ++ crlf) inp) as [idx|] eqn:Hi.
  2: { unfold process_headers at 2. rewrite Hi. unfold resumes. rewrite decide_True by done.
       split_and!; [|done|].
       - unfold process. by rewrite Hst.
       - split; [lia|]. by do 2 right; left. }
  destruct (header_block_split _ _ Hi) as [Hsl Hsplit].
  pose proof (index_of_bound _ _ _ Hi) as Hb. simpl in Hb.
  unfold process_headers. rewrite Hi, (index_of_stable _ _ t _ Hi), Hh, Hsl.
  unfold slice_to in *. rewrite (slice_stable _ t _ _ _ Hsl).
  rewrite drop_app_le by lia.
  destruct (parse (set_data (take idx inp ++ crlf ++ crlf) newHTTP)) as [h|e| |] eqn:Hp.
  - destruct (parse_Ok_facts _ _ Hmax Hp) as (Hld & Hh0 & Hb0).
    assert (len (h.(data) ++ drop (idx + 4) inp) = len inp) as Hlen.
    { rewrite (f_equal len Hsplit). rewrite !len_app. unfold len at 1. rewrite Hld.
      rewrite !length_app. unfold len. lia. }
    cbn zeta. rewrite app_assoc. destruct (h.(bodyLen) =? 0).
    + unfold resumes. rewrite decide_False by done. done.
    + pose proof (process_body_resumes (h.(data) ++ drop (idx + 4) inp) t
                    (mkState 7 s.(redis) (Some h)) h eq_refl eq_refl Hh0 Hb0) as Hr.
      rewrite len_app in Hr. specialize (Hr ltac:(lia)). unfold resumes in *.
      destruct (process_body _ (mkState 7 _ _)) as [[inp' s'] r].
      case_decide; [|done]. destruct Hr as (-> & E & ?). split_and!; [done|lia|done].
  - unfold resumes. case_decide as E; [|done].
    (* the parser never asks for more *)
    exfalso. injection E as ->. revert Hp. apply parse_not_wait.
  - by unfold resumes; rewrite decide_False.
  - by unfold resumes; rewrite decide_False.
Qed.

Lemma process_resumes inp t s :
  max_ok -> state_ok inp s -> len (inp ++ t) < 2 ^ 32 ->
  resumes inp t (process (inp ++ t) s) (process inp s).
Proof using.
  intros Hmax [Hl Hs] Hlt. unfold process.
  destruct Hs as [Hs|[(Hs & r & Hr & Hc)|[(Hs & Hh)|(Hs & h & Hh & H0 & H1)]]]; rewrite Hs.
  - destruct (decide (readByteAndNumberCrLf 42 inp = Err errWaitMore)) as [Hw|Hw].
    + rewrite Hw. unfold resumes. rewrite decide_True by done. split_and!; [|done|].
      * unfold process. by rewrite Hs.
      * split; [done|by left].
    + rewrite (readHeader_stable 42 ltac:(done) inp t Hw).
      destruct (readHeader_cases 42 ltac:(done) inp) as [H'|[H'|[[e H']|(v & w & H' & Hwb & _)]]];
        rewrite H'; [done| | |].
      * cbn [Z.eqb]. by apply process_headers_resumes.
      * by unfold resumes; rewrite decide_False.
      * destruct (w =? 0); [by apply process_headers_resumes|].
        destruct (65535 <? v); [by unfold resumes; rewrite decide_False|].
        eapply process_bulks_resumes; [done|done| |done].
        unfold cursor_ok. cbn [read]. rewrite u32_small by lia. lia.
  - by eapply process_bulks_resumes.
  - by apply process_headers_resumes.
  - by eapply process_body_resumes.
Qed.

(** ** Feeding the connection in chunks

    What [readConn] does with the bytes of successive reads: append, process,
    go on while the answer is "wait for more" (bytes that arrive after the
    answer stay in the buffer). *)
Fixpoint feed (inp : bytes) (s : serverReadState) (chunks : list bytes) : step_result :=
  match chunks with
  | [] => (inp, s, Err errWaitMore)
  | c :: chunks =>
      let '(inp', s', r) := process (inp ++ c) s in
      if decide (r = Err errWaitMore) then feed inp' s' chunks
      else (inp' ++ concat chunks, s', r)
  end.

Lemma state_ok_app inp t s :
  state_ok inp s -> len (inp ++ t) < 2 ^ 32 -> state_ok (inp ++ t) s.
Proof using.
  intros [? Hs] Hl. split; [done|]. destruct Hs as [?|[(? & r & ? & ?)|?]]; [by left| |by right; right].
  right; left. split; [done|]. exists r. split; [done|]. by apply cursor_ok_app.
Qed.

Lemma feed_process inp s c chunks :
  max_ok -> state_ok inp s -> len (inp ++ concat (c :: chunks)) < 2 ^ 32 ->
  feed inp s (c :: chunks) = process (inp ++ concat (c :: chunks)) s.
Proof using.
  intros Hmax. revert inp s c. induction chunks as [|c2 chunks IH]; intros inp s c Hs Hl.
  - cbn [feed concat]. rewrite app_nil_r.
    destruct (process (inp ++ c) s) as [[inp' s'] r].
    case_decide; [by subst|]. by rewrite app_nil_r.
  - cbn [feed]. set (rest := concat (c2 :: chunks)) in *.
    change (concat (c :: c2 :: chunks)) with (c ++ rest) in *.
    rewrite app_assoc in Hl |- *.
    assert (state_ok (inp ++ c) s) as Hs'.
    { apply state_ok_app; [done|]. rewrite len_app in Hl. pose proof (len_nonneg rest). lia. }
    pose proof (process_resumes _ rest s Hmax Hs' Hl) as Hr. unfold resumes in Hr.
    destruct (process (inp ++ c) s) as [[inp' s'] r].
    case_decide; [|by rewrite Hr]. destruct Hr as (-> & Hlen & Hok). apply IH; [done|].
    fold rest. by rewrite len_app, Hlen, <- len_app.
Qed.

(** ** Commands *)

Lemma process_bulks_command args rest :
  len (command args ++ rest) < 2 ^ 32 -> len args <= 65535 ->
  process (command args ++ rest) newState
  = (command args ++ rest,
     mkState 999 (Some (mkRedis (command args) (len (command args)) (len args)
                          (spans (len (resp_header 42 (len args))) args))) None,
     Ok tt).
Proof using.
  intros Hl Ha. pose proof (len_nonneg args). unfold process. cbn [stage newState].
  set (h := resp_header 42 (len args)).
  assert (command args ++ rest = h ++ bulks args ++ rest) as E
    by (unfold command; fold h; by app_norm).
  assert (len h <= len (h ++ bulks args ++ rest)) as Hlh.
  { rewrite len_app. pose proof (len_nonneg (bulks args ++ rest)). lia. }
  pose proof (len_resp_header 42 (len args)) as Hh4. fold h in Hh4.
  pose proof (readHeader_resp_header 42 ltac:(done) (len args) (bulks args ++ rest)) as Hhd.
  fold h in Hhd. rewrite E in *. rewrite Hhd by (unfold strconv.minInt64, strconv.maxInt64; lia).
  destruct (Z.eqb_spec (len h) 0); [lia|]. destruct (Z.ltb_spec 65535 (len args)); [lia|].
  unfold process_bulks. cbn [redis]. rewrite u32_small, u16_small by lia.
  assert (bulks_todo (mkRedis [] (len h) (len args) []) = length args) as ->
    by (unfold bulks_todo, len; simpl; lia).
  rewrite readBulks_bulks by done. cbn [data read nargs ai app].
  unfold slice_to. rewrite app_assoc, slice_prefix by done.
  unfold command. fold h. done.
Qed.

(** A request that has been read lies in the bytes it was read from. *)
Definition fits (n : Z) (s : serverReadState) : Prop :=
  match s.(http) with
  | Some h => len h.(data) <= n
  | None => exists r, s.(redis) = Some r /\ r.(read) <= n
  end.

Lemma process_body_fits inp s inp' s' :
  process_body inp s = (inp', s', Ok tt) -> fits (len inp) s'.
Proof using.
  unfold process_body. destruct s.(http) as [h|]; [|done]. cbn zeta.
  destruct (_ <? _); [done|]. destruct (slice_to inp _) as [d|] eqn:Hd; [|done].
  intros [= <- <-]. unfold fits. cbn [http set_data data].
  apply slice_len in Hd as Hdl. apply slice_Some in Hd as (_ & Hd & _). lia.
Qed.

Lemma process_headers_fits inp s inp' s' :
  max_ok -> s.(http) = Some newHTTP -> process_headers inp s = (inp', s', Ok tt) -> fits (len inp) s'.
Proof using.
  intros Hmax Hh. unfold process_headers.
  destruct (index_of (crlf ++ crlf) inp) as [idx|] eqn:Hi; [|done].
  destruct (header_block_split _ _ Hi) as [Hsl Hsp]. rewrite Hh, Hsl.
  destruct (parse _) as [h|e| |] eqn:Hp; try done. cbn zeta.
  destruct (parse_Ok_facts _ _ Hmax Hp) as (Hlen & _).
  assert (length (h.(data) ++ drop (idx + 4) inp) = length inp) as E.
  { rewrite (f_equal length Hsp), !length_app, Hlen, !length_app. lia. }
  destruct (h.(bodyLen) =? 0).
  - intros [= _ <-]. unfold fits. cbn [http]. rewrite length_app in E. unfold len. lia.
  - intros Hb%process_body_fits. unfold len in *. by rewrite E in Hb.
Qed.

Lemma process_fits p p' s' :
  max_ok -> process p newState = (p', s', Ok tt) -> fits (len p) s'.
Proof using.
  intros Hmax Hp. unfold process in Hp. cbn [stage newState] in Hp.
  destruct (readHeader_cases 42 ltac:(done) p) as [H'|[H'|[[e H']|(v & w & H' & Hwb & _)]]];
    rewrite H' in Hp; try done.
  - cbn [Z.eqb] in Hp. by eapply process_headers_fits in Hp.
  - destruct (Z.eqb_spec w 0); [lia|]. destruct (65535 <? v); [done|].
    unfold process_bulks in Hp. cbn [redis] in Hp.
    destruct (readBulks _ p _) as [r1 result]. destruct result as [[]| | |]; try done.
    destruct (slice_to p r1.(read)) as [d|] eqn:Hd; [|done].
    injection Hp as _ <-. apply slice_Some in Hd as (_ & Hd & _).
    unfold fits. cbn [http redis]. eexists. split; [done|]. cbn [read]. lia.
Qed.

(** The bytes of a request, in order, are waited for to the last. *)
Lemma process_not_wait_prefix whole inp' s' p q :
  max_ok -> len whole < 2 ^ 32 -> process whole newState = (inp', s', Ok tt) ->
  (forall n, fits n s' -> len whole <= n) -> whole = p ++ q -> q <> [] ->
  (process p newState).2 = Err errWaitMore.
Proof using.
  intros Hmax Hl Hw Hfit Hpq Hq.
  assert (state_ok p newState) as Hs.
  { split; [|by left]. rewrite Hpq, len_app in Hl. pose proof (len_nonneg q). lia. }
  pose proof (process_resumes p q newState Hmax Hs) as Hr. rewrite <- Hpq in Hr.
  specialize (Hr Hl). unfold resumes in Hr.
  destruct (process p newState) as [[p' sp] r] eqn:Hp. cbn [snd]. case_decide; [done|].
  exfalso. rewrite Hw in Hr. injection Hr as _ <- <-.
  pose proof (Hfit _ (process_fits _ _ _ Hmax Hp)) as Hle. rewrite Hpq, len_app in Hle.
  destruct q; [done|]. rewrite len_cons in Hle. pose proof (len_nonneg q). lia.
Qed.

Lemma command_not_wait_prefix args p q :
  len (command args) < 2 ^ 32 -> len args <= 65535 -> max_ok ->
  command args = p ++ q -> q <> [] ->
  (process p newState).2 = Err errWaitMore.
Proof using.
  intros Hl Ha Hmax Hpq Hq. pose proof (process_bulks_command args []) as Hp.
  rewrite app_nil_r in Hp. specialize (Hp Hl Ha).
  eapply process_not_wait_prefix; [done|exact Hl|exact Hp| |exact Hpq|exact Hq].
  intros n. unfold fits. cbn [http redis]. by intros (r & [= <-] & Hr).
Qed.

(** The argument list of a parsed command. *)
Lemma Get_spans args i :
  len (command args) < 2 ^ 32 ->
  Get (mkRedis (command args) (len (command args)) (len args)
         (spans (len (resp_header 42 (len args))) args)) (Z.of_nat i)
  = Ok (args !! i).
Proof using.
  intros Hl. unfold Get. cbn [ai data].
  assert (len (spans (len (resp_header 42 (len args))) args) = len args) as ->
    by (unfold len; by rewrite length_spans).
  destruct (args !! i) as [a|] eqn:Ha.
  2: { apply lookup_ge_None in Ha. destruct (Z.ltb_spec (Z.of_nat i) (len args)); [|done].
       unfold len in *. lia. }
  pose proof (lookup_lt_Some _ _ _ Ha).
  destruct (Z.ltb_spec (Z.of_nat i) (len args)); [|unfold len in *; lia].
  destruct (spans_lookup (resp_header 42 (len args)) _ _ _ Ha) as (u & v & Huv & Hs).
  unfold at_. rewrite bool_decide_true by lia. rewrite Nat2Z.id, Hs. cbn [checked rbind fst snd].
  unfold command in *. rewrite Huv in *. autorewrite with len in Hl.
  pose proof (len_nonneg u). pose proof (len_nonneg a). pose proof (len_nonneg v).
  rewrite u32_small by lia. by rewrite (slice_middle u a v).
Qed.

(** ** Panics *)

Lemma readBulks_no_fuel todo inp r r1 :
  cursor_ok inp r -> readBulks todo inp r <> (r1, OutOfFuel).
Proof using.
  revert r. induction todo as [|todo IH]; intros r Hc; simpl; [done|].
  pose proof (readBulk_outcome inp r Hc) as Ho.
  destruct (readBulk inp r) as [r'|e| |] eqn:Hb; try done; [|by inversion Ho].
  apply IH. by eapply readBulk_cursor.
Qed.

(** A request line that announces a negative length before the buffer. *)
Definition negative_length (inp : bytes) (s : serverReadState) : Prop :=
  s.(stage) = 1 /\ exists r length_ w, s.(redis) = Some r /\
    readByteAndNumberCrLf 36 (drop (Z.to_nat r.(read)) inp) = Ok (length_, w) /\
    r.(read) + w + length_ < 0.

Definition panic_ok (x : step_result) : Prop :=
  let '(inp', s', r) := x in r <> OutOfFuel /\ (r = Panic -> negative_length inp' s').

Lemma process_bulks_panic inp s r :
  s.(stage) = 1 -> s.(redis) = Some r -> cursor_ok inp r -> panic_ok (process_bulks inp s).
Proof using.
  intros Hst Hr Hc. unfold process_bulks. rewrite Hr.
  remember (bulks_todo r) as todo eqn:Ht. clear Ht. revert r Hr Hc.
  assert (forall r, cursor_ok inp r ->
    let (r1, result) := readBulks todo inp r in
    cursor_ok inp r1 /\ (result = Panic -> exists L w,
      readByteAndNumberCrLf 36 (drop (Z.to_nat r1.(read)) inp) = Ok (L, w) /\
      r1.(read) + w + L < 0)) as Hloop.
  { induction todo as [|todo IH]; intros r Hc; simpl; [by split|].
    pose proof (readBulk_outcome inp r Hc) as Ho.
    destruct (readBulk inp r) as [r'|e| |] eqn:Hb; try by split.
    - apply IH. by eapply readBulk_cursor.
    - split; [done|]. intros _. inversion Ho; eauto. }
  intros r Hr Hc. specialize (Hloop r Hc).
  pose proof (readBulks_no_fuel todo inp r) as Hf.
  destruct (readBulks todo inp r) as [r1 result]. destruct Hloop as [Hc1 Hp].
  destruct result as [[]|e| |].
  - unfold slice_to. destruct (slice_is_Some inp 0 r1.(read)) as [d ->];
      [destruct Hc1; lia..|]. by split.
  - by split.
  - split; [done|]. intros _. destruct (Hp eq_refl) as (L & w & ? & ?).
    split; [done|]. exists r1, L, w. by split.
  - by destruct (Hf r1 Hc).
Qed.

Lemma process_body_panic inp s h :
  s.(http) = Some h -> panic_ok (process_body inp s).
Proof using.
  intros Hh. unfold process_body. rewrite Hh. cbn zeta.
  assert (0 <= u32 (h.(hdrLen) + h.(bodyLen))) by (apply Z.mod_pos_bound; lia).
  destruct (Z.ltb_spec (len inp) (u32 (h.(hdrLen) + h.(bodyLen)))); [done|].
  unfold slice_to.
  by destruct (slice_is_Some inp 0 (u32 (h.(hdrLen) + h.(bodyLen)))) as [d ->]; [lia..|].
Qed.

Lemma process_headers_panic inp s :
  max_ok -> s.(http) = Some newHTTP -> panic_ok (process_headers inp s).
Proof using.
  intros Hmax Hh. unfold process_headers.
  destruct (index_of (crlf ++ crlf) inp) as [idx|] eqn:Hi; [|done].
  destruct (header_block_split _ _ Hi) as [Hsl _]. rewrite Hh, Hsl.
  pose proof (parse_safe (take idx inp) Hmax) as Hs.
  destruct (parse _) as [h|e| |]; try done. cbn zeta.
  destruct (h.(bodyLen) =? 0); [done|].
  by apply (process_body_panic _ (mkState 7 s.(redis) (Some h)) h).
Qed.

Lemma process_panic inp s : max_ok -> state_ok inp s -> panic_ok (process inp s).
Proof using.
  intros Hmax [Hl Hs]. unfold process.
  destruct Hs as [Hs|[(Hs & r & Hr & Hc)|[(Hs & Hh)|(Hs & h & Hh & _)]]]; rewrite Hs.
  - destruct (readHeader_cases 42 ltac:(done) inp) as [H'|[H'|[[e H']|(v & w & H' & Hwb & _)]]];
      rewrite H'; [done|by apply process_headers_panic|done|].
    destruct (w =? 0); [by apply process_headers_panic|].
    destruct (65535 <? v); [done|]. eapply process_bulks_panic; [done|done|].
    unfold cursor_ok. cbn [read]. rewrite u32_small by lia. lia.
  - by eapply process_bulks_panic.
  - by apply process_headers_panic.
  - by eapply process_body_panic.
Qed.

(** The buffer keeps its length. *)
Lemma process_length inp s :
  max_ok -> state_ok inp s -> length (process inp s).1.1 = length inp.
Proof using.
  intros Hmax [Hl Hs]. unfold process.
  assert (forall s', s'.(http) = Some newHTTP -> length (process_headers inp s').1.1 = length inp) as Hh6.
  { intros s' Hh. unfold process_headers.
    destruct (index_of (crlf ++ crlf) inp) as [idx|] eqn:Hi; [|done].
    destruct (header_block_split _ _ Hi) as [Hsl Hsp]. rewrite Hh, Hsl.
    destruct (parse _) as [h|e| |] eqn:Hp; try done. cbn zeta.
    destruct (parse_Ok_facts _ _ Hmax Hp) as (Hlen & _).
    assert (length (h.(data) ++ drop (idx + 4) inp) = length inp) as E.
    { rewrite (f_equal length Hsp), !length_app, Hlen, !length_app. lia. }
    destruct (h.(bodyLen) =? 0); [done|]. unfold process_body. cbn [http].
    destruct (_ <? _); [done|]. destruct (slice_to (_ ++ _) _); exact E. }
  assert (forall s', length (process_bulks inp s').1.1 = length inp) as Hb.
  { intros s'. unfold process_bulks. destruct s'.(redis); [|done].
    destruct (readBulks _ _ _) as [r1 []]; try done. by destruct (slice_to _ _). }
  assert (forall s', length (process_body inp s').1.1 = length inp) as H7.
  { intros s'. unfold process_body. destruct s'.(http); [|done]. cbn zeta.
    destruct (_ <? _); [done|]. by destruct (slice_to _ _). }
  destruct Hs as [Hs|[(Hs & _)|[(Hs & Hh)|(Hs & _)]]]; rewrite Hs; auto.
  destruct (readByteAndNumberCrLf 42 inp) as [[num w]|e| |]; try done.
  destruct (w =? 0); [by apply Hh6|]. destruct (65535 <? num); [done|]. apply Hb.
Qed.

(** ** Requests with a body *)

Lemma request_not_command method target ver hs t :
  request_ok method target ver hs -> prefixb [42] method = false ->
  readByteAndNumberCrLf 42 (request method target ver hs ++ t) = Ok (0, 0).
Proof using.
  intros Hok Hm. unfold readByteAndNumberCrLf.
  assert (4 <= len (request method target ver hs ++ t)).
  { unfold request, request_line, header_block. autorewrite with len.
    change (len crlf) with 2. pose proof (len_nonneg method). pose proof (len_nonneg target).
    pose proof (len_nonneg ver). pose proof (len_nonneg (concat (header_line <$> hs))).
    pose proof (len_nonneg t). lia. }
  destruct (Z.ltb_spec (len (request method target ver hs ++ t)) 4); [lia|].
  assert (exists c u, c <> 42 /\ request method target ver hs ++ t = c :: u) as (c & u & Hc & ->).
  { destruct method as [|c method]; [by exists SP; eexists|]. exists c. eexists.
    split; [|done]. cbn [prefixb] in Hm. destruct (Z.eqb_spec 42 c); [done|congruence]. }
  change (at_ (c :: u) 0) with (Some c). cbn [checked rbind].
  destruct (Z.eqb_spec c 42); [congruence|done].
Qed.

Lemma process_request method target ver hs out body rest :
  let rq := request method target ver hs in
  let path := target_path target in
  request_ok method target ver hs -> prefixb [42] method = false ->
  unesc false path path = 47 :: out ->
  default 0 ((fun v => (strconv.Atoi v).1) <$> last_value (bs "content-length") hs) = len body ->
  len (rq ++ body) < 2 ^ 32 ->
  exists r, parse (set_data rq newHTTP) = Ok r /\
    len r.(data) = len rq /\ r.(bodyLen) = len body /\ r.(hdrLen) = len rq /\
    let d := r.(data) ++ body in
    process (rq ++ body ++ rest) newState
    = (d ++ rest,
       mkState (if decide (body = []) then 8 else 999) None (Some (set_data d r)), Ok tt).
Proof using.
  intros rq path Hok Hm Hout Hcl Hl.
  pose proof (parse_request_eq method target ver hs Hok) as Hp. cbn zeta in Hp.
  fold path rq in Hp. rewrite Hout in Hp. specialize (Hp eq_refl).
  eexists. split; [exact Hp|]. set (r0 := set_Path _ _) in *.
  set (r := set_data _ (foldl _ _ _)) in *.
  destruct (foldl_apply_header_fields r0 hs) as (_ & Eb & _ & _ & _ & _ & Eh).
  assert (r.(bodyLen) = len body) as Hb.
  { unfold r. cbn [set_data bodyLen]. rewrite Eb, <- Hcl. unfold r0, query_of.
    by destruct (last_value _ hs), (index_byte 63 target). }
  assert (r.(hdrLen) = len rq) as Hh.
  { unfold r. cbn [set_data hdrLen]. rewrite Eh. unfold r0, query_of.
    by destruct (index_byte 63 target). }
  assert (len rq < 2 ^ 32) as Hrq by (rewrite len_app in Hl; pose proof (len_nonneg body); lia).
  pose proof (index_empty_line_request method target ver hs [] Hok) as Hi.
  pose proof (index_of_bound _ _ _ Hi) as Hlen. rewrite app_nil_r in Hi, Hlen. fold rq in Hi, Hlen.
  change (length (crlf ++ crlf)) with 4%nat in Hlen.
  destruct (header_block_split _ _ Hi) as [_ Hsplit].
  replace (length rq - 4 + 4)%nat with (length rq) in Hsplit by lia.
  rewrite drop_all, app_nil_r in Hsplit.
  assert (len r.(data) = len rq) as Hd.
  { pose proof Hp as Hp'. rewrite Hsplit in Hp'.
    destruct (parse_Ok_facts _ _ (ok_max _ _ _ _ Hok) Hp') as [E _].
    rewrite <- Hsplit in E. unfold len. by rewrite E. }
  split_and!; [done..|]. cbn zeta. unfold process. cbn [stage newState].
  unfold rq. rewrite (request_not_command _ _ _ _ _ Hok Hm). cbn [Z.eqb].
  unfold process_headers. rewrite (index_empty_line_request _ _ _ _ _ Hok). fold rq. cbn [http].
  replace (length rq - 4 + 4)%nat with (length rq) by lia.
  unfold slice_to. rewrite slice_prefix by done. rewrite Hp. cbn zeta.
  rewrite drop_app_length, Hb. case_decide as Hbody.
  - subst body. cbn [len length Z.of_nat Z.eqb app]. rewrite app_nil_r.
    replace (set_data r.(data) r) with r by by destruct r. done.
  - destruct (Z.eqb_spec (len body) 0) as [E|_]; [by apply len_0_inv in E|].
    unfold process_body. cbn [http redis]. rewrite Hb, Hh.
    rewrite !len_app in *. pose proof (len_nonneg body). pose proof (len_nonneg rest).
    pose proof (len_nonneg rq).
    rewrite u32_small, Hd by lia. cbn zeta.
    destruct (Z.ltb_spec (len rq + (len body + len rest)) (len rq + len body)); [lia|].
    unfold slice_to. rewrite app_assoc, slice_prefix by (rewrite len_app; lia). done.
Qed.

Lemma request_not_wait_prefix method target ver hs out body p q :
  let rq := request method target ver hs in
  let path := target_path target in
  request_ok method target ver hs -> prefixb [42] method = false ->
  unesc false path path = 47 :: out ->
  default 0 ((fun v => (strconv.Atoi v).1) <$> last_value (bs "content-length") hs) = len body ->
  len (rq ++ body) < 2 ^ 32 -> rq ++ body = p ++ q -> q <> [] ->
  (process p newState).2 = Err errWaitMore.
Proof using.
  intros rq path Hok Hm Hout Hcl Hl Hpq Hq.
  destruct (process_request method target ver hs out body [] Hok Hm Hout Hcl Hl) as (r & _ & Hd & _ & _ & Hp).
  rewrite !app_nil_r in Hp.
  eapply process_not_wait_prefix; [by eapply ok_max|exact Hl|exact Hp| |exact Hpq|exact Hq].
  intros n. unfold fits. cbn [http set_data data]. fold rq in Hd. rewrite !len_app. lia.
Qed.

(** A command whose first argument has a negative length. *)
Lemma process_negative_length n rest :
  let inp := resp_header 42 1 ++ resp_header 36 (- n) in
  len inp < n <= 2 ^ 63 -> len (inp ++ rest) < 2 ^ 32 ->
  (process (inp ++ rest) newState).2 = Panic.
Proof using.
  intros inp Hn Hl. unfold process. cbn [stage newState].
  assert (inp ++ rest = resp_header 42 1 ++ resp_header 36 (- n) ++ rest) as E
    by (unfold inp; by app_norm).
  rewrite E, (readHeader_resp_header 42 ltac:(done) 1)
    by (unfold strconv.minInt64, strconv.maxInt64; lia).
  change (len (resp_header 42 1)) with 4. cbn [Z.eqb Z.ltb Z.compare].
  unfold process_bulks. cbn [redis]. change (u32 4) with 4. change (u16 1) with 1.
  change (bulks_todo (mkRedis [] 4 1 [])) with 1%nat. cbn [readBulks].
  rewrite <- E. set (x := inp ++ rest) in *.
  assert (cursor_ok x (mkRedis [] 4 1 [])) as Hc.
  { unfold cursor_ok. cbn [read]. split; [|done]. rewrite E, !len_app.
    change (len (resp_header 42 1)) with 4. pose proof (len_nonneg rest).
    pose proof (len_resp_header 36 (- n)). lia. }
  rewrite (readBulk_negative x (mkRedis [] 4 1 []) (- n) (len (resp_header 36 (- n))) Hc); [done|..].
  - cbn [read]. rewrite E. change (Z.to_nat 4) with (length (resp_header 42 1)).
    rewrite drop_app_length. apply readHeader_resp_header; [done|].
    pose proof (len_nonneg inp). unfold strconv.minInt64, strconv.maxInt64. lia.
  - cbn [read]. unfold inp in Hn. rewrite len_app in Hn.
    change (len (resp_header 42 1)) with 4 in Hn. lia.
Qed.
End process.
