(* ===== verification/StateSpec.v ===== *)
(** What the incremental reader guarantees (src/state.go): commands and requests
    are read whatever the chunks they arrive in, and what can go wrong. *)

From S2P Require Import Prelude GoStd Escape Util Redis Http HttpSpec State.

Section properties.
Context `{Env}.

(** C18: a command of up to 65535 arguments is read back from its RESP encoding:
    the request takes exactly the bytes of the command, whatever follows them,
    and [Get(i)] answers the i-th argument ([nil] past the end). *)
Theorem process_command args rest :
  len (command args ++ rest) < 2 ^ 32 -> len args <= 65535 ->
  exists r,
    process (command args ++ rest) newState
    = (command args ++ rest, mkState 999 (Some r) None, Ok tt) /\
    r.(read) = len (command args) /\ Len r = len args /\
    forall i : nat, Get r (Z.of_nat i) = Ok (args !! i).
Proof.
  intros Hl Ha. eexists. split; [by apply process_bulks_command|].
  split_and!; [done|unfold Len; cbn [ai]; unfold len; by rewrite length_spans|].
  intros i. apply Get_spans. rewrite len_app in Hl. pose proof (len_nonneg rest). lia.
Qed.

(** C3: chunk independence.  Feeding the bytes of a connection in any chunks,
    with [process] called after each as [readConn] does, ends with the state,
    the buffer and the answer of one call on all the bytes at once. *)
Theorem process_chunks c chunks :
  max_ok -> len (concat (c :: chunks)) < 2 ^ 32 ->
  feed [] newState (c :: chunks) = process (concat (c :: chunks)) newState.
Proof. intros Hmax Hl. apply (feed_process [] newState c chunks Hmax); [by split; [|left]|done]. Qed.

(** a strict prefix of a command is never taken for a command or refused:
    the answer is "wait for more", and the rest then completes it. *)
Theorem process_command_prefix args p q :
  len (command args) < 2 ^ 32 -> len args <= 65535 -> max_ok ->
  command args = p ++ q -> q <> [] ->
  exists p' s, process p newState = (p', s, Err errWaitMore) /\
    process (p' ++ q) s = process (command args) newState.
Proof.
  intros Hl Ha Hmax Hpq Hq.
  pose proof (command_not_wait_prefix args p q Hl Ha Hmax Hpq Hq) as Hw.
  assert (state_ok p newState) as Hs.
  { split; [|by left]. rewrite Hpq, len_app in Hl. pose proof (len_nonneg q). lia. }
  pose proof (process_resumes p q newState Hmax Hs) as Hr. rewrite <- Hpq in Hr.
  specialize (Hr Hl). unfold resumes in Hr.
  destruct (process p newState) as [[p' s] r]. cbn [snd] in Hw. subst r.
  rewrite decide_True in Hr by done. destruct Hr as [-> _]. eauto.
Qed.

(** The request [r] is what a client asked for. *)
Record asks_for (method path : bytes) (hs : list (bytes * bytes)) (body : bytes) (r : HTTP) : Prop := {
  af_path : r.(Path) = path;
  af_body : Body r = Ok body;
  af_method : exists r', Method r = Ok (r', ascii_upper <$> method);
  af_header name : GetHeader r name = Ok (default [] (first_value name hs));
}.

Lemma process_asks_for method target ver hs out body rest :
  let rq := request method target ver hs in
  request_ok method target ver hs -> prefixb [42] method = false ->
  decode false (target_path target) = Some (47 :: out) -> (CR ∉ out) ->
  default 0 ((fun v => (strconv.Atoi v).1) <$> last_value (bs "content-length") hs) = len body ->
  len (rq ++ body) < 2 ^ 32 ->
  exists inp' r,
    process (rq ++ body ++ rest) newState
    = (inp' ++ rest, mkState (if decide (body = []) then 8 else 999) None (Some r), Ok tt) /\
    r.(data) = inp' /\ len inp' = len (rq ++ body) /\ r.(bodyLen) + r.(hdrLen) = len (rq ++ body) /\
    asks_for method (47 :: out) hs body r.
Proof.
  intros rq Hok Hm Hout HC Hcl Hl.
  pose proof (decoded_unesc target (47 :: out) Hout) as Hun.
  destruct (process_request method target ver hs out body rest Hok Hm Hun Hcl Hl)
    as (r & Hp & Hd & Hb & Hh & Hpr).
  eexists _, _. split; [exact Hpr|]. fold rq in Hp, Hd, Hh.
  pose proof Hp as Hp'. unfold rq in Hp'.
  rewrite parse_request_eq in Hp' by (done || by rewrite Hun). injection Hp' as Hr.
  rewrite Hun in Hr.
  set (r0 := set_Path _ _) in Hr.
  destruct (foldl_apply_header_fields r0 hs) as (_ & _ & _ & Epath & _).
  set (r1 := foldl _ r0 hs) in *.
  assert (r.(data) = request method ((47 :: out) ++ drop (length (47%Z :: out)) target) ver
                       (lower_name <$> hs)) as Hrd by (by rewrite <- Hr).
  split_and!; [done|rewrite !len_app; lia|cbn; rewrite len_app; lia|]. split.
  - rewrite <- Hr. cbn [set_data Path]. by rewrite Epath.
  - unfold Body. cbn [set_data data bodyLen]. rewrite Hb, slice_suffix; [done|].
    rewrite len_app. lia.
  - unfold Method. cbn [set_data data]. rewrite Hrd. unfold request, request_line.
    rewrite <- (app_assoc method). cbn [app]. rewrite <- (app_assoc method). cbn [app].
    destruct Hok as [[HmS _] _ _ _ _ _ _].
    rewrite index_byte_app by done. unfold slice_to. rewrite slice_prefix by done.
    cbn [checked rbind]. eexists. by rewrite upper_ascii.
  - intros name. destruct Hok as [[_ HmC] [HtC _] [_ HvC] Hhs _ _ _].
    eapply GetHeader_request; [exact Hhs| |cbn [set_data data]; by rewrite Hrd].
    apply CR_request_line; [done| |done].
    rewrite elem_of_app, elem_of_cons. intros [[E|?]|Hin]; [by vm_compute in E|done|].
    apply HtC. rewrite <- (take_drop (length (47%Z :: out)) target). apply elem_of_app. by right.
Qed.

(** C15: a well-formed request and its body are read whatever follows them: the
    state is final, the path is the decoded target, [Body] answers the bytes
    that the content length counts, [Method] the method in upper case and
    [GetHeader] the first header of a name. *)
Theorem process_http_request method target ver hs out body rest :
  let rq := request method target ver hs in
  request_ok method target ver hs -> prefixb [42] method = false ->
  decode false (target_path target) = Some (47 :: out) -> (CR ∉ out) ->
  default 0 ((fun v => (strconv.Atoi v).1) <$> last_value (bs "content-length") hs) = len body ->
  len (rq ++ body) < 2 ^ 32 ->
  exists inp' r,
    process (rq ++ body ++ rest) newState
    = (inp' ++ rest, mkState (if decide (body = []) then 8 else 999) None (Some r), Ok tt) /\
    r.(data) = inp' /\ len inp' = len (rq ++ body) /\ asks_for method (47 :: out) hs body r.
Proof.
  intros rq Hok Hm Hout HC Hcl Hl.
  destruct (process_asks_for method target ver hs out body rest Hok Hm Hout HC Hcl Hl)
    as (inp' & r & ? & ? & ? & _ & ?). exists inp', r. done.
Qed.

(** C24: what can panic.  From any state that [process] leaves while waiting,
    it ends, and it panics only while reading the arguments of a command, at an
    argument that announces a negative length reaching back before the buffer;
    HTTP input cannot make it panic. *)
Theorem process_panics_only inp s :
  max_ok -> state_ok inp s ->
  let '(inp', s', r) := process inp s in
  r <> OutOfFuel /\ (r = Panic -> negative_length inp' s').
Proof. apply process_panic. Qed.

(** a negative argument count is not refused: the header [*-n] starts a
    command of [65536 - n] arguments. *)
Theorem process_negative_count n :
  1 <= n <= 65535 ->
  let inp := resp_header 42 (- n) in
  process inp newState
  = (inp, mkState 1 (Some (mkRedis [] (len inp) (65536 - n) [])) None, Err errWaitMore).
Proof.
  intros Hn inp. unfold process. cbn [stage newState].
  pose proof (readHeader_resp_header 42 ltac:(done) (- n) []) as Hh.
  rewrite app_nil_r in Hh. fold inp in Hh.
  rewrite Hh by (unfold strconv.minInt64, strconv.maxInt64; lia).
  pose proof (len_resp_header 42 (- n)) as Hl. fold inp in Hl.
  assert (len inp < 2 ^ 32) as Hl2.
  { assert (length (strconv.FormatInt 10 (- n)) <= 65)%nat
      by (apply strconv.FormatInt_length; unfold strconv.minInt64, strconv.maxInt64; lia).
    unfold inp, resp_header. autorewrite with len. change (len crlf) with 2. unfold len. lia. }
  destruct (Z.eqb_spec (len inp) 0); [lia|]. destruct (Z.ltb_spec 65535 (- n)); [lia|].
  rewrite u32_small by lia.
  assert (u16 (- n) = 65536 - n) as ->.
  { unfold u16. symmetry. apply (Z.mod_unique _ _ (-1)); lia. }
  unfold process_bulks. cbn [redis]. unfold bulks_todo. cbn [nargs ai].
  destruct (Z.to_nat (65536 - n - len [])) as [|k] eqn:Ek; [rewrite len_nil in Ek; lia|].
  cbn [readBulks]. unfold readBulk at 1. cbn [read].
  pose proof (slice_suffix inp [] (len inp) eq_refl) as Hs. rewrite app_nil_r in Hs.
  by rewrite Hs.
Qed.
End properties.

(** ** Witnesses *)

Definition ex_command : list bytes := [bs "SET"; bs "key"; CR :: LF :: bs "$1"; []].

Lemma max_ok_default : @max_ok default_env.
Proof. by vm_compute. Qed.

Lemma process_command_witness :
  exists r, @process default_env (command ex_command ++ bs "*1") newState
            = (command ex_command ++ bs "*1", mkState 999 (Some r) None, Ok tt) /\
    r.(read) = 38 /\ Len r = 4 /\ forall i : nat, Get r (Z.of_nat i) = Ok (ex_command !! i).
Proof. apply (@process_command default_env ex_command (bs "*1")); by vm_compute. Defined.

Lemma process_chunks_witness :
  @feed default_env [] newState [bs "*1" ++ crlf ++ bs "$"; bs "3" ++ crlf ++ bs "foo"; crlf; bs "x"]
  = @process default_env (command [bs "foo"] ++ bs "x") newState.
Proof.
  apply (@process_chunks default_env (bs "*1" ++ crlf ++ bs "$")
           [bs "3" ++ crlf ++ bs "foo"; crlf; bs "x"] max_ok_default).
  by vm_compute.
Defined.

Lemma process_command_prefix_witness :
  exists p' s, @process default_env (bs "*1" ++ crlf ++ bs "$3" ++ crlf ++ bs "fo") newState
               = (p', s, Err errWaitMore) /\
    @process default_env (p' ++ bs "o" ++ crlf) s = @process default_env (command [bs "foo"]) newState.
Proof.
  apply (@process_command_prefix default_env [bs "foo"]
           (bs "*1" ++ crlf ++ bs "$3" ++ crlf ++ bs "fo") (bs "o" ++ crlf)); try by vm_compute.
Defined.

Lemma process_http_request_witness :
  let rq := request (bs "Post") (bs "/p%20q?x=1") (bs "HTTP/1.1") ex_headers in
  exists inp' r,
    @process default_env (rq ++ bs "ok" ++ bs "GET") newState
    = (inp' ++ bs "GET", mkState 999 None (Some r), Ok tt) /\
    r.(data) = inp' /\ len inp' = len (rq ++ bs "ok") /\
    asks_for (bs "Post") (bs "/p q") ex_headers (bs "ok") r.
Proof.
  apply (@process_http_request default_env (bs "Post") (bs "/p%20q?x=1") (bs "HTTP/1.1") ex_headers
           (bs "p q") (bs "ok") (bs "GET")); try by vm_compute.
  - apply ex_request_ok; [compute_done|compute_done|by vm_compute].
  - compute_done.
Defined.

Lemma process_panics_only_witness :
  let '(inp', s', r) := @process default_env (bs "*1" ++ crlf ++ bs "$-12" ++ crlf) newState in
  r <> OutOfFuel /\ (r = Panic -> negative_length inp' s').
Proof.
  apply (@process_panics_only default_env (bs "*1" ++ crlf ++ bs "$-12" ++ crlf) newState
           max_ok_default).
  split; [by vm_compute|by left].
Defined.

Lemma process_negative_count_witness :
  @process default_env (bs "*-1" ++ crlf) newState
  = (bs "*-1" ++ crlf, mkState 1 (Some (mkRedis [] 5 65535 [])) None, Err errWaitMore).
Proof. apply (@process_negative_count default_env 1). lia. Defined.
