(* ===== verification/GoMem.v ===== *)
(** Slices of Go as what they are: windows on arrays that they share.

    Elsewhere a slice of bytes is the list of its bytes.  Here it is an array, an offset,
    a length and a capacity, and [append] writes into the array of its argument while
    that has room and moves to a new one when it has not. *)

From S2P Require Import Prelude.

(** The arrays, a slice, and a part of an array. *)
Abbreviation memory := (list bytes).
Record gslice := mkSlice { arr : nat; off : nat; slen : nat; scap : nat }.
Record region := mkRegion { rarr : nat; roff : nat; rlen : nat }.

Definition view (h : memory) (s : gslice) : bytes := take s.(slen) (drop s.(off) (default [] (h !! s.(arr)))).

(** Its contents, and all that [append] may write to. *)
Definition contents (s : gslice) : region := mkRegion s.(arr) s.(off) s.(slen).
Definition room (s : gslice) : region := mkRegion s.(arr) s.(off) s.(scap).

Definition apart (r t : region) : Prop :=
  r.(rarr) <> t.(rarr) \/ (r.(roff) + r.(rlen) <= t.(roff))%nat \/ (t.(roff) + t.(rlen) <= r.(roff))%nat.

Definition valid (h : memory) (s : gslice) : Prop :=
  (s.(slen) <= s.(scap))%nat /\ exists a, h !! s.(arr) = Some a /\ (s.(off) + s.(scap) <= length a)%nat.

(** Writing [p] to the array of [s] from the position [i] of [s] on. *)
Definition put (h : memory) (s : gslice) (i : nat) (p : bytes) : memory :=
  alter (fun a => overwrite a (s.(off) + i) p) s.(arr) h.

Definition sub_from (s : gslice) (k : nat) : gslice :=
  mkSlice s.(arr) (s.(off) + k) (s.(slen) - k) (s.(scap) - k).
Definition sub_to (s : gslice) (k : nat) : gslice := mkSlice s.(arr) s.(off) k s.(scap).

(** [append(s, p...)]; [grow] is the capacity that the runtime chooses for a new array,
    from the old one and the length needed. *)
Definition append (grow : nat -> nat -> nat) (h : memory) (s : gslice) (p : bytes) : memory * gslice :=
  let n := (s.(slen) + length p)%nat in
  if decide (n <= s.(scap))%nat then (put h s s.(slen) p, mkSlice s.(arr) s.(off) n s.(scap))
  else
    let c := Nat.max n (grow s.(scap) n) in
    (h ++ [view h s ++ p ++ replicate (c - n) 0], mkSlice (length h) 0 n c).

(** ** Lemmas *)

Lemma valid_lookup h s : valid h s -> (s.(arr) < length h)%nat.
Proof. intros (_ & a & Ha & _). by apply lookup_lt_Some in Ha. Qed.

Lemma view_length h s : valid h s -> length (view h s) = s.(slen).
Proof.
  intros (Hl & a & Ha & Hb). unfold view. rewrite Ha. cbn. rewrite length_take, length_drop. lia.
Qed.

Lemma put_lookup h s i p a :
  (put h s i p) !! a = if decide (a = s.(arr)) then (fun x => overwrite x (s.(off) + i) p) <$> h !! a else h !! a.
Proof.
  unfold put. case_decide as E; [subst a; by rewrite list_lookup_alter_eq|]. by rewrite list_lookup_alter_ne.
Qed.

Lemma put_length h s i p : length (put h s i p) = length h.
Proof. apply length_alter. Qed.

Lemma put_valid h s i p t :
  valid h s -> (i + length p <= s.(scap))%nat -> valid h t -> valid (put h s i p) t.
Proof.
  intros (_ & a & Ha & Hb) Hp (Hl & b & Eb & Hb'). split; [done|]. rewrite put_lookup, Eb. case_decide as E.
  - rewrite E, Ha in Eb. injection Eb as <-. cbn. eexists. split; [done|]. by rewrite length_overwrite by lia.
  - by exists b.
Qed.

(** What is put somewhere else does not change a slice. *)
Lemma put_view h s i p t :
  valid h s -> (i + length p <= s.(scap))%nat ->
  apart (mkRegion s.(arr) (s.(off) + i) (length p)) (contents t) -> view (put h s i p) t = view h t.
Proof.
  intros (_ & a & Ha & Hb) Hp Hap. unfold view. rewrite put_lookup. case_decide as E; [|done].
  rewrite E, Ha. cbn. destruct Hap as [Hap|[Hap|Hap]]; cbn in Hap; [congruence| |].
  - rewrite drop_overwrite by lia. done.
  - rewrite !firstn_skipn_comm. f_equal. unfold overwrite.
    rewrite take_app_le by (rewrite length_take; lia). rewrite take_take. f_equal. lia.
Qed.

Lemma put_view_same h s p : valid h s -> length p = s.(slen) -> view (put h s 0 p) s = p.
Proof.
  intros (Hl & a & Ha & Hb) Hp. unfold view. rewrite put_lookup, decide_True, Ha by done. cbn. unfold overwrite.
  rewrite Nat.add_0_r, drop_app_length' by (rewrite length_take; lia). by rewrite take_app_length'.
Qed.

(** [append] *)
Section append.
Context (grow : nat -> nat -> nat) (h : memory) (s : gslice) (p : bytes).
Hypothesis Hs : valid h s.

Lemma append_valid : valid (append grow h s p).1 (append grow h s p).2.
Proof using Hs.
  pose proof (view_length h s Hs) as Hv. unfold append. cbn zeta. case_decide as E; cbn [fst snd].
  - destruct Hs as (_ & a & Ha & Hb). split; [done|]. cbn [arr off scap]. rewrite put_lookup, decide_True, Ha by done. cbn.
    eexists. split; [done|]. rewrite length_overwrite by lia. lia.
  - split; [cbn; lia|]. cbn [arr off scap]. rewrite list_lookup_middle by done. eexists. split; [done|].
    rewrite !length_app, length_replicate, Hv. lia.
Qed.

Lemma append_view : view (append grow h s p).1 (append grow h s p).2 = view h s ++ p.
Proof using Hs.
  pose proof (view_length h s Hs) as Hv. unfold append. cbn zeta. case_decide as E; cbn [fst snd].
  - destruct Hs as (_ & a & Ha & Hb). unfold view. cbn [arr off slen]. rewrite put_lookup, decide_True, Ha by done. cbn.
    rewrite firstn_skipn_comm. unfold overwrite. rewrite (app_assoc (take _ a)).
    rewrite take_app_length' by (rewrite length_app, length_take; lia).
    rewrite drop_app_le by (rewrite length_take; lia). by rewrite <- firstn_skipn_comm.
  - unfold view at 1. cbn [arr off slen]. rewrite list_lookup_middle by done. cbn [default id]. rewrite drop_0, app_assoc.
    rewrite take_app_length' by (rewrite length_app; lia). done.
Qed.

Lemma append_keeps_valid t : valid h t -> valid (append grow h s p).1 t.
Proof using Hs.
  intros Ht. unfold append. cbn zeta. case_decide as E; cbn [fst]; [by apply put_valid|].
  pose proof (valid_lookup h t Ht). destruct Ht as (? & b & ? & ?). split; [done|].
  rewrite lookup_app_l by done. by exists b.
Qed.

(** Nothing else changes that [append] may not write to. *)
Lemma append_frame t :
  valid h t -> apart (room s) (contents t) ->
  view (append grow h s p).1 t = view h t /\
  apart (room (append grow h s p).2) (contents t).
Proof using Hs.
  intros Ht Ha. unfold append. cbn zeta. case_decide as E; cbn [fst snd].
  - split; [|done]. apply put_view; [done..|].
    destruct Ha as [?|[?|?]]; [by left|right; left|right; right]; cbn in *; lia.
  - pose proof (valid_lookup h t Ht) as Hlt. split.
    + unfold view. by rewrite lookup_app_l.
    + left. cbn. lia.
Qed.
End append.

Lemma sub_from_valid h s k : valid h s -> (k <= s.(slen))%nat -> valid h (sub_from s k).
Proof. intros (? & a & ? & ?) Hk. split; cbn; [lia|]. exists a. split; [done|lia]. Qed.

Lemma sub_to_valid h s k : valid h s -> (k <= s.(slen))%nat -> valid h (sub_to s k).
Proof. intros (? & a & ? & ?) Hk. split; cbn; [lia|]. by exists a. Qed.

Lemma sub_from_view h s k : (k <= s.(slen))%nat -> view h (sub_from s k) = drop k (view h s).
Proof.
  intros Hk. unfold view. cbn. rewrite skipn_firstn_comm. by rewrite drop_drop.
Qed.

Lemma sub_to_view h s k : (k <= s.(slen))%nat -> view h (sub_to s k) = take k (view h s).
Proof. intros Hk. unfold view. cbn. rewrite take_take. f_equal. lia. Qed.

(** A slice is cut in two: what is appended behind does not meet what is in front. *)
Lemma sub_apart s k : (k <= s.(slen))%nat -> apart (room (sub_from s k)) (contents (sub_to s k)).
Proof. intros Hk. right. right. cbn. lia. Qed.

Lemma apart_sub_from s k r : (k <= s.(scap))%nat -> apart (room s) r -> apart (room (sub_from s k)) r.
Proof. intros Hk [?|[?|?]]; [by left|right; left|right; right]; cbn in *; lia. Qed.

Lemma apart_sub_to s k r : (k <= s.(scap))%nat -> apart (room s) r -> apart (contents (sub_to s k)) r.
Proof. intros Hk [?|[?|?]]; [by left|right; left|right; right]; cbn in *; lia. Qed.

Lemma apart_sym r t : apart r t -> apart t r.
Proof. intros [?|[?|?]]; [by left|right; right|right; left]; done. Qed.
