(* ===== verification/ConnMem.v ===== *)
(** The memory of a connection's input (src/conn.go, src/server.go, src/state.go): a
    request is a window on the buffer that the next bytes are appended to.

    [Server] has the input and the requests as values.  Here they are slices of shared
    arrays ([GoMem]): what is read is appended to [c.in], the parser rewrites it in
    place, [data] of a request is the front of it, [truncateInputBuffer] cuts that off,
    handlers keep the request for as long as they like, and [Release] makes the input
    start over in the memory of a request.  The theorem says when the values are right
    all the same. *)

From stdpp Require Import gmap.
From S2P Require Import Prelude GoStd Escape Util Redis Http HttpSpec State StateSpec GoMem.

Section input.
Context `{Env} (grow : nat -> nat -> nat).

(** How much of the input a request takes, and its field [data]. *)
Definition request_size (s : serverReadState) : option Z :=
  match s.(http) with
  | Some r => Some (r.(bodyLen) + r.(hdrLen))
  | None => Redis.read <$> s.(redis)
  end.
Definition request_data (s : serverReadState) : option bytes :=
  match s.(http) with
  | Some r => Some r.(Http.data)
  | None => Redis.data <$> s.(redis)
  end.

(** What happens: bytes are read, of which the request [id] may come; a handler writes
    into its request (as iterating over the query does); it has read it for the last
    time; [Release]. *)
Inductive mem_op :=
| MRead (id : nat) (d : bytes)
| MRewrite (id : nat) (b : bytes)
| MDone (id : nat)
| MRelease (id : nat).

(** ** As values *)

(** [uses]: the requests that handlers still read; [seen]: all there were; [reused]: the
    input has started over in the memory of a request while some were in use. *)
Record conn_val := mkVal {
  vin : bytes;
  vsrs : serverReadState;
  uses : gmap nat bytes;
  seen : gset nat;
  reused : bool;
}.

(** [None]: it does not happen, or the connection is closed. *)
Definition vstep (o : mem_op) (v : conn_val) : option conn_val :=
  match o with
  | MRead id d =>
      if decide (id ∈ v.(seen) \/ (v.(reused) = true /\ v.(uses) <> ∅)) then None
      else
        let b := v.(vin) ++ d in
        if RequestMaxBytes <? len b then None
        else
          let '(inp, s, r) := process b v.(vsrs) in
          match r with
          | Ok _ =>
              sz ← request_size s; dat ← request_data s; rest ← slice_from inp sz;
              Some (mkVal rest newState (<[id := dat]> v.(uses)) ({[id]} ∪ v.(seen)) false)
          | Err e => if decide (e = errWaitMore) then Some (mkVal inp s v.(uses) v.(seen) false) else None
          | _ => None
          end
  | MRewrite id b =>
      old ← v.(uses) !! id;
      if decide (length b = length old)
      then Some (mkVal v.(vin) v.(vsrs) (<[id := b]> v.(uses)) v.(seen) v.(reused)) else None
  | MDone id => Some (mkVal v.(vin) v.(vsrs) (delete id v.(uses)) v.(seen) v.(reused))
  | MRelease id =>
      if decide (id ∈ v.(seen)) then
        Some (mkVal v.(vin) v.(vsrs) v.(uses) v.(seen)
                (if decide (v.(vin) = []) then bool_decide (v.(uses) <> ∅) else v.(reused)))
      else None
  end.

(** ** In memory *)

Record conn_mem := mkMem {
  heap : memory;
  cin : gslice;
  msrs : serverReadState;
  reqs : gmap nat gslice;
}.

Definition mstep (o : mem_op) (m : conn_mem) : option conn_mem :=
  match o with
  | MRead id d =>
      let (h, c) := append grow m.(heap) m.(cin) d in
      if RequestMaxBytes <? Z.of_nat c.(slen) then None
      else
        let '(inp, s, r) := process (view h c) m.(msrs) in
        let h := put h c 0 inp in
        match r with
        | Ok _ =>
            sz ← request_size s; dat ← request_data s;
            if decide (0 <= sz <= Z.of_nat c.(slen)) then
              Some (mkMem h (sub_from c (Z.to_nat sz)) newState (<[id := sub_to c (length dat)]> m.(reqs)))
            else None
        | Err e => if decide (e = errWaitMore) then Some (mkMem h c s m.(reqs)) else None
        | _ => None
        end
  | MRewrite id b =>
      d ← m.(reqs) !! id;
      Some (mkMem (put m.(heap) d 0 b) m.(cin) m.(msrs) m.(reqs))
  | MDone _ => Some m
  | MRelease id =>
      d ← m.(reqs) !! id;
      Some (if decide (m.(cin).(slen) = 0%nat) then mkMem m.(heap) (sub_to d 0) m.(msrs) m.(reqs) else m)
  end.

Definition mrun (l : list mem_op) (m : conn_mem) : option conn_mem :=
  foldl (fun o a => m ← o; mstep a m) (Some m) l.
Definition vrun (l : list mem_op) (v : conn_val) : option conn_val :=
  foldl (fun o a => v ← o; vstep a v) (Some v) l.

(** A new connection: its input is [nil], a slice of no room. *)
Definition new_mem : conn_mem := mkMem [[]] (mkSlice 0 0 0 0) newState ∅.
Definition new_val : conn_val := mkVal [] newState ∅ ∅ false.

(** ** The request is what is cut off *)

Definition no_http (s : serverReadState) : Prop := s.(stage) = 0 \/ s.(stage) = 1 -> s.(http) = None.

Lemma process_takes inp s inp' s' sz dat :
  max_ok -> state_ok inp s -> no_http s -> process inp s = (inp', s', Ok tt) ->
  request_size s' = Some sz -> request_data s' = Some dat -> 0 <= sz <= len inp' ->
  dat = take (Z.to_nat sz) inp'.
Proof using.
  intros Hmax [Hl Hs] Hn. unfold process.
  assert (forall s r, s.(http) = None -> process_bulks inp s = (inp', s', Ok tt) -> s.(redis) = Some r ->
    request_size s' = Some sz -> request_data s' = Some dat -> 0 <= sz <= len inp' -> dat = take (Z.to_nat sz) inp') as Hb.
  { intros t r Ht Hp Hr. unfold process_bulks in Hp. rewrite Hr in Hp.
    destruct (readBulks _ inp r) as [r1 []]; try done.
    destruct (slice_to inp r1.(read)) as [d|] eqn:E; [|done]. apply slice_to_Some in E as [_ ->].
    injection Hp as <- <-. unfold request_size, request_data. cbn. rewrite Ht. cbn. by intros [= <-] [= <-]. }
  assert (forall x s h, s.(http) = Some h -> process_body x s = (inp', s', Ok tt) -> 0 <= h.(hdrLen) -> 0 <= h.(bodyLen) ->
    request_size s' = Some sz -> request_data s' = Some dat -> 0 <= sz <= len inp' -> len x < 2 ^ 32 ->
    dat = take (Z.to_nat sz) inp') as H7.
  { intros x t h Ht Hp H0 H1. unfold process_body in Hp. rewrite Ht in Hp. cbn zeta in Hp.
    destruct (_ <? _); [done|]. destruct (slice_to _ _) as [d|] eqn:E; [|done]. injection Hp as <- <-.
    unfold request_size, request_data. cbn. intros [= <-] [= <-] Hsz Hl'. apply slice_to_Some in E as [_ ->].
    unfold u32. rewrite Z.mod_small by lia. do 2 f_equal. lia. }
  assert (forall s, s.(http) = Some newHTTP -> process_headers inp s = (inp', s', Ok tt) ->
    request_size s' = Some sz -> request_data s' = Some dat -> 0 <= sz <= len inp' -> dat = take (Z.to_nat sz) inp') as H6.
  { intros t Ht Hp Hsz Hdat Hb2. unfold process_headers in Hp.
    destruct (index_of (crlf ++ crlf) inp) as [idx|] eqn:Hi; [|done].
    destruct (header_block_split _ _ Hi) as [Hsl Hsp]. rewrite Ht, Hsl in Hp.
    pose proof (parse_safe (take idx inp) Hmax) as Hsafe.
    destruct (parse _) as [h|e| |]; try done. destruct Hsafe as (Hlen & _ & Hh & [Hb0 _] & _). cbn zeta in Hp.
    assert (len (h.(Http.data) ++ drop (idx + 4) inp) = len inp) as Elen.
    { unfold len. rewrite (f_equal length Hsp), !length_app, Hlen, !length_app. done. }
    assert (len h.(Http.data) <= len inp) as Hle by (rewrite <- Elen, len_app; pose proof (len_nonneg (drop (idx + 4) inp)); lia).
    assert (h.(hdrLen) = len h.(Http.data)) as Hh'.
    { rewrite Hh. unfold len. rewrite <- Hlen. apply Z.mod_small. unfold len in *. lia. }
    destruct (h.(bodyLen) =? 0) eqn:E0.
    - injection Hp as <- <-. apply Z.eqb_eq in E0. unfold request_size, request_data in *. cbn in *.
      injection Hsz as <-. injection Hdat as <-. rewrite E0, Hh'. symmetry. apply take_len_app.
    - apply (H7 (h.(Http.data) ++ drop (idx + 4) inp) (mkState 7 t.(redis) (Some h)) h); try done; [by rewrite Hh'; apply len_nonneg|by rewrite Elen]. }
  destruct Hs as [Hs|[(Hs & r & Hr & _)|[(Hs & Hh)|(Hs & h & Hh & H0 & H1)]]]; rewrite Hs.
  - destruct (readByteAndNumberCrLf 42 inp) as [[num w]|e| |]; try done.
    destruct (w =? 0); [by apply H6|]. destruct (65535 <? num); [done|]. intros Hp.
    eapply Hb; [|exact Hp|reflexivity]. apply Hn. by left.
  - intros Hp. eapply Hb; [|exact Hp|exact Hr]. apply Hn. by right.
  - by apply H6.
  - intros Hp Hsz Hdat Hb2. by apply (H7 inp s h).
Qed.

Lemma process_no_http inp s : no_http s -> no_http (process inp s).1.2.
Proof using.
  intros Hn.
  assert (forall t, (process_bulks inp t).1.2.(http) = t.(http)) as Hb.
  { intros t. unfold process_bulks. destruct t.(redis); [|done].
    destruct (readBulks _ _ _) as [r1 []]; try done. by destruct (slice_to _ _). }
  assert (forall x t, t.(stage) = 7 -> no_http (process_body x t).1.2) as H7.
  { intros x t Ht. assert (no_http t) as H0 by (intros [E|E]; congruence). unfold process_body.
    destruct t.(http); [|done]. cbn zeta. destruct (_ <? _); [done|]. by destruct (slice_to _ _); [intros [E|E]|]. }
  assert (forall t, t.(stage) = 6 -> no_http (process_headers inp t).1.2) as H6.
  { intros t Ht. assert (no_http t) as H0 by (intros [E|E]; congruence). unfold process_headers.
    destruct (index_of _ _); [|done]. destruct t.(http); [|done]. destruct (slice_to _ _); [|done].
    destruct (parse _); try done. cbn zeta. destruct (_ =? _); [by intros [E|E]|by apply H7]. }
  assert (forall t, t.(http) = None -> no_http (process_bulks inp t).1.2) as H1
    by (intros t Ht _; by rewrite Hb).
  unfold process. destruct s.(stage) as [|p|p] eqn:Es; [|repeat (destruct p as [p|p|]; try done)|done].
  - destruct (readByteAndNumberCrLf 42 inp) as [[num w]|e| |]; try done.
    destruct (w =? 0); [by apply H6|]. destruct (65535 <? num); [done|]. apply H1. cbn. apply Hn. by left.
  - by apply H7.
  - by apply H6.
  - apply H1, Hn. by right.
Qed.

(** ** The values are right *)

(** The value [v] is in the memory [m]: where it is, nobody else writes. *)
Record holds (v : conn_val) (m : conn_mem) : Prop := {
  h_valid : valid m.(heap) m.(cin);
  h_in : view m.(heap) m.(cin) = v.(vin);
  h_srs : m.(msrs) = v.(vsrs);
  h_seen id : id ∈ v.(seen) <-> is_Some (m.(reqs) !! id);
  h_reqs id d : m.(reqs) !! id = Some d -> valid m.(heap) d;
  h_uses id b : v.(uses) !! id = Some b -> exists d, m.(reqs) !! id = Some d /\ view m.(heap) d = b;
  h_pair id1 id2 d1 d2 :
    id1 <> id2 -> is_Some (v.(uses) !! id1) -> is_Some (v.(uses) !! id2) ->
    m.(reqs) !! id1 = Some d1 -> m.(reqs) !! id2 = Some d2 -> apart (contents d1) (contents d2);
  h_apart id d :
    v.(reused) = false -> is_Some (v.(uses) !! id) -> m.(reqs) !! id = Some d ->
    apart (room m.(cin)) (contents d);
  h_reused : v.(reused) = true -> v.(vin) = [];
  h_state : state_ok v.(vin) v.(vsrs);
  h_http : no_http v.(vsrs);
}.

Lemma new_holds : holds new_val new_mem.
Proof using.
  split; cbn; intros; try done.
  - split; [done|]. by exists [].
  - split; [set_solver|by intros []].
  - split; [done|]. by left.
Qed.

Lemma holds_in_length v m : holds v m -> Z.of_nat m.(cin).(slen) = len v.(vin).
Proof using. intros Hh. rewrite <- (h_in _ _ Hh). unfold len. by rewrite view_length by apply Hh. Qed.

(** What is put into a request that is in use stays there. *)
Lemma rewrite_holds id b v m v' :
  holds v m -> vstep (MRewrite id b) v = Some v' -> exists m', mstep (MRewrite id b) m = Some m' /\ holds v' m'.
Proof using.
  intros Hh. cbn. destruct (v.(uses) !! id) as [old|] eqn:Hu; [|done]. cbn.
  case_decide as Hl; [|done]. intros [= <-]. destruct (h_uses _ _ Hh id old Hu) as (d & Hd & Hold). rewrite Hd. cbn.
  pose proof (h_reqs _ _ Hh id d Hd) as Hvd. assert (length b = d.(slen)) as Hb.
  { rewrite Hl, <- Hold. by apply view_length. }
  assert (0 + length b <= d.(scap))%nat as Hfit by (destruct Hvd; lia).
  assert (forall t, apart (contents d) (contents t) -> view (put m.(heap) d 0 b) t = view m.(heap) t) as Hkeep.
  { intros t Ht. apply put_view; [done..|]. unfold apart in *. cbn in *. rewrite Nat.add_0_r, Hb. done. }
  assert (view (put m.(heap) d 0 b) m.(cin) = v.(vin)) as Hin.
  { destruct v.(reused) eqn:Er.
    - pose proof (holds_in_length v m Hh) as Hlen. rewrite (h_reused _ _ Hh Er) in Hlen |- *.
      change (len []) with 0 in Hlen. unfold view. by replace (m.(cin).(slen)) with 0%nat by lia.
    - rewrite Hkeep; [apply Hh|]. destruct (h_valid _ _ Hh).
      destruct (h_apart _ _ Hh id d Er) as [?|[?|?]]; [by eexists|done|left|right; right|right; left]; cbn in *; [congruence|lia..]. }
  eexists. split; [reflexivity|]. split; cbn; try apply Hh; try done.
  - by apply put_valid; [| |apply Hh].
  - intros id' d' Hd'. apply put_valid; [done..|]. by eapply Hh.
  - intros id' b'. rewrite lookup_insert. case_decide as E.
    + subst id'. intros [= <-]. exists d. split; [done|]. by apply put_view_same.
    + intros Hu'. destruct (h_uses _ _ Hh id' b' Hu') as (d' & Hd' & Hv'). exists d'. split; [done|].
      rewrite Hkeep; [done|]. eapply (h_pair _ _ Hh id id'); try done; by eexists.
  - intros id1 id2 d1 d2 Hne H1 H2. apply (h_pair _ _ Hh id1 id2); [done| |].
    + revert H1. rewrite lookup_insert. case_decide as E; [subst; by eexists|done].
    + revert H2. rewrite lookup_insert. case_decide as E; [subst; by eexists|done].
  - intros id' d' Hr H1. apply (h_apart _ _ Hh id'); [done|].
    revert H1. rewrite lookup_insert. case_decide as E; [subst; by eexists|done].
Qed.

Lemma done_holds id v m v' :
  holds v m -> vstep (MDone id) v = Some v' -> holds v' m.
Proof using.
  intros Hh [= <-].
  assert (forall id' b, delete id v.(uses) !! id' = Some b -> v.(uses) !! id' = Some b) as Hd
    by by intros id' b [_ ?]%lookup_delete_Some.
  split; cbn; try apply Hh.
  - intros id' b Hu. by apply (h_uses _ _ Hh), Hd.
  - intros id1 id2 d1 d2 Hne [b1 H1] [b2 H2]. apply (h_pair _ _ Hh id1 id2 d1 d2 Hne); eexists; by apply Hd.
  - intros id' d Hr [b Hu]. apply (h_apart _ _ Hh id' d Hr). eexists. by apply Hd.
Qed.

(** [Release]: when the input is empty it starts over where the request is. *)
Lemma release_holds id v m v' :
  holds v m -> vstep (MRelease id) v = Some v' -> exists m', mstep (MRelease id) m = Some m' /\ holds v' m'.
Proof using.
  intros Hh. cbn. case_decide as Hs; [|done]. intros [= <-].
  destruct (proj1 (h_seen _ _ Hh id) Hs) as [d Hd]. rewrite Hd. cbn. eexists. split; [reflexivity|].
  pose proof (holds_in_length v m Hh) as Hlen.
  destruct (decide (m.(cin).(slen) = 0%nat)) as [E|E].
  - assert (v.(vin) = []) as Hv by (apply len_0_inv; lia). rewrite decide_True by done.
    split; cbn; try apply Hh; try done.
    + apply sub_to_valid; [by eapply Hh|lia].
    + intros id' d' Hr [b Hb]. apply bool_decide_eq_false in Hr. apply dec_stable in Hr. by rewrite Hr, lookup_empty in Hb.
  - rewrite decide_False by (intros Hv; rewrite Hv in Hlen; change (len []) with 0 in Hlen; lia). by destruct Hh; split.
Qed.

(** What is read: it goes where nobody else reads, or to a new array. *)
Lemma read_holds id d v m v' :
  max_ok -> holds v m -> vstep (MRead id d) v = Some v' -> exists m', mstep (MRead id d) m = Some m' /\ holds v' m'.
Proof using.
  intros Hmax Hh. cbn [vstep mstep]. case_decide as Hg; [done|]. cbn zeta.
  assert (forall id' d', is_Some (v.(uses) !! id') -> m.(reqs) !! id' = Some d' -> apart (room m.(cin)) (contents d')) as Hap.
  { intros id' d' Hu Hd. apply (h_apart _ _ Hh id'); [|done..]. destruct v.(reused) eqn:Er; [|done].
    exfalso. apply Hg. right. split; [done|]. intros E. rewrite E in Hu. destruct Hu as [? Hu]. by rewrite lookup_empty in Hu. }
  pose proof (append_valid grow _ _ d (h_valid _ _ Hh)) as Hv. pose proof (append_view grow _ _ d (h_valid _ _ Hh)) as Hvw.
  pose proof (append_keeps_valid grow _ _ d (h_valid _ _ Hh)) as Hkv.
  pose proof (fun t => append_frame grow _ _ d (h_valid _ _ Hh) t) as Hfr.
  destruct (append grow m.(heap) m.(cin) d) as [h c]. cbn [fst snd] in *. rewrite (h_in _ _ Hh) in Hvw.
  pose proof (view_length _ _ Hv) as Hlc. rewrite Hvw in Hlc.
  replace (Z.of_nat c.(slen)) with (len (v.(vin) ++ d)) by (by rewrite <- Hlc).
  destruct (Z.ltb_spec RequestMaxBytes (len (v.(vin) ++ d))) as [|Hle]; [done|].
  rewrite Hvw, (h_srs _ _ Hh). assert (len (v.(vin) ++ d) < 2 ^ 32) as Hl32 by (unfold max_ok in Hmax; lia).
  pose proof (state_ok_app _ d _ (h_state _ _ Hh) Hl32) as Hst.
  pose proof (process_length _ _ Hmax Hst) as Hlen. pose proof (process_no_http (v.(vin) ++ d) _ (h_http _ _ Hh)) as Hnh.
  pose proof (process_resumes _ [] _ Hmax Hst ltac:(by rewrite app_nil_r)) as Hres. unfold resumes in Hres.
  destruct (process (v.(vin) ++ d) v.(vsrs)) as [[inp s'] r] eqn:Hp. cbn [fst snd] in *.
  assert (length inp = c.(slen)) as Hli by congruence.
  assert (0 + length inp <= c.(scap))%nat as Hfit by (destruct Hv; lia).
  pose proof (put_valid h c 0 inp c Hv Hfit Hv) as Hv1. pose proof (put_view_same h c inp Hv Hli) as Hvw1.
  assert (forall id' d', m.(reqs) !! id' = Some d' -> valid (put h c 0 inp) d') as Hreqs.
  { intros id' d' Hd. apply put_valid; [done..|]. apply Hkv. by eapply Hh. }
  assert (forall id' d', is_Some (v.(uses) !! id') -> m.(reqs) !! id' = Some d' ->
    view (put h c 0 inp) d' = view m.(heap) d' /\ apart (room c) (contents d')) as Huse.
  { intros id' d' Hu Hd. destruct (Hfr d' (h_reqs _ _ Hh id' d' Hd) (Hap id' d' Hu Hd)) as [Hf Ha]. split; [|done].
    rewrite <- Hf. apply put_view; [done..|]. destruct Hv.
    destruct Ha as [?|[?|?]]; [by left|right; left|right; right]; cbn in *; lia. }
  assert (forall id' b, v.(uses) !! id' = Some b ->
    exists d', m.(reqs) !! id' = Some d' /\ view (put h c 0 inp) d' = b) as Huses.
  { intros id' b Hu. destruct (h_uses _ _ Hh id' b Hu) as (d' & Hd & <-). exists d'. split; [done|].
    by apply (Huse id' d'); [eexists|]. }
  destruct r as [u|e| |]; try done.
  - destruct u. rewrite decide_False in Hres by done.
    destruct (request_size s') as [sz|] eqn:Esz; [|done]. destruct (request_data s') as [dat|] eqn:Ed; [|done]. cbn.
    destruct (slice_from inp sz) as [rest|] eqn:Er; [|done]. apply slice_from_Some in Er as [Hsz ->]. cbn. intros [= <-].
    pose proof (process_takes _ _ _ _ _ _ Hmax Hst (h_http _ _ Hh) Hp Esz Ed Hsz) as ->.
    assert (Z.to_nat sz <= c.(slen))%nat as Hk by (rewrite <- Hli; unfold len in Hsz; lia).
    assert (length (take (Z.to_nat sz) inp) = Z.to_nat sz) as Elen by (rewrite length_take; lia). rewrite Elen.
    assert (0 <= sz <= len (v.(vin) ++ d)) as Hszc by (unfold len in *; by rewrite <- Hlen).
    rewrite decide_True by done. eexists. split; [reflexivity|].
    assert (is_Some (m.(reqs) !! id) -> False) as Hnew by (rewrite <- (h_seen _ _ Hh); tauto).
    assert (forall id' d', <[id := sub_to c (Z.to_nat sz)]> m.(reqs) !! id' = Some d' ->
      id' = id /\ d' = sub_to c (Z.to_nat sz) \/ id' <> id /\ m.(reqs) !! id' = Some d') as Hins.
    { intros id' d'. rewrite lookup_insert_Some. intros [[-> ->]|[? ?]]; auto. }
    assert (forall id' b, id' <> id -> is_Some (<[id := b]> v.(uses) !! id') -> is_Some (v.(uses) !! id')) as Hold
      by (intros id' b Hne; by rewrite lookup_insert_ne).
    assert (Z.to_nat sz <= c.(scap))%nat as Hkc by (destruct Hv; lia).
    split; cbn [heap cin msrs reqs vin vsrs uses seen reused]; try done.
    + by apply sub_from_valid.
    + rewrite sub_from_view by done. by rewrite Hvw1.
    + intros id'. rewrite elem_of_union, elem_of_singleton, (h_seen _ _ Hh), lookup_insert_is_Some'.
      split; (intros [?|?]; [by left|by right]).
    + intros id' d' [[_ ->]|[_ Hd]]%Hins; [by apply sub_to_valid|by eapply Hreqs].
    + intros id' b. rewrite lookup_insert_Some. intros [[<- <-]|[Hne Hu]].
      * exists (sub_to c (Z.to_nat sz)). rewrite lookup_insert_eq, sub_to_view by done. by rewrite Hvw1.
      * destruct (Huses id' b Hu) as (d' & Hd & Hvd). exists d'. by rewrite lookup_insert_ne.
    + intros id1 id2 d1 d2 Hne H1 H2 [[-> ->]|[Hn1 Hd1]]%Hins [[-> ->]|[Hn2 Hd2]]%Hins; [done|..].
      * apply apart_sub_to; [done|]. apply (Huse id2); eauto.
      * apply apart_sym, apart_sub_to; [done|]. apply (Huse id1); eauto.
      * apply (h_pair _ _ Hh id1 id2); eauto.
    + intros id' d' _ Hu [[-> ->]|[Hn Hd]]%Hins; [by apply sub_apart|].
      apply apart_sub_from; [done|]. apply (Huse id'); eauto.
    + split; [|by left]. rewrite len_drop. unfold len in *. lia.
  - destruct (decide (e = errWaitMore)) as [->|]; [|done]. intros [= <-]. eexists. split; [reflexivity|].
    rewrite decide_True in Hres by done. destruct Hres as (_ & _ & Hst').
    split; cbn; try done; try apply Hh. intros id' d' _ Hu Hd. by apply (Huse id').
Qed.

Lemma step_holds o v m v' :
  max_ok -> holds v m -> vstep o v = Some v' -> exists m', mstep o m = Some m' /\ holds v' m'.
Proof using.
  intros Hmax Hh Hs. destruct o as [id d|id b|id|id].
  - by eapply read_holds.
  - by eapply rewrite_holds.
  - exists m. split; [done|]. by eapply done_holds.
  - by eapply release_holds.
Qed.

(** C6: a request stays what was sent, though it is a window on the memory that the
    connection reads into.  As long as nothing is read between a [Release] and the
    moment when the requests that handlers still use are done with, everything is as if
    input and requests were values of their own: what is buffered is what was read and
    not yet taken; what a handler finds in its request is what the parser took, with
    what the handler itself has changed, however much is read, parsed, released and
    rewritten besides. *)
Theorem requests_keep l v :
  max_ok -> vrun l new_val = Some v ->
  exists m, mrun l new_mem = Some m /\ view m.(heap) m.(cin) = v.(vin) /\
    forall id b, v.(uses) !! id = Some b -> exists d, m.(reqs) !! id = Some d /\ view m.(heap) d = b.
Proof using.
  intros Hmax Hr.
  assert (exists m, mrun l new_mem = Some m /\ holds v m) as (m & Hm & Hh).
  { revert v Hr. unfold vrun, mrun. induction l as [|o l IH] using rev_ind; intros v Hr.
    { injection Hr as <-. exists new_mem. split; [done|apply new_holds]. }
    rewrite foldl_snoc in Hr. rewrite foldl_snoc. destruct (foldl _ _ l) as [v1|] eqn:E1; [|done].
    destruct (IH v1 eq_refl) as (m1 & -> & Hh). cbn in Hr |- *. by eapply step_holds. }
  exists m. split; [done|]. split; [apply Hh|]. apply Hh.
Qed.
End input.

(** ** Concrete runs *)

Definition double (cap n : nat) : nat := 2 * cap + 64.

(** Two commands, the second in two reads; the first is released while the handler of
    the second is at work, and a third arrives. *)
Definition ex_cmd (x : bytes) : bytes := command [bs "SET"; x].
Definition ex_first : list mem_op :=
  [MRead 1 (ex_cmd (bs "one") ++ take 4 (ex_cmd (bs "two"))); MRead 2 (drop 4 (ex_cmd (bs "two")))].
Definition ex_late : list mem_op := [MRelease 1; MRead 3 (ex_cmd (bs "a longer one"))].

Lemma requests_keep_witness :
  exists m, @mrun default_env double (ex_first ++ [MDone 1; MDone 2] ++ ex_late) new_mem = Some m /\
    exists d, m.(reqs) !! 3%nat = Some d /\ view m.(heap) d = ex_cmd (bs "a longer one").
Proof.
  assert (exists v, @vrun default_env (ex_first ++ [MDone 1; MDone 2] ++ ex_late) new_val = Some v /\
    v.(uses) !! 3%nat = Some (ex_cmd (bs "a longer one"))) as (v & Hv & Hu).
  { eexists. split; vm_compute; reflexivity. }
  destruct (@requests_keep default_env double (ex_first ++ [MDone 1; MDone 2] ++ ex_late) v max_ok_default Hv) as (m & Hm & _ & Hk).
  exists m. split; [exact Hm|]. exact (Hk 3%nat _ Hu).
Defined.

(** Without waiting for the second handler its request is not what was sent: what is
    read next is written over it. *)
Theorem release_overwrites :
  exists m d, @mrun default_env double (ex_first ++ MDone 1 :: ex_late) new_mem = Some m /\
    m.(reqs) !! 2%nat = Some d /\ length (view m.(heap) d) = length (ex_cmd (bs "two")) /\
    view m.(heap) d <> ex_cmd (bs "two").
Proof.
  eexists _, _. split; [vm_compute; reflexivity|]. split; [vm_compute; reflexivity|]. split; [vm_compute; reflexivity|].
  vm_compute. discriminate.
Qed.
