(* ===== verification/RespClient.v ===== *)
(** Replies on the client side (src/redis/parser.go): [readElement] measures the
    first reply of the input, [Reader] walks over a measured one.

    [readElement] and its loop over the elements of an array call each other; the
    fuel that [readElement] starts with is enough for every input
    ([read_fuel_enough]).  A slice of Go may end anywhere up to its capacity, here
    up to its length; on a buffer that [readElement] accepted, as every [Reader]
    gets, the two agree ([readNext_accepted]). *)

From S2P Require Import Prelude GoStd Util Redis.

(** ** [readElement] *)

Inductive rerror :=
| rWaitMore
| rNum (e : strconv.NumErr)
| rBulkLength (n : Z)
| rBulkEnd
| rFirstByte (b : byte).

#[export] Instance rerror_eq_dec : EqDecision rerror.
Proof. solve_decision. Defined.

(** The case ['$']. *)
Definition element_bulk (inp : bytes) : res rerror Z :=
  match index_of crlf inp with
  | Some (S _ as idx) =>
      let idx := Z.of_nat idx in
      let! num := checked (slice inp 1 idx) in
      match strconv.Atoi num with
      | (_, Some e) => Err (rNum e)
      | (sz, None) =>
          if sz =? -1 then Ok (idx + 2)
          else if sz <? 0 then Err (rBulkLength sz)
          else if i64 (idx + 2 + sz + 2) <=? len inp then
            let! buf := checked (slice_to inp (i64 (idx + 2 + sz + 2))) in
            let! c0 := checked (at_ buf (len buf - 2)) in
            let! c1 := checked (at_ buf (len buf - 1)) in
            if (c0 =? CR) && (c1 =? LF) then Ok (len buf) else Err rBulkEnd
          else Err rWaitMore
      end
  | _ => Err rWaitMore
  end.

(** The cases ['+'], ['-'], [':']. *)
Definition element_line (inp : bytes) : res rerror Z :=
  match index_of crlf inp with
  | Some (S _ as idx) => Ok (Z.of_nat idx + 2)
  | _ => Err rWaitMore
  end.

(** The case ['*'] up to its loop: the count and the offset of the elements. *)
Definition element_array (inp : bytes) : res rerror (Z * Z) :=
  match index_of crlf inp with
  | Some (S _ as idx) =>
      let! num := checked (slice inp 1 (Z.of_nat idx)) in
      match strconv.Atoi num with
      | (_, Some e) => Err (rNum e)
      | (count, None) => Ok (count, Z.of_nat idx + 2)
      end
  | _ => Err rWaitMore
  end.

Fixpoint read_element (fuel : nat) (inp : bytes) : res rerror Z :=
  match fuel with
  | O => OutOfFuel
  | S fuel =>
      match inp with
      | [] => Err rWaitMore
      | c :: _ =>
          if c =? 36 (* '$' *) then element_bulk inp
          else if (c =? 43) || (c =? 45) || (c =? 58) (* '+' '-' ':' *) then element_line inp
          else if c =? 42 (* '*' *) then
            let! (count, c) := element_array inp in read_elements fuel count c inp
          else Err (rFirstByte c)
      end
  end
(** The loop [for i := 0; i < count; i++], with [count - i] left, from offset [c]. *)
with read_elements (fuel : nat) (count c : Z) (inp : bytes) : res rerror Z :=
  match fuel with
  | O => OutOfFuel
  | S fuel =>
      if 0 <? count then
        let! rest := checked (slice_from inp c) in
        let! x := read_element fuel rest in
        read_elements fuel (count - 1) (c + x) inp
      else Ok c
  end.

Definition read_fuel (inp : bytes) : nat := 2 * length inp + 1.

Definition readElement (inp : bytes) : res rerror Z := read_element (read_fuel inp) inp.

(** ** [Reader] *)

Record Reader := mkReader { buf : bytes }.

(** The answer of [readNext]: a byte for the type, an integer, a slice ([None]:
    [nil]) and a reader ([None]: [nil]). *)
Definition answer : Type := byte * Z * option bytes * option Reader.

Definition tyS : byte := 115.
Definition tyI : byte := 105.
Definition tyE : byte := 101.
Definition tyN : byte := 110.
Definition tyA : byte := 97.

(** The loop of [readNext] over the elements of an array, which ignores errors
    ([x] is 0 then). *)
Fixpoint skip_elements (fuel : nat) (count c : Z) (inp : bytes) : res rerror Z :=
  match fuel with
  | O => OutOfFuel
  | S fuel =>
      if 0 <? count then
        let! rest := checked (slice_from inp c) in
        let! x := match readElement rest with Err _ => Ok 0 | r => r end in
        skip_elements fuel (count - 1) (c + x) inp
      else Ok c
  end.

Definition readNext (r : Reader) : res rerror (Reader * answer) :=
  match r.(buf) with
  | [] => Ok (r, (tyN, 0, None, None))
  | head :: _ =>
      let idx := match index_of crlf r.(buf) with Some i => Z.of_nat i | None => -1 end in
      if head =? 36 then
        let! num := checked (slice r.(buf) 1 idx) in
        let sz := (strconv.Atoi num).1 in
        if sz =? -1 then
          let! b := checked (slice_from r.(buf) (idx + 2)) in
          Ok (mkReader b, (tyS, 0, None, None))
        else
          let! data := checked (slice r.(buf) (idx + 2) (i64 (idx + 2 + sz))) in
          let! b := checked (slice_from r.(buf) (i64 (idx + 2 + sz + 2))) in
          Ok (mkReader b, (tyS, 0, Some data, None))
      else if (head =? 43) || (head =? 45) || (head =? 58) then
        let! data := checked (slice r.(buf) 1 idx) in
        let! b := checked (slice_from r.(buf) (idx + 2)) in
        let r := mkReader b in
        if head =? 43 then Ok (r, (tyS, 0, Some data, None))
        else if head =? 45 then Ok (r, (tyE, 0, Some data, None))
        else Ok (r, (tyI, (strconv.ParseInt data).1, None, None))
      else if head =? 42 then
        let! num := checked (slice r.(buf) 1 idx) in
        let count := (strconv.Atoi num).1 in
        let! c := skip_elements (S (Z.to_nat count)) count (idx + 2) r.(buf) in
        let! d := checked (slice r.(buf) (idx + 2) c) in
        let! b := checked (slice_from r.(buf) c) in
        Ok (mkReader b, (tyA, 0, None, Some (mkReader d)))
      else Panic
  end.

(** What [Next] returns, an [any]. *)
Inductive item :=
| IStr (s : bytes)
| IInt (i : Z)
| IErr (s : bytes)
| INil
| IArr (r : option Reader).

Definition Next (r : Reader) : res rerror (Reader * item) :=
  let! (r, (typ, i, s, d)) := readNext r in
  Ok (r, if typ =? tyS then IStr (default [] s)
         else if typ =? tyI then IInt i
         else if typ =? tyE then IErr (default [] s)
         else if typ =? tyN then INil
         else IArr d).

(** [err()]: an error reply is consumed, anything else is left to be read. *)
Definition err (r : Reader) : res rerror (Reader * option bytes) :=
  let! (r', (typ, _, s, _)) := readNext r in
  if typ =? tyE then Ok (r', Some (default [] s)) else Ok (r, None).

Definition IsNil (r : Reader) : bool := bool_decide (r.(buf) = bs "$-1" ++ crlf).

Definition Bytes (r : Reader) : res rerror (Reader * option bytes) :=
  let! (r, (_, _, s, _)) := readNext r in Ok (r, s).
Definition Str (r : Reader) : res rerror (Reader * bytes) :=
  let! (r, (_, _, s, _)) := readNext r in Ok (r, default [] s).
Definition Int64 (r : Reader) : res rerror (Reader * Z) :=
  let! (r, (_, i, _, _)) := readNext r in Ok (r, i).
Definition Array (r : Reader) : res rerror (Reader * option Reader) :=
  let! (r, (_, _, _, a)) := readNext r in Ok (r, a).

(** The loop of [String()]: the items up to the first [nil]. *)
Fixpoint next_items (fuel : nat) (r : Reader) : res rerror (list item) :=
  match fuel with
  | O => OutOfFuel
  | S fuel =>
      let! (r, a) := Next r in
      match a with
      | INil => Ok []
      | a => let! l := next_items fuel r in Ok (a :: l)
      end
  end.

(** ** Lemmas *)

(** What the cases answer: a width inside the input, and the same on more input. *)
Lemma index_pos c l idx : c <> CR -> index_of crlf (c :: l) = Some idx -> (1 <= idx)%nat.
Proof.
  intros Hc Hi. destruct idx; [|lia]. apply index_of_Some in Hi as (_ & Hp & _).
  rewrite drop_0 in Hp. cbn [prefixb crlf] in Hp. destruct (Z.eqb_spec CR c); [congruence|done].
Qed.

Lemma element_bulk_ok inp n : element_bulk inp = Ok n -> 0 < n <= len inp.
Proof.
  unfold element_bulk. destruct (index_of crlf inp) as [[|k]|] eqn:Hi; try done.
  pose proof (index_of_bound _ _ _ Hi) as Hb. cbn [length crlf] in Hb. set (idx := Z.of_nat (S k)).
  destruct (slice inp 1 idx) as [num|]; [|done]. cbn [checked rbind].
  destruct (strconv.Atoi num) as [sz [e|]]; [done|].
  destruct (Z.eqb_spec sz (-1)). { intros [= <-]. unfold len, idx. lia. }
  destruct (Z.ltb_spec sz 0); [done|]. destruct (Z.leb_spec (i64 (idx + 2 + sz + 2)) (len inp)); [|done].
  unfold slice_to. destruct (slice inp 0 (i64 (idx + 2 + sz + 2))) as [buf|] eqn:Hs; [|done].
  pose proof (slice_len _ _ _ _ Hs) as Hl. cbn [checked rbind].
  destruct (at_ buf (len buf - 2)) eqn:Hat; [|done]. apply at_Some_bound in Hat. cbn [checked rbind].
  destruct (at_ buf (len buf - 1)); [|done]. cbn [checked rbind].
  destruct (_ && _); [|done]. intros [= <-]. lia.
Qed.

Lemma element_bulk_app inp t :
  element_bulk inp <> Err rWaitMore -> element_bulk (inp ++ t) = element_bulk inp.
Proof.
  unfold element_bulk. destruct (index_of crlf inp) as [[|k]|] eqn:Hi; try done.
  rewrite (index_of_stable _ _ t _ Hi).
  pose proof (index_of_bound _ _ _ Hi) as Hb. cbn [length crlf] in Hb. cbn zeta.
  rewrite slice_app_le by (unfold len; lia).
  destruct (slice inp 1 _) as [num|]; [|done]. cbn [checked rbind].
  destruct (strconv.Atoi num) as [sz [e|]]; [done|].
  destruct (sz =? -1); [done|]. destruct (sz <? 0); [done|]. rewrite len_app. pose proof (len_nonneg t).
  destruct (Z.leb_spec (i64 (Z.of_nat (S k) + 2 + sz + 2)) (len inp)); [|done].
  destruct (Z.leb_spec (i64 (Z.of_nat (S k) + 2 + sz + 2)) (len inp + len t)); [|lia].
  unfold slice_to. by rewrite slice_app_le by lia.
Qed.

Lemma element_line_ok inp n : element_line inp = Ok n -> 0 < n <= len inp.
Proof.
  unfold element_line. destruct (index_of crlf inp) as [[|k]|] eqn:Hi; try done.
  pose proof (index_of_bound _ _ _ Hi) as Hb. cbn [length crlf] in Hb.
  intros [= <-]. unfold len. lia.
Qed.

Lemma element_line_app inp t :
  element_line inp <> Err rWaitMore -> element_line (inp ++ t) = element_line inp.
Proof.
  unfold element_line. destruct (index_of crlf inp) as [[|k]|] eqn:Hi; try done.
  by rewrite (index_of_stable _ _ t _ Hi).
Qed.

Lemma element_array_ok inp count c : element_array inp = Ok (count, c) -> 0 < c <= len inp.
Proof.
  unfold element_array. destruct (index_of crlf inp) as [[|k]|] eqn:Hi; try done.
  pose proof (index_of_bound _ _ _ Hi) as Hb. cbn [length crlf] in Hb.
  destruct (slice inp 1 _); [|done]. cbn [checked rbind].
  destruct (strconv.Atoi _) as [n [e|]]; [done|]. intros [= <- <-]. unfold len. lia.
Qed.

Lemma element_array_app inp t :
  element_array inp <> Err rWaitMore -> element_array (inp ++ t) = element_array inp.
Proof.
  unfold element_array. destruct (index_of crlf inp) as [[|k]|] eqn:Hi; try done.
  rewrite (index_of_stable _ _ t _ Hi).
  pose proof (index_of_bound _ _ _ Hi) as Hb. cbn [length crlf] in Hb.
  by rewrite slice_app_le by (unfold len; lia).
Qed.

(** ** Fuel *)

Lemma read_fuel_mono fuel :
  (forall inp f', (fuel <= f')%nat -> read_element fuel inp <> OutOfFuel ->
     read_element f' inp = read_element fuel inp) /\
  (forall count c inp f', (fuel <= f')%nat -> read_elements fuel count c inp <> OutOfFuel ->
     read_elements f' count c inp = read_elements fuel count c inp).
Proof.
  induction fuel as [|fuel [IHe IHs]]; [by split|].
  split.
  - intros inp [|f'] Hf; [lia|]. cbn [read_element]. destruct inp as [|h inp]; [done|].
    destruct (h =? 36); [done|]. destruct (_ || _); [done|]. destruct (h =? 42); [|done].
    destruct (element_array (h :: inp)) as [[count c]|e| |]; try done. cbn [rbind].
    apply IHs. lia.
  - intros count c inp [|f'] Hf; [lia|]. cbn [read_elements]. destruct (0 <? count); [|done].
    destruct (slice_from inp c) as [rest|]; [|done]. cbn [checked rbind]. intros Hn.
    rewrite (IHe rest f') by (lia || (intros E; by rewrite E in Hn)).
    destruct (read_element fuel rest) as [x|e| |]; try done. cbn [rbind] in *. apply IHs; [lia|done].
Qed.

Lemma read_ok fuel :
  (forall inp n, read_element fuel inp = Ok n -> 0 < n <= len inp) /\
  (forall count c inp n, 0 <= c <= len inp -> read_elements fuel count c inp = Ok n ->
     c <= n <= len inp).
Proof.
  induction fuel as [|fuel [IHe IHs]]; [by split|]. split.
  - intros inp n. cbn [read_element]. destruct inp as [|h inp]; [done|].
    destruct (h =? 36); [apply element_bulk_ok|]. destruct (_ || _); [apply element_line_ok|].
    destruct (h =? 42); [|done]. destruct (element_array (h :: inp)) as [[count c]|e| |] eqn:Ha; try done.
    apply element_array_ok in Ha. cbn [rbind]. intros Hn%IHs; lia.
  - intros count c inp n Hc. cbn [read_elements]. destruct (0 <? count); [|intros [= <-]; lia].
    destruct (slice_from inp c) as [rest|] eqn:Hr; [|done]. cbn [checked rbind].
    apply slice_from_Some in Hr as [_ Hr]. apply (f_equal len) in Hr. rewrite len_drop in Hr.
    destruct (read_element fuel rest) as [x|e| |] eqn:Hx; try done. cbn [rbind].
    apply IHe in Hx. intros Hn%IHs; lia.
Qed.

(** An element takes at least one byte, so two units of fuel per byte suffice. *)
Lemma read_fuel_enough fuel :
  (forall inp, (read_fuel inp <= fuel)%nat -> read_element fuel inp <> OutOfFuel) /\
  (forall count c inp, 0 <= c <= len inp -> 2 * (len inp - c) + 2 <= Z.of_nat fuel ->
     read_elements fuel count c inp <> OutOfFuel).
Proof.
  induction fuel as [|fuel [IHe IHs]].
  { split; [unfold read_fuel; lia|]. intros. pose proof (len_nonneg inp). lia. }
  split.
  - intros inp Hf. cbn [read_element]. destruct inp as [|h inp]; [done|].
    destruct (h =? 36).
    { unfold element_bulk. destruct (index_of crlf _) as [[|k]|]; try done. cbn zeta.
      destruct (slice _ _ _); [|done]. cbn [checked rbind].
      destruct (strconv.Atoi _) as [sz [e|]]; [done|]. destruct (sz =? -1); [done|].
      destruct (sz <? 0); [done|]. destruct (_ <=? _); [|done].
      destruct (slice_to _ _) as [b|]; [|done]. cbn [checked rbind].
      destruct (at_ b _); [|done]. cbn [checked rbind]. destruct (at_ b _); [|done].
      cbn [checked rbind]. by destruct (_ && _). }
    destruct (_ || _). { unfold element_line. by destruct (index_of crlf _) as [[|k]|]. }
    destruct (h =? 42); [|done].
    destruct (element_array (h :: inp)) as [[count c]|e| |] eqn:Ha; try done.
    + apply element_array_ok in Ha. cbn [rbind]. apply IHs; [lia|].
      unfold read_fuel, len in *. lia.
    + unfold element_array in Ha. destruct (index_of crlf _) as [[|k]|]; try done.
      destruct (slice _ _ _); [|done]. cbn [checked rbind] in Ha.
      by destruct (strconv.Atoi _) as [n [e|]].
  - intros count c inp Hc Hf. cbn [read_elements]. destruct (0 <? count); [|done].
    destruct (slice_from inp c) as [rest|] eqn:Hr; [|done]. cbn [checked rbind].
    apply slice_from_Some in Hr as [_ Hr]. apply (f_equal len) in Hr. rewrite len_drop in Hr.
    assert (read_element fuel rest <> OutOfFuel) as He.
    { apply IHe. unfold read_fuel, len in *. lia. }
    destruct (read_element fuel rest) as [x|e| |] eqn:Hx; try done. cbn [rbind].
    apply (proj1 (read_ok fuel)) in Hx. apply IHs; lia.
Qed.

(** The loop with fuel enough, and the equations of both without fuel. *)
Definition readElements (count c : Z) (inp : bytes) : res rerror Z :=
  read_elements (2 * length inp + 2) count c inp.

Lemma readElement_eq inp :
  readElement inp =
  match inp with
  | [] => Err rWaitMore
  | c :: _ =>
      if c =? 36 then element_bulk inp
      else if (c =? 43) || (c =? 45) || (c =? 58) then element_line inp
      else if c =? 42 then
        let! (count, c) := element_array inp in readElements count c inp
      else Err (rFirstByte c)
  end.
Proof.
  unfold readElement, read_fuel. rewrite Nat.add_1_r. cbn [read_element].
  destruct inp as [|h inp]; [done|]. destruct (h =? 36); [done|].
  destruct (_ || _); [done|]. destruct (h =? 42); [|done].
  destruct (element_array (h :: inp)) as [[count c]|e| |] eqn:Ha; try done.
  apply element_array_ok in Ha. cbn [rbind]. unfold readElements.
  symmetry. apply (read_fuel_mono _); [lia|]. apply (read_fuel_enough _); [lia|].
  unfold len in *. lia.
Qed.

Lemma readElements_eq count c inp :
  0 <= c <= len inp ->
  readElements count c inp =
  if 0 <? count then
    let! x := readElement (drop (Z.to_nat c) inp) in readElements (count - 1) (c + x) inp
  else Ok c.
Proof.
  intros Hc. unfold readElements at 1. rewrite (Nat.add_succ_r _ 1). cbn [read_elements].
  destruct (0 <? count); [|done].
  destruct (slice_from_is_Some inp c Hc) as [rest Hr]. rewrite Hr. cbn [checked rbind].
  apply slice_from_Some in Hr as [_ ->]. set (rest := drop (Z.to_nat c) inp).
  assert (length rest <= length inp)%nat by (unfold rest; rewrite length_drop; lia).
  assert (read_element (2 * length inp + 1) rest = readElement rest) as ->.
  { apply (read_fuel_mono _); [unfold read_fuel; lia|]. by apply (read_fuel_enough _). }
  destruct (readElement rest) as [x|e| |] eqn:Hx; try done. cbn [rbind].
  apply (proj1 (read_ok _)) in Hx.
  assert (len rest = len inp - c) by (unfold rest; rewrite len_drop; lia).
  unfold readElements. symmetry. apply (read_fuel_mono _); [lia|].
  apply (read_fuel_enough _); [lia|]. unfold len in *. lia.
Qed.

Lemma readElement_ok inp n : readElement inp = Ok n -> 0 < n <= len inp.
Proof. apply (proj1 (read_ok _)). Qed.
Lemma readElements_ok count c inp n :
  0 <= c <= len inp -> readElements count c inp = Ok n -> c <= n <= len inp.
Proof. apply (proj2 (read_ok _)). Qed.
Lemma readElement_fuel inp : readElement inp <> OutOfFuel.
Proof. by apply (read_fuel_enough _). Qed.
Lemma readElements_fuel count c inp : 0 <= c <= len inp -> readElements count c inp <> OutOfFuel.
Proof. intros Hc. apply (read_fuel_enough _); [done|]. unfold len in *. lia. Qed.

(** ** More input *)

Lemma read_app fuel :
  (forall inp t, read_element fuel inp <> Err rWaitMore -> read_element fuel inp <> OutOfFuel ->
     readElement (inp ++ t) = read_element fuel inp) /\
  (forall count c inp t, 0 <= c <= len inp ->
     read_elements fuel count c inp <> Err rWaitMore -> read_elements fuel count c inp <> OutOfFuel ->
     readElements count c (inp ++ t) = read_elements fuel count c inp).
Proof.
  induction fuel as [|fuel [IHe IHs]]; [by split|]. split.
  - intros inp t. rewrite readElement_eq. cbn [read_element]. destruct inp as [|h inp]; [done|].
    cbn [app]. change (h :: inp ++ t) with ((h :: inp) ++ t).
    destruct (h =? 36); [intros Hw _; by apply element_bulk_app|].
    destruct (_ || _); [intros Hw _; by apply element_line_app|].
    destruct (h =? 42); [|done]. intros Hw Hf. rewrite element_array_app by (intros E; by rewrite E in Hw).
    destruct (element_array (h :: inp)) as [[count c]|e| |] eqn:Ha; try done. cbn [rbind] in *.
    apply element_array_ok in Ha. apply IHs; [lia|done..].
  - intros count c inp t Hc. rewrite readElements_eq by (rewrite len_app; pose proof (len_nonneg t); lia).
    cbn [read_elements]. destruct (0 <? count); [|done].
    destruct (slice_from_is_Some inp c Hc) as [rest Hr]. rewrite Hr. cbn [checked rbind].
    apply slice_from_Some in Hr as [_ Hr].
    rewrite drop_app_le by (unfold len in *; lia). rewrite <- Hr. intros Hw Hf.
    rewrite (IHe rest t) by (intros E; by rewrite E in Hw, Hf).
    destruct (read_element fuel rest) as [x|e| |] eqn:Hx; try done. cbn [rbind] in *.
    apply (proj1 (read_ok _)) in Hx. apply (f_equal len) in Hr. rewrite len_drop in Hr.
    apply IHs; [lia|done..].
Qed.

Lemma readElement_app inp t :
  readElement inp <> Err rWaitMore -> readElement (inp ++ t) = readElement inp.
Proof. intros Hw. apply read_app; [done|apply readElement_fuel]. Qed.

(** A bulk string that is accepted: its announced length, and where it ends. *)
Lemma element_bulk_Ok inp n :
  len inp < 2 ^ 62 ->
  element_bulk inp = Ok n <->
  exists idx num sz, index_of crlf inp = Some idx /\ (1 <= idx)%nat /\
    slice inp 1 (Z.of_nat idx) = Some num /\ strconv.Atoi num = (sz, None) /\
    ((sz = -1 /\ n = Z.of_nat idx + 2) \/
     (0 <= sz /\ n = Z.of_nat idx + 2 + sz + 2 /\ n <= len inp /\
      at_ inp (n - 2) = Some CR /\ at_ inp (n - 1) = Some LF)).
Proof.
  intros Hl. unfold element_bulk.
  destruct (index_of crlf inp) as [[|k]|] eqn:Hi; [|set (idx := S k) in *|].
  1, 3: split; [done|by intros (i & num & sz & [= <-] & Hi1 & _); lia].
  pose proof (index_of_bound _ _ _ Hi) as Hb. cbn [length crlf] in Hb. cbn zeta.
  destruct (slice inp 1 (Z.of_nat idx)) as [num|] eqn:Hn.
  2: { split; [done|]. intros (i & num & sz & [= <-] & _ & E & _). by rewrite Hn in E. }
  cbn [checked rbind]. destruct (strconv.Atoi num) as [sz e] eqn:Ha.
  assert (- 2 ^ 63 <= sz < 2 ^ 63) as Hsz.
  { apply strconv.ParseInt_range in Ha. unfold strconv.minInt64, strconv.maxInt64 in Ha. lia. }
  assert (forall i num' sz', Some idx = Some i -> slice inp 1 (Z.of_nat i) = Some num' ->
            strconv.Atoi num' = (sz', None) -> i = idx /\ sz' = sz /\ e = None) as Huniq.
  { intros i num' sz' [= <-] E1 E2. rewrite Hn in E1. injection E1 as <-. rewrite Ha in E2.
    by injection E2 as -> ->. }
  destruct e as [e|].
  { split; [done|]. intros (i & num' & sz' & E0 & _ & E1 & E2 & _).
    by destruct (Huniq _ _ _ E0 E1 E2) as (_ & _ & ?). }
  assert (Z.of_nat idx + 2 <= len inp) by (unfold len; lia).
  destruct (Z.eqb_spec sz (-1)) as [->|Hm1].
  { split.
    - intros [= <-]. exists idx, num, (-1). split_and!; try done; [lia|by left].
    - intros (i & num' & sz' & E0 & _ & E1 & E2 & E3).
      destruct (Huniq _ _ _ E0 E1 E2) as (-> & -> & _). destruct E3 as [[_ ->]|[? _]]; [done|lia]. }
  destruct (Z.ltb_spec sz 0).
  { split; [done|]. intros (i & num' & sz' & E0 & _ & E1 & E2 & E3).
    destruct (Huniq _ _ _ E0 E1 E2) as (-> & -> & _). lia. }
  set (x := Z.of_nat idx + 2 + sz + 2).
  assert (i64 x = x \/ (i64 x < 0 /\ len inp < x)) as Hx.
  { destruct (decide (x < 2 ^ 63)); [left; apply i64_small; lia|right]. unfold i64.
    rewrite <- (Z.mod_unique (x + 2 ^ 63) (2 ^ 64) 1 (x - 2 ^ 63)); lia. }
  split.
  - destruct (Z.leb_spec (i64 x) (len inp)); [|done]. unfold slice_to.
    destruct (slice inp 0 (i64 x)) as [buf|] eqn:Hs; [|done]. cbn [checked rbind].
    pose proof (slice_len _ _ _ _ Hs) as Hbl. apply slice_Some in Hs as (Hs0 & Hs1 & Hs).
    destruct Hx as [Hx|Hx]; [|lia]. rewrite Hx, Z.sub_0_r in *. rewrite drop_0 in Hs.
    assert (forall j, j < x -> at_ buf j = at_ inp j) as Hat.
    { intros j Hj. rewrite Hs. apply at_take. lia. }
    rewrite !Hat, Hbl by lia.
    destruct (at_ inp (x - 2)) as [c0|] eqn:Ec0; [|done]. cbn [checked rbind].
    destruct (at_ inp (x - 1)) as [c1|] eqn:Ec1; [|done]. cbn [checked rbind].
    destruct (Z.eqb_spec c0 CR) as [->|]; [|done]. destruct (Z.eqb_spec c1 LF) as [->|]; [|done].
    intros [= <-]. exists idx, num, sz. split_and!; try done; [lia|]. right. by split_and!.
  - intros (i & num' & sz' & E0 & _ & E1 & E2 & E3).
    destruct (Huniq _ _ _ E0 E1 E2) as (-> & -> & _).
    destruct E3 as [[-> _]|(_ & -> & Hle & Hc0 & Hc1)]; [lia|]. fold x in Hle, Hc0, Hc1 |- *.
    destruct Hx as [Hx|Hx]; [|lia]. rewrite Hx.
    destruct (Z.leb_spec x (len inp)); [|lia]. unfold slice_to.
    destruct (slice_is_Some inp 0 x) as [buf Hs]; [lia..|]. rewrite Hs. cbn [checked rbind].
    pose proof (slice_len _ _ _ _ Hs) as Hbl. apply slice_Some in Hs as (_ & _ & Hs).
    rewrite Z.sub_0_r, drop_0 in *.
    assert (forall j, j < x -> at_ buf j = at_ inp j) as Hat.
    { intros j Hj. rewrite Hs. apply at_take. lia. }
    rewrite !Hat, Hbl, Hc0, Hc1 by lia. done.
Qed.

(** ** Less input: an element does not depend on what follows it *)

Lemma element_bulk_take inp t n :
  len (inp ++ t) < 2 ^ 62 -> element_bulk (inp ++ t) = Ok n -> n <= len inp -> element_bulk inp = Ok n.
Proof.
  intros Hl Hn Hle. pose proof (len_nonneg t).
  assert (len inp < 2 ^ 62) as Hl' by (rewrite len_app in Hl; lia).
  apply (element_bulk_Ok _ _ Hl) in Hn as (idx & num & sz & Hi & Hi1 & Hnum & Ha & Hsz).
  apply element_bulk_Ok; [done|]. exists idx, num, sz.
  assert (Z.of_nat idx + 2 <= len inp) by lia.
  split_and!; try done.
  - eapply index_of_app_inv; [done|]. simpl. unfold len in *. lia.
  - by rewrite slice_app_le in Hnum by lia.
  - destruct Hsz as [?|(? & ? & ? & Hc0 & Hc1)]; [by left|right].
    rewrite !at_app_lt in * by lia. by split_and!.
Qed.

Lemma element_line_take inp t n :
  element_line (inp ++ t) = Ok n -> n <= len inp -> element_line inp = Ok n.
Proof.
  unfold element_line. destruct (index_of crlf (inp ++ t)) as [[|k]|] eqn:Hi; try done.
  intros [= <-] Hle. rewrite (index_of_app_inv _ _ _ _ Hi); [done|]. simpl. unfold len in *. lia.
Qed.

Lemma element_array_take inp t count c :
  element_array (inp ++ t) = Ok (count, c) -> c <= len inp -> element_array inp = Ok (count, c).
Proof.
  unfold element_array. destruct (index_of crlf (inp ++ t)) as [[|k]|] eqn:Hi; try done.
  intros Ha Hle.
  assert (c = Z.of_nat (S k) + 2) as ->.
  { destruct (slice _ _ _); [|done]. cbn [checked rbind] in Ha.
    destruct (strconv.Atoi _) as [? [e|]]; [done|]. by injection Ha. }
  rewrite (index_of_app_inv _ _ _ _ Hi) by (simpl; unfold len in *; lia).
  by rewrite slice_app_le in Ha by lia.
Qed.

Lemma read_take fuel :
  (forall inp t n, len (inp ++ t) < 2 ^ 62 -> read_element fuel (inp ++ t) = Ok n -> n <= len inp ->
     readElement inp = Ok n) /\
  (forall count c inp t n, len (inp ++ t) < 2 ^ 62 -> 0 <= c <= len inp ->
     read_elements fuel count c (inp ++ t) = Ok n -> n <= len inp ->
     readElements count c inp = Ok n).
Proof.
  induction fuel as [|fuel [IHe IHs]]; [by split|]. split.
  - intros inp t n Hl Hn Hle. pose proof (proj1 (read_ok (S fuel)) _ _ Hn) as [Hpos _].
    rewrite readElement_eq. destruct inp as [|h inp]; [change (len []) with 0 in Hle; lia|].
    cbn [read_element app] in Hn. change (h :: inp ++ t) with ((h :: inp) ++ t) in *.
    destruct (h =? 36); [by eapply element_bulk_take|].
    destruct (_ || _); [by eapply element_line_take|]. destruct (h =? 42); [|done].
    destruct (element_array ((h :: inp) ++ t)) as [[count c]|e| |] eqn:Ha; try done. cbn [rbind] in Hn.
    pose proof (element_array_ok _ _ _ Ha) as Hc.
    pose proof (proj2 (read_ok fuel) _ _ _ _ (conj (Z.lt_le_incl _ _ (proj1 Hc)) (proj2 Hc)) Hn) as Hcn.
    rewrite (element_array_take _ _ _ _ Ha) by lia. cbn [rbind]. by apply (IHs _ _ _ t); [|lia|..].
  - intros count c inp t n Hl Hc Hn Hle. rewrite readElements_eq by done.
    cbn [read_elements] in Hn. destruct (0 <? count); [|done].
    destruct (slice_from (inp ++ t) c) as [rest|] eqn:Hr; [|done]. cbn [checked rbind] in Hn.
    apply slice_from_Some in Hr as [Hc' Hr]. rewrite drop_app_le in Hr by (unfold len in *; lia).
    destruct (read_element fuel rest) as [x|e| |] eqn:Hx; try done. cbn [rbind] in Hn.
    pose proof (proj1 (read_ok fuel) _ _ Hx) as Hxb.
    assert (len rest = len inp - c + len t) as Hlr by (rewrite Hr, len_app, len_drop; lia).
    rewrite len_app in Hl, Hc'.
    pose proof (proj2 (read_ok fuel) (count - 1) (c + x) (inp ++ t) n) as Hb. rewrite len_app in Hb.
    specialize (Hb ltac:(lia) Hn).
    assert (len (drop (Z.to_nat c) inp) = len inp - c) as Hld by (rewrite len_drop; lia).
    rewrite Hr in Hx. rewrite (IHe _ t x); [|rewrite len_app; lia|done|lia]. cbn [rbind].
    apply (IHs _ _ _ t); [rewrite len_app; lia|lia|done|lia].
Qed.

Lemma readElement_take inp t n :
  len (inp ++ t) < 2 ^ 62 -> readElement (inp ++ t) = Ok n -> n <= len inp -> readElement inp = Ok n.
Proof. apply (proj1 (read_take _)). Qed.

(** ** Reading what was measured *)

(** A buffer that is a sequence of elements. *)
Inductive elements : bytes -> Prop :=
| elements_nil : elements []
| elements_cons e l : readElement e = Ok (len e) -> elements l -> elements (e ++ l).

Lemma readElements_elements k inp count c n :
  len inp < 2 ^ 62 -> 0 <= c <= len inp -> count <= Z.of_nat k ->
  readElements count c inp = Ok n ->
  elements (take (Z.to_nat (n - c)) (drop (Z.to_nat c) inp)) /\
  skip_elements (S k) count c inp = Ok n.
Proof.
  intros Hl. revert count c. induction k as [|k IH]; intros count c Hc Hk Hn;
    rewrite readElements_eq in Hn by done; cbn [skip_elements].
  - destruct (Z.ltb_spec 0 count); [lia|]. injection Hn as <-. rewrite Z.sub_diag, take_0.
    split; [constructor|done].
  - destruct (Z.ltb_spec 0 count).
    2: { injection Hn as <-. rewrite Z.sub_diag, take_0. split; [constructor|done]. }
    unfold slice_from. destruct (slice_from_is_Some inp c Hc) as [rest Hr]. unfold slice_from in Hr.
    rewrite Hr. fold (slice_from inp c) in Hr. apply slice_from_Some in Hr as [_ ->].
    cbn [checked rbind]. set (rest := drop (Z.to_nat c) inp) in *.
    assert (len rest = len inp - c) as Hlr by (unfold rest; rewrite len_drop; lia).
    destruct (readElement rest) as [x|e| |] eqn:Hx; try done. cbn [rbind] in *.
    pose proof (readElement_ok _ _ Hx) as Hxb.
    pose proof (readElements_ok (count - 1) (c + x) inp n ltac:(lia) Hn) as Hnb.
    destruct (IH (count - 1) (c + x) ltac:(lia) ltac:(lia) Hn) as [He Hs]. split; [|exact Hs].
    rewrite <- (take_drop (Z.to_nat x) rest), take_app_ge by (rewrite length_take; lia).
    constructor.
    + assert (len (take (Z.to_nat x) rest) = x) as Hlt by (rewrite len_take; lia). rewrite Hlt.
      apply (readElement_take _ (drop (Z.to_nat x) rest)); rewrite ?take_drop; [lia|done|lia].
    + unfold rest in *. rewrite drop_drop in *. rewrite length_take, length_drop.
      replace (Z.to_nat c + Z.to_nat x)%nat with (Z.to_nat (c + x)) by lia.
      replace (Z.to_nat (n - c) - Z.to_nat x `min` (length inp - Z.to_nat c))%nat
        with (Z.to_nat (n - (c + x))) by (unfold len in *; lia). done.
Qed.

(** A measured buffer is read without a panic, to its end. *)
Lemma readNext_measured inp n :
  len inp < 2 ^ 62 -> readElement inp = Ok n ->
  exists a, readNext (mkReader inp) = Ok (mkReader (drop (Z.to_nat n) inp), a) /\
    forall d, a.2 = Some d -> elements d.(buf) /\ len d.(buf) <= len inp.
Proof.
  intros Hl Hn. rewrite readElement_eq in Hn. destruct inp as [|h inp]; [done|].
  unfold readNext. cbn [buf]. set (l := h :: inp) in *.
  destruct (h =? 36).
  { apply (element_bulk_Ok _ _ Hl) in Hn as (idx & num & sz & Hi & Hi1 & Hnum & Ha & Hsz).
    pose proof (index_of_bound _ _ _ Hi) as Hb. cbn [length crlf] in Hb.
    rewrite Hi, Hnum. cbn [checked rbind]. rewrite Ha. cbn [fst].
    destruct Hsz as [[-> ->]|(Hsz & Hn & Hle & _)].
    - cbn [Z.eqb Pos.eqb]. destruct (slice_from_is_Some l (Z.of_nat idx + 2)) as [b Hb'];
        [unfold len; lia|]. rewrite Hb'. apply slice_from_Some in Hb' as [_ ->]. by eexists.
    - destruct (Z.eqb_spec sz (-1)); [lia|]. rewrite !i64_small by lia.
      destruct (slice_is_Some l (Z.of_nat idx + 2) (Z.of_nat idx + 2 + sz)) as [d ->]; [lia..|].
      rewrite <- Hn. destruct (slice_from_is_Some l n) as [b Hb']; [lia|].
      cbn [checked rbind]. rewrite Hb'. apply slice_from_Some in Hb' as [_ ->]. by eexists. }
  destruct ((h =? 43) || (h =? 45) || (h =? 58)).
  { unfold element_line in Hn. destruct (index_of crlf l) as [[|k]|] eqn:Hi; try done.
    injection Hn as <-. pose proof (index_of_bound _ _ _ Hi) as Hb. cbn [length crlf] in Hb.
    destruct (slice_is_Some l 1 (Z.of_nat (S k))) as [d ->]; [lia|unfold len; lia|].
    destruct (slice_from_is_Some l (Z.of_nat (S k) + 2)) as [b Hb']; [unfold len; lia|].
    cbn [checked rbind]. rewrite Hb'. apply slice_from_Some in Hb' as [_ ->].
    destruct (h =? 43); [by eexists|]. by destruct (h =? 45); eexists. }
  destruct (h =? 42); [|done].
  destruct (element_array l) as [[count c]|e| |] eqn:Ha; try done. cbn [rbind] in Hn.
  pose proof (element_array_ok _ _ _ Ha) as Hc. unfold element_array in Ha.
  destruct (index_of crlf l) as [[|k]|] eqn:Hi; try done.
  destruct (slice l 1 (Z.of_nat (S k))) as [num|]; [|done]. cbn [checked rbind] in *.
  destruct (strconv.Atoi num) as [count' [e|]]; [done|]. injection Ha as -> <-. cbn [fst].
  set (c := Z.of_nat (S k) + 2) in *.
  destruct (readElements_elements (Z.to_nat count) l count c n Hl ltac:(lia) ltac:(lia) Hn) as [He ->].
  pose proof (readElements_ok count c l n ltac:(lia) Hn) as Hcn. cbn [rbind].
  destruct (slice_is_Some l c n) as [d Hd]; [lia..|]. rewrite Hd. cbn [checked rbind].
  apply slice_Some in Hd as (_ & _ & ->).
  destruct (slice_from_is_Some l n) as [b Hb']; [lia|]. rewrite Hb'. cbn [checked rbind].
  apply slice_from_Some in Hb' as [_ ->]. eexists. split; [done|].
  intros d [= <-]. split; [done|]. cbn [buf]. rewrite len_take, len_drop. lia.
Qed.

(** ** Replies *)

(** A reply as RESP has it, and its encoding. *)
Inductive reply :=
| RSimple (s : bytes)
| RError (s : bytes)
| RInt (i : Z)
| RBulk (b : bytes)
| RNull
| RArray (l : list reply).

Fixpoint enc (r : reply) : bytes :=
  match r with
  | RSimple s => 43 :: s ++ crlf
  | RError s => 45 :: s ++ crlf
  | RInt i => resp_header 58 i
  | RBulk b => bulk b
  | RNull => bs "$-1" ++ crlf
  | RArray l => resp_header 42 (len l) ++ concat (map enc l)
  end.

Fixpoint reply_ok (r : reply) : Prop :=
  match r with
  | RSimple s | RError s => CR ∉ s
  | RInt i => strconv.minInt64 <= i <= strconv.maxInt64
  | RBulk b => True
  | RNull => True
  | RArray l => foldr (fun r P => reply_ok r /\ P) True l
  end.

(** What [Next] makes of it: a null bulk string is read as an empty string. *)
Definition item_of (r : reply) : item :=
  match r with
  | RSimple s => IStr s
  | RError s => IErr s
  | RInt i => IInt i
  | RBulk b => IStr b
  | RNull => IStr []
  | RArray l => IArr (Some (mkReader (concat (map enc l))))
  end.

Section reply_ind.
Variable P : reply -> Prop.
Hypothesis HS : forall s, P (RSimple s).
Hypothesis HE : forall s, P (RError s).
Hypothesis HI : forall i, P (RInt i).
Hypothesis HB : forall b, P (RBulk b).
Hypothesis HN : P RNull.
Hypothesis HA : forall l, Forall P l -> P (RArray l).

Fixpoint reply_nested_ind (r : reply) : P r :=
  match r with
  | RSimple s => HS s
  | RError s => HE s
  | RInt i => HI i
  | RBulk b => HB b
  | RNull => HN
  | RArray l =>
      HA l ((fix go (l : list reply) : Forall P l :=
               match l with
               | [] => Forall_nil_2 P
               | r :: l => Forall_cons_2 P r l (reply_nested_ind r) (go l)
               end) l)
  end.
End reply_ind.

Lemma reply_ok_array l : reply_ok (RArray l) <-> Forall reply_ok l.
Proof.
  cbn [reply_ok]. induction l as [|r l IH]; cbn [foldr].
  - split; [constructor|done].
  - by rewrite Forall_cons, IH.
Qed.

Lemma enc_nonempty r : 0 < len (enc r).
Proof.
  destruct r; cbn [enc]; rewrite ?len_cons, ?len_app; change (len crlf) with 2;
    try (pose proof (len_nonneg s); lia).
  - unfold resp_header. rewrite len_cons. pose proof (len_nonneg (strconv.FormatInt 10 i ++ crlf)). lia.
  - unfold bulk. rewrite len_app. pose proof (len_resp_header 36 (len b)).
    pose proof (len_nonneg (b ++ crlf)). lia.
  - by vm_compute.
  - pose proof (len_resp_header 42 (len l)). pose proof (len_nonneg (concat (map enc l))). lia.
Qed.

(** The header [h N\r\n] at the start of an input. *)
Lemma header_at h v t :
  h <> CR -> strconv.minInt64 <= v <= strconv.maxInt64 ->
  exists k, index_of crlf (resp_header h v ++ t) = Some (S k) /\
    Z.of_nat (S k) + 2 = len (resp_header h v) /\
    slice (resp_header h v ++ t) 1 (Z.of_nat (S k)) = Some (strconv.FormatInt 10 v) /\
    strconv.Atoi (strconv.FormatInt 10 v) = (v, None).
Proof.
  intros Hh Hv. unfold resp_header. set (f := strconv.FormatInt 10 v).
  assert (CR ∉ h :: f) as HC
    by (apply not_elem_of_cons; split; [done|apply strconv.FormatInt_no_CR]).
  exists (length f). rewrite <- app_comm_cons, <- app_assoc.
  change (h :: f ++ crlf ++ t) with ((h :: f) ++ crlf ++ t).
  split_and!.
  - by rewrite index_crlf_app.
  - rewrite len_cons, len_app. change (len crlf) with 2. unfold len. lia.
  - apply (slice_middle [h] f (crlf ++ t)); [done|]. unfold len. cbn [length]. lia.
  - by apply strconv.ParseInt_FormatInt.
Qed.

Lemma line_at h s t :
  h <> CR -> (CR ∉ s) -> index_of crlf ((h :: s ++ crlf) ++ t) = Some (S (length s)).
Proof.
  intros Hh Hs. rewrite <- app_comm_cons, <- app_assoc.
  change (h :: s ++ crlf ++ t) with ((h :: s) ++ crlf ++ t).
  rewrite index_crlf_app; [done|]. by apply not_elem_of_cons.
Qed.

Lemma readElements_enc pre l rest :
  Forall (fun r => forall rest, reply_ok r -> len (enc r ++ rest) < 2 ^ 62 ->
            readElement (enc r ++ rest) = Ok (len (enc r))) l ->
  Forall reply_ok l -> len (pre ++ concat (map enc l) ++ rest) < 2 ^ 62 ->
  readElements (len l) (len pre) (pre ++ concat (map enc l) ++ rest)
  = Ok (len (pre ++ concat (map enc l))).
Proof.
  intros Hl Hok. revert pre. induction l as [|r l IH]; intros pre Hlen.
  - rewrite readElements_eq.
    + cbn [map concat]. by rewrite app_nil_r.
    + rewrite len_app. pose proof (len_nonneg pre).
      pose proof (len_nonneg (concat (map enc []) ++ rest)). lia.
  - apply Forall_cons in Hl as [Hr Hl]. apply Forall_cons in Hok as [Hrok Hok].
    cbn [map concat] in *. rewrite <- app_assoc in *.
    pose proof (len_nonneg pre). pose proof (len_nonneg (enc r ++ concat (map enc l) ++ rest)).
    rewrite readElements_eq by (rewrite len_app; lia). rewrite len_cons. pose proof (len_nonneg l).
    destruct (Z.ltb_spec 0 (1 + len l)); [|lia].
    rewrite drop_len_app.
    rewrite Hr by (done || rewrite len_app in Hlen; lia). cbn [rbind].
    replace (1 + len l - 1) with (len l) by lia.
    rewrite <- len_app, (app_assoc pre (enc r)). rewrite (app_assoc pre (enc r)) in Hlen.
    rewrite (app_assoc pre (enc r) (concat (map enc l))). by apply IH.
Qed.

Lemma readElement_enc r rest :
  reply_ok r -> len (enc r ++ rest) < 2 ^ 62 -> readElement (enc r ++ rest) = Ok (len (enc r)).
Proof.
  revert rest. induction r as [s|s|i|b| |l IH] using reply_nested_ind; intros rest Hok Hl;
    rewrite readElement_eq.
  - cbn [enc app]. cbn [Z.eqb Pos.eqb orb]. unfold element_line.
    change (43 :: (s ++ crlf) ++ rest) with ((43 :: s ++ crlf) ++ rest).
    rewrite line_at by done. f_equal. rewrite len_cons, len_app. change (len crlf) with 2.
    unfold len. lia.
  - cbn [enc app]. cbn [Z.eqb Pos.eqb orb]. unfold element_line.
    change (45 :: (s ++ crlf) ++ rest) with ((45 :: s ++ crlf) ++ rest).
    rewrite line_at by done. f_equal. rewrite len_cons, len_app. change (len crlf) with 2.
    unfold len. lia.
  - cbn [enc]. destruct (header_at 58 i rest ltac:(done) Hok) as (k & Hi & Hk & _).
    unfold element_line, resp_header in *. cbn [app] in *. cbn [Z.eqb Pos.eqb orb].
    rewrite Hi. by rewrite <- Hk.
  - cbn [enc] in *. unfold bulk in *. rewrite <- !app_assoc in *.
    pose proof (len_nonneg b). pose proof (len_nonneg rest).
    assert (strconv.minInt64 <= len b <= strconv.maxInt64) as Hb.
    { rewrite !len_app in Hl. unfold strconv.minInt64, strconv.maxInt64.
      pose proof (len_resp_header 36 (len b)). change (len crlf) with 2 in Hl. lia. }
    destruct (header_at 36 (len b) (b ++ crlf ++ rest) ltac:(done) Hb) as (k & Hi & Hk & Hs & Ha).
    set (h := resp_header 36 (len b)) in *. set (x := h ++ b ++ crlf ++ rest) in *.
    assert (match x with [] => Err rWaitMore | c :: _ =>
              if c =? 36 then element_bulk x
              else if (c =? 43) || (c =? 45) || (c =? 58) then element_line x
              else if c =? 42 then let! (count, c) := element_array x in readElements count c x
              else Err (rFirstByte c) end = element_bulk x) as -> by done.
    apply element_bulk_Ok; [done|]. exists (S k), (strconv.FormatInt 10 (len b)), (len b).
    split_and!; try done; [lia|]. right.
    assert (len (h ++ b ++ crlf) = len h + len b + 2) as E
      by (rewrite !len_app; change (len crlf) with 2; lia).
    rewrite E. split_and!; [lia|lia|unfold x; rewrite !len_app; change (len crlf) with 2; lia|..].
    + unfold x. rewrite (app_assoc h b). replace (len h + len b + 2 - 2) with (len (h ++ b))
        by (rewrite len_app; lia). apply at_middle.
    + unfold x. replace (h ++ b ++ crlf ++ rest) with ((h ++ b ++ [CR]) ++ LF :: rest) by by app_norm.
      replace (len h + len b + 2 - 1) with (len (h ++ b ++ [CR]))
        by (rewrite !len_app; change (len [CR]) with 1; lia). apply at_middle.
  - cbn [enc app] in *. cbn [Z.eqb Pos.eqb orb].
    apply element_bulk_Ok; [done|]. exists 3%nat, (bs "-1"), (-1).
    assert (slice (bs "$" ++ bs "-1" ++ (crlf ++ rest)) 1 (Z.of_nat 3) = Some (bs "-1")) as E
      by (by apply slice_middle).
    split_and!; [by destruct rest|lia|exact E|done|by left].
  - apply reply_ok_array in Hok. cbn [enc] in *. rewrite <- app_assoc in *.
    pose proof (len_nonneg l). pose proof (len_nonneg rest).
    assert (strconv.minInt64 <= len l <= strconv.maxInt64) as Hb.
    { rewrite !len_app in Hl. assert (len l <= len (concat (map enc l))) as Hle.
      { clear. induction l as [|r l IH]; [done|]. cbn [map concat]. rewrite len_cons, len_app.
        pose proof (enc_nonempty r). lia. }
      unfold strconv.minInt64, strconv.maxInt64. pose proof (len_resp_header 42 (len l)). lia. }
    destruct (header_at 42 (len l) (concat (map enc l) ++ rest) ltac:(done) Hb)
      as (k & Hi & Hk & Hs & Ha).
    set (h := resp_header 42 (len l)) in *. set (x := h ++ concat (map enc l) ++ rest) in *.
    assert (match x with [] => Err rWaitMore | c :: _ =>
              if c =? 36 then element_bulk x
              else if (c =? 43) || (c =? 45) || (c =? 58) then element_line x
              else if c =? 42 then let! (count, c) := element_array x in readElements count c x
              else Err (rFirstByte c) end
            = let! (count, c) := element_array x in readElements count c x) as -> by done.
    assert (element_array x = Ok (len l, len h)) as ->.
    { unfold element_array. rewrite Hi, Hs. cbn [checked rbind]. by rewrite Ha, Hk. }
    cbn [rbind]. by apply readElements_enc.
Qed.

Lemma Next_enc r rest :
  reply_ok r -> len (enc r ++ rest) < 2 ^ 62 ->
  Next (mkReader (enc r ++ rest)) = Ok (mkReader rest, item_of r).
Proof.
  intros Hok Hl. pose proof (readElement_enc r rest Hok Hl) as Hm.
  unfold Next, readNext. cbn [buf].
  assert (forall x n, x = enc r ++ rest -> n = len (enc r) -> slice_from x n = Some rest) as Hrest
    by (intros x n -> ->; by apply slice_suffix).
  destruct r as [s|s|i|b| |l]; cbn [enc item_of] in *.
  - pose proof (line_at 43 s rest ltac:(done) Hok) as Hi. set (x := (43 :: s ++ crlf) ++ rest) in *.
    change x with (43 :: (s ++ crlf) ++ rest) at 1. cbn [Z.eqb Pos.eqb orb]. rewrite Hi.
    assert (slice x 1 (Z.of_nat (S (length s))) = Some s) as ->.
    { unfold x. cbn [app]. rewrite <- app_assoc. apply (slice_middle [43] s); [done|].
      change (len [43]) with 1. unfold len. lia. }
    cbn [checked rbind].
    rewrite Hrest; [done|done|]. rewrite len_cons, len_app. change (len crlf) with 2. unfold len. lia.
  - pose proof (line_at 45 s rest ltac:(done) Hok) as Hi. set (x := (45 :: s ++ crlf) ++ rest) in *.
    change x with (45 :: (s ++ crlf) ++ rest) at 1. cbn [Z.eqb Pos.eqb orb]. rewrite Hi.
    assert (slice x 1 (Z.of_nat (S (length s))) = Some s) as ->.
    { unfold x. cbn [app]. rewrite <- app_assoc. apply (slice_middle [45] s); [done|].
      change (len [45]) with 1. unfold len. lia. }
    cbn [checked rbind].
    rewrite Hrest; [done|done|]. rewrite len_cons, len_app. change (len crlf) with 2. unfold len. lia.
  - destruct (header_at 58 i rest ltac:(done) Hok) as (k & Hi & Hk & Hs & Ha).
    set (h := resp_header 58 i) in *. set (x := h ++ rest) in *.
    change x with (58 :: (strconv.FormatInt 10 i ++ crlf) ++ rest) at 1. cbn [Z.eqb Pos.eqb orb].
    rewrite Hi, Hs. cbn [checked rbind]. rewrite Hk, Hrest by done. cbn [checked rbind].
    unfold strconv.Atoi in Ha. by rewrite Ha.
  - unfold bulk in *. rewrite <- !app_assoc in *. pose proof (len_nonneg b). pose proof (len_nonneg rest).
    assert (strconv.minInt64 <= len b <= strconv.maxInt64) as Hb.
    { rewrite !len_app in Hl. unfold strconv.minInt64, strconv.maxInt64.
      pose proof (len_resp_header 36 (len b)). change (len crlf) with 2 in Hl. lia. }
    destruct (header_at 36 (len b) (b ++ crlf ++ rest) ltac:(done) Hb) as (k & Hi & Hk & Hs & Ha).
    set (h := resp_header 36 (len b)) in *. set (x := h ++ b ++ crlf ++ rest) in *.
    change x with (36 :: (strconv.FormatInt 10 (len b) ++ crlf) ++ b ++ crlf ++ rest) at 1.
    cbn [Z.eqb Pos.eqb]. rewrite Hi, Hs. cbn [checked rbind]. rewrite Ha. cbn [fst].
    destruct (Z.eqb_spec (len b) (-1)); [lia|]. rewrite Hk.
    unfold x in Hl. rewrite !len_app in Hl. change (len crlf) with 2 in Hl. pose proof (len_nonneg h).
    rewrite !i64_small by lia. unfold x at 1. rewrite (slice_middle h b) by done. cbn [checked rbind].
    rewrite Hrest; [done|unfold x; by app_norm|]. rewrite !len_app. change (len crlf) with 2. lia.
  - assert (slice (bs "$" ++ bs "-1" ++ (crlf ++ rest)) 1 (Z.of_nat 3) = Some (bs "-1")) as E
      by (by apply slice_middle).
    change ((bs "$-1" ++ crlf) ++ rest) with (bs "$" ++ bs "-1" ++ crlf ++ rest) in *.
    set (x := bs "$" ++ bs "-1" ++ crlf ++ rest) in *.
    assert (index_of crlf x = Some 3%nat) as Hi by (by destruct rest).
    change x with (36 :: bs "-1" ++ crlf ++ rest) at 1. cbn [Z.eqb Pos.eqb]. rewrite Hi, E.
    cbn [checked rbind]. change (strconv.Atoi (bs "-1")).1 with (-1). cbn [Z.eqb Pos.eqb].
    by rewrite Hrest.
  - apply reply_ok_array in Hok. rewrite <- app_assoc in *. pose proof (len_nonneg l).
    assert (strconv.minInt64 <= len l <= strconv.maxInt64) as Hb.
    { rewrite !len_app in Hl. assert (len l <= len (concat (map enc l))) as Hle.
      { clear. induction l as [|r l IH]; [done|]. cbn [map concat]. rewrite len_cons, len_app.
        pose proof (enc_nonempty r). lia. }
      unfold strconv.minInt64, strconv.maxInt64. pose proof (len_resp_header 42 (len l)).
      pose proof (len_nonneg rest). lia. }
    destruct (header_at 42 (len l) (concat (map enc l) ++ rest) ltac:(done) Hb)
      as (k & Hi & Hk & Hs & Ha).
    set (h := resp_header 42 (len l)) in *. set (x := h ++ concat (map enc l) ++ rest) in *.
    change x with (42 :: (strconv.FormatInt 10 (len l) ++ crlf) ++ concat (map enc l) ++ rest) at 1.
    cbn [Z.eqb Pos.eqb orb]. rewrite Hi, Hs. cbn [checked rbind]. rewrite Ha, Hk. cbn [fst].
    assert (readElements (len l) (len h) x = Ok (len (h ++ concat (map enc l)))) as He.
    { apply readElements_enc; [|done|done]. apply Forall_forall. intros r _ rest' ? ?.
      by apply readElement_enc. }
    assert (0 <= len h <= len x) as Hhx.
    { unfold x. rewrite len_app. pose proof (len_nonneg h).
      pose proof (len_nonneg (concat (map enc l) ++ rest)). lia. }
    destruct (readElements_elements (Z.to_nat (len l)) x (len l) (len h) _ Hl Hhx ltac:(lia) He)
      as [_ Hsk].
    rewrite Hsk. cbn [rbind]. unfold x at 1.
    rewrite (slice_middle h (concat (map enc l))) by (rewrite ?len_app; lia). cbn [checked rbind].
    rewrite Hrest; [done|unfold x; by app_norm|done].
Qed.

Lemma next_items_enc l :
  Forall reply_ok l -> len (concat (map enc l)) < 2 ^ 62 ->
  next_items (S (length l)) (mkReader (concat (map enc l))) = Ok (map item_of l).
Proof.
  induction l as [|r l IH]; intros Hok Hl; [done|].
  apply Forall_cons in Hok as [Hr Hok]. cbn [length map concat] in *.
  change (next_items (S (S (length l))) (mkReader (enc r ++ concat (map enc l))))
    with (let! (r, a) := Next (mkReader (enc r ++ concat (map enc l))) in
          match a with
          | INil => Ok []
          | a => let! l := next_items (S (length l)) r in Ok (a :: l)
          end).
  rewrite Next_enc by done. cbn [rbind]. rewrite len_app in Hl. pose proof (len_nonneg (enc r)).
  rewrite IH by (done || lia). by destruct r.
Qed.

Lemma Next_not_nil inp r a :
  inp <> [] -> Next (mkReader inp) = Ok (r, a) -> a <> INil.
Proof.
  intros Hne. unfold Next, readNext. cbn [buf]. destruct inp as [|h inp]; [done|].
  set (x := h :: inp). set (idx := match index_of crlf x with Some i => Z.of_nat i | None => -1 end).
  destruct (h =? 36).
  - destruct (slice x 1 idx) as [num|]; [|done]. cbn [checked rbind]. destruct (_ =? -1).
    + destruct (slice_from x _); [|done]. by intros [= <- <-].
    + destruct (slice x _ _); [|done]. cbn [checked rbind].
      destruct (slice_from x _); [|done]. by intros [= <- <-].
  - destruct (_ || _).
    + destruct (slice x 1 idx); [|done]. cbn [checked rbind].
      destruct (slice_from x _); [|done]. cbn [checked rbind].
      destruct (h =? 43); [by intros [= <- <-]|]. destruct (h =? 45); by intros [= <- <-].
    + destruct (h =? 42); [|done]. destruct (slice x 1 idx); [|done]. cbn [checked rbind].
      destruct (skip_elements _ _ _ _) as [c|e| |]; try done. cbn [rbind].
      destruct (slice x _ c); [|done]. cbn [checked rbind].
      destruct (slice_from x c); [|done]. by intros [= <- <-].
Qed.

(** Walking over a sequence of elements neither panics nor goes on forever. *)
Lemma next_items_elements b fuel :
  elements b -> len b < 2 ^ 62 -> (length b < fuel)%nat ->
  exists l, next_items fuel (mkReader b) = Ok l.
Proof.
  intros He. revert fuel. induction He as [|e b He _ IH]; intros fuel Hl Hf.
  { destruct fuel; [lia|]. by eexists. }
  pose proof (readElement_ok _ _ He) as [Hpos _].
  assert (readElement (e ++ b) = Ok (len e)) as Hm by (by rewrite readElement_app, He by (by rewrite He)).
  destruct (readNext_measured _ _ Hl Hm) as (a & Hn & _). rewrite drop_len_app in Hn.
  destruct fuel as [|fuel]; [lia|]. cbn [next_items].
  destruct (Next (mkReader (e ++ b))) as [[r it]|?| |] eqn:Hx; unfold Next in Hx; rewrite Hn in Hx;
    cbn [rbind] in Hx; destruct a as [[[ty i] s] d]; try done.
  assert (it <> INil) as Hit.
  { apply (Next_not_nil (e ++ b) r); [|unfold Next; rewrite Hn; exact Hx].
    intros E. apply app_eq_nil in E as [-> _]. done. }
  injection Hx as <- Hx. clear Hx. cbn [rbind].
  rewrite length_app in Hf. unfold len in Hpos. rewrite len_app in Hl. pose proof (len_nonneg e).
  destruct (IH fuel) as [l Hil]; [lia..|]. rewrite Hil. destruct it; try done; by eexists.
Qed.

(** A strict prefix of a reply is waited on. *)
Lemma readElement_strict r p q :
  reply_ok r -> len (enc r) < 2 ^ 62 -> enc r = p ++ q -> q <> [] ->
  readElement p = Err rWaitMore.
Proof.
  intros Hok Hl Hpq Hq. destruct (decide (readElement p = Err rWaitMore)) as [|Hw]; [done|].
  exfalso. pose proof (readElement_app p q Hw) as Ha. rewrite <- Hpq in Ha.
  rewrite <- (app_nil_r (enc r)) in Ha. rewrite readElement_enc in Ha by (rewrite ?app_nil_r; done).
  symmetry in Ha. apply readElement_ok in Ha. rewrite Hpq, len_app in Ha.
  apply Hq, len_0_inv. pose proof (len_nonneg q). lia.
Qed.

(** What [err()] answers on a reply, and the reader it leaves. *)
Definition error_of (r : reply) : option bytes := match r with RError s => Some s | _ => None end.
Definition reader_of (r : reply) : Reader :=
  mkReader match r with RError _ => [] | _ => enc r end.

Lemma err_enc r :
  reply_ok r -> len (enc r) < 2 ^ 62 -> err (mkReader (enc r)) = Ok (reader_of r, error_of r).
Proof.
  intros Hok Hl. pose proof (Next_enc r [] Hok) as Hn. rewrite app_nil_r in Hn. specialize (Hn Hl).
  unfold Next in Hn. unfold err.
  destruct (readNext (mkReader (enc r))) as [[r' [[[typ i] d] a]]| | |]; try done.
  cbn [rbind] in *. injection Hn as -> Hi.
  destruct (Z.eqb_spec typ tyS) as [->|]; [by destruct r|].
  destruct (Z.eqb_spec typ tyI) as [->|]; [by destruct r|].
  destruct (Z.eqb_spec typ tyE) as [->|]; [destruct r; try done; by injection Hi as ->|].
  destruct (Z.eqb_spec typ tyN) as [->|]; by destruct r.
Qed.

(** ** Properties *)

(** C30: [readElement] measures a reply of any shape, nested arrays included,
    whatever follows it. *)
Theorem readElement_reply r rest :
  reply_ok r -> len (enc r ++ rest) < 2 ^ 62 -> readElement (enc r ++ rest) = Ok (len (enc r)).
Proof. apply readElement_enc. Qed.

(** what is left to read of a reply is never forgotten: on a strict prefix
    of a reply the answer is "wait for more". *)
Theorem readElement_prefix r p q :
  reply_ok r -> len (enc r) < 2 ^ 62 -> enc r = p ++ q -> q <> [] ->
  readElement p = Err rWaitMore.
Proof. apply readElement_strict. Qed.

(** C39: totality and stability on arbitrary bytes: [readElement] ends (its
    recursion and its loop have fuel enough), the width it answers lies in the
    input, and an answer other than "wait for more" does not change when more
    bytes arrive. *)
Theorem readElement_total inp :
  readElement inp <> OutOfFuel /\
  (forall n, readElement inp = Ok n -> 0 < n <= len inp) /\
  (forall t, readElement inp <> Err rWaitMore -> readElement (inp ++ t) = readElement inp).
Proof.
  split_and!; [apply readElement_fuel|apply readElement_ok|intros t; apply readElement_app].
Qed.

(** C31: [Reader] reads back what the server sent: [Next] answers the value of the
    reply and leaves what follows it; an array answers a reader whose items are
    the values of its elements, in order. *)
Theorem Next_reply r rest :
  reply_ok r -> len (enc r ++ rest) < 2 ^ 62 ->
  Next (mkReader (enc r ++ rest)) = Ok (mkReader rest, item_of r) /\
  forall l d, r = RArray l -> item_of r = IArr (Some d) ->
    next_items (S (length l)) d = Ok (map item_of l).
Proof.
  intros Hok Hl. split; [by apply Next_enc|]. intros l d -> [= <-].
  apply next_items_enc; [by apply reply_ok_array|].
  cbn [enc] in Hl. rewrite !len_app in Hl. pose proof (len_nonneg rest).
  pose proof (len_nonneg (resp_header 42 (len l))). lia.
Qed.

(** What was measured is read to its end. *)
Lemma readNext_take inp n :
  len inp < 2 ^ 62 -> readElement inp = Ok n ->
  exists a, readNext (mkReader (take (Z.to_nat n) inp)) = Ok (mkReader [], a) /\
    forall d, a.2 = Some d -> elements d.(buf) /\ len d.(buf) < 2 ^ 62.
Proof.
  intros Hl Hn. pose proof (readElement_ok _ _ Hn) as Hnb.
  assert (len (take (Z.to_nat n) inp) = n) as Ht by (rewrite len_take; lia).
  assert (readElement (take (Z.to_nat n) inp) = Ok n) as Hm.
  { apply (readElement_take _ (drop (Z.to_nat n) inp)); rewrite ?take_drop; [done|done|lia]. }
  destruct (readNext_measured (take (Z.to_nat n) inp) n ltac:(lia) Hm) as (a & Ha & Hd).
  exists a. rewrite drop_ge in Ha by (rewrite length_take; lia). split; [done|].
  intros d Had. destruct (Hd _ Had). split; [done|lia].
Qed.

Lemma err_take inp n :
  len inp < 2 ^ 62 -> readElement inp = Ok n ->
  exists re, err (mkReader (take (Z.to_nat n) inp)) = Ok re.
Proof.
  intros Hl Hn. destruct (readNext_take inp n Hl Hn) as ([[[typ k] d] a] & Ha & _).
  unfold err. rewrite Ha. cbn [rbind]. destruct (typ =? tyE); by eexists.
Qed.

(** whatever bytes a server sends, the reader of a measured reply does not
    panic: it is read to its end, and so are the items of the array that it may
    be. *)
Theorem readNext_accepted inp n :
  len inp < 2 ^ 62 -> readElement inp = Ok n ->
  exists a, readNext (mkReader (take (Z.to_nat n) inp)) = Ok (mkReader [], a) /\
    forall d, a.2 = Some d -> exists l, next_items (S (length d.(buf))) d = Ok l.
Proof.
  intros Hl Hn. destruct (readNext_take inp n Hl Hn) as (a & Ha & Hd). exists a. split; [done|].
  intros [d] Had. destruct (Hd _ Had). cbn [buf] in *. apply next_items_elements; [done|lia|lia].
Qed.

(** a length so large that the end of the bulk string overflows makes
    [readElement] panic instead of waiting: [in] is sliced up to a negative
    bound. *)
Theorem readElement_overflow n rest :
  let hdr := resp_header 36 n in
  2 ^ 63 <= len hdr + n + 2 -> n < 2 ^ 63 -> len (hdr ++ rest) < 2 ^ 62 ->
  readElement (hdr ++ rest) = Panic.
Proof.
  intros hdr Hn1 Hn2 Hl. pose proof (len_nonneg rest).
  assert (len hdr < 2 ^ 62) as Hh by (rewrite len_app in Hl; lia).
  assert (0 <= n) as Hn0 by lia.
  destruct (header_at 36 n rest ltac:(done)) as (k & Hi & Hk & Hs & Ha);
    [unfold strconv.minInt64, strconv.maxInt64; lia|].
  fold hdr in Hi, Hk, Hs. rewrite readElement_eq. set (x := hdr ++ rest) in *.
  assert (match x with [] => Err rWaitMore | c :: _ =>
            if c =? 36 then element_bulk x
            else if (c =? 43) || (c =? 45) || (c =? 58) then element_line x
            else if c =? 42 then let! (count, c) := element_array x in readElements count c x
            else Err (rFirstByte c) end = element_bulk x) as -> by done.
  unfold element_bulk. rewrite Hi. cbn zeta. rewrite Hs. cbn [checked rbind]. rewrite Ha.
  destruct (Z.eqb_spec n (-1)); [lia|]. destruct (Z.ltb_spec n 0); [lia|]. rewrite Hk.
  assert (i64 (len hdr + n + 2) < 0) as Hneg.
  { unfold i64. rewrite <- (Z.mod_unique (len hdr + n + 2 + 2 ^ 63) (2 ^ 64) 1 (len hdr + n + 2 - 2 ^ 63)); lia. }
  destruct (Z.leb_spec (i64 (len hdr + n + 2)) (len x)); [|pose proof (len_nonneg x); lia].
  unfold slice_to, slice. by rewrite bool_decide_false by lia.
Qed.

(** a null bulk string and an empty one are told apart only by [IsNil], and
    only when the reader holds nothing else: [Next], [Str] and [Bytes] up to the
    [nil] slice answer the same for both, so a null element of an array is read
    as an empty string. *)
Theorem Next_null rest :
  len rest < 2 ^ 61 ->
  Next (mkReader (enc RNull ++ rest)) = Ok (mkReader rest, IStr []) /\
  Next (mkReader (enc (RBulk []) ++ rest)) = Ok (mkReader rest, IStr []) /\
  IsNil (mkReader (enc RNull ++ rest)) = bool_decide (rest = []).
Proof.
  intros Hl. split_and!.
  - apply (Next_enc RNull); [done|]. rewrite len_app. change (len (enc RNull)) with 5. lia.
  - apply (Next_enc (RBulk [])); [done|]. rewrite len_app. change (len (enc (RBulk []))) with 6. lia.
  - unfold IsNil. apply bool_decide_ext. cbn [buf enc]. split; [|by intros ->].
    intros E%(f_equal len). rewrite len_app in E. apply len_0_inv.
    change (len (bs "$-1" ++ crlf)) with 5 in E. lia.
Qed.

(** ** Witnesses *)

Definition ex_reply : reply :=
  RArray [RBulk (bs "a" ++ crlf); RArray [RInt (-7); RNull]; RSimple (bs "OK"); RError (bs "ERR x")].

Lemma ex_reply_ok : reply_ok ex_reply.
Proof. cbn. split_and!; try done; compute_done. Qed.

Lemma readElement_reply_witness : readElement (enc ex_reply ++ bs "+") = Ok (len (enc ex_reply)).
Proof. apply (readElement_reply ex_reply (bs "+") ex_reply_ok). by vm_compute. Defined.

Lemma readElement_prefix_witness :
  readElement (take 30 (enc ex_reply)) = Err rWaitMore.
Proof.
  apply (readElement_prefix ex_reply (take 30 (enc ex_reply)) (drop 30 (enc ex_reply)) ex_reply_ok);
    by vm_compute.
Defined.

Lemma Next_reply_witness :
  Next (mkReader (enc ex_reply ++ bs "+")) = Ok (mkReader (bs "+"), item_of ex_reply) /\
  forall l d, ex_reply = RArray l -> item_of ex_reply = IArr (Some d) ->
    next_items (S (length l)) d = Ok (map item_of l).
Proof. apply (Next_reply ex_reply (bs "+") ex_reply_ok). by vm_compute. Defined.

Lemma readNext_accepted_witness :
  exists a, readNext (mkReader (bs "*-5" ++ crlf)) = Ok (mkReader [], a) /\
    forall d, a.2 = Some d -> exists l, next_items (S (length d.(buf))) d = Ok l.
Proof. apply (readNext_accepted (bs "*-5" ++ crlf ++ bs "+OK") 5); by vm_compute. Defined.

Lemma readElement_overflow_witness :
  readElement (bs "$9223372036854775807" ++ crlf ++ bs "x") = Panic.
Proof. apply (readElement_overflow (2 ^ 63 - 1) (bs "x")); by vm_compute. Defined.

Lemma Next_null_witness :
  Next (mkReader (enc RNull ++ bs "+")) = Ok (mkReader (bs "+"), IStr []) /\
  Next (mkReader (enc (RBulk []) ++ bs "+")) = Ok (mkReader (bs "+"), IStr []) /\
  IsNil (mkReader (enc RNull ++ bs "+")) = false.
Proof. apply (Next_null (bs "+")). by vm_compute. Defined.
