(* ===== verification/ConnList.v ===== *)
(** The doubly linked list of a listener's connections (src/conn.go [detach],
    src/server.go [attachConn] and the timeout sweep of [Serve]): pointers in a
    heap, and the list they represent.

    The list runs from the sentinel [fdhead] to the sentinel [fdtail], the
    connection with the latest activity first. *)

From stdpp Require Import gmap.
From Stdlib Require Import Sorting.Sorted.
From S2P Require Import Prelude.

(** ** The heap *)

(** An address, and the part of a [Conn] that the list uses.  [None] is [nil]. *)
Abbreviation loc := Z.

Record node := mkNode {
  prev : option loc;
  next : option loc;
  ts : Z;
}.

Abbreviation heap := (gmap Z node).

Definition set_prev (p : option loc) (n : node) : node := mkNode p n.(next) n.(ts).
Definition set_next (p : option loc) (n : node) : node := mkNode n.(prev) p n.(ts).
Definition set_ts (t : Z) (n : node) : node := mkNode n.(prev) n.(next) t.

(** Reading and writing a field through a pointer; [None]: nil dereference. *)
Definition load {A} (f : node -> A) (p : option loc) (h : heap) : option A :=
  l ← p; n ← h !! l; Some (f n).
Definition store (f : node -> node) (p : option loc) (h : heap) : option heap :=
  l ← p; n ← h !! l; Some (<[l := f n]> h).

(** ** Operations *)

(** [attachConn(c)]; [now] is [time.Now().UnixNano()]. *)
Definition attachConn (fdhead c : loc) (now : Z) (h : heap) : option heap :=
  p ← load next (Some fdhead) h;
  h ← store (set_prev (Some c)) p h;
  p ← load next (Some fdhead) h;
  h ← store (set_next p) (Some c) h;
  h ← store (set_next (Some c)) (Some fdhead) h;
  h ← store (set_prev (Some fdhead)) (Some c) h;
  store (set_ts now) (Some c) h.

(** [detach()] *)
Definition detach (c : loc) (h : heap) : option heap :=
  p ← load prev (Some c) h;
  n ← load next (Some c) h;
  h ← store (set_next n) p h;
  n ← load next (Some c) h;
  p ← load prev (Some c) h;
  store (set_prev p) n h.

(** The sweep of [Serve]: from the tail, connections idle since before [cutoff]
    are closed (here: detached); the answer lists them. *)
Fixpoint sweep (fuel : nat) (fdhead : loc) (cutoff : Z) (conn : option loc) (h : heap)
  : option (heap * list loc) :=
  match fuel with
  | O => None
  | S fuel =>
      match conn with
      | None => Some (h, [])
      | Some c =>
          if decide (c = fdhead) then Some (h, [])
          else
            t ← load ts conn h;
            if t <? cutoff then
              h ← detach c h;
              p ← load prev conn h;
              '(h, cs) ← sweep fuel fdhead cutoff p h;
              Some (h, c :: cs)
            else Some (h, [])
      end
  end.

Definition sweepTail (fuel : nat) (fdhead fdtail : loc) (cutoff : Z) (h : heap)
  : option (heap * list loc) :=
  p ← load prev (Some fdtail) h; sweep fuel fdhead cutoff p h.

(** ** The list that a heap represents *)

Fixpoint links (h : heap) (l : list loc) : Prop :=
  match l with
  | a :: ((b :: _) as l) =>
      load next (Some a) h = Some (Some b) /\ load prev (Some b) h = Some (Some a) /\ links h l
  | [a] => is_Some (h !! a)
  | [] => True
  end.

Definition dll (h : heap) (fdhead fdtail : loc) (cs : list loc) : Prop :=
  NoDup (fdhead :: cs ++ [fdtail]) /\ links h (fdhead :: cs ++ [fdtail]).

(** ** Lemmas *)

Lemma load_Some {A} (f : node -> A) c n h : h !! c = Some n -> load f (Some c) h = Some (f n).
Proof. intros E. unfold load. cbn. by rewrite E. Qed.

Lemma load_inv {A} (f : node -> A) c a h :
  load f (Some c) h = Some a -> exists n, h !! c = Some n /\ f n = a.
Proof. unfold load. cbn. destruct (h !! c) as [n|]; [|done]. intros [= <-]. by exists n. Qed.

Lemma store_Some f c n h : h !! c = Some n -> store f (Some c) h = Some (<[c := f n]> h).
Proof. intros E. unfold store. cbn. by rewrite E. Qed.

Lemma load_lookup {A} (f : node -> A) a h h' : h' !! a = h !! a -> load f (Some a) h' = load f (Some a) h.
Proof. intros E. unfold load. cbn. by rewrite E. Qed.

Lemma links_app h l1 a l2 :
  links h (l1 ++ a :: l2) <-> links h (l1 ++ [a]) /\ links h (a :: l2).
Proof.
  induction l1 as [|b l1 IH].
  - cbn [app]. split; [|by intros [_ ?]]. intros H. split; [|done]. cbn [links].
    destruct l2 as [|c l2]; [done|]. destruct H as (Hn & _).
    apply load_inv in Hn as (n & E & _). by exists n.
  - destruct l1 as [|c l1]; cbn [app links] in *; [|tauto].
    destruct l2 as [|d l2]; [tauto|]. cbn [links].
    split; [|tauto]. intros (? & Hp & ? & ? & ?). split_and!; try done.
    apply load_inv in Hp as (n & E & _). by exists n.
Qed.

Lemma links_lookup h l a : links h l -> a ∈ l -> is_Some (h !! a).
Proof.
  intros Hl Ha. apply list_elem_of_split in Ha as (l1 & l2 & ->).
  apply links_app in Hl as [_ Hl]. destruct l2 as [|b l2]; [done|].
  destruct Hl as [Hn _]. apply load_inv in Hn as (n & E & _). by exists n.
Qed.

(** What a segment needs of the heap: its inner nodes, one pointer at each end. *)
Lemma links_suffix h h' a l :
  links h (a :: l) -> is_Some (h' !! a) -> load next (Some a) h' = load next (Some a) h ->
  (forall b, b ∈ l -> h' !! b = h !! b) -> links h' (a :: l).
Proof.
  revert a. induction l as [|b l IH]; intros a Hl Ha Hn Hb; [done|].
  destruct Hl as (H1 & H2 & Hl). cbn [links]. split_and!.
  - by rewrite Hn.
  - rewrite (load_lookup prev b h h'); [done|]. apply Hb, list_elem_of_here.
  - apply IH; [done| |apply load_lookup, Hb, list_elem_of_here|].
    + rewrite Hb by apply list_elem_of_here. eapply links_lookup; [done|apply list_elem_of_here].
    + intros c Hc. by apply Hb, list_elem_of_further.
Qed.

Lemma links_prefix h h' l a :
  links h (l ++ [a]) -> is_Some (h' !! a) -> load prev (Some a) h' = load prev (Some a) h ->
  (forall b, b ∈ l -> h' !! b = h !! b) -> links h' (l ++ [a]).
Proof.
  intros Hl Ha Hp Hb. induction l as [|b l IH]; [done|].
  assert (load next (Some b) h' = load next (Some b) h) as Hn
    by (apply load_lookup, Hb, list_elem_of_here).
  destruct l as [|c l]; cbn [app links] in *.
  - destruct Hl as (H1 & H2 & _). by rewrite Hn, Hp.
  - destruct Hl as (H1 & H2 & Hl). rewrite Hn. split_and!; [done| |].
    + rewrite (load_lookup prev c h h'); [done|]. apply Hb. set_solver.
    + apply IH; [done|]. intros d Hd. apply Hb. by apply list_elem_of_further.
Qed.

(** ** Attaching and detaching *)

Lemma attachConn_dll h fdhead fdtail cs c n now :
  dll h fdhead fdtail cs -> (c ∉ fdhead :: cs ++ [fdtail]) -> h !! c = Some n ->
  exists h', attachConn fdhead c now h = Some h' /\ dll h' fdhead fdtail (c :: cs) /\
    load ts (Some c) h' = Some now /\
    forall a, a <> c -> load ts (Some a) h' = load ts (Some a) h.
Proof.
  intros [Hnd Hl] Hc Hn.
  destruct (cs ++ [fdtail]) as [|x l] eqn:Ecs; [by destruct cs|].
  destruct Hl as (Hnx & Hpx & Hl).
  apply load_inv in Hnx as (nh & Eh & Hnh). apply load_inv in Hpx as (nx & Ex & Hpx).
  apply NoDup_cons in Hnd as [Hh Hnd]. apply not_elem_of_cons in Hh as [Hhx Hhl].
  pose proof Hnd as Hnd'. apply NoDup_cons in Hnd' as [Hx Hndl].
  apply not_elem_of_cons in Hc as [Hch Hc]. apply not_elem_of_cons in Hc as [Hcx Hcl].
  unfold attachConn. rewrite (load_Some next _ _ _ Eh). cbn [mbind option_bind]. rewrite Hnh.
  rewrite (store_Some _ x nx) by done. cbn [mbind option_bind].
  rewrite (load_Some next fdhead nh) by (by rewrite lookup_insert_ne). cbn [mbind option_bind].
  rewrite Hnh. rewrite (store_Some _ c n) by (by rewrite lookup_insert_ne).
  cbn [mbind option_bind].
  rewrite (store_Some _ fdhead nh) by (by rewrite !lookup_insert_ne). cbn [mbind option_bind].
  erewrite (store_Some _ c) by (rewrite lookup_insert_ne, lookup_insert_eq by done; reflexivity).
  cbn [mbind option_bind].
  erewrite (store_Some _ c) by (rewrite lookup_insert_eq; reflexivity).
  eexists. split; [reflexivity|].
  set (nc := set_ts now _). set (h' := insert c nc _).
  assert (h' !! c = Some nc) as Lc by apply lookup_insert_eq.
  assert (h' !! fdhead = Some (set_next (Some c) nh)) as Lh.
  { unfold h'. rewrite !lookup_insert_ne by done. by rewrite lookup_insert_eq. }
  assert (h' !! x = Some (set_prev (Some c) nx)) as Lx.
  { unfold h'. rewrite !lookup_insert_ne by done. by rewrite lookup_insert_eq. }
  assert (forall a, a <> c -> a <> fdhead -> a <> x -> h' !! a = h !! a) as Lo.
  { intros a ? ? ?. unfold h'. by rewrite !lookup_insert_ne. }
  split; [|split].
  - split.
    + cbn [app]. rewrite Ecs. apply NoDup_cons. split; [set_solver|]. apply NoDup_cons. split; [set_solver|done].
    + cbn [app]. rewrite Ecs. cbn [links].
      rewrite (load_Some _ _ _ _ Lh), (load_Some _ _ _ _ Lc), (load_Some _ _ _ _ Lx),
        (load_Some _ _ _ _ Lc). split_and!; try done.
      apply (links_suffix h); [done|by eexists| |].
      * rewrite (load_Some _ _ _ _ Lx), (load_Some _ _ _ _ Ex). done.
      * intros b Hb. apply Lo; intros ->; set_solver.
  - by rewrite (load_Some _ _ _ _ Lc).
  - intros a Ha. destruct (decide (a = fdhead)) as [->|];
      [by rewrite (load_Some _ _ _ _ Lh), (load_Some _ _ _ _ Eh)|].
    destruct (decide (a = x)) as [->|]; [by rewrite (load_Some _ _ _ _ Lx), (load_Some _ _ _ _ Ex)|].
    by apply load_lookup, Lo.
Qed.

Lemma detach_dll h fdhead fdtail l1 c l2 :
  dll h fdhead fdtail (l1 ++ c :: l2) ->
  exists h', detach c h = Some h' /\ dll h' fdhead fdtail (l1 ++ l2) /\ h' !! c = h !! c /\
    load prev (Some c) h = Some (Some (List.last l1 fdhead)) /\
    forall a, load ts (Some a) h' = load ts (Some a) h.
Proof.
  intros [Hnd Hl].
  (* the neighbours of c *)
  assert (exists pre p, fdhead :: l1 = pre ++ [p] /\ List.last l1 fdhead = p) as (pre & p & Epre & Elast).
  { destruct (exists_last (l := fdhead :: l1)) as (pre & p & E); [done|]. exists pre, p. split; [done|].
    change (List.last l1 fdhead = p). apply (f_equal (fun l => List.last l fdhead)) in E.
    rewrite last_last in E. by destruct l1. }
  destruct (l2 ++ [fdtail]) as [|n suf] eqn:Esuf; [by destruct l2|].
  assert (fdhead :: (l1 ++ c :: l2) ++ [fdtail] = pre ++ p :: c :: n :: suf) as E.
  { change (fdhead :: (l1 ++ c :: l2) ++ [fdtail]) with ((fdhead :: l1 ++ c :: l2) ++ [fdtail]).
    change (fdhead :: l1 ++ c :: l2) with ((fdhead :: l1) ++ c :: l2).
    rewrite Epre, <- !app_assoc. cbn [app]. by rewrite Esuf. }
  assert (fdhead :: (l1 ++ l2) ++ [fdtail] = pre ++ p :: n :: suf) as E'.
  { change (fdhead :: (l1 ++ l2) ++ [fdtail]) with ((fdhead :: l1 ++ l2) ++ [fdtail]).
    change (fdhead :: l1 ++ l2) with ((fdhead :: l1) ++ l2).
    rewrite Epre, <- !app_assoc. cbn [app]. by rewrite Esuf. }
  unfold dll. rewrite E in Hnd, Hl. rewrite E', Elast.
  apply links_app in Hl as [Hpre Hl]. destruct Hl as (Hpc & Hcp & Hcn & Hnc & Hsuf).
  apply load_inv in Hpc as (np & Ep & Hnp). apply load_inv in Hcp as (nc & Ec & Hcp).
  apply load_inv in Hcn as (nc' & Ec' & Hcn). rewrite Ec in Ec'. injection Ec' as <-.
  apply load_inv in Hnc as (nn & En & Hnn).
  apply NoDup_app in Hnd as (Hndpre & Hdisj & Hnd).
  apply NoDup_cons in Hnd as [Hp Hnd]. apply NoDup_cons in Hnd as [Hc Hnd].
  assert (p <> c /\ p <> n /\ c <> n) as (Hpc & Hpn & Hcn') by set_solver.
  unfold detach. rewrite (load_Some prev _ _ _ Ec), (load_Some next _ _ _ Ec).
  cbn [mbind option_bind]. rewrite Hcp, Hcn. rewrite (store_Some _ p np) by done.
  cbn [mbind option_bind].
  rewrite (load_Some next c nc), (load_Some prev c nc) by (by rewrite lookup_insert_ne).
  cbn [mbind option_bind]. rewrite Hcp, Hcn.
  rewrite (store_Some _ n nn) by (by rewrite lookup_insert_ne).
  eexists. split; [reflexivity|]. set (h' := insert n _ _).
  assert (h' !! n = Some (set_prev (Some p) nn)) as Ln by apply lookup_insert_eq.
  assert (h' !! p = Some (set_next (Some n) np)) as Lp
    by (unfold h'; rewrite lookup_insert_ne by done; apply lookup_insert_eq).
  assert (forall a, a <> n -> a <> p -> h' !! a = h !! a) as Lo
    by (intros a ? ?; unfold h'; by rewrite !lookup_insert_ne).
  split; [split|split; [|split]].
  - apply NoDup_app. split_and!; [done|intros a Ha; specialize (Hdisj a Ha); set_solver|].
    apply NoDup_cons. split; [set_solver|done].
  - apply links_app. split.
    + apply (links_prefix h); [done|by eexists| |].
      * by rewrite (load_Some _ _ _ _ Lp), (load_Some _ _ _ _ Ep).
      * intros b Hb. specialize (Hdisj b Hb). apply Lo; set_solver.
    + cbn [links]. rewrite (load_Some _ _ _ _ Lp), (load_Some _ _ _ _ Ln). split_and!; try done.
      apply (links_suffix h); [done|by eexists| |].
      * by rewrite (load_Some _ _ _ _ Ln), (load_Some _ _ _ _ En).
      * intros b Hb. apply Lo; [|set_solver]. intros ->.
        by apply NoDup_cons in Hnd as [? _].
  - by apply Lo.
  - done.
  - intros a. destruct (decide (a = n)) as [->|];
      [by rewrite (load_Some _ _ _ _ Ln), (load_Some _ _ _ _ En)|].
    destruct (decide (a = p)) as [->|]; [by rewrite (load_Some _ _ _ _ Lp), (load_Some _ _ _ _ Ep)|].
    by apply load_lookup, Lo.
Qed.

(** ** Properties *)

(** attaching a connection that is not in the list puts it in front, with the
    time of now; nothing else moves and no other time changes. *)
Theorem attachConn_front h fdhead fdtail cs c n now :
  dll h fdhead fdtail cs -> (c ∉ fdhead :: cs ++ [fdtail]) -> h !! c = Some n ->
  exists h', attachConn fdhead c now h = Some h' /\ dll h' fdhead fdtail (c :: cs) /\
    load ts (Some c) h' = Some now /\
    forall a, a <> c -> load ts (Some a) h' = load ts (Some a) h.
Proof. apply attachConn_dll. Qed.

(** activity: [attachConn(c.detach())] moves a connection of the list to the
    front, with the time of now, and keeps the order of the others. *)
Theorem touch_front h fdhead fdtail l1 c l2 now :
  dll h fdhead fdtail (l1 ++ c :: l2) ->
  exists h', (h ← detach c h; attachConn fdhead c now h) = Some h' /\
    dll h' fdhead fdtail (c :: l1 ++ l2) /\ load ts (Some c) h' = Some now /\
    forall a, a <> c -> load ts (Some a) h' = load ts (Some a) h.
Proof.
  intros Hd. pose proof Hd as [Hnd Hl].
  destruct (detach_dll _ _ _ _ _ _ Hd) as (h1 & -> & Hd1 & Hc1 & _ & Hts1). cbn [mbind option_bind].
  assert (is_Some (h !! c)) as [n Hn] by (eapply links_lookup; [exact Hl|set_solver]).
  destruct (attachConn_dll h1 fdhead fdtail (l1 ++ l2) c n now Hd1) as (h2 & -> & Hd2 & Hc2 & Hts2).
  - rewrite <- app_assoc in Hnd. rewrite <- app_assoc.
    change (fdhead :: l1 ++ (c :: l2) ++ [fdtail]) with ((fdhead :: l1) ++ c :: (l2 ++ [fdtail])) in Hnd.
    apply NoDup_app in Hnd as (_ & Hdisj & Hnd). apply NoDup_cons in Hnd as [Hc _].
    change (fdhead :: l1 ++ l2 ++ [fdtail]) with ((fdhead :: l1) ++ (l2 ++ [fdtail])).
    rewrite elem_of_app. intros [Hin|Hin]; [|done]. specialize (Hdisj c Hin). set_solver.
  - by rewrite Hc1.
  - eexists. split; [done|]. split_and!; [done|done|]. intros a Ha. by rewrite Hts2, Hts1.
Qed.

(** Idle since before the cutoff. *)
Definition stale (h : heap) (cutoff : Z) (c : loc) : Prop :=
  exists t, load ts (Some c) h = Some t /\ t < cutoff.
Definition fresh (h : heap) (cutoff : Z) (c : loc) : Prop :=
  exists t, load ts (Some c) h = Some t /\ cutoff <= t.

Lemma stale_ext h h' cutoff cs :
  (forall a, load ts (Some a) h' = load ts (Some a) h) ->
  Forall (stale h cutoff) cs -> Forall (stale h' cutoff) cs.
Proof.
  intros E HF. eapply Forall_impl; [exact HF|]. intros c (t & Ht & ?). exists t. by rewrite E.
Qed.

Lemma load_prev_last h fdhead fdtail cs :
  dll h fdhead fdtail cs -> load prev (Some fdtail) h = Some (Some (List.last cs fdhead)).
Proof.
  intros [_ Hl]. destruct (exists_last (l := fdhead :: cs)) as (pre & p & E); [done|].
  change (fdhead :: cs ++ [fdtail]) with ((fdhead :: cs) ++ [fdtail]) in Hl.
  rewrite E, <- app_assoc in Hl. apply links_app in Hl as (_ & _ & Hp & _). rewrite Hp.
  do 2 f_equal. apply (f_equal (fun l => List.last l fdhead)) in E. rewrite last_last in E.
  rewrite <- E. by destruct cs.
Qed.

Lemma sweep_stale fuel h fdhead fdtail kept old cutoff :
  dll h fdhead fdtail (kept ++ old) -> Forall (stale h cutoff) old ->
  (forall c, List.last kept fdhead = c -> c <> fdhead -> fresh h cutoff c) ->
  (length old < fuel)%nat ->
  exists h', sweep fuel fdhead cutoff (Some (List.last (kept ++ old) fdhead)) h = Some (h', reverse old) /\
    dll h' fdhead fdtail kept /\ forall a, load ts (Some a) h' = load ts (Some a) h.
Proof.
  revert h fuel. induction old as [|c old IH] using rev_ind; intros h fuel Hd Hold Hk Hf.
  - rewrite app_nil_r in *. destruct fuel as [|fuel]; [simpl in Hf; lia|].
    exists h. split; [|done]. cbn [sweep]. case_decide as Hc; [done|].
    destruct (Hk _ eq_refl Hc) as (t & -> & Ht). cbn [mbind option_bind].
    by destruct (Z.ltb_spec t cutoff); [lia|].
  - apply Forall_app in Hold as [Hold Hc]. rewrite Forall_singleton in Hc.
    rewrite length_app in Hf. cbn [length] in Hf.
    destruct fuel as [|fuel]; [lia|]. rewrite app_assoc in *. rewrite last_last. cbn [sweep].
    destruct (detach_dll h fdhead fdtail (kept ++ old) c [] Hd) as (h1 & Hdet & Hd1 & Hc1 & Hp & Hts).
    rewrite app_nil_r in Hd1. pose proof Hd as [Hnd _].
    assert (c <> fdhead) as Hch.
    { intros ->. apply NoDup_cons in Hnd as [Hnd _]. apply Hnd. set_solver. }
    rewrite decide_False by done. destruct Hc as (t & -> & Ht). cbn [mbind option_bind].
    destruct (Z.ltb_spec t cutoff); [|lia]. rewrite Hdet. cbn [mbind option_bind].
    rewrite (load_lookup prev c h h1 Hc1), Hp. cbn [mbind option_bind].
    destruct (IH h1 fuel Hd1) as (h2 & -> & Hd2 & Hts2).
    + by eapply stale_ext.
    + intros d Hd' Hne. destruct (Hk d Hd' Hne) as (t' & ? & ?). exists t'. by rewrite Hts.
    + lia.
    + cbn [mbind option_bind]. exists h2. rewrite reverse_app. split; [done|]. split; [done|].
      intros a. by rewrite Hts2, Hts.
Qed.

(** In a list sorted by time the stale connections are a suffix. *)
Lemma sorted_split (times : loc -> Z) cutoff cs :
  StronglySorted (fun a b => times b <= times a) cs ->
  cs = filter (fun c => cutoff <= times c) cs ++ filter (fun c => times c < cutoff) cs.
Proof.
  induction 1 as [|c cs Hs IH Hc]; [done|]. rewrite !filter_cons.
  destruct (decide (cutoff <= times c)).
  - rewrite (decide_False (P := times c < cutoff)) by lia. cbn [app]. by f_equal.
  - rewrite (decide_True (P := times c < cutoff)) by lia.
    assert (forall l, Forall (fun b => times b <= times c) l ->
              filter (fun c => cutoff <= times c) l = [] /\ filter (fun c => times c < cutoff) l = l) as Hall.
    { induction 1 as [|b l Hb Hl [IH1 IH2]]; [done|]. rewrite !filter_cons.
      rewrite decide_False, decide_True by lia. by rewrite IH1, IH2. }
    destruct (Hall cs Hc) as [-> ->]. done.
Qed.

(** C37: the timeout sweep.  When the times do not increase from the head to the
    tail, the sweep closes exactly the connections idle since before the cutoff,
    the oldest first, and leaves the others linked in their order; it reads the
    [prev] pointer of a connection it has just detached, which is still right. *)
Theorem sweepTail_closes h fdhead fdtail cs times cutoff :
  dll h fdhead fdtail cs ->
  (forall c, c ∈ cs -> load ts (Some c) h = Some (times c)) ->
  StronglySorted (fun a b => times b <= times a) cs ->
  exists h', sweepTail (S (length cs)) fdhead fdtail cutoff h
             = Some (h', reverse (filter (fun c => times c < cutoff) cs)) /\
    dll h' fdhead fdtail (filter (fun c => cutoff <= times c) cs).
Proof.
  intros Hd Ht Hs. pose proof (sorted_split times cutoff cs Hs) as Hsplit.
  set (kept := filter (fun c => cutoff <= times c) cs) in *.
  set (old := filter (fun c => times c < cutoff) cs) in *.
  assert (Forall (stale h cutoff) old) as Hold.
  { apply Forall_forall. intros c [Hc Hin]%list_elem_of_filter. exists (times c).
    split; [by apply Ht|done]. }
  assert (forall c, c ∈ kept -> fresh h cutoff c) as Hkept.
  { intros c [Hk Hin]%list_elem_of_filter. exists (times c). split; [by apply Ht|done]. }
  clearbody kept old. subst cs. unfold sweepTail.
  rewrite (load_prev_last _ _ _ _ Hd). cbn [mbind option_bind].
  destruct (sweep_stale (S (length (kept ++ old))) h fdhead fdtail kept old cutoff Hd Hold)
    as (h' & -> & Hd' & _); [|rewrite length_app; lia|by eauto].
  intros c <- Hc. apply Hkept. clear - Hc.
  induction kept as [|k l _] using rev_ind; [done|]. rewrite last_last. set_solver.
Qed.

(** ** Witnesses *)

(** Head 0, tail 1, connections 2 (time 30) and 3 (time 10). *)
Definition ex_heap : heap :=
  <[0 := mkNode None (Some 2) 0]> (<[2 := mkNode (Some 0) (Some 3) 30]>
    (<[3 := mkNode (Some 2) (Some 1) 10]> (<[1 := mkNode (Some 3) None 0]>
      (<[4 := mkNode None None 5]> ∅)))).

Lemma ex_dll : dll ex_heap 0 1 [2; 3].
Proof. split; [compute_done|]. cbn [links app]. by split_and!. Qed.

Lemma attachConn_front_witness :
  exists h', attachConn 0 4 40 ex_heap = Some h' /\ dll h' 0 1 [4; 2; 3] /\
    load ts (Some 4) h' = Some 40 /\ forall a, a <> 4 -> load ts (Some a) h' = load ts (Some a) ex_heap.
Proof.
  apply (attachConn_front ex_heap 0 1 [2; 3] 4 (mkNode None None 5) 40 ex_dll); [compute_done|done].
Defined.

Lemma touch_front_witness :
  exists h', (h ← detach 3 ex_heap; attachConn 0 3 40 h) = Some h' /\
    dll h' 0 1 [3; 2] /\ load ts (Some 3) h' = Some 40 /\
    forall a, a <> 3 -> load ts (Some a) h' = load ts (Some a) ex_heap.
Proof. apply (touch_front ex_heap 0 1 [2] 3 [] 40 ex_dll). Defined.

Lemma sweepTail_closes_witness :
  exists h', sweepTail 3 0 1 20 ex_heap = Some (h', [3]) /\ dll h' 0 1 [2].
Proof.
  apply (sweepTail_closes ex_heap 0 1 [2; 3] (fun c => if c =? 2 then 30 else 10) 20 ex_dll).
  - intros c Hc. assert (c = 2 \/ c = 3) as [-> | ->] by set_solver; done.
  - constructor; [constructor; constructor|]. constructor; [by vm_compute|constructor].
Defined.
