(* ===== verification/Server.v ===== *)
(** The server's event loop (src/server.go, src/conn.go): a listener and its
    connections, what an event of the poller does to them, and what the loop can
    get stuck on.

    A connection is an object of the map [conns], known by an identity that is
    never used again; [fdconns] is the listener's map from descriptors to
    connections; [order] is the list that [ConnList] represents with pointers,
    latest activity first.  System calls are inputs: an event carries what the
    calls it leads to answer.  The handlers are the program's own code, parameters
    here: a handler may change the state of the program, append to the output of
    its connection and answer whether to keep the connection.  Other goroutines
    write through [async_write].  [log] records what can be seen from outside. *)

From stdpp Require Import gmap.
From S2P Require Import Prelude GoStd Escape Util Redis Ws Http State.

(** ** State *)

Record Conn := mkConn {
  fd : Z;
  ws : option Websocket;
  srs : serverReadState;
  closedFlag : bool;
  lock : bool;
  inb : bytes;
  outb : bytes;
  lastTs : Z;
}.

Definition newConn (fd : Z) : Conn := mkConn fd None newState false false [] [] 0.

Definition set_ws (w : option Websocket) (c : Conn) : Conn :=
  mkConn c.(fd) w c.(srs) c.(closedFlag) c.(lock) c.(inb) c.(outb) c.(lastTs).
Definition set_srs (s : serverReadState) (c : Conn) : Conn :=
  mkConn c.(fd) c.(ws) s c.(closedFlag) c.(lock) c.(inb) c.(outb) c.(lastTs).
Definition set_closed (c : Conn) : Conn :=
  mkConn c.(fd) c.(ws) c.(srs) true c.(lock) c.(inb) c.(outb) c.(lastTs).
Definition set_lock (b : bool) (c : Conn) : Conn :=
  mkConn c.(fd) c.(ws) c.(srs) c.(closedFlag) b c.(inb) c.(outb) c.(lastTs).
Definition set_in (b : bytes) (c : Conn) : Conn :=
  mkConn c.(fd) c.(ws) c.(srs) c.(closedFlag) c.(lock) b c.(outb) c.(lastTs).
Definition set_out (b : bytes) (c : Conn) : Conn :=
  mkConn c.(fd) c.(ws) c.(srs) c.(closedFlag) c.(lock) c.(inb) b c.(lastTs).
Definition set_lastTs (t : Z) (c : Conn) : Conn :=
  mkConn c.(fd) c.(ws) c.(srs) c.(closedFlag) c.(lock) c.(inb) c.(outb) t.

(** What the poller watches a descriptor for. *)
Inductive mode := MRead | MReadWrite.

(** What can be observed: calls of the handlers, bytes accepted by the kernel. *)
Inductive event :=
| EvRedis (id : Z) (r : Redis)
| EvHTTP (id : Z) (r : HTTP)
| EvWSData (id : Z) (p : bytes)
| EvWSClose (id : Z) (p : option bytes)
| EvFdCount (n : Z)
| EvError (typ : bytes)
| EvSent (id : Z) (p : bytes)
| EvSysClose (fd : Z)
| EvTrigger (fd : Z).

Section server.
Context `{Env}.
(** The state of the program that uses the library. *)
Context {U : Type}.

Record Listener := mkListener {
  lnfd : Z;
  conns : gmap Z Conn;
  fdconns : gmap Z Z;
  order : list Z;
  count : Z;
  interest : gmap Z mode;
  log : list event;
  user : U;
}.

Definition with_conns f (s : Listener) : Listener :=
  mkListener s.(lnfd) (f s.(conns)) s.(fdconns) s.(order) s.(count) s.(interest) s.(log) s.(user).
Definition with_fdconns f (s : Listener) : Listener :=
  mkListener s.(lnfd) s.(conns) (f s.(fdconns)) s.(order) s.(count) s.(interest) s.(log) s.(user).
Definition with_order f (s : Listener) : Listener :=
  mkListener s.(lnfd) s.(conns) s.(fdconns) (f s.(order)) s.(count) s.(interest) s.(log) s.(user).
Definition with_count f (s : Listener) : Listener :=
  mkListener s.(lnfd) s.(conns) s.(fdconns) s.(order) (f s.(count)) s.(interest) s.(log) s.(user).
Definition with_interest f (s : Listener) : Listener :=
  mkListener s.(lnfd) s.(conns) s.(fdconns) s.(order) s.(count) (f s.(interest)) s.(log) s.(user).
Definition emit e (s : Listener) : Listener :=
  mkListener s.(lnfd) s.(conns) s.(fdconns) s.(order) s.(count) s.(interest) (s.(log) ++ [e]) s.(user).
Definition with_user f (s : Listener) : Listener :=
  mkListener s.(lnfd) s.(conns) s.(fdconns) s.(order) s.(count) s.(interest) s.(log) (f s.(user)).

(** The handlers, and whether closing a descriptor fails.  [OnHTTP] also answers
    whether it upgraded the connection; [OnWSData] answers the frames that it wrote, in
    order, that of [Close] among them, and whether it called [Close].  Those of websockets may be nil ([None]):
    [Serve] puts nothing in their place. *)
Record Handlers := mkHandlers {
  OnRedis : Redis -> U -> U * bytes * bool;
  OnHTTP : HTTP -> U -> U * bytes * bool * bool;
  OnWSData' : option (bytes -> U -> U * list bytes * bool);
  OnWSClose : option (option bytes -> U -> U);
  close_fails : Z -> bool;
}.
Context (hd : Handlers).

(** What can end an event before its end: a goroutine that waits for a lock that is
    never released; and a panic of the Go runtime, which leaves a state that the
    deferred function of [Serve] goes on from. *)
Inductive stuck := Spinning | Panicked (s : Listener).

Definition result (A : Type) : Type := res stuck A.

(** An access that the runtime checks. *)
Definition checked_in {A} (s : Listener) (o : option A) : result A :=
  match o with Some a => Ok a | None => Err (Panicked s) end.

(** The object behind the pointer [c]. *)
Definition conn_at (id : Z) (s : Listener) : result Conn := checked_in s (s.(conns) !! id).
Definition update (id : Z) (f : Conn -> Conn) (s : Listener) : Listener :=
  with_conns (fun m => alter f id m) s.

(** ** Connections (src/conn.go) *)

Definition spinLock (id : Z) (s : Listener) : result Listener :=
  let! c := conn_at id s in
  if c.(lock) then Err Spinning else Ok (update id (set_lock true) s).
Definition spinUnlock (id : Z) (s : Listener) : Listener := update id (set_lock false) s.

(** [_writeString] and the writers of the Redis replies: they take the lock
    whatever the state of the connection. *)
Definition append_out (id : Z) (p : bytes) (s : Listener) : result Listener :=
  let! s := spinLock id s in
  let s := update id (fun c => set_out (c.(outb) ++ p) c) s in
  Ok (spinUnlock id s).

(** [Write(p)]: refused once the connection is closed. *)
Definition conn_Write (id : Z) (p : bytes) (s : Listener) : result (Listener * bool) :=
  let! c := conn_at id s in
  if c.(closedFlag) then Ok (s, false)
  else let! s := append_out id p s in Ok (s, true).

(** [Flush()] *)
Definition conn_Flush (id : Z) (s : Listener) : result Listener :=
  let! c := conn_at id s in
  if c.(closedFlag) then Ok s else Ok (emit (EvTrigger c.(fd)) s).

Definition async_write (id : Z) (p : bytes) (s : Listener) : result Listener :=
  let! (s, _) := conn_Write id p s in conn_Flush id s.

(** [truncateInputBuffer(sz)] *)
Definition truncateInputBuffer (id : Z) (sz : Z) (s : Listener) : result (Listener * Z) :=
  let! s := spinLock id s in
  let! c := conn_at id s in
  let! b := checked_in s (slice_from c.(inb) sz) in
  let s := update id (set_in b) s in
  Ok (spinUnlock id s, len b).

(** [ReuseInputBuffer(in)]: an empty input goes on in the memory of [in], of which
    only the contents are modelled here. *)
Definition ReuseInputBuffer (id : Z) (p : bytes) (s : Listener) : result Listener :=
  let! s := spinLock id s in
  let! c := conn_at id s in
  let! b := checked_in s (slice p 0 0) in
  let s := if len c.(inb) =? 0 then update id (set_in b) s else s in
  Ok (spinUnlock id s).

(** ** The listener (src/server.go) *)

Definition attachConn (id : Z) (now : Z) (s : Listener) : Listener :=
  update id (set_lastTs now) (with_order (fun l => id :: l) s).
Definition detach (id : Z) (s : Listener) : Listener :=
  with_order (filter (fun x => x <> id)) s.

Definition ModRead (f : Z) (s : Listener) : Listener := with_interest (<[f := MRead]>) s.
Definition ModReadWrite (f : Z) (s : Listener) : Listener := with_interest (<[f := MReadWrite]>) s.

(** [closeConnWithError(c, errType, err)]; [failed] tells whether [err] is not
    nil.  Calling an [OnWSClose] that is nil panics half way. *)
Definition closeConnWithError (id : Z) (errType : bytes) (failed : bool) (s : Listener)
  : result Listener :=
  let! c := conn_at id s in
  if c.(closedFlag) then Ok s
  else
    let s := update id set_closed s in
    let! s := match c.(ws) with
              | Some w =>
                  let! h := checked_in s hd.(OnWSClose) in
                  Ok (with_user (h w.(closingData)) (emit (EvWSClose id w.(closingData)) s))
              | None => Ok s
              end in
    let s := with_count (fun n => n - 1) s in
    let s := emit (EvFdCount s.(count)) s in
    let s := detach id s in
    let s := with_fdconns (delete c.(fd)) s in
    let s := emit (EvSysClose c.(fd)) (with_interest (delete c.(fd)) s) in
    let s := if hd.(close_fails) c.(fd) then emit (EvError (bs "close")) s else s in
    Ok (if failed then emit (EvError errType) s else s).

(** The answers of [write(2)] or of TLS: bytes taken, "try again" after some
    bytes, an error with the type that [OnError] is told: [write] for one of the
    system's, that of the [Error] otherwise. *)
Inductive wresult := WN (n : Z) | WAgain (n : Z) | WErr (typ : bytes).

Definition writeConn (id : Z) (w : wresult) (s : Listener) : result Listener :=
  let! s := spinLock id s in
  let! c := conn_at id s in
  if len c.(outb) =? 0 then Ok (ModRead c.(fd) (spinUnlock id s))
  else
    match w with
    | WAgain n =>
        let! rest := checked_in s (if 0 <? n then slice_from c.(outb) n else Some c.(outb)) in
        let s := if 0 <? n then emit (EvSent id (take (Z.to_nat n) c.(outb))) s else s in
        let s := update id (set_out rest) s in
        Ok (ModReadWrite c.(fd) (spinUnlock id s))
    | WErr typ => closeConnWithError id typ true (spinUnlock id s)
    | WN n =>
        let s := emit (EvSent id (take (Z.to_nat n) c.(outb))) s in
        if n =? len c.(outb) then
          let s := spinUnlock id (update id (set_out []) s) in
          if match c.(ws) with Some w => w.(Ws.closed) | None => false end
          then closeConnWithError id [] false s
          else Ok (ModRead c.(fd) s)
        else
          let! rest := checked_in s (slice_from c.(outb) n) in
          let s := spinUnlock id (update id (set_out rest) s) in
          Ok (ModReadWrite c.(fd) s)
    end.

(** The frames that a handler of websockets writes: [write] is [Write], then [Flush]. *)
Fixpoint ws_writes (id : Z) (bs : list bytes) (s : Listener) : result Listener :=
  match bs with
  | [] => Ok s
  | b :: bs => let! s := async_write id b s in ws_writes id bs s
  end.

(** The effects of [onWebsocket] outside the frame state, in order; an [OnWSData] that
    is nil panics when it is called. *)
Fixpoint ws_effects (id : Z) (evs : list ws_event) (s : Listener) : result Listener :=
  match evs with
  | [] => Ok s
  | OnWSData p :: evs =>
      let! h := checked_in s hd.(OnWSData') in
      let s := emit (EvWSData id p) s in
      let '(u, bs, closes) := h p s.(user) in
      let s := with_user (fun _ => u) s in
      let! s := ws_writes id bs s in
      let s := if closes : bool
               then update id (fun c => set_ws ((fun w => (Close w).1) <$> c.(ws)) c) s else s in
      ws_effects id evs s
  | WriteFrame b :: evs =>
      let! s := async_write id b s in
      ws_effects id evs s
  | CloseConn typ err :: evs =>
      let! s := closeConnWithError id typ (bool_decide (err <> None)) s in
      ws_effects id evs s
  end.

(** The answers of [read(2)] or of TLS. *)
Inductive rresult := RData (d : bytes) | REof | RAgain | RErr (typ : bytes).

(** [PARSE_NEXT] of [readConn], with the bytes just read.  A parser that panics does so
    with the lock held. *)
Fixpoint parse_next (fuel : nat) (id : Z) (d : bytes) (w : wresult) (s : Listener)
  : result Listener :=
  match fuel with
  | O => OutOfFuel
  | S fuel =>
      let! s := spinLock id s in
      let s := update id (fun c => set_in (c.(inb) ++ d) c) s in
      let! c := conn_at id s in
      if RequestMaxBytes <? len c.(inb) then closeConnWithError id (bs "oversize") true s
      else
        let '(inp, c', r) :=
          match c.(ws) with
          | Some w =>
              if w.(Ws.closed) then (c.(inb), c, Err errWaitMore)
              else
                match ws_parse c.(inb) with
                | (inp, Ok f) =>
                    (inp, set_ws (Some (mkWebsocket f w.(contFrame) w.(Ws.closed) w.(closingData))) c,
                     Ok tt)
                | (inp, Err e) => (inp, c, Err e)
                | (inp, Panic) => (inp, c, Panic)
                | (inp, OutOfFuel) => (inp, c, OutOfFuel)
                end
          | None =>
              let '(inp, s', r) := process c.(inb) c.(srs) in (inp, set_srs s' c, r)
          end in
        let s := update id (fun _ => set_in inp c') s in
        match r with
        | Panic => Err (Panicked s)
        | OutOfFuel => OutOfFuel
        | Err e =>
            let s := spinUnlock id s in
            if decide (e = errWaitMore) then Ok s else closeConnWithError id (bs "read") true s
        | Ok _ =>
            let s := spinUnlock id s in
            let finish s :=
              let s := update id (set_srs newState) s in
              let! c := conn_at id s in
              if negb (len c.(outb) =? 0) then writeConn id w s else Ok s in
            match c'.(ws) with
            | Some wsk =>
                let req := wsk.(parsedFrame) in
                let! (s, remain) := truncateInputBuffer id req.(flen) s in
                let '(wsk, evs, more) := onWebsocket req wsk in
                let s := update id (set_ws (Some wsk)) s in
                let! s := ws_effects id evs s in
                if negb more then Ok s
                else if 0 <? remain then parse_next fuel id [] w s
                else finish s
            | None =>
                match c'.(srs).(http) with
                | Some req =>
                    let! (s, _) := truncateInputBuffer id (req.(bodyLen) + req.(hdrLen)) s in
                    let s := emit (EvHTTP id req) s in
                    let '(u, b, upgrade, more) := hd.(OnHTTP) req s.(user) in
                    let s := with_user (fun _ => u) s in
                    let s := if upgrade : bool then update id (set_ws (Some newWebsocket)) s else s in
                    let! s := append_out id b s in
                    if negb more then closeConnWithError id [] false s else finish s
                | None =>
                    let! req := checked_in s c'.(srs).(redis) in
                    let! (s, _) := truncateInputBuffer id req.(read) s in
                    let s := emit (EvRedis id req) s in
                    let '(u, b, more) := hd.(OnRedis) req s.(user) in
                    let s := with_user (fun _ => u) s in
                    let! s := append_out id b s in
                    if negb more then closeConnWithError id [] false s else finish s
                end
            end
        end
  end.

(** A connection that [writeConn] has just closed is still read from; its
    descriptor is closed, so the call answers an error. *)
Definition readConn (id : Z) (r : rresult) (w : wresult) (s : Listener) : result Listener :=
  let! c := conn_at id s in
  match (if c.(closedFlag) then RErr (bs "read") else r) with
  | REof => closeConnWithError id [] false s
  | RAgain => Ok (ModRead c.(fd) s)
  | RErr typ => closeConnWithError id typ true s
  | RData d => parse_next (S (length c.(inb) + length d)) id d w s
  end.

(** The timeout sweep of [Serve], from the back of the list. *)
Fixpoint sweep (ids : list Z) (cutoff : Z) (s : Listener) : result Listener :=
  match ids with
  | [] => Ok s
  | id :: ids =>
      let! c := conn_at id s in
      if c.(lastTs) <? cutoff then
        let! s := closeConnWithError id (bs "timeout") true s in
        sweep ids cutoff s
      else Ok s
  end.

(** Why a connection is not accepted; a descriptor that the kernel has given
    already is not closed. *)
Inductive accept_error :=
| AcceptAgain
| AcceptFails
| SetNonblockFails (nfd : Z)
| SslFails (nfd : Z).

(** What the callback of [Wait] is called with: a connection to accept on the
    listening descriptor, or a descriptor that is ready (its flags, and what the
    system calls answer). *)
Inductive input :=
| Accept (id : Z) (nfd : Z)
| AcceptError (e : accept_error)
| Ready (f : Z) (canWrite canRead eof : bool) (w1 : wresult) (r : rresult) (w2 : wresult).

Definition iter (i : input) (now : Z) (timeout : Z) (s : Listener) : result Listener :=
  let! s :=
    match i with
    | AcceptError e =>
        Ok match e with
           | AcceptAgain => s
           | AcceptFails => emit (EvError (bs "accept")) s
           | SetNonblockFails _ => emit (EvError (bs "setnonblock")) s
           | SslFails _ => emit (EvError (bs "ssl")) s
           end
    | Accept id nfd =>
        let s := with_conns (<[id := newConn nfd]>) s in
        let s := with_interest (<[nfd := MRead]>) s in
        let s := with_fdconns (<[nfd := id]>) s in
        let s := attachConn id now s in
        let s := with_count (fun n => n + 1) s in
        Ok (emit (EvFdCount s.(count)) s)
    | Ready f canWrite canRead eof w1 r w2 =>
        match s.(fdconns) !! f with
        | None => Ok s
        | Some id =>
            let s := attachConn id now (detach id s) in
            let! s := if canWrite : bool then writeConn id w1 s else Ok s in
            let! s := if canRead : bool then readConn id r w2 s else Ok s in
            if eof : bool then closeConnWithError id (bs "eof") false s else Ok s
        end
    end in
  if 0 <? timeout then sweep (reverse s.(order)) (now - timeout) s else Ok s.

(** The loop of [Wait]: inputs with the time at which each is handled. *)
Fixpoint serve (timeout : Z) (inputs : list (input * Z)) (s : Listener) : result Listener :=
  match inputs with
  | [] => Ok s
  | (i, now) :: inputs => let! s := iter i now timeout s in serve timeout inputs s
  end.

(** The deferred function of [Serve], without the poller: it closes the connections
    of the map, which it ranges over in any order. *)
Fixpoint close_all (ids : list Z) (s : Listener) : result Listener :=
  match ids with
  | [] => Ok s
  | id :: ids => let! s := closeConnWithError id [] false s in close_all ids s
  end.

(** [Serve]: the loop, until [Wait] returns ([inputs] end) or something panics, which
    is reported; then the deferred function.  [range] is the order in which Go ranges
    over the entries of the map. *)
Definition Serve (timeout : Z) (inputs : list (input * Z)) (range : list (Z * Z) -> list (Z * Z))
  (s : Listener) : result Listener :=
  let! s :=
    match serve timeout inputs s with
    | Err (Panicked s) => Ok (emit (EvError (bs "panic")) s)
    | m => m
    end in
  close_all (range (map_to_list s.(fdconns))).*2 s.
End server.
