(* ===== verification/ServerInv.v ===== *)
(** The invariant of the event loop, and that every input keeps it: the loop
    never waits for a lock, and what can make it panic. *)

From stdpp Require Import gmap.
From S2P Require Import Prelude GoStd Escape Util Redis Ws Http State Server.

Section invariant.
Context `{Env} {U : Type} (hd : @Handlers U).
Local Abbreviation Listener := (@Listener U).

(** ** The invariant *)

(** The maps of a listener and the list agree on which connections are open; and the
    poller watches the descriptors of those and no others: it is never told to watch one
    differently that it does not watch, which it would answer with a panic. *)
Record core (s : Listener) : Prop := {
  core_map f id :
    s.(fdconns) !! f = Some id <->
    exists c, s.(conns) !! id = Some c /\ c.(closedFlag) = false /\ c.(fd) = f;
  core_nodup : NoDup s.(order);
  core_order id :
    id ∈ s.(order) <-> exists c, s.(conns) !! id = Some c /\ c.(closedFlag) = false;
  core_count : s.(count) = len s.(order);
  core_interest : dom s.(interest) = dom s.(fdconns);
}.

(** An open connection between events: nobody holds its lock, and its input
    fits the state of its parser. *)
Definition conn_ok (c : Conn) : Prop :=
  c.(closedFlag) = false ->
  c.(lock) = false /\ (c.(ws) = None -> state_ok c.(inb) c.(srs)).

Definition wf (s : Listener) : Prop :=
  core s /\ forall id c, s.(conns) !! id = Some c -> conn_ok c.

(** The invariant while the connection [id], with [P], is being handled. *)
Definition Inv (P : Conn -> Prop) (id : Z) (s : Listener) : Prop :=
  core s /\ (forall id' c, id' <> id -> s.(conns) !! id' = Some c -> conn_ok c) /\
  exists c, s.(conns) !! id = Some c /\ P c.

Definition is_open (c : Conn) : Prop := c.(closedFlag) = false.
Definition unlocked (c : Conn) : Prop := is_open c /\ c.(lock) = false.
Definition locked (c : Conn) : Prop := is_open c /\ c.(lock) = true.

(** A connection whose closing stopped where [OnWSClose] is called: the websocket [id] of
    [s0] is closed, and nothing else of [s0] has changed. *)
Definition half_closed (s0 : Listener) (id : Z) (s : Listener) : Prop :=
  core s0 /\ (exists c, s0.(conns) !! id = Some c /\ c.(closedFlag) = false /\ c.(ws) <> None) /\
  s.(conns) = (update id set_closed s0).(conns) /\ s.(fdconns) = s0.(fdconns) /\
  s.(order) = s0.(order) /\ s.(count) = s0.(count) /\ s.(interest) = s0.(interest).

(** What a panic leaves: a state whose maps agree, or, when [OnWSClose] is nil, one in
    which a websocket is half closed. *)
Definition halted (s : Listener) : Prop :=
  core s \/ hd.(OnWSClose) = None /\ exists s0 id, half_closed s0 id s.

(** What an operation may answer: a state with [Q], or a panic in a state that is
    [halted]; never a lock it waits for, never fuel run out. *)
Definition post {A} (Q : A -> Prop) (m : result A) : Prop :=
  match m with
  | Ok s => Q s
  | Err (Panicked s) => halted s
  | Err Spinning | Panic | OutOfFuel => False
  end.

Lemma post_mono {A} (Q R : A -> Prop) (m : result A) : post Q m -> (forall s, Q s -> R s) -> post R m.
Proof using. destruct m; simpl; auto. Qed.

Lemma post_bind {A B} (Q : A -> Prop) (R : B -> Prop) (m : result A) k :
  post Q m -> (forall s, Q s -> post R (k s)) -> post R (rbind m k).
Proof using. destruct m; simpl; auto; done. Qed.

Lemma wf_Inv s id c : wf s -> s.(conns) !! id = Some c -> Inv conn_ok id s.
Proof using. intros [Hc Hok] Hid. split_and!; [done|eauto|]. exists c. split; [done|]. by eapply Hok. Qed.

Lemma Inv_wf s id : Inv conn_ok id s -> wf s.
Proof using.
  intros (Hc & Ho & c & Hid & Hok). split; [done|]. intros id' c' Hid'.
  destruct (decide (id' = id)) as [->|]; [by simplify_eq|eauto].
Qed.

Lemma Inv_core (P : Conn -> Prop) id s : Inv P id s -> core s.
Proof using. by intros [? _]. Qed.

Lemma Inv_halted (P : Conn -> Prop) id s : Inv P id s -> halted s.
Proof using. intros [? _]. by left. Qed.

Lemma Inv_mono (P Q : Conn -> Prop) id s : Inv P id s -> (forall c, P c -> Q c) -> Inv Q id s.
Proof using. intros (? & ? & c & ? & ?) HPQ. split_and!; [done..|]. exists c. auto. Qed.

(** ** Steps that keep the maps *)

(** The open connections, as a map to descriptors. *)
Definition open_fds (s : Listener) : gmap Z (Z * bool) :=
  (fun c => (c.(fd), c.(closedFlag))) <$> s.(conns).

Lemma core_ext s s' :
  open_fds s' = open_fds s -> s'.(fdconns) = s.(fdconns) -> s'.(order) = s.(order) ->
  s'.(count) = s.(count) -> dom s'.(interest) = dom s.(interest) -> core s -> core s'.
Proof using.
  intros E Ef Eo Ec Ei [Hm Hn Ho Hc Hi].
  assert (forall id f b, (exists c, s'.(conns) !! id = Some c /\ c.(closedFlag) = b /\ c.(fd) = f) <->
                         (exists c, s.(conns) !! id = Some c /\ c.(closedFlag) = b /\ c.(fd) = f)) as Hiff.
  { intros id f b. assert (forall (t : Listener), open_fds t = open_fds s ->
      (exists c, t.(conns) !! id = Some c /\ c.(closedFlag) = b /\ c.(fd) = f) <->
      open_fds s !! id = Some (f, b)) as Ht.
    { intros t <-. unfold open_fds. rewrite lookup_fmap_Some. split.
      - intros (c & ? & <- & <-). by exists c.
      - intros (c & [= <- <-] & ?). by exists c. }
    by rewrite !Ht. }
  split.
  - intros f id. by rewrite Ef, Hm, Hiff.
  - by rewrite Eo.
  - intros id. rewrite Eo, Ho. split; intros (c & Hid & Hcl).
    + destruct (proj2 (Hiff id c.(fd) false)) as (c' & ? & ? & _); [by exists c|]. by exists c'.
    + destruct (proj1 (Hiff id c.(fd) false)) as (c' & ? & ? & _); [by exists c|]. by exists c'.
  - by rewrite Ec, Eo.
  - by rewrite Ei, Ef.
Qed.

Lemma lookup_update id f (s : Listener) id' :
  (update id f s).(conns) !! id' = if decide (id' = id) then f <$> s.(conns) !! id else s.(conns) !! id'.
Proof using.
  unfold update, with_conns. cbn [conns]. case_decide as E; [subst; apply lookup_alter_eq|].
  by apply lookup_alter_ne.
Qed.

Lemma Inv_update (P Q : Conn -> Prop) id f s :
  Inv P id s -> (forall c, P c -> Q (f c)) ->
  (forall c, P c -> (f c).(fd) = c.(fd) /\ (f c).(closedFlag) = c.(closedFlag)) ->
  Inv Q id (update id f s).
Proof using.
  intros (Hc & Ho & c & Hid & HP) HQ Hf. split_and!.
  - eapply core_ext; [| | | | |exact Hc]; try done. unfold open_fds. apply map_eq. intros id'.
    rewrite !lookup_fmap, lookup_update. case_decide as E; [subst id'|done].
    rewrite Hid. cbn. destruct (Hf c HP) as [-> ->]. done.
  - intros id' c' Hne. rewrite lookup_update, decide_False by done. by apply Ho.
  - exists (f c). rewrite lookup_update, decide_True by done. rewrite Hid. auto.
Qed.

(** Parts of the state that the invariant does not mention. *)
Lemma Inv_frame (P : Conn -> Prop) id s s' :
  s'.(conns) = s.(conns) -> s'.(fdconns) = s.(fdconns) -> s'.(order) = s.(order) ->
  s'.(count) = s.(count) -> dom s'.(interest) = dom s.(interest) -> Inv P id s -> Inv P id s'.
Proof using.
  intros E1 E2 E3 E4 E5 (Hc & Ho & Hid). unfold Inv. rewrite E1. split_and!; [|done|done].
  eapply core_ext; [|done..]. unfold open_fds. by rewrite E1.
Qed.

(** What is watched already can be watched differently. *)
Lemma Inv_mod (P : Conn -> Prop) id f m s :
  is_Some (s.(fdconns) !! f) -> Inv P id s -> Inv P id (with_interest <[f := m]> s).
Proof using.
  intros Hf Hi. eapply Inv_frame; [..|exact Hi]; try done. cbn. rewrite dom_insert_L.
  apply subseteq_union_1_L, singleton_subseteq_l. rewrite (core_interest _ (proj1 Hi)). by apply elem_of_dom.
Qed.

Lemma core_open s id c :
  core s -> s.(conns) !! id = Some c -> c.(closedFlag) = false -> is_Some (s.(fdconns) !! c.(fd)).
Proof using. intros Hc Hid Hop. exists id. apply (core_map _ Hc). by exists c. Qed.

Lemma Inv_conn_at (P : Conn -> Prop) id s :
  Inv P id s -> exists c, conn_at id s = Ok c /\ s.(conns) !! id = Some c /\ P c.
Proof using. intros (_ & _ & c & Hid & HP). exists c. unfold conn_at. by rewrite Hid. Qed.

(** ** The operations *)

Lemma spinLock_post (P : Conn -> Prop) id s :
  Inv (fun c => P c /\ unlocked c) id s -> (forall c, P c -> P (set_lock true c)) ->
  post (Inv (fun c => P c /\ locked c) id) (spinLock id s).
Proof using.
  intros Hi HP. destruct (Inv_conn_at _ _ _ Hi) as (c & Hat & _ & _ & _ & Hl).
  unfold spinLock. rewrite Hat. cbn [rbind]. rewrite Hl. cbn [post].
  eapply Inv_update; [exact Hi| |done]. intros c' [? [? ?]]. split; [auto|done].
Qed.

Lemma spinUnlock_Inv (P : Conn -> Prop) id s :
  Inv (fun c => P c /\ locked c) id s -> (forall c, P c -> P (set_lock false c)) ->
  Inv (fun c => P c /\ unlocked c) id (spinUnlock id s).
Proof using.
  intros Hi HP. eapply Inv_update; [exact Hi| |done]. intros c' [? [? ?]]. split; [auto|done].
Qed.

Lemma append_out_post (P : Conn -> Prop) id p s :
  Inv (fun c => P c /\ unlocked c) id s ->
  (forall c b, P c -> P (set_lock b c)) -> (forall c b, P c -> P (set_out b c)) ->
  post (Inv (fun c => P c /\ unlocked c) id) (append_out id p s).
Proof using.
  intros Hi HPl HPo. unfold append_out. eapply post_bind; [apply (spinLock_post P); auto|].
  intros s1 Hi1. cbn [post]. apply (spinUnlock_Inv P); [|auto].
  eapply Inv_update; [exact Hi1| |done]. intros c [? [? ?]]. split; [auto|done].
Qed.

(** Closing it goes to its end: it is not a websocket, or there is an [OnWSClose]. *)
Definition closable (c : Conn) : Prop := c.(ws) = None \/ hd.(OnWSClose) <> None.

Lemma closable_ws c c' : c'.(ws) = c.(ws) -> closable c -> closable c'.
Proof using. unfold closable. by intros ->. Qed.

(** What closing does to the maps. *)
Lemma closeConn_maps id t b s c :
  s.(conns) !! id = Some c -> c.(closedFlag) = false -> closable c ->
  exists s', closeConnWithError hd id t b s = Ok s' /\
    s'.(conns) = (update id set_closed s).(conns) /\ s'.(fdconns) = delete c.(fd) s.(fdconns) /\
    s'.(order) = filter (fun x => x <> id) s.(order) /\ s'.(count) = s.(count) - 1 /\
    s'.(interest) = delete c.(fd) s.(interest).
Proof using.
  intros Hid Hcl Hws. unfold closeConnWithError, conn_at. rewrite Hid. cbn [checked_in rbind]. rewrite Hcl.
  unfold closable in Hws. destruct c.(ws) as [w|]; [destruct hd.(OnWSClose) as [h|]; [|by destruct Hws]|];
    destruct (hd.(close_fails) c.(fd)), b; cbn [checked_in rbind]; cbn zeta; eexists; (split; [reflexivity|done]).
Qed.

(** And what it does to a websocket when [OnWSClose] is nil. *)
Lemma closeConn_half id t b s c :
  s.(conns) !! id = Some c -> c.(closedFlag) = false -> ~ closable c ->
  closeConnWithError hd id t b s = Err (Panicked (update id set_closed s)) /\
  c.(ws) <> None /\ hd.(OnWSClose) = None.
Proof using.
  unfold closable. intros Hid Hcl Hws. unfold closeConnWithError, conn_at. rewrite Hid. cbn [checked_in rbind].
  rewrite Hcl. destruct c.(ws) as [w|]; [|tauto]. destruct hd.(OnWSClose) as [h|]; [|done].
  exfalso. apply Hws. by right.
Qed.

Lemma closable_or c : closable c \/ ~ closable c.
Proof using. unfold closable. destruct c.(ws), hd.(OnWSClose); (left; by (left + right)) || (right; by intros [|]). Qed.

Lemma core_close id c s s' :
  core s -> s.(conns) !! id = Some c -> c.(closedFlag) = false ->
  s'.(conns) = (update id set_closed s).(conns) -> s'.(fdconns) = delete c.(fd) s.(fdconns) ->
  s'.(order) = filter (fun x => x <> id) s.(order) -> s'.(count) = s.(count) - 1 ->
  s'.(interest) = delete c.(fd) s.(interest) -> core s'.
Proof using.
  intros [Hm Hn Hor Hcnt Hint] Hid Hcl F1 F2 F3 F4 F5.
  assert (forall id' c', s'.(conns) !! id' = Some c' /\ c'.(closedFlag) = false <->
            s.(conns) !! id' = Some c' /\ c'.(closedFlag) = false /\ id' <> id) as Hopen.
  { intros id' c'. rewrite F1, lookup_update. case_decide as E; [subst id'|tauto].
    rewrite Hid. cbn. split; [intros [[= <-] ?]; done|tauto]. }
  split.
  - intros f id'. rewrite F2, lookup_delete_Some, Hm. split.
    + intros (Hf & c' & ? & ? & ?). exists c'.
      destruct (proj2 (Hopen id' c')) as [? ?]; [|done]. split_and!; try done.
      intros ->. congruence.
    + intros (c' & Hc' & Hcl' & Hf). destruct (proj1 (Hopen id' c')) as (? & _ & Hne); [done|].
      split; [|by exists c']. intros E.
      assert (s.(fdconns) !! f = Some id') as A by (apply Hm; by exists c').
      assert (s.(fdconns) !! f = Some id) as B by (apply Hm; by exists c). congruence.
  - rewrite F3. by apply NoDup_filter.
  - intros id'. rewrite F3, list_elem_of_filter, Hor. split.
    + intros (Hne & c' & ? & ?). exists c'. by apply Hopen.
    + intros (c' & Hc'). apply Hopen in Hc' as (? & ? & ?). split; [done|by exists c'].
  - rewrite F4, F3, Hcnt.
    assert (id ∈ s.(order)) as Hin by (apply Hor; by exists c).
    apply list_elem_of_split in Hin as (l1 & l2 & E). rewrite E in Hn |- *.
    rewrite filter_ne_middle, !len_app, len_cons by done. lia.
  - by rewrite F5, F2, !dom_delete_L, Hint.
Qed.

Lemma closeConn_post id t b s :
  Inv (fun _ => True) id s ->
  post (Inv (fun c => c.(closedFlag) = true) id) (closeConnWithError hd id t b s).
Proof using.
  intros Hi. destruct Hi as (Hc & Ho & c & Hid & _). destruct c.(closedFlag) eqn:Hcl.
  { unfold closeConnWithError, conn_at. rewrite Hid. cbn [checked_in rbind]. rewrite Hcl. cbn [post].
    split_and!; [done..|]. by exists c. }
  destruct (closable_or c) as [Hws|Hws].
  2: { destruct (closeConn_half id t b s c Hid Hcl Hws) as (-> & Hw & Hn). right. split; [done|]. exists s, id.
       split_and!; try done. by exists c. }
  destruct (closeConn_maps id t b s c Hid Hcl Hws) as (s' & -> & F1 & F2 & F3 & F4 & F5). cbn [post]. split_and!.
  - by eapply core_close.
  - intros id' c' Hne. rewrite F1, lookup_update, decide_False by done. by apply Ho.
  - exists (set_closed c). rewrite F1, lookup_update, decide_True by done. by rewrite Hid.
Qed.

(** ** Writing *)

(** The input of a connection that is not a websocket fits its parser. *)
Definition input_ok (c : Conn) : Prop := c.(ws) = None -> state_ok c.(inb) c.(srs).

Lemma conn_ok_unlocked c : input_ok c /\ unlocked c -> conn_ok c.
Proof using. intros [Hi [Ho Hl]] _. by split. Qed.

Lemma conn_ok_closed c : c.(closedFlag) = true -> conn_ok c.
Proof using. intros Hc Ho. congruence. Qed.

Lemma Inv_True (P : Conn -> Prop) id s : Inv P id s -> Inv (fun _ => True) id s.
Proof using. intros Hi. by eapply Inv_mono. Qed.

Lemma closeConn_ok id t b s :
  Inv (fun _ => True) id s -> post (Inv conn_ok id) (closeConnWithError hd id t b s).
Proof using.
  intros Hi. eapply post_mono; [by apply closeConn_post|]. intros s' Hs'.
  eapply Inv_mono; [exact Hs'|]. apply conn_ok_closed.
Qed.

Lemma writeConn_post id w s :
  Inv (fun c => input_ok c /\ unlocked c) id s -> post (Inv conn_ok id) (writeConn hd id w s).
Proof using.
  intros Hi. unfold writeConn. eapply post_bind; [by apply (spinLock_post input_ok)|].
  intros s1 Hi1. destruct (Inv_conn_at _ _ _ Hi1) as (c & Hat & Hid & _ & Hop & _). rewrite Hat. cbn [rbind].
  pose proof (core_open _ _ _ (Inv_core _ _ _ Hi1) Hid Hop) as Hfd.
  assert (forall f (t : Listener), (forall c, f c = c \/ exists o, f c = set_out o c) ->
            Inv (fun c => input_ok c /\ locked c) id t ->
            Inv (fun c => input_ok c /\ unlocked c) id (spinUnlock id (update id f t))) as Hun.
  { intros f t Hf Ht. apply (spinUnlock_Inv input_ok); [|done].
    eapply Inv_update; [exact Ht|..]; intros c' [? ?]; destruct (Hf c') as [-> |[o ->]]; done. }
  assert (Inv (fun c => input_ok c /\ unlocked c) id (spinUnlock id s1)) as Hi2
    by (by apply (spinUnlock_Inv input_ok)).
  assert (forall t, Inv (fun c => input_ok c /\ unlocked c) id t -> Inv conn_ok id t) as Hok
    by (intros t Ht; eapply Inv_mono; [exact Ht|apply conn_ok_unlocked]).
  destruct (len c.(outb) =? 0).
  { cbn [post]. by apply Inv_mod; [|apply Hok]. }
  assert (forall o n (t : Listener), Inv (fun c => input_ok c /\ locked c) id t ->
            Inv (fun c => input_ok c /\ locked c) id
              (if n : bool then emit (EvSent id o) t else t)) as Hemit.
  { intros o n t Ht. destruct n; [|done]. eapply Inv_frame; [..|exact Ht]; done. }
  destruct w as [n|n|].
  - destruct (n =? len c.(outb)).
    + set (s2 := spinUnlock _ _).
      assert (Inv (fun c => input_ok c /\ unlocked c) id s2) as Hi3.
      { apply Hun; [intros c'; right; by eexists|]. by apply (Hemit _ true). }
      destruct (match c.(ws) with Some w => w.(Ws.closed) | None => false end).
      * apply closeConn_ok. by eapply Inv_True.
      * cbn [post]. by apply Inv_mod; [|apply Hok].
    + destruct (slice_from c.(outb) n); [|by eapply Inv_halted, (Hemit _ true)]. cbn [checked_in rbind post].
      apply Inv_mod; [done|]. apply Hok, (Hun (set_out l)); [intros c'; right; by eexists|].
      by apply (Hemit _ true).
  - destruct (if 0 <? n then slice_from c.(outb) n else Some c.(outb)) as [o|]; [|by eapply Inv_halted].
    cbn [checked_in rbind post]. apply Inv_mod; [by destruct (0 <? n)|].
    apply Hok, (Hun (set_out o)); [intros c'; right; by eexists|]. by apply Hemit.
  - apply closeConn_ok. by eapply Inv_True.
Qed.

(** ** Websockets *)

Lemma onWebsocket_events req w :
  let '(_, evs, more) := onWebsocket req w in
  (more = false /\ exists t e, evs = [CloseConn t e]) \/
  (more = true /\ (evs = [] \/ (exists p, evs = [OnWSData p]) \/ exists b, evs = [WriteFrame b])).
Proof using.
  unfold onWebsocket. destruct req.(opcode) as [|op|op]; [| |destruct req.(Ws.fin); eauto 6].
  - destruct w.(contFrame); [|by left; eauto]. cbn zeta. destruct (_ <? _); [by left; eauto|].
    destruct req.(Ws.fin); right; eauto 6.
  - do 4 (try destruct op as [op|op|]); try (destruct req.(Ws.fin); eauto 6); eauto 6.
Qed.

Lemma conn_Write_post (X : bytes -> Prop) id p s :
  Inv (fun c => (X c.(inb) /\ is_Some c.(ws)) /\ unlocked c) id s ->
  post (fun r => Inv (fun c => (X c.(inb) /\ is_Some c.(ws)) /\ unlocked c) id r.1) (conn_Write id p s).
Proof using.
  intros Hi. unfold conn_Write. destruct (Inv_conn_at _ _ _ Hi) as (c & Hat & _ & _).
  rewrite Hat. cbn [rbind]. destruct c.(closedFlag); [done|].
  eapply post_bind; [apply (append_out_post (fun c => X c.(inb) /\ is_Some c.(ws))); done|].
  intros s1 Hi1. done.
Qed.

Lemma conn_Flush_post (P : Conn -> Prop) id s :
  Inv P id s -> post (Inv P id) (conn_Flush id s).
Proof using.
  intros Hi. unfold conn_Flush. destruct (Inv_conn_at _ _ _ Hi) as (c & Hat & _ & _).
  rewrite Hat. cbn [rbind]. destruct c.(closedFlag); [done|]. cbn [post].
  eapply Inv_frame; [..|exact Hi]; done.
Qed.

Lemma async_write_post (X : bytes -> Prop) id p s :
  Inv (fun c => (X c.(inb) /\ is_Some c.(ws)) /\ unlocked c) id s ->
  post (Inv (fun c => (X c.(inb) /\ is_Some c.(ws)) /\ unlocked c) id) (async_write id p s).
Proof using.
  intros Hi. unfold async_write. eapply post_bind; [by apply (conn_Write_post X)|].
  intros [s1 ok] Hi1. by apply conn_Flush_post.
Qed.

Lemma ws_writes_post (X : bytes -> Prop) id bs s :
  Inv (fun c => (X c.(inb) /\ is_Some c.(ws)) /\ unlocked c) id s ->
  post (Inv (fun c => (X c.(inb) /\ is_Some c.(ws)) /\ unlocked c) id) (ws_writes id bs s).
Proof using.
  revert s. induction bs as [|b bs IH]; intros s Hi; cbn [ws_writes]; [done|].
  eapply post_bind; [by apply async_write_post|]. exact IH.
Qed.

Lemma ws_effects_post (X : bytes -> Prop) id req w s :
  Inv (fun c => (X c.(inb) /\ is_Some c.(ws)) /\ unlocked c) id s ->
  let '(_, evs, more) := onWebsocket req w in
  post (if more : bool then Inv (fun c => (X c.(inb) /\ is_Some c.(ws)) /\ unlocked c) id
        else Inv conn_ok id) (ws_effects hd id evs s).
Proof using.
  intros Hi. pose proof (onWebsocket_events req w) as He.
  destruct (onWebsocket req w) as [[w' evs] more].
  destruct He as [[-> (t & e & ->)]|[-> [->|[[p ->]|[b ->]]]]]; cbn [ws_effects].
  - eapply post_bind; [apply closeConn_ok; by eapply Inv_True|]. intros s1 Hi1. done.
  - done.
  - destruct hd.(OnWSData') as [h|]; [|by eapply Inv_halted]. cbn [checked_in rbind].
    destruct (h p _) as [[u bs] closes].
    eapply post_bind; [apply (ws_writes_post X)|].
    { eapply Inv_frame; [..|exact Hi]; done. }
    intros s2 Hi2. cbn [post]. destruct closes; [|done].
    eapply Inv_update; [exact Hi2| |done]. intros c [[HX [w0 Hw]] Hu]. rewrite Hw.
    split; [|done]. split; [done|]. by eexists.
  - eapply post_bind; [by apply (async_write_post X)|]. done.
Qed.

(** ** Reading *)

Lemma truncate_post (P : Conn -> Prop) id sz s b :
  Inv (fun c => (c.(inb) = b /\ P c) /\ unlocked c) id s ->
  (forall c v, P c -> P (set_lock v c)) -> (forall c v, P c -> P (set_in v c)) ->
  post (fun r => r.2 = len b - sz /\ 0 <= sz <= len b /\
                 Inv (fun c => (len c.(inb) = len b - sz /\ P c) /\ unlocked c) id r.1)
    (truncateInputBuffer id sz s).
Proof using.
  intros Hi HPl HPi. unfold truncateInputBuffer.
  eapply post_bind; [apply (spinLock_post (fun c => c.(inb) = b /\ P c)); [exact Hi|]|].
  { intros c [? ?]. split; [done|]. by apply HPl. }
  intros s1 Hi1. destruct (Inv_conn_at _ _ _ Hi1) as (c & Hat & _ & [Hb _] & _).
  rewrite Hat. cbn [rbind]. rewrite Hb. destruct (slice_from b sz) as [b'|] eqn:Hs; [|by eapply Inv_halted].
  apply slice_from_Some in Hs as [Hsz ->]. cbn [checked_in rbind post fst snd].
  assert (len (drop (Z.to_nat sz) b) = len b - sz) as Hlen by (rewrite len_drop; lia).
  split_and!; [done|lia|lia|].
  apply (spinUnlock_Inv (fun c => len c.(inb) = len b - sz /\ P c)).
  - eapply Inv_update; [exact Hi1| |done]. intros c' [[_ ?] [? ?]]. split; [|done].
    split; [done|]. by apply HPi.
  - intros c' [? ?]. split; [done|]. by apply HPl.
Qed.

(** What follows a request that was handled. *)
Lemma finish_post id w s (b : bytes) :
  len b < 2 ^ 32 ->
  Inv (fun c => len c.(inb) <= len b /\ unlocked c) id s ->
  post (Inv conn_ok id)
    (let s := update id (set_srs newState) s in
     let! c := conn_at id s in
     if negb (len c.(outb) =? 0) then writeConn hd id w s else Ok s).
Proof using.
  intros Hb Hi. cbn zeta. set (s1 := update id (set_srs newState) s).
  assert (Inv (fun c => input_ok c /\ unlocked c) id s1) as Hi1.
  { eapply Inv_update; [exact Hi| |done]. intros c [? ?]. split; [|done].
    intros _. split; [cbn [inb set_srs]; lia|by left]. }
  destruct (Inv_conn_at _ _ _ Hi1) as (c & -> & _). cbn [rbind].
  destruct (len c.(outb) =? 0); cbn [negb].
  - cbn [post]. eapply Inv_mono; [exact Hi1|apply conn_ok_unlocked].
  - by apply writeConn_post.
Qed.

Lemma parse_next_post fuel id d w s x :
  max_ok -> (length x + length d < fuel)%nat ->
  Inv (fun c => (c.(inb) = x /\ input_ok c) /\ unlocked c) id s ->
  post (Inv conn_ok id) (parse_next hd fuel id d w s).
Proof using.
  intros Hmax. revert x d s. induction fuel as [|fuel IH]; intros x d s Hf Hi; [lia|].
  cbn [parse_next].
  eapply post_bind; [by apply (spinLock_post (fun c => c.(inb) = x /\ input_ok c))|].
  intros s1 Hi1. set (s2 := update id _ s1).
  assert (Inv (fun c => c.(inb) = x ++ d /\ (c.(ws) = None -> state_ok x c.(srs)) /\ locked c) id s2)
    as Hi2.
  { eapply Inv_update; [exact Hi1| |done]. intros c [[<- ?] ?]. done. }
  destruct (Inv_conn_at _ _ _ Hi2) as (c & Hat & Hid & Hin & Hst & Hopn & Hlk). rewrite Hat. cbn [rbind].
  rewrite Hin. destruct (Z.ltb_spec RequestMaxBytes (len (x ++ d))) as [|Hle].
  { apply closeConn_ok. by eapply Inv_True. }
  assert (len (x ++ d) < 2 ^ 32) as Hl by (unfold max_ok in Hmax; lia).
  (* what the parser leaves in the connection *)
  assert (forall inp c' (t : Listener), t.(conns) = s2.(conns) -> t.(fdconns) = s2.(fdconns) ->
            t.(order) = s2.(order) -> t.(count) = s2.(count) ->
            dom t.(interest) = dom s2.(interest) ->
            c'.(fd) = c.(fd) -> c'.(closedFlag) = c.(closedFlag) -> c'.(lock) = c.(lock) ->
            Inv (fun k => k = set_in inp c') id (update id (fun _ => set_in inp c') t)) as Hmid.
  { intros inp c' t E1 E2 E3 E4 E5 F1 F2 F3.
    assert (Inv (fun k => k = c) id t) as Ht.
    { eapply Inv_frame; [done..|]. destruct Hi2 as (? & ? & _). split_and!; [done..|by exists c]. }
    eapply Inv_update; [exact Ht|done|]. intros k ->. done. }
  assert (forall inp c' (t : Listener), t.(conns) = s2.(conns) -> t.(fdconns) = s2.(fdconns) ->
            t.(order) = s2.(order) -> t.(count) = s2.(count) ->
            dom t.(interest) = dom s2.(interest) ->
            c'.(fd) = c.(fd) -> c'.(closedFlag) = c.(closedFlag) -> c'.(lock) = c.(lock) ->
            Inv (fun k => k = set_lock false (set_in inp c')) id
              (spinUnlock id (update id (fun _ => set_in inp c') t))) as Hset.
  { intros inp c' t E1 E2 E3 E4 E5 F1 F2 F3.
    eapply (Inv_update (fun k => k = set_in inp c')); [by apply Hmid|by intros k ->|by intros k ->]. }
  destruct c.(ws) as [wsk|] eqn:Hws.
  - destruct wsk.(Ws.closed).
    { cbn [post]. rewrite decide_True by done. cbn [post].
      eapply Inv_mono; [by apply (Hset (x ++ d) c)|]. intros k -> _. cbn. by rewrite Hws. }
    destruct (ws_parse (x ++ d)) as [inp r] eqn:Hp.
    destruct (ws_parse_stable _ [] _ _ Hp) as [Hlen Hstb].
    destruct r as [f|e| |]; try done.
    2: { clear Hstb. case_decide.
         - cbn [post]. eapply Inv_mono; [by apply (Hset inp c)|]. intros k -> _. cbn. by rewrite Hws.
         - apply closeConn_ok. eapply Inv_True. by apply (Hset inp c). }
    2: { eapply Inv_halted. by apply (Hmid inp c). }
    2: { exfalso. eapply ws_parse_fuel. by rewrite Hp. }
    rewrite decide_False in Hstb by done. destruct Hstb as [_ Hfl]. specialize (Hfl f eq_refl).
    cbn [set_ws ws parsedFrame].
    eapply post_bind.
    { apply (truncate_post (fun c => is_Some c.(ws)) id f.(flen) _ inp); [|done..].
      eapply Inv_mono; [by apply Hset|]. intros k ->. split; [|done]. split; [done|by eexists]. }
    intros [s3 remain] (Hrem & Hsz & Hi3). cbn [fst snd] in *.
    pose proof (ws_effects_post (fun b => len b = len inp - f.(flen)) id f
                  (mkWebsocket f wsk.(contFrame) false wsk.(closingData))) as Heff.
    destruct (onWebsocket f _) as [[w' evs] more].
    eapply post_bind.
    { apply Heff. eapply Inv_update; [exact Hi3| |done].
      intros k [[? ?] ?]. split; [|done]. split; [done|]. by eexists. }
    intros s4 Hi4. destruct more; cbn [negb]; [|done].
    destruct (Z.ltb_spec 0 remain).
    + destruct Hi4 as (Hc4 & Ho4 & k & Hk & [Hkb Hkw] & Hku).
      apply (IH k.(inb)).
      * unfold len in *. rewrite length_app in Hlen. simpl. lia.
      * split_and!; [done..|]. exists k. split_and!; try done.
        intros Hn. rewrite Hn in Hkw. by destruct Hkw.
    + eapply (finish_post id w s4 inp); [unfold len in *; rewrite Hlen; lia|].
      eapply Inv_mono; [exact Hi4|]. intros k [[? ?] ?]. split; [lia|done].
  - specialize (Hst eq_refl).
    assert (state_ok (x ++ d) c.(srs)) as Hst2 by (by apply state_ok_app).
    destruct (process (x ++ d) c.(srs)) as [[inp s'] r] eqn:Hp.
    pose proof (process_panic (x ++ d) c.(srs) Hmax Hst2) as Hpan. rewrite Hp in Hpan.
    pose proof (process_resumes (x ++ d) [] c.(srs) Hmax Hst2) as Hres.
    rewrite Hp, app_nil_r in Hres. specialize (Hres Hl). unfold resumes in Hres.
    destruct r as [[]|e| |]; try done; [| | |by destruct Hpan].
    2: { destruct (decide (e = errWaitMore)) as [He|He].
         - subst e. rewrite decide_True in Hres by done. destruct Hres as (_ & _ & Hok).
           cbn [post]. eapply Inv_mono; [by apply (Hset inp (set_srs s' c))|].
           intros k ->. by intros _.
         - apply closeConn_ok. eapply Inv_True. by apply (Hset inp (set_srs s' c)). }
    2: { eapply Inv_halted. by apply (Hmid inp (set_srs s' c)). }
    pose proof (process_length (x ++ d) c.(srs) Hmax Hst2) as Hpl. rewrite Hp in Hpl. cbn [fst] in Hpl.
    cbn [set_srs ws srs]. rewrite Hws.
    assert (len inp < 2 ^ 32) as Hlinp by (unfold len in *; lia).
    assert (Inv (fun k => (k.(inb) = inp /\ True) /\ unlocked k) id
              (spinUnlock id (update id (fun _ => set_in inp (set_srs s' c)) s2))) as Hi3.
    { eapply Inv_mono; [by apply Hset|]. intros k ->. done. }
    destruct s'.(http) as [req|].
    + eapply post_bind; [by apply (truncate_post (fun _ => True) id _ _ inp)|].
      intros [s4 rm] (_ & Hsz & Hi4). cbn [fst] in Hi4.
      destruct (hd.(OnHTTP) req _) as [[[u b] upgrade] more].
      eapply post_bind.
      { apply (append_out_post (fun k => len k.(inb) <= len inp)); [|done..].
        assert (forall t : Listener, Inv (fun c => (len c.(inb) = len inp - (req.(bodyLen) + req.(hdrLen)) /\ True)
                                   /\ unlocked c) id t ->
                  Inv (fun c => len c.(inb) <= len inp /\ unlocked c) id t) as Hw.
        { intros t Ht. eapply Inv_mono; [exact Ht|]. intros k [[? _] ?]. split; [lia|done]. }
        destruct upgrade.
        - eapply Inv_update; [apply Hw; eapply Inv_frame; [..|exact Hi4]; done|done|done].
        - apply Hw. eapply Inv_frame; [..|exact Hi4]; done. }
      intros s5 Hi5. destruct more; cbn [negb].
      * by apply (finish_post id w s5 inp).
      * apply closeConn_ok. by eapply Inv_True.
    + destruct s'.(redis) as [req|]; [|by eapply Inv_halted]. cbn [checked_in rbind].
      eapply post_bind; [by apply (truncate_post (fun _ => True) id _ _ inp)|].
      intros [s4 rm] (_ & Hsz & Hi4). cbn [fst] in Hi4.
      destruct (hd.(OnRedis) req _) as [[u b] more].
      eapply post_bind.
      { apply (append_out_post (fun k => len k.(inb) <= len inp)); [|done..].
        eapply Inv_frame; [..|eapply Inv_mono; [exact Hi4|]]; try done.
        intros k [[? _] ?]. split; [lia|done]. }
      intros s5 Hi5. destruct more; cbn [negb].
      * by apply (finish_post id w s5 inp).
      * apply closeConn_ok. by eapply Inv_True.
Qed.

Lemma readConn_post id r w s :
  max_ok -> Inv conn_ok id s -> post (Inv conn_ok id) (readConn hd id r w s).
Proof using.
  intros Hmax Hi. unfold readConn. destruct (Inv_conn_at _ _ _ Hi) as (c & Hat & Hid & Hok).
  rewrite Hat. cbn [rbind]. destruct c.(closedFlag) eqn:Hcl.
  { apply closeConn_ok. by eapply Inv_True. }
  destruct (Hok Hcl) as [Hl Hin]. destruct r as [d| | |].
  - apply (parse_next_post _ _ _ _ _ c.(inb) Hmax); [lia|].
    destruct Hi as (? & ? & _). split_and!; [done..|]. exists c. split; [done|].
    split; [by split|by split].
  - apply closeConn_ok. by eapply Inv_True.
  - cbn [post]. apply Inv_mod; [|done]. by eapply core_open; [eapply Inv_core|..].
  - apply closeConn_ok. by eapply Inv_True.
Qed.

(** ** The loop *)

Lemma sweep_post ids cutoff s : wf s -> post wf (sweep hd ids cutoff s).
Proof using.
  revert s. induction ids as [|id ids IH]; intros s Hs; [done|]. cbn [sweep].
  destruct (s.(conns) !! id) as [c|] eqn:Hid; unfold conn_at; rewrite Hid; [|left; apply Hs].
  cbn [checked_in rbind]. destruct (_ <? _); [|done].
  eapply post_bind; [apply closeConn_ok; eapply Inv_True; by eapply wf_Inv|].
  intros s1 Hs1. apply IH. by eapply Inv_wf.
Qed.

(** Moving an open connection to the front. *)
Lemma touch_Inv id now s c :
  wf s -> s.(conns) !! id = Some c -> c.(closedFlag) = false ->
  Inv conn_ok id (attachConn id now (detach id s)).
Proof using.
  intros [[Hm Hn Ho Hc Hint] Hok] Hid Hcl. unfold attachConn.
  set (s1 := with_order _ (detach id s)).
  assert (core s1) as Hcore.
  { split; cbn; [done| | | |].
    - apply NoDup_cons. split; [rewrite list_elem_of_filter; tauto|by apply NoDup_filter].
    - intros id'. rewrite elem_of_cons, list_elem_of_filter, Ho. split.
      + intros [->|[_ ?]]; [by exists c|done].
      + intros (c' & ? & ?). destruct (decide (id' = id)) as [->|]; [by left|right].
        split; [done|by exists c'].
    - rewrite Hc. assert (id ∈ s.(order)) as Hin by (apply Ho; by exists c).
      apply list_elem_of_split in Hin as (l1 & l2 & E). rewrite E in Hn |- *.
      rewrite filter_ne_middle by done. rewrite len_cons, !len_app, len_cons. lia.
    - done. }
  assert (Inv conn_ok id s1) as Hi.
  { split_and!; [done|cbn; eauto|]. exists c. split; [done|]. by eapply Hok. }
  eapply Inv_update; [exact Hi| |done]. done.
Qed.

(** The kernel gives a new connection a descriptor that is not in use. *)
Definition accept_ok (i : input) (s : Listener) : Prop :=
  match i with
  | Accept id nfd => s.(conns) !! id = None /\ s.(fdconns) !! nfd = None
  | _ => True
  end.

Lemma accept_Inv id nfd now s :
  wf s -> s.(conns) !! id = None -> s.(fdconns) !! nfd = None ->
  Inv conn_ok id
    (with_count (fun n => n + 1)
       (attachConn id now
          (with_fdconns (<[nfd := id]>)
             (with_interest (<[nfd := MRead]>) (with_conns (<[id := newConn nfd]>) s))))).
Proof using.
  intros [[Hm Hn Ho Hc Hint] Hok] Hid Hf. unfold attachConn.
  set (s1 := with_order _ _).
  assert (Inv conn_ok id (with_count (fun n => n + 1) s1)) as Hi.
  { split_and!; [split; cbn| |].
    - intros f id'. destruct (decide (f = nfd)) as [->|Hne].
      + rewrite lookup_insert_eq. split.
        * intros [= <-]. exists (newConn nfd). by rewrite lookup_insert_eq.
        * intros (c & Hc' & Hcl & Hfd). destruct (decide (id' = id)) as [->|]; [done|].
          rewrite lookup_insert_ne in Hc' by done.
          assert (s.(fdconns) !! nfd = Some id') as E by (apply Hm; by exists c). congruence.
      + rewrite lookup_insert_ne, Hm by done. split.
        * intros (c & Hc' & ? & ?). exists c. rewrite lookup_insert_ne; [done|]. congruence.
        * intros (c & Hc' & Hcl & Hfd). destruct (decide (id' = id)) as [->|].
          -- rewrite lookup_insert_eq in Hc'. injection Hc' as <-. done.
          -- rewrite lookup_insert_ne in Hc' by done. by exists c.
    - apply NoDup_cons. split; [|done]. rewrite Ho. intros (c & ? & _). congruence.
    - intros id'. rewrite elem_of_cons, Ho. split.
      + intros [->|(c & ? & ?)].
        * exists (newConn nfd). by rewrite lookup_insert_eq.
        * exists c. rewrite lookup_insert_ne; [done|]. congruence.
      + intros (c & Hc' & Hcl). destruct (decide (id' = id)) as [->|]; [by left|right].
        rewrite lookup_insert_ne in Hc' by done. by exists c.
    - rewrite Hc, len_cons. lia.
    - by rewrite !dom_insert_L, Hint.
    - intros id' c' Hne Hc'. cbn in Hc'. rewrite lookup_insert_ne in Hc' by done. by eapply Hok.
    - exists (newConn nfd). cbn. rewrite lookup_insert_eq. split; [done|]. intros _.
      split; [done|]. intros _. by split; [|left]. }
  destruct Hi as (Hcore & Hoth & c & Hc' & Hcok).
  apply (Inv_update conn_ok conn_ok id (set_lastTs now) (with_count (fun n => n + 1) s1));
    [|done|done]. by split_and!; [..|exists c].
Qed.

Lemma iter_post i now timeout s :
  max_ok -> wf s -> accept_ok i s -> post wf (iter hd i now timeout s).
Proof using.
  intros Hmax Hs Ha. unfold iter. eapply (post_bind wf).
  2: { intros s1 Hs1. destruct (0 <? timeout); [by apply sweep_post|done]. }
  destruct i as [id nfd|e|f canWrite canRead eof w1 r w2].
  - destruct Ha as [Hid Hf]. cbn [post]. eapply (Inv_wf _ id).
    eapply Inv_frame; [..|apply (accept_Inv id nfd now s Hs Hid Hf)]; done.
  - cbn [post]. destruct Hs as [Hc Hok].
    destruct e; (split; [by eapply core_ext; [..|exact Hc]|done]).
  - destruct (s.(fdconns) !! f) as [id|] eqn:Hf; [|done].
    pose proof (core_map _ (proj1 Hs)) as Hm. apply Hm in Hf as (c & Hid & Hcl & _).
    pose proof (touch_Inv id now s c Hs Hid Hcl) as Hi.
    set (s1 := attachConn id now (detach id s)) in *.
    eapply (post_bind (Inv conn_ok id)).
    { destruct canWrite; [|done]. apply writeConn_post.
      destruct (Hi) as (? & ? & c1 & Hc1 & Hok1). split_and!; [done..|]. exists c1. split; [done|].
      assert (c1.(closedFlag) = false) as Hcl1.
      { unfold s1, attachConn in Hc1. rewrite lookup_update, decide_True in Hc1 by done.
        cbn in Hc1. rewrite Hid in Hc1. by injection Hc1 as <-. }
      destruct (Hok1 Hcl1). by split. }
    intros s2 Hi2. eapply (post_bind (Inv conn_ok id)).
    { destruct canRead; [by apply readConn_post|done]. }
    intros s3 Hi3. eapply (post_mono (Inv conn_ok id)); [|intros t; apply Inv_wf].
    destruct eof; [|done]. apply closeConn_ok. by eapply Inv_True.
Qed.

(** Writing from outside an event changes the output and nothing else. *)
Lemma append_out_Ok id p (s s' : Listener) :
  append_out id p s = Ok s' ->
  exists c, s.(conns) !! id = Some c /\ c.(lock) = false /\
    s' = update id (fun c => set_out (c.(outb) ++ p) c) s.
Proof using.
  unfold append_out, spinLock, conn_at. destruct (s.(conns) !! id) as [c|] eqn:Hid; [|done].
  cbn [checked_in rbind]. destruct c.(lock) eqn:Hl; [done|]. intros [= <-]. exists c. split_and!; [done..|].
  unfold spinUnlock, update, with_conns. cbn. f_equal. rewrite !alter_alter_eq.
  apply alter_ext. intros c'. rewrite Hid. intros [= <-]. destruct c; cbn in *. by subst.
Qed.

Lemma append_out_wf id p s s' : wf s -> append_out id p s = Ok s' -> wf s'.
Proof using.
  intros [Hc Hok] (c & Hid & Hl & ->)%append_out_Ok. apply (Inv_wf _ id).
  eapply (Inv_update conn_ok); [by eapply wf_Inv| |done]. done.
Qed.

Lemma conn_Flush_Ok id (s s' : Listener) :
  conn_Flush id s = Ok s' ->
  exists c, s.(conns) !! id = Some c /\ s' = if c.(closedFlag) then s else emit (EvTrigger c.(fd)) s.
Proof using.
  unfold conn_Flush, conn_at. destruct (s.(conns) !! id) as [c|]; [|done]. cbn [checked_in rbind].
  intros E. exists c. split; [done|]. by destruct c.(closedFlag); injection E as <-.
Qed.

Lemma conn_Flush_wf id s s' : wf s -> conn_Flush id s = Ok s' -> wf s'.
Proof using.
  intros [Hc Hok] (c & Hid & ->)%conn_Flush_Ok. destruct c.(closedFlag); [done|].
  split; [by eapply core_ext; [..|exact Hc]|done].
Qed.

(** The states of a listener: it starts without connections; every input is
    handled before the next; between two inputs other goroutines write to
    connections and flush them, those that are closed too. *)
Definition newListener (f : Z) (u : U) : Listener :=
  mkListener f ∅ ∅ [] 0 ∅ [] u.

Inductive reachable (timeout : Z) : Listener -> Prop :=
| reach_init f u : reachable timeout (newListener f u)
| reach_step i now s s' :
    reachable timeout s -> accept_ok i s -> iter hd i now timeout s = Ok s' ->
    reachable timeout s'
| reach_append id p s s' : reachable timeout s -> append_out id p s = Ok s' -> reachable timeout s'
| reach_flush id s s' : reachable timeout s -> conn_Flush id s = Ok s' -> reachable timeout s'.

(** [Write] and [Flush] of a connection, one after the other. *)
Lemma async_write_reachable timeout id p s s' :
  reachable timeout s -> async_write id p s = Ok s' -> reachable timeout s'.
Proof using.
  intros Hr. unfold async_write, conn_Write. destruct (conn_at id s) as [c| | |]; [|done..]. cbn [rbind].
  destruct c.(closedFlag); cbn [rbind]; [by apply reach_flush|].
  destruct (append_out id p s) as [s1| | |] eqn:E; [|done..]. cbn [rbind].
  apply reach_flush. by eapply reach_append.
Qed.

Lemma newListener_wf f u : wf (newListener f u).
Proof using.
  split; [split; cbn|].
  - intros f' id. rewrite lookup_empty. split; [done|]. intros (c & E & _).
    by rewrite lookup_empty in E.
  - constructor.
  - intros id. split; [by intros ?%not_elem_of_nil|]. intros (c & E & _). by rewrite lookup_empty in E.
  - done.
  - by rewrite !dom_empty_L.
  - intros id c E. cbn in E. by rewrite lookup_empty in E.
Qed.

Lemma reachable_wf timeout s : max_ok -> reachable timeout s -> wf s.
Proof using.
  intros Hmax. induction 1 as [f u|i now s s' _ IH Ha Hi| |];
    [apply newListener_wf| |by eapply append_out_wf|by eapply conn_Flush_wf].
  pose proof (iter_post i now timeout s Hmax IH Ha) as Hp. by rewrite Hi in Hp.
Qed.

(** A run of the loop. *)
Fixpoint accepts_ok (timeout : Z) (inputs : list (input * Z)) (s : Listener) : Prop :=
  match inputs with
  | [] => True
  | (i, now) :: inputs =>
      accept_ok i s /\ forall s', iter hd i now timeout s = Ok s' -> accepts_ok timeout inputs s'
  end.

Lemma serve_post timeout inputs s :
  max_ok -> wf s -> accepts_ok timeout inputs s -> post wf (serve hd timeout inputs s).
Proof using.
  intros Hmax. revert s. induction inputs as [|[i now] inputs IH]; intros s Hs Ha; [done|].
  destruct Ha as [Ha Hk]. cbn [serve]. pose proof (iter_post i now timeout s Hmax Hs Ha) as Hp.
  destruct (iter hd i now timeout s) as [s1| | |]; [|done..]. cbn in *. by apply IH, Hk.
Qed.
End invariant.
