(* ===== verification/ServerFrame.v ===== *)
(** Handling one connection leaves the others as they are: the frame of the
    operations of [Server]. *)

From stdpp Require Import gmap.
From S2P Require Import Prelude GoStd Escape Util Redis Ws Http State Server ServerInv.

Section frame.
Context `{Env} {U : Type} (hd : @Handlers U).
Local Abbreviation Listener := (@Listener U).
Local Abbreviation result := (@result U).
Implicit Types s : Listener.

(** All connections but [id] are the same objects. *)
Definition others (id : Z) (s s' : Listener) : Prop := delete id s'.(conns) = delete id s.(conns).

#[export] Instance others_equivalence id : Equivalence (others id).
Proof using.
  split; [done|by intros ?? ?|]. intros x y z E1 E2. unfold others in *. congruence.
Qed.

Lemma others_lookup id s s' id' : others id s s' -> id' <> id -> s'.(conns) !! id' = s.(conns) !! id'.
Proof using.
  intros E Hne. apply (f_equal (fun m => m !! id')) in E.
  by rewrite !lookup_delete_ne in E by done.
Qed.

Lemma others_update id f s : others id s (update id f s).
Proof using. unfold others, update, with_conns. cbn [conns]. apply delete_alter_eq. Qed.

Lemma ok_checked_in {A B} (P : A -> Prop) (Q : B -> Prop) s (o : option A) k :
  (forall a, o = Some a -> ok Q (k a)) -> ok Q (rbind (checked_in s o) k).
Proof using. destruct o; cbn; auto. Qed.

Lemma ok_conn_at {A} (Q : A -> Prop) id s k :
  (forall c, s.(conns) !! id = Some c -> ok Q (k c)) -> ok Q (rbind (conn_at id s) k).
Proof using. intros Hk. by apply (ok_checked_in (fun _ : Conn => True)). Qed.

(** The state that a run leaves, if it leaves one. *)
Definition framed {A} (id : Z) (st : A -> Listener) (s : Listener) (m : result A) : Prop :=
  match m with Ok a => others id s (st a) | _ => True end.

Lemma framed_ret {A} id (st : A -> Listener) s a : others id s (st a) -> framed id st s (Ok a).
Proof using. done. Qed.

Lemma framed_bind {A B} id (st : A -> Listener) (st' : B -> Listener) s (m : result A) k :
  framed id st s m -> (forall a, framed id st' (st a) (k a)) -> framed id st' s (rbind m k).
Proof using.
  destruct m as [a|e| |]; cbn; try done. intros Ha Hk. specialize (Hk a).
  destruct (k a); cbn in *; [|done..]. by transitivity (st a).
Qed.

Lemma framed_checked {A B} id (st : B -> Listener) s s1 (o : option A) k :
  (forall a, framed id st s (k a)) -> framed id st s (rbind (checked_in s1 o) k).
Proof using. by destruct o; cbn. Qed.

(** Changes that do not concern the connections. *)
Lemma framed_from {A} id (st : A -> Listener) s s1 m :
  others id s s1 -> framed id st s1 m -> framed id st s m.
Proof using. destruct m; cbn; try done. intros ? ?. by transitivity s1. Qed.

Lemma others_upd id f s s' : others id s s' -> others id s (update id f s').
Proof using. intros. transitivity s'; [done|]. apply others_update. Qed.

Lemma conn_at_framed {A} id (st : A -> Listener) s id' k :
  (forall c, framed id st s (k c)) -> framed id st s (rbind (conn_at id' s) k).
Proof using. apply framed_checked. Qed.

Lemma spinLock_framed id s : framed id (fun s => s) s (spinLock id s).
Proof using.
  unfold spinLock. apply conn_at_framed. intros c. destruct c.(lock); [done|]. apply others_update.
Qed.

Lemma append_out_framed id p s : framed id (fun s => s) s (append_out id p s).
Proof using.
  unfold append_out. eapply framed_bind; [apply spinLock_framed|]. intros s1. cbn.
  unfold spinUnlock. by do 2 apply others_upd.
Qed.

Lemma conn_Write_framed id p s : framed id fst s (conn_Write id p s).
Proof using.
  unfold conn_Write. apply conn_at_framed. intros c. destruct c.(closedFlag); [done|].
  eapply framed_bind; [apply append_out_framed|]. done.
Qed.

Lemma conn_Flush_framed id s : framed id (fun s => s) s (conn_Flush id s).
Proof using. unfold conn_Flush. apply conn_at_framed. intros c. by destruct c.(closedFlag). Qed.

Lemma truncate_framed id sz s : framed id fst s (truncateInputBuffer id sz s).
Proof using.
  unfold truncateInputBuffer. eapply framed_bind; [apply spinLock_framed|]. intros s1.
  apply conn_at_framed. intros c. apply framed_checked. intros b. cbn. unfold spinUnlock.
  by do 2 apply others_upd.
Qed.

Lemma closeConn_framed id t b s : framed id (fun s => s) s (closeConnWithError hd id t b s).
Proof using.
  destruct (s.(conns) !! id) as [c|] eqn:Hid; [|by unfold closeConnWithError, conn_at; rewrite Hid].
  destruct c.(closedFlag) eqn:Hcl.
  { unfold closeConnWithError, conn_at. rewrite Hid. cbn [checked_in rbind]. by rewrite Hcl. }
  destruct (closable_or hd c) as [Hws|Hws]; [|by rewrite (proj1 (closeConn_half hd id t b s c Hid Hcl Hws))].
  destruct (closeConn_maps hd id t b s c Hid Hcl Hws) as (s' & -> & E & _). cbn. unfold others. rewrite E.
  apply others_update.
Qed.

Lemma writeConn_framed id w s : framed id (fun s => s) s (writeConn hd id w s).
Proof using.
  unfold writeConn. eapply framed_bind; [apply spinLock_framed|]. intros s1. apply conn_at_framed.
  intros c. unfold spinUnlock. destruct (len c.(outb) =? 0); [cbn; by apply others_upd|].
  destruct w as [n|n|typ].
  - destruct (n =? len c.(outb)).
    + set (s2 := update id (set_lock false) _).
      assert (others id s1 s2) as Hs2 by (by do 2 apply others_upd).
      destruct (match c.(ws) with Some w => w.(Ws.closed) | None => false end); [|done].
      eapply framed_from; [exact Hs2|apply closeConn_framed].
    + apply framed_checked. intros b. cbn. by do 2 apply others_upd.
  - apply framed_checked. intros b. destruct (0 <? n); cbn; by do 2 apply others_upd.
  - eapply framed_from; [by apply others_upd|apply closeConn_framed].
Qed.

Lemma async_write_framed id p s : framed id (fun s => s) s (async_write id p s).
Proof using.
  unfold async_write. eapply (framed_bind _ fst); [apply conn_Write_framed|]. intros [s1 ?]. apply conn_Flush_framed.
Qed.

Lemma ws_writes_framed id bs s : framed id (fun s => s) s (ws_writes id bs s).
Proof using.
  revert s. induction bs as [|b bs IH]; intros s; cbn [ws_writes]; [done|].
  eapply framed_bind; [apply async_write_framed|]. exact IH.
Qed.

Lemma ws_effects_framed id evs s : framed id (fun s => s) s (ws_effects hd id evs s).
Proof using.
  revert s. induction evs as [|[p|b|typ err] evs IH]; intros s; cbn [ws_effects]; [done|..].
  - apply framed_checked. intros h. destruct (h _ _) as [[u bs] closes].
    eapply framed_bind; [eapply framed_from; [|apply ws_writes_framed]; done|]. intros s2.
    destruct closes; [|apply IH]. eapply framed_from; [apply others_update|apply IH].
  - eapply framed_bind; [apply async_write_framed|]. intros s2. apply IH.
  - eapply framed_bind; [apply closeConn_framed|]. intros s1. apply IH.
Qed.

(** The end of [readConn]. *)
Lemma finish_framed id w s :
  framed id (fun s => s) s
    (let s := update id (set_srs newState) s in
     let! c := conn_at id s in
     if negb (len c.(outb) =? 0) then writeConn hd id w s else Ok s).
Proof using.
  cbn zeta. eapply framed_from; [apply (others_update id (set_srs newState))|]. apply conn_at_framed.
  intros c. destruct (negb _); [apply writeConn_framed|done].
Qed.

(** The end of a request: the handler has answered. *)
Lemma reply_framed id (u : U) b (upd : Listener -> Listener) (more : bool) w s :
  (forall s, others id s (upd s)) ->
  framed id (fun s => s) s
    (let s := with_user (fun _ => u) s in
     let s := upd s in
     let! s := append_out id b s in
     if negb more then closeConnWithError hd id [] false s
     else let s := update id (set_srs newState) s in
          let! c := conn_at id s in
          if negb (len c.(outb) =? 0) then writeConn hd id w s else Ok s).
Proof using.
  intros Hu. cbn zeta. eapply framed_bind.
  { eapply framed_from; [apply (Hu (with_user (fun _ => u) s))|]. apply append_out_framed. }
  intros s1. destruct (negb more); [apply closeConn_framed|apply finish_framed].
Qed.

Lemma parse_next_framed fuel id d w s : framed id (fun s => s) s (parse_next hd fuel id d w s).
Proof using.
  revert d s. induction fuel as [|fuel IH]; intros d s; [done|]. cbn [parse_next].
  eapply framed_bind; [apply spinLock_framed|]. intros s1.
  eapply framed_from; [apply (others_update id (fun c => set_in (c.(inb) ++ d) c))|].
  apply conn_at_framed. intros c. destruct (_ <? _); [apply closeConn_framed|].
  destruct (match c.(ws) with Some _ => _ | None => _ end) as [[inp c'] r].
  eapply framed_from; [apply (others_update id (fun _ => set_in inp c'))|].
  destruct r as [[]|e| |]; [|..|done|done].
  2: { eapply framed_from; [apply (others_update id (set_lock false))|].
       destruct (decide _); [done|apply closeConn_framed]. }
  eapply framed_from; [apply (others_update id (set_lock false))|].
  destruct c'.(ws) as [wsk|].
  - eapply (framed_bind _ fst); [apply truncate_framed|]. intros [s2 remain]. cbn [fst].
    destruct (onWebsocket _ wsk) as [[wsk' evs] more].
    eapply framed_from; [apply (others_update id (set_ws (Some wsk')))|].
    eapply framed_bind; [apply ws_effects_framed|]. intros s3. destruct (negb more); [done|].
    destruct (0 <? remain); [apply IH|apply finish_framed].
  - destruct c'.(srs).(http) as [req|].
    + eapply (framed_bind _ fst); [apply truncate_framed|]. intros [s2 ?]. cbn [fst].
      destruct (hd.(OnHTTP) req _) as [[[u b] upgrade] more].
      apply (reply_framed id u b (fun s => if upgrade : bool then update id (set_ws (Some newWebsocket)) s else s)
               more w (emit (EvHTTP id req) s2)).
      intros s3. destruct upgrade; [apply others_update|done].
    + apply framed_checked. intros req.
      eapply (framed_bind _ fst); [apply truncate_framed|]. intros [s2 ?]. cbn [fst].
      destruct (hd.(OnRedis) req _) as [[u b] more].
      by apply (reply_framed id u b (fun s => s) more w (emit (EvRedis id req) s2)).
Qed.

Lemma readConn_framed id r w s : framed id (fun s => s) s (readConn hd id r w s).
Proof using.
  unfold readConn. apply conn_at_framed. intros c.
  destruct (if c.(closedFlag) then _ else r); [apply parse_next_framed|apply closeConn_framed|done|apply closeConn_framed].
Qed.

(** The sweep closes connections and changes nothing else of them. *)
Lemma sweep_closes ids cutoff s s' :
  sweep hd ids cutoff s = Ok s' ->
  forall id c, s'.(conns) !! id = Some c ->
    s.(conns) !! id = Some c \/
    exists c0, s.(conns) !! id = Some c0 /\ c = set_closed c0.
Proof using.
  revert s. induction ids as [|i ids IH]; intros s Hs id c Hc; cbn [sweep] in Hs.
  { injection Hs as ->. by left. }
  destruct (s.(conns) !! i) as [ci|] eqn:Hi; unfold conn_at in Hs; rewrite Hi in Hs; [|done].
  cbn [checked_in rbind] in Hs. destruct (_ <? _); [|injection Hs as ->; by left].
  destruct ci.(closedFlag) eqn:Hcl.
  - unfold closeConnWithError, conn_at in Hs. rewrite Hi in Hs. cbn [checked_in rbind] in Hs.
    rewrite Hcl in Hs. cbn [rbind] in Hs. by apply (IH s).
  - destruct (closable_or hd ci) as [Hws|Hws];
      [|by rewrite (proj1 (closeConn_half hd i (bs "timeout") true s ci Hi Hcl Hws)) in Hs].
    destruct (closeConn_maps hd i (bs "timeout") true s ci Hi Hcl Hws) as (s1 & E & F & _).
    rewrite E in Hs. cbn [rbind] in Hs.
    assert (forall c1, s1.(conns) !! id = Some c1 ->
      s.(conns) !! id = Some c1 \/ exists c0, s.(conns) !! id = Some c0 /\ c1 = set_closed c0) as Hl.
    { intros c1. rewrite F, lookup_update. case_decide as E'; [|by left]. subst id. rewrite Hi.
      intros [= <-]. right. by exists ci. }
    destruct (IH s1 Hs id c Hc) as [H1|(c0 & H0 & ->)]; [by apply Hl|].
    destruct (Hl c0 H0) as [H1|(c1 & H1 & ->)]; right; [by exists c0|]. exists c1. by destruct c1.
Qed.
End frame.
