(* ===== verification/ServerSpec.v ===== *)
(** What the event loop guarantees (src/server.go): the properties of [Server]. *)

From stdpp Require Import gmap.
From S2P Require Import Prelude GoStd Escape Util Redis Ws Http HttpSpec State StateSpec Server.
From S2P Require Import ServerInv.

Section properties.
Context `{Env} {U : Type} (hd : @Handlers U).
Local Abbreviation Listener := (@Listener U).
Local Abbreviation result := (@result U).

Lemma update_update id f g h (s : Listener) :
  (forall c, f (g c) = h c) -> update id f (update id g s) = update id h s.
Proof using.
  intros E. unfold update, with_conns. cbn. f_equal. rewrite alter_alter_eq. by apply alter_ext; intros; apply E.
Qed.

(** The state of [s] with the connection [id] replaced, and nothing else
    changed but the log and the state of the program. *)
Definition replaced (id : Z) (c : Conn) (evs : list event) (u : U) (s s' : Listener) : Prop :=
  s'.(conns) = <[id := c]> s.(conns) /\ s'.(fdconns) = s.(fdconns) /\ s'.(order) = s.(order) /\
  s'.(count) = s.(count) /\ s'.(interest) = s.(interest) /\ s'.(log) = s.(log) ++ evs /\
  s'.(user) = u /\ s'.(lnfd) = s.(lnfd).

Lemma replaced_same id c s : s.(conns) !! id = Some c -> replaced id c [] s.(user) s s.
Proof using. intros Hid. split_and!; try done; [by rewrite insert_id|by rewrite app_nil_r]. Qed.

Lemma replaced_update id c evs u s s' f :
  replaced id c evs u s s' -> replaced id (f c) evs u s (update id f s').
Proof using.
  intros (E1 & ? & ? & ? & ? & ? & ? & ?). split_and!; try done. cbn. rewrite E1.
  by rewrite alter_insert_eq.
Qed.

Lemma replaced_emit id c evs u s s' e :
  replaced id c evs u s s' -> replaced id c (evs ++ [e]) u s (emit e s').
Proof using.
  intros (? & ? & ? & ? & ? & E & ? & ?). split_and!; try done. cbn. by rewrite E, app_assoc.
Qed.

Lemma replaced_user id c evs u s s' u' :
  replaced id c evs u s s' -> replaced id c evs u' s (with_user (fun _ => u') s').
Proof using. intros (? & ? & ? & ? & ? & ? & ? & ?). by split_and!. Qed.

Lemma replaced_conn_at id c evs u s s' : replaced id c evs u s s' -> conn_at id s' = Ok c.
Proof using. intros (E & _). unfold conn_at. rewrite E. by rewrite lookup_insert_eq. Qed.

Lemma replaced_lookup id c evs u s s' : replaced id c evs u s s' -> s'.(conns) !! id = Some c.
Proof using. intros (E & _). rewrite E. by rewrite lookup_insert_eq. Qed.

Lemma replaced_trans id c1 evs1 u1 c2 evs2 u2 s s1 s2 :
  replaced id c1 evs1 u1 s s1 -> replaced id c2 evs2 u2 s1 s2 ->
  replaced id c2 (evs1 ++ evs2) u2 s s2.
Proof using.
  intros (A1 & A2 & A3 & A4 & A5 & A6 & A7 & A8) (B1 & B2 & B3 & B4 & B5 & B6 & B7 & B8).
  split_and!; try congruence.
  - rewrite B1, A1. by rewrite insert_insert_eq.
  - by rewrite B6, A6, app_assoc.
Qed.

Lemma spinLock_replaced id c evs u s s' :
  replaced id c evs u s s' -> c.(lock) = false ->
  exists s2, spinLock id s' = Ok s2 /\ replaced id (set_lock true c) evs u s s2.
Proof using.
  intros Hr Hl. unfold spinLock. rewrite (replaced_conn_at _ _ _ _ _ _ Hr). cbn [rbind].
  rewrite Hl. eexists. split; [done|]. by apply replaced_update.
Qed.

Lemma append_out_replaced id c evs u s s' p :
  replaced id c evs u s s' -> c.(lock) = false ->
  exists s2, append_out id p s' = Ok s2 /\ replaced id (set_out (c.(outb) ++ p) c) evs u s s2.
Proof using.
  intros Hr Hl. unfold append_out.
  destruct (spinLock_replaced _ _ _ _ _ _ Hr Hl) as (s2 & -> & Hr2). cbn [rbind].
  eexists. split; [done|].
  eapply (replaced_update _ _ _ _ _ _ (fun c => set_out (c.(outb) ++ p) c)) in Hr2.
  eapply (replaced_update _ _ _ _ _ _ (set_lock false)) in Hr2.
  destruct c; cbn in *; by subst.
Qed.

Lemma truncate_replaced id c evs u s s' sz :
  replaced id c evs u s s' -> c.(lock) = false -> 0 <= sz <= len c.(inb) ->
  exists s2, truncateInputBuffer id sz s' = Ok (s2, len c.(inb) - sz) /\
    replaced id (set_in (drop (Z.to_nat sz) c.(inb)) c) evs u s s2.
Proof using.
  intros Hr Hl Hsz. unfold truncateInputBuffer.
  destruct (spinLock_replaced _ _ _ _ _ _ Hr Hl) as (s2 & -> & Hr2). cbn [rbind].
  rewrite (replaced_conn_at _ _ _ _ _ _ Hr2). cbn [rbind set_lock inb].
  destruct (slice_from_is_Some c.(inb) sz Hsz) as [b Hb]. rewrite Hb. cbn [checked_in rbind].
  apply slice_from_Some in Hb as [_ ->]. eexists. split.
  { do 2 f_equal. rewrite len_drop. lia. }
  eapply (replaced_update _ _ _ _ _ _ (set_in (drop (Z.to_nat sz) c.(inb)))) in Hr2.
  eapply (replaced_update _ _ _ _ _ _ (set_lock false)) in Hr2.
  destruct c; cbn in *; by subst.
Qed.

(** [Release] of a request, by the handler or later: the input that has arrived
    since is kept, and nobody waits. *)
Lemma reuse_replaced id c evs u s s' p :
  replaced id c evs u s s' -> c.(lock) = false ->
  exists s2, ReuseInputBuffer id p s' = Ok s2 /\ replaced id c evs u s s2.
Proof using.
  intros Hr Hl. unfold ReuseInputBuffer.
  destruct (spinLock_replaced _ _ _ _ _ _ Hr Hl) as (s2 & -> & Hr2). cbn [rbind].
  rewrite (replaced_conn_at _ _ _ _ _ _ Hr2). cbn [rbind set_lock inb].
  destruct (slice_is_Some p 0 0) as [b Hb]; [lia|apply len_nonneg|]. rewrite Hb. cbn [checked_in rbind].
  apply slice_Some in Hb as (_ & _ & ->). eexists. split; [done|].
  destruct (Z.eqb_spec (len c.(inb)) 0) as [E%len_0_inv|_].
  - eapply (replaced_update _ _ _ _ _ _ (set_in (take (Z.to_nat (0 - 0)) (drop (Z.to_nat 0) p)))) in Hr2.
    eapply (replaced_update _ _ _ _ _ _ (set_lock false)) in Hr2.
    destruct c; cbn in *; by subst.
  - eapply (replaced_update _ _ _ _ _ _ (set_lock false)) in Hr2. destruct c; cbn in *; by subst.
Qed.

(** A connection that is ready to read: open, not locked, not a websocket. *)
Definition idle (c : Conn) : Prop :=
  c.(closedFlag) = false /\ c.(lock) = false /\ c.(ws) = None.

(** One read, up to the call of the parser. *)
Lemma readConn_process id d w s c inp s' r :
  s.(conns) !! id = Some c -> idle c -> len (c.(inb) ++ d) <= RequestMaxBytes ->
  process (c.(inb) ++ d) c.(srs) = (inp, s', r) ->
  exists t, replaced id (set_in inp (set_srs s' c)) [] s.(user) s t /\
    readConn hd id (RData d) w s =
      match r with
      | Panic => Err (Panicked (update id (set_lock true) t))
      | OutOfFuel => OutOfFuel
      | Err e => if decide (e = errWaitMore) then Ok t else closeConnWithError hd id (bs "read") true t
      | Ok _ =>
          let finish t :=
            let t := update id (set_srs newState) t in
            let! c := conn_at id t in
            if negb (len c.(outb) =? 0) then writeConn hd id w t else Ok t in
          match s'.(http) with
          | Some req =>
              let! (t, _) := truncateInputBuffer id (req.(bodyLen) + req.(hdrLen)) t in
              let t := emit (EvHTTP id req) t in
              let '(u, b, upgrade, more) := hd.(OnHTTP) req t.(user) in
              let t := with_user (fun _ => u) t in
              let t := if upgrade : bool then update id (set_ws (Some newWebsocket)) t else t in
              let! t := append_out id b t in
              if negb more then closeConnWithError hd id [] false t else finish t
          | None =>
              let! req := checked_in t s'.(redis) in
              let! (t, _) := truncateInputBuffer id req.(read) t in
              let t := emit (EvRedis id req) t in
              let '(u, b, more) := hd.(OnRedis) req t.(user) in
              let t := with_user (fun _ => u) t in
              let! t := append_out id b t in
              if negb more then closeConnWithError hd id [] false t else finish t
          end
      end.
Proof using.
  intros Hid (Hop & Hl & Hws) Hmax Hp. pose proof (replaced_same id c s Hid) as Hr0.
  unfold readConn. rewrite (replaced_conn_at _ _ _ _ _ _ Hr0). cbn [rbind]. rewrite Hop.
  cbn [parse_next].
  destruct (spinLock_replaced _ _ _ _ _ _ Hr0 Hl) as (s1 & -> & Hr1). cbn [rbind].
  eapply (replaced_update _ _ _ _ _ _ (fun c => set_in (c.(inb) ++ d) c)) in Hr1.
  rewrite (replaced_conn_at _ _ _ _ _ _ Hr1). cbn [rbind set_in set_lock inb ws srs].
  destruct (Z.ltb_spec RequestMaxBytes (len (c.(inb) ++ d))); [lia|]. rewrite Hws, Hp.
  set (c2 := set_srs s' (set_in (c.(inb) ++ d) (set_lock true c))).
  eapply (replaced_update _ _ _ _ _ _ (fun _ => set_in inp c2)) in Hr1.
  eapply (replaced_update _ _ _ _ _ _ (set_lock false)) in Hr1.
  eexists. split.
  { replace (set_in inp (set_srs s' c)) with (set_lock false (set_in inp c2)); [exact Hr1|].
    unfold c2. destruct c; cbn in *; by subst. }
  unfold spinUnlock. destruct r as [[]|e| |]; try done.
  - assert (c2.(ws) = None) as -> by (unfold c2; by cbn). reflexivity.
  - do 2 f_equal. rewrite (update_update id (set_lock true) (set_lock false) (set_lock true)) by done.
    by rewrite (update_update id (set_lock true) _ (fun _ => set_in inp c2)) by done.
Qed.

(** A read after which the parser waits for more. *)
Lemma readConn_wait id d w s c inp s' :
  s.(conns) !! id = Some c -> idle c -> len (c.(inb) ++ d) <= RequestMaxBytes ->
  process (c.(inb) ++ d) c.(srs) = (inp, s', Err errWaitMore) ->
  exists t, readConn hd id (RData d) w s = Ok t /\
    replaced id (set_in inp (set_srs s' c)) [] s.(user) s t.
Proof using.
  intros Hid Hi Hmax Hp. destruct (readConn_process _ _ w _ _ _ _ _ Hid Hi Hmax Hp) as (t & Hr & ->).
  exists t. by rewrite decide_True.
Qed.

(** A read that completes a command. *)
Lemma readConn_redis id d w s c inp s' req :
  s.(conns) !! id = Some c -> idle c -> len (c.(inb) ++ d) <= RequestMaxBytes ->
  process (c.(inb) ++ d) c.(srs) = (inp, s', Ok tt) ->
  s'.(http) = None -> s'.(redis) = Some req -> 0 <= req.(read) <= len inp ->
  let '(u, b, more) := hd.(OnRedis) req s.(user) in
  exists t,
    replaced id (set_srs (if more : bool then newState else s')
                   (set_out (c.(outb) ++ b) (set_in (drop (Z.to_nat req.(read)) inp) c)))
      [EvRedis id req] u s t /\
    readConn hd id (RData d) w s =
      if more : bool then
        if len (c.(outb) ++ b) =? 0 then Ok t else writeConn hd id w t
      else closeConnWithError hd id [] false t.
Proof using.
  intros Hid Hi Hmax Hp Hh Hreq Hread.
  destruct (readConn_process _ _ w _ _ _ _ _ Hid Hi Hmax Hp) as (t & Hr & ->).
  rewrite Hh, Hreq. cbn [checked_in rbind]. destruct Hi as (Hop & Hl & Hws).
  destruct (truncate_replaced _ _ _ _ _ _ req.(read) Hr) as (t1 & -> & Hr1); [done|done|].
  cbn [rbind]. apply (replaced_emit _ _ _ _ _ _ (EvRedis id req)) in Hr1.
  assert ((emit (EvRedis id req) t1).(user) = s.(user)) as -> by apply Hr1.
  destruct (hd.(OnRedis) req s.(user)) as [[u b] more].
  apply (replaced_user _ _ _ _ _ _ u) in Hr1.
  destruct (append_out_replaced _ _ _ _ _ _ b Hr1) as (t2 & -> & Hr2); [done|]. cbn [rbind].
  destruct more; cbn [negb].
  - apply (replaced_update _ _ _ _ _ _ (set_srs newState)) in Hr2.
    rewrite (replaced_conn_at _ _ _ _ _ _ Hr2). cbn [rbind set_srs set_out set_in outb].
    eexists. split; [|by destruct (_ =? _)]. cbn [app set_in set_srs outb] in Hr2. exact Hr2.
  - eexists. split; [|done]. exact Hr2.
Qed.

(** ** The invariant *)

(** C1: The event loop, whatever the clients send, the system calls answer, the
    handlers do and other goroutines write between events: the descriptor map, the activity
    list and the count agree on which connections are open, the poller watches their
    descriptors and no others ([ModRead] and [ModReadWrite] panic on a descriptor that it
    does not watch), an open connection is not locked between events
    and its buffered input fits its parser; and from such a state the next event
    is handled to its end (no lock is waited for, no loop goes on forever) unless
    the Go runtime panics, in a state whose maps agree as well; only if [OnWSClose] is
    nil it can also be one in which a single websocket is closed and still in the maps. *)
Theorem reachable_invariant timeout s i now :
  max_ok -> reachable hd timeout s -> accept_ok i s ->
  wf s /\ match iter hd i now timeout s with
          | Ok s' => wf s'
          | Err (Panicked s') => halted hd s'
          | Err Spinning | Panic | OutOfFuel => False
          end.
Proof using.
  intros Hmax Hr Ha. pose proof (reachable_wf hd timeout s Hmax Hr) as Hwf. split; [done|].
  by apply iter_post.
Qed.

(** ** Commands *)

(** The bytes of a command that arrive in one read after what is buffered: the
    handler is called once, with the arguments of the command; what it writes is
    appended to the output and the connection waits for the next request with
    the bytes behind the command in its buffer. *)
Lemma readConn_command id d w s c args rest :
  s.(conns) !! id = Some c -> idle c -> c.(srs) = newState ->
  c.(inb) ++ d = command args ++ rest -> len args <= 65535 ->
  len (command args ++ rest) <= RequestMaxBytes -> max_ok ->
  exists req, (forall i : nat, Get req (Z.of_nat i) = Ok (args !! i)) /\
    let '(u, b, more) := hd.(OnRedis) req s.(user) in
    more = true ->
    exists t,
      replaced id (set_out (c.(outb) ++ b) (set_in rest c)) [EvRedis id req] u s t /\
      readConn hd id (RData d) w s
      = if len (c.(outb) ++ b) =? 0 then Ok t else writeConn hd id w t.
Proof using.
  intros Hid Hi Hs Hd Ha Hl Hmax.
  assert (len (command args ++ rest) < 2 ^ 32) as Hl32 by (unfold max_ok in Hmax; lia).
  pose proof (process_bulks_command args rest Hl32 Ha) as Hp.
  set (req := mkRedis _ _ _ _) in Hp. exists req. split.
  { intros i. apply Get_spans. rewrite len_app in Hl32. pose proof (len_nonneg rest). lia. }
  rewrite <- Hd, <- Hs in Hp. rewrite <- Hd in Hl.
  pose proof (readConn_redis id d w s c _ _ req Hid Hi Hl Hp eq_refl eq_refl) as Hr.
  assert (0 <= req.(read) <= len (c.(inb) ++ d)) as Hread.
  { rewrite Hd, len_app. unfold req. cbn [read]. pose proof (len_nonneg rest).
    pose proof (len_nonneg (command args)). lia. }
  specialize (Hr Hread). destruct (hd.(OnRedis) req s.(user)) as [[u b] more].
  intros ->. destruct Hr as (t & Hr & Hc). exists t. split; [|done].
  rewrite Hd in Hr. unfold req in Hr at 1. cbn [read] in Hr. rewrite drop_len_app in Hr.
  replace (set_srs newState (set_out (c.(outb) ++ b) (set_in rest c)))
    with (set_out (c.(outb) ++ b) (set_in rest c)) in Hr; [done|].
  destruct c; cbn in *; by subst.
Qed.

(** The reads of a connection one after the other. *)
Fixpoint reads (id : Z) (ds : list bytes) (w : wresult) (s : Listener) : @result Listener :=
  match ds with
  | [] => Ok s
  | d :: ds => let! s := readConn hd id (RData d) w s in reads id ds w s
  end.

Lemma reads_wait id ds w s c :
  max_ok -> s.(conns) !! id = Some c -> idle c -> state_ok c.(inb) c.(srs) ->
  len (c.(inb) ++ concat ds) <= RequestMaxBytes ->
  (process (c.(inb) ++ concat ds) c.(srs)).2 = Err errWaitMore ->
  exists t inp st, reads id ds w s = Ok t /\
    replaced id (set_in inp (set_srs st c)) [] s.(user) s t /\ state_ok inp st /\
    len inp = len (c.(inb) ++ concat ds) /\
    forall x, len (c.(inb) ++ concat ds ++ x) < 2 ^ 32 ->
      process (inp ++ x) st = process (c.(inb) ++ concat ds ++ x) c.(srs).
Proof using.
  intros Hmax. revert s c. induction ds as [|d ds IH]; intros s c Hid Hi Hok Hl Hw.
  - exists s, c.(inb), c.(srs). split_and!; [done| |done|by rewrite app_nil_r|done].
    replace (set_in c.(inb) (set_srs c.(srs) c)) with c by by destruct c. by apply replaced_same.
  - cbn [concat reads] in *. rewrite app_assoc in Hl, Hw.
    assert (len ((c.(inb) ++ d) ++ concat ds) < 2 ^ 32) as Hl32 by (unfold max_ok in Hmax; lia).
    assert (len (c.(inb) ++ d) <= RequestMaxBytes) as Hld.
    { rewrite len_app in Hl. pose proof (len_nonneg (concat ds)). lia. }
    assert (state_ok (c.(inb) ++ d) c.(srs)) as Hok1.
    { apply state_ok_app; [done|]. unfold max_ok in Hmax. lia. }
    pose proof (process_resumes _ (concat ds) _ Hmax Hok1 Hl32) as Hr. unfold resumes in Hr.
    destruct (process (c.(inb) ++ d) c.(srs)) as [[inp1 s1] r1] eqn:Hp1.
    case_decide as Hr1; [|by rewrite Hr in Hw]. destruct Hr as (Hr & Hlen1 & Hok2). subst r1.
    destruct (readConn_wait id d w s c inp1 s1 Hid Hi Hld Hp1) as (t1 & -> & Ht1). cbn [rbind].
    destruct (IH t1 (set_in inp1 (set_srs s1 c))) as (t & inp & st & -> & Ht & Hokt & Hlt & Hx).
    + destruct Ht1 as (E & _). rewrite E. by rewrite lookup_insert_eq.
    + done.
    + done.
    + cbn [set_in inb]. rewrite len_app, Hlen1, <- len_app. done.
    + cbn [set_in set_srs inb srs]. by rewrite <- Hr.
    + exists t, inp, st. cbn [set_in set_srs inb srs] in *. split_and!; [done| |done|..].
      * assert (t1.(user) = s.(user)) as Eu by apply Ht1. rewrite Eu in Ht.
        exact (replaced_trans _ _ _ _ _ _ _ _ _ _ Ht1 Ht).
      * by rewrite Hlt, app_assoc, !len_app, Hlen1, len_app.
      * intros x Hxl. rewrite !app_assoc in Hxl. rewrite Hx.
        2: { rewrite !len_app in *. lia. }
        pose proof (process_resumes _ (concat ds ++ x) _ Hmax Hok1) as Hr2.
        unfold resumes in Hr2. rewrite Hp1, decide_True in Hr2 by done.
        rewrite <- !app_assoc in *. destruct Hr2 as [Hr2 _]; [done|]. by rewrite <- Hr2.
Qed.

Lemma reads_app id l1 l2 w s :
  reads id (l1 ++ l2) w s = let! s := reads id l1 w s in reads id l2 w s.
Proof using.
  revert s. induction l1 as [|d l1 IH]; intros s; [done|]. cbn [app reads].
  destruct (readConn _ _ _ _ s); cbn [rbind]; auto.
Qed.

(** A request that arrives in any number of reads: before the last of them the
    parser waits, and then it has the whole request. *)
Lemma reads_whole id ds d w s c whole inp' st' :
  s.(conns) !! id = Some c -> idle c -> c.(srs) = newState -> c.(inb) = [] ->
  concat ds ++ d = whole -> d <> [] -> len whole <= RequestMaxBytes -> max_ok ->
  process whole newState = (inp', st', Ok tt) ->
  (forall p q, whole = p ++ q -> q <> [] -> (process p newState).2 = Err errWaitMore) ->
  exists t1 inp st, let c1 := set_in inp (set_srs st c) in
    reads id (ds ++ [d]) w s = readConn hd id (RData d) w t1 /\
    replaced id c1 [] s.(user) s t1 /\ idle c1 /\ len (inp ++ d) <= RequestMaxBytes /\
    process (inp ++ d) st = (inp', st', Ok tt).
Proof using.
  intros Hid Hi Hs Hb Hd Hne Hl Hmax Hp Hpre.
  assert (len whole < 2 ^ 32) as Hl32 by (unfold max_ok in Hmax; lia).
  assert (len (concat ds) <= len whole) as Hlds.
  { rewrite <- Hd, len_app. pose proof (len_nonneg d). lia. }
  destruct (reads_wait id ds w s c Hmax Hid Hi) as (t1 & inp & st & Hrd & Ht1 & Hok & Hlen & Hx).
  { rewrite Hb, Hs. split; [done|by left]. }
  { rewrite Hb. cbn [app]. lia. }
  { rewrite Hb, Hs. cbn [app]. by eapply Hpre. }
  rewrite Hb, Hs in Hx. rewrite Hb in Hlen. cbn [app] in Hx, Hlen.
  exists t1, inp, st. cbn zeta. split_and!.
  - rewrite reads_app, Hrd. cbn [rbind reads]. by destruct (readConn _ _ _ _ _).
  - done.
  - by destruct Hi as (? & ? & ?).
  - by rewrite len_app, Hlen, <- len_app, Hd.
  - rewrite Hx by (by rewrite Hd). by rewrite Hd.
Qed.

(** C13: A command that arrives in any number of reads, cut anywhere: the handler is
    not called before the last of them, and then once, with the arguments. *)
Theorem reads_command id ds d w s c args :
  s.(conns) !! id = Some c -> idle c -> c.(srs) = newState -> c.(inb) = [] ->
  concat ds ++ d = command args -> d <> [] -> len args <= 65535 ->
  len (command args) <= RequestMaxBytes -> max_ok ->
  exists req, (forall i : nat, Get req (Z.of_nat i) = Ok (args !! i)) /\
    let '(u, b, more) := hd.(OnRedis) req s.(user) in
    more = true ->
    exists t,
      replaced id (set_out (c.(outb) ++ b) c) [EvRedis id req] u s t /\
      reads id (ds ++ [d]) w s = if len (c.(outb) ++ b) =? 0 then Ok t else writeConn hd id w t.
Proof using.
  intros Hid Hi Hs Hb Hd Hne Ha Hl Hmax.
  assert (len (command args) < 2 ^ 32) as Hl32 by (unfold max_ok in Hmax; lia).
  pose proof (process_bulks_command args []) as Hp. rewrite app_nil_r in Hp. specialize (Hp Hl32 Ha).
  set (req := mkRedis _ _ _ _) in Hp. exists req. split; [intros i; by apply Get_spans|].
  destruct (reads_whole id ds d w s c _ _ _ Hid Hi Hs Hb Hd Hne Hl Hmax Hp)
    as (t1 & inp & st & -> & Ht1 & Hi1 & Hl1 & Hp1).
  { intros p q Hpq Hq. by eapply command_not_wait_prefix. }
  assert (t1.(user) = s.(user)) as Hu by apply Ht1.
  pose proof (readConn_redis id d w t1 _ _ _ req (replaced_lookup _ _ _ _ _ _ Ht1) Hi1 Hl1 Hp1
                eq_refl eq_refl) as Hr.
  rewrite Hu in Hr.
  assert (0 <= req.(read) <= len (command args)) as Hread
    by (unfold req; cbn [read]; pose proof (len_nonneg (command args)); lia).
  specialize (Hr Hread). destruct (hd.(OnRedis) req s.(user)) as [[u b] more].
  intros ->. destruct Hr as (t & Hr & Hc). exists t. split; [|exact Hc].
  pose proof (replaced_trans _ _ _ _ _ _ _ _ _ _ Ht1 Hr) as Hrt. cbn [app] in Hrt.
  unfold req in Hrt at 1. cbn [read] in Hrt.
  rewrite drop_ge in Hrt by (unfold len; lia).
  replace (set_out (c.(outb) ++ b) c)
    with (set_srs newState (set_out (c.(outb) ++ b) (set_in [] (set_in inp (set_srs st c)))));
    [exact Hrt|].
  destruct c; cbn in *; by subst.
Qed.

(** The calls of the handlers in a log. *)
Definition is_request (e : event) : bool :=
  match e with EvRedis _ _ | EvHTTP _ _ | EvWSData _ _ => true | _ => false end.
Definition requests (l : list event) : list event := List.filter is_request l.

Lemma requests_app l1 l2 : requests (l1 ++ l2) = requests l1 ++ requests l2.
Proof using. apply List.filter_app. Qed.

(** Closing and writing call no handler and do not touch the input. *)
Definition input_kept (id : Z) (s s' : Listener) : Prop :=
  requests s'.(log) = requests s.(log) /\
  forall c, s.(conns) !! id = Some c ->
    exists c', s'.(conns) !! id = Some c' /\ c'.(inb) = c.(inb) /\ c'.(srs) = c.(srs).

Lemma input_kept_refl id s : input_kept id s s.
Proof using. split; [done|]. intros c Hc. by exists c. Qed.

Lemma input_kept_trans id s1 s2 s3 : input_kept id s1 s2 -> input_kept id s2 s3 -> input_kept id s1 s3.
Proof using.
  intros [E1 H1] [E2 H2]. split; [congruence|]. intros c Hc.
  destruct (H1 c Hc) as (c1 & Hc1 & ? & ?). destruct (H2 c1 Hc1) as (c2 & ? & ? & ?).
  exists c2. split_and!; congruence.
Qed.

Lemma input_kept_update id f s :
  (forall c, (f c).(inb) = c.(inb) /\ (f c).(srs) = c.(srs)) -> input_kept id s (update id f s).
Proof using.
  intros Hf. split; [done|]. intros c Hc. exists (f c). rewrite lookup_update, decide_True by done.
  rewrite Hc. split; [done|]. apply Hf.
Qed.

Lemma input_kept_log id s s' e :
  s'.(conns) = s.(conns) -> s'.(log) = s.(log) ++ e -> requests e = [] -> input_kept id s s'.
Proof using.
  intros E1 E2 He. split; [by rewrite E2, requests_app, He, app_nil_r|]. rewrite E1.
  intros c Hc. by exists c.
Qed.

Lemma close_input_kept id t b s s' :
  closeConnWithError hd id t b s = Ok s' -> input_kept id s s'.
Proof using.
  unfold closeConnWithError. destruct (conn_at id s) as [c|?| |]; try done. cbn [rbind].
  destruct c.(closedFlag); [intros [= <-]; apply input_kept_refl|]. intros E.
  eapply input_kept_trans; [by apply (input_kept_update id set_closed)|].
  destruct c.(ws) as [w|]; [destruct hd.(OnWSClose); [|done]|];
    destruct (hd.(close_fails) c.(fd)), b; cbn [checked_in rbind] in E; injection E as <-;
    (eapply input_kept_log; [done|cbn; rewrite <- !app_assoc; reflexivity|done]) || idtac.
  all: eapply (input_kept_log _ _ _ [_; _]); [done|cbn; rewrite <- ?app_assoc; reflexivity|done].
Qed.

Lemma writeConn_input_kept id w s s' : writeConn hd id w s = Ok s' -> input_kept id s s'.
Proof using.
  unfold writeConn, spinLock. destruct (conn_at id s) as [c0|?| |]; try done. cbn [rbind].
  destruct c0.(lock); [done|]. cbn [rbind]. set (s1 := update id (set_lock true) s).
  assert (input_kept id s s1) as H1 by (by apply input_kept_update).
  destruct (conn_at id s1) as [c|?| |]; try done. cbn [rbind].
  assert (forall f t, (forall c, (f c).(inb) = c.(inb) /\ (f c).(srs) = c.(srs)) -> input_kept id s t ->
            input_kept id s (spinUnlock id (update id f t))) as Hun.
  { intros f t Hf Ht. eapply input_kept_trans; [exact Ht|].
    eapply input_kept_trans; [by apply (input_kept_update id f)|]. by apply input_kept_update. }
  assert (forall g t, input_kept id s t -> input_kept id s (with_interest g t)) as Hint.
  { intros g t Ht. eapply input_kept_trans; [exact Ht|].
    eapply (input_kept_log _ _ _ []); [done|by rewrite app_nil_r|done]. }
  assert (forall p t, input_kept id s t -> input_kept id s (emit (EvSent id p) t)) as Hsent.
  { intros p t Ht. eapply input_kept_trans; [exact Ht|]. by eapply input_kept_log. }
  assert (input_kept id s (spinUnlock id s1)) as H2.
  { eapply input_kept_trans; [exact H1|]. by apply input_kept_update. }
  destruct (len c.(outb) =? 0); [intros [= <-]; by apply Hint|].
  destruct w as [n|n|].
  - destruct (n =? len c.(outb)).
    + set (s2 := spinUnlock _ _). assert (input_kept id s s2) as H3 by (apply Hun; [done|by apply Hsent]).
      destruct (match c.(ws) with Some w => _ | None => _ end).
      * intros Hc%close_input_kept. by eapply input_kept_trans.
      * intros [= <-]. by apply Hint.
    + destruct (slice_from c.(outb) n); [|done]. cbn [checked_in rbind]. intros [= <-].
      apply Hint, Hun; [done|by apply Hsent].
  - destruct (if 0 <? n then slice_from c.(outb) n else Some c.(outb)); [|done]. cbn [checked_in rbind].
    intros [= <-]. apply Hint, Hun; [done|]. destruct (0 <? n); [by apply Hsent|done].
  - intros Hc%close_input_kept. by eapply input_kept_trans.
Qed.

(** no pipelining, as the README has it: of two commands that arrive in one
    read only the first is handed to the handler; the second stays whole in the
    input buffer, and being able to write does not change that: nobody looks at
    it until the client sends more bytes. *)
Theorem pipelined_command_waits id d w s c args args2 s' ws' s'' :
  s.(conns) !! id = Some c -> idle c -> c.(srs) = newState ->
  c.(inb) ++ d = command args ++ command args2 -> len args <= 65535 ->
  len (command args ++ command args2) <= RequestMaxBytes -> max_ok ->
  (forall req u, (hd.(OnRedis) req u).2 = true) ->
  readConn hd id (RData d) w s = Ok s' -> writeConn hd id ws' s' = Ok s'' ->
  exists req c', (forall i : nat, Get req (Z.of_nat i) = Ok (args !! i)) /\
    requests s''.(log) = requests s.(log) ++ [EvRedis id req] /\
    s''.(conns) !! id = Some c' /\ c'.(inb) = command args2 /\ c'.(srs) = newState.
Proof using.
  intros Hid Hi Hs Hd Ha Hl Hmax Hmore Hrd Hwr.
  destruct (readConn_command id d w s c args (command args2) Hid Hi Hs Hd Ha Hl Hmax) as (req & Hreq & Hc).
  destruct (hd.(OnRedis) req s.(user)) as [[u b] more] eqn:Hh.
  specialize (Hmore req s.(user)). rewrite Hh in Hmore. cbn [snd] in Hmore.
  destruct (Hc Hmore) as (t & Ht & Hrc). rewrite Hrd in Hrc.
  assert (input_kept id t s') as Hk.
  { destruct (_ =? _); [injection Hrc as <-; apply input_kept_refl|].
    by eapply writeConn_input_kept. }
  pose proof (input_kept_trans _ _ _ _ Hk (writeConn_input_kept _ _ _ _ Hwr)) as [Hlog Hkept].
  destruct Ht as (Ec & _ & _ & _ & _ & El & _).
  destruct (Hkept (set_out (c.(outb) ++ b) (set_in (command args2) c))) as (c' & Hc' & Hb & Hsrs).
  { rewrite Ec. by rewrite lookup_insert_eq. }
  exists req, c'. split_and!; [done| |done|done|].
  - by rewrite Hlog, El, requests_app.
  - rewrite Hsrs. cbn. done.
Qed.

(** ** Replies *)

(** The bytes the kernel has taken for a connection. *)
Definition sent1 (id : Z) (e : event) : bytes :=
  match e with EvSent id' p => if decide (id' = id) then p else [] | _ => [] end.
Definition sent (id : Z) (l : list event) : bytes := mbind (sent1 id) l.

(** The answers of the kernel to a write of [n] bytes. *)
Definition wresult_ok (n : Z) (w : wresult) : Prop :=
  match w with WN k => 0 <= k <= n | WAgain k => k <= n | WErr _ => False end.

(** The output of a connection has been written up to [rest]. *)
Definition flushed (id : Z) (c : Conn) (rest : bytes) (s s' : Listener) : Prop :=
  s'.(conns) = <[id := set_out rest c]> s.(conns) /\ s'.(fdconns) = s.(fdconns) /\
  s'.(order) = s.(order) /\ s'.(user) = s.(user) /\
  sent id s'.(log) ++ rest = sent id s.(log) ++ c.(outb) /\
  (forall id', id' <> id -> sent id' s'.(log) = sent id' s.(log)) /\
  (forall f, f <> c.(fd) -> s'.(interest) !! f = s.(interest) !! f) /\
  (rest <> [] -> s'.(interest) !! c.(fd) = Some MReadWrite).

Lemma flushed_intro id c c' rest evs m s t :
  replaced id c' evs s.(user) s t -> set_lock false c' = set_out rest c ->
  sent id evs ++ rest = c.(outb) -> (forall id', id' <> id -> sent id' evs = []) ->
  (rest <> [] -> m = MReadWrite) ->
  flushed id c rest s (with_interest (<[c.(fd) := m]>) (spinUnlock id t)).
Proof using.
  intros Hr Hc Hs Ho Hm. apply (replaced_update _ _ _ _ _ _ (set_lock false)) in Hr.
  rewrite Hc in Hr. destruct Hr as (E1 & E2 & E3 & _ & E4 & E5 & E6 & _).
  split_and!; try done; cbn [with_interest log interest].
  - unfold spinUnlock. by rewrite E5, <- Hs, app_assoc; unfold sent; rewrite bind_app.
  - intros id' Hne. unfold spinUnlock. rewrite E5. unfold sent. rewrite bind_app.
    fold (sent id' evs). by rewrite Ho, app_nil_r.
  - intros f Hne. rewrite lookup_insert_ne by done. unfold spinUnlock. by rewrite E4.
  - intros ->%Hm. by rewrite lookup_insert_eq.
Qed.

Lemma sent_taken id c k :
  sent id [EvSent id (take k c.(outb))] ++ drop k c.(outb) = c.(outb) /\
  forall id', id' <> id -> sent id' [EvSent id (take k c.(outb))] = [].
Proof using.
  unfold sent. cbn. split.
  - rewrite decide_True by done. by rewrite app_nil_r, take_drop.
  - intros id' Hne. by rewrite decide_False.
Qed.

(** How much of the output a write takes. *)
Definition taken (w : wresult) : nat :=
  match w with WN k => Z.to_nat k | WAgain k => Z.to_nat k | WErr _ => 0 end.

Lemma writeConn_flushed id w s c :
  s.(conns) !! id = Some c -> c.(closedFlag) = false -> c.(lock) = false ->
  (forall wsk, c.(ws) = Some wsk -> wsk.(Ws.closed) = false) -> wresult_ok (len c.(outb)) w ->
  exists s', writeConn hd id w s = Ok s' /\ flushed id c (drop (taken w) c.(outb)) s s' /\
    (forall k, w = WN k -> k = len c.(outb) -> s'.(interest) !! c.(fd) = Some MRead).
Proof using.
  intros Hid Hop Hl Hws Hw. pose proof (replaced_same id c s Hid) as Hr0.
  destruct (spinLock_replaced _ _ _ _ _ _ Hr0 Hl) as (s1 & E1 & Hr).
  unfold writeConn. rewrite E1. cbn [rbind]. rewrite (replaced_conn_at _ _ _ _ _ _ Hr).
  cbn [rbind set_lock outb fd ws].
  assert (forall k evs m,
    sent id evs ++ drop k c.(outb) = c.(outb) -> (forall id', id' <> id -> sent id' evs = []) ->
    (drop k c.(outb) <> [] -> m = MReadWrite) -> forall t, replaced id (set_lock true c) evs s.(user) s t ->
    flushed id c (drop k c.(outb)) s (with_interest (<[c.(fd) := m]>)
      (spinUnlock id (update id (set_out (drop k c.(outb))) t)))) as Hout.
  { intros k evs m Hs Ho Hm t Ht.
    apply (replaced_update _ _ _ _ _ _ (set_out (drop k c.(outb)))) in Ht.
    eapply flushed_intro; [exact Ht| |done..]. destruct c; cbn in *; by subst. }
  destruct (Z.eqb_spec (len c.(outb)) 0) as [E0|E0].
  { eexists. split; [reflexivity|]. apply len_0_inv in E0. split.
    - rewrite E0, drop_nil. eapply flushed_intro; [exact Hr| |done..]. destruct c; cbn in *; by subst.
    - intros k _ _. cbn. by rewrite lookup_insert_eq. }
  destruct w as [n|n|]; cbn [wresult_ok taken] in *; [..|done].
  - destruct (sent_taken id c (Z.to_nat n)) as [Hs Ho].
    pose proof (replaced_emit _ _ _ _ _ _ (EvSent id (take (Z.to_nat n) c.(outb))) Hr) as Hr1.
    destruct (Z.eqb_spec n (len c.(outb))) as [->|Hne].
    + assert (drop (Z.to_nat (len c.(outb))) c.(outb) = []) as Ed
        by (apply drop_ge; unfold len; lia).
      destruct (match c.(ws) with Some w => _ | None => _ end) eqn:Ew.
      { destruct c.(ws) as [wsk|]; [|done]. by rewrite Hws in Ew. }
      eexists. split; [reflexivity|]. split.
      * rewrite <- Ed at 1. eapply Hout; [exact Hs|exact Ho|by rewrite Ed|exact Hr1].
      * intros k _ _. cbn. by rewrite lookup_insert_eq.
    + destruct (slice_from_is_Some c.(outb) n) as [b Hb]; [lia|]. rewrite Hb.
      apply slice_from_Some in Hb as [_ ->]. cbn [checked_in rbind].
      eexists. split; [reflexivity|]. split; [|by intros k [= <-]].
      eapply Hout; [exact Hs|exact Ho|done|exact Hr1].
  - destruct (Z.ltb_spec 0 n) as [Hn|Hn].
    + destruct (slice_from_is_Some c.(outb) n) as [b Hb]; [lia|]. rewrite Hb.
      apply slice_from_Some in Hb as [_ ->]. cbn [checked_in rbind].
      destruct (sent_taken id c (Z.to_nat n)) as [Hs Ho].
      pose proof (replaced_emit _ _ _ _ _ _ (EvSent id (take (Z.to_nat n) c.(outb))) Hr) as Hr1.
      eexists. split; [reflexivity|]. split; [|done]. eapply Hout; [exact Hs|exact Ho|done|exact Hr1].
    + cbn [checked_in rbind]. replace (Z.to_nat n) with 0%nat by lia. eexists. split; [reflexivity|].
      split; [|done]. apply (Hout 0%nat []); [done|done|done|exact Hr].
Qed.

(** C27: Short writes: whatever part of the output the kernel takes, the bytes it got
    followed by what is kept are the bytes it had and the output, in order,
    nothing lost or sent twice; while something is kept the poller watches the
    descriptor for writing, and nothing else of the connection changes. *)
Theorem writeConn_sent id w s c :
  s.(conns) !! id = Some c -> c.(closedFlag) = false -> c.(lock) = false ->
  (forall wsk, c.(ws) = Some wsk -> wsk.(Ws.closed) = false) -> wresult_ok (len c.(outb)) w ->
  exists s' rest, writeConn hd id w s = Ok s' /\ flushed id c rest s s'.
Proof using.
  intros Hid Hop Hl Hws Hw.
  destruct (writeConn_flushed id w s c Hid Hop Hl Hws Hw) as (s' & E & Hf & _). eauto.
Qed.

(** ** The end *)

(** ** What goes wrong *)

(** A request over the limit closes the connection with its lock held: whoever
    then writes a reply to it through the Redis or HTTP methods waits for that
    lock forever. *)
Theorem oversize_keeps_lock id d w s c :
  s.(conns) !! id = Some c -> idle c -> RequestMaxBytes < len (c.(inb) ++ d) ->
  exists s' c', readConn hd id (RData d) w s = Ok s' /\ s'.(conns) !! id = Some c' /\
    c'.(closedFlag) = true /\ c'.(lock) = true /\
    forall p, append_out id p s' = Err Spinning.
Proof using.
  intros Hid (Hop & Hl & Hws) Hmax. pose proof (replaced_same id c s Hid) as Hr0.
  unfold readConn. rewrite (replaced_conn_at _ _ _ _ _ _ Hr0). cbn [rbind]. rewrite Hop.
  cbn [parse_next].
  destruct (spinLock_replaced _ _ _ _ _ _ Hr0 Hl) as (s1 & -> & Hr1). cbn [rbind].
  eapply (replaced_update _ _ _ _ _ _ (fun c => set_in (c.(inb) ++ d) c)) in Hr1.
  rewrite (replaced_conn_at _ _ _ _ _ _ Hr1). cbn [rbind set_in set_lock inb].
  destruct (Z.ltb_spec RequestMaxBytes (len (c.(inb) ++ d))); [|lia].
  unfold closeConnWithError at 1. rewrite (replaced_conn_at _ _ _ _ _ _ Hr1).
  cbn [rbind set_in set_lock closedFlag ws fd]. rewrite Hop, Hws.
  destruct Hr1 as (E & _). set (s2 := update id set_closed _).
  assert (s2.(conns) !! id = Some (set_closed (set_in (c.(inb) ++ d) (set_lock true c)))) as E2.
  { unfold s2. rewrite lookup_update, decide_True by done. rewrite E. by rewrite lookup_insert_eq. }
  eexists _, _. split; [reflexivity|].
  match goal with
  | |- conns ?s' !! _ = _ /\ _ =>
      assert (s'.(conns) !! id = Some (set_closed (set_in (c.(inb) ++ d) (set_lock true c)))) as E3
        by (destruct (hd.(close_fails) c.(fd)); exact E2)
  end.
  split_and!; [exact E3|done|done|]. intros p. unfold append_out, spinLock, conn_at. rewrite E3. done.
Qed.
End properties.

(** ** Witnesses *)

(** A program that counts its requests and answers [+OK]. *)
Definition ok_reply : bytes := bs "+OK" ++ crlf.
Definition ex_handlers : @Handlers Z :=
  {| OnRedis := fun _ u => (u + 1, ok_reply, true);
     OnHTTP := fun _ u => (u + 1, [], false, true);
     OnWSData' := Some (fun _ u => (u, [], false));
     OnWSClose := Some (fun _ u => u);
     close_fails := fun _ => false |}.

Definition ex_input : input := Accept 1 5.
Definition ex_listener : @Listener Z :=
  mkListener 3 {[1 := set_lastTs 10 (newConn 5)]} {[5 := 1]} [1] 1 {[5 := MRead]} [EvFdCount 1] 0.

Lemma ex_conn : ex_listener.(conns) !! 1 = Some (set_lastTs 10 (newConn 5)).
Proof. reflexivity. Qed.

Lemma ex_idle : idle (set_lastTs 10 (newConn 5)).
Proof. done. Qed.

Lemma ex_reachable : @reachable default_env Z ex_handlers 0 ex_listener.
Proof.
  apply (reach_step _ _ ex_input 10 (newListener 3 0)); [apply reach_init|done|reflexivity].
Qed.

(** The input of the witness: a command, and a write of its reply cut short. *)
Definition ex_ready : input :=
  Ready 5 true true false (WN 0) (RData (command ex_command)) (WN 2).

Lemma reachable_invariant_witness :
  wf ex_listener /\ match @iter default_env Z ex_handlers ex_ready 11 0 ex_listener with
                    | Ok s' => wf s'
                    | Err (Panicked s') => halted ex_handlers s'
                    | Err Spinning | Panic | OutOfFuel => False
                    end.
Proof.
  apply (@reachable_invariant default_env Z ex_handlers 0); [apply max_ok_default|apply ex_reachable|done].
Defined.

Lemma reads_command_witness :
  exists req, (forall i : nat, Get req (Z.of_nat i) = Ok ([bs "PING"] !! i)) /\
    exists t,
      replaced 1 (set_out ok_reply (set_lastTs 10 (newConn 5))) [EvRedis 1 req] 1 ex_listener t /\
      @reads default_env Z ex_handlers 1 [bs "*1"; crlf ++ bs "$4" ++ crlf ++ bs "PIN"; bs "G" ++ crlf]
        (WN 2) ex_listener
      = @writeConn Z ex_handlers 1 (WN 2) t.
Proof.
  destruct (@reads_command default_env Z ex_handlers 1 [bs "*1"; crlf ++ bs "$4" ++ crlf ++ bs "PIN"]
              (bs "G" ++ crlf) (WN 2) ex_listener (set_lastTs 10 (newConn 5)) [bs "PING"])
    as (req & Hg & Hc); [by vm_compute..|].
  exists req. split; [exact Hg|]. exact (Hc eq_refl).
Defined.

(** The state after the reads and writes of a witness. *)
Definition ok_or (s : @Listener Z) (r : @result Z (@Listener Z)) : @Listener Z :=
  match r with Ok s' => s' | _ => s end.

Lemma pipelined_command_waits_witness :
  let d := command [bs "GET"; bs "a"] ++ command [bs "GET"; bs "b"] in
  let s' := ok_or ex_listener (@readConn default_env Z ex_handlers 1 (RData d) (WN 2) ex_listener) in
  let s'' := ok_or ex_listener (@writeConn Z ex_handlers 1 (WN 3) s') in
  exists req c', (forall i : nat, Get req (Z.of_nat i) = Ok ([bs "GET"; bs "a"] !! i)) /\
    requests s''.(log) = [EvRedis 1 req] /\
    s''.(conns) !! 1 = Some c' /\ c'.(inb) = command [bs "GET"; bs "b"] /\ c'.(srs) = newState.
Proof.
  intros d s' s''.
  apply (@pipelined_command_waits default_env Z ex_handlers 1 d (WN 2) ex_listener
           (set_lastTs 10 (newConn 5)) [bs "GET"; bs "a"] [bs "GET"; bs "b"] s' (WN 3) s'');
    by vm_compute.
Defined.

Lemma writeConn_sent_witness :
  let c := set_out ok_reply (set_lastTs 10 (newConn 5)) in
  let s := update 1 (set_out ok_reply) ex_listener in
  exists s' rest, @writeConn Z ex_handlers 1 (WN 2) s = Ok s' /\ flushed 1 c rest s s'.
Proof.
  intros c s. apply (@writeConn_sent Z ex_handlers 1 (WN 2) s c); by vm_compute.
Defined.

Lemma oversize_keeps_lock_witness :
  exists s' c', @readConn small_env Z ex_handlers 1 (RData (replicate 101 0)) (WN 0) ex_listener = Ok s' /\
    s'.(conns) !! 1 = Some c' /\ c'.(closedFlag) = true /\ c'.(lock) = true /\
    forall p, append_out 1 p s' = Err Spinning.
Proof.
  apply (@oversize_keeps_lock small_env Z ex_handlers 1 (replicate 101 0) (WN 0) ex_listener
           (set_lastTs 10 (newConn 5))); by vm_compute.
Defined.
