(* ===== verification/ServerWatch.v ===== *)
(** No output is forgotten (src/server.go): while a connection has output, the poller
    watches it for writing, or its descriptor is in the queue of [Trigger]; the one
    exception is a read that answers "try again" while there is output. *)

From stdpp Require Import gmap.
From S2P Require Import Prelude GoStd Escape Util Redis Ws Http HttpSpec State StateSpec Server ServerInv ServerFrame ServerSpec.

(** ** One connection while an event is handled *)

Section connection.
Context `{Env} {U : Type} (hd : @Handlers U).
Local Abbreviation Listener := (@Listener U).
(** The connection [id] with the descriptor [f], from the state [s0] on; [W] tells
    whether somebody is to write its output anyway. *)
Context (id f : Z) (W : Prop) (s0 : Listener).
Implicit Types s : Listener.

(** Nothing but [f] is watched differently, and the log has grown. *)
Record acts s : Prop := {
  acts_log : exists l, s.(log) = s0.(log) ++ l;
  acts_interest : delete f s.(interest) = delete f s0.(interest);
  acts_fd c : s.(conns) !! id = Some c -> c.(fd) = f;
}.

Definition woken s : Prop := W \/ exists l, s.(log) = s0.(log) ++ l /\ EvTrigger f ∈ l.

Definition watched s : Prop :=
  forall c, s.(conns) !! id = Some c -> c.(closedFlag) = false ->
    c.(outb) = [] \/ s.(interest) !! f = Some MReadWrite \/ woken s.

Definition acts_watched s : Prop := acts s /\ watched s.

Lemma acts_update g s :
  acts s -> (forall c, s.(conns) !! id = Some c -> (g c).(fd) = c.(fd)) -> acts (update id g s).
Proof using.
  intros [Hl Hi Hf] Hg. split; [done..|]. intros c. rewrite lookup_update, decide_True by done.
  intros (c0 & Hc0 & ->)%fmap_Some. rewrite Hg by done. auto.
Qed.

Lemma acts_emit e s : acts s -> acts (emit e s).
Proof using.
  intros [[l Hl] Hi Hf]. split; [|done..]. exists (l ++ [e]). cbn. by rewrite Hl, app_assoc.
Qed.

Lemma acts_with g s : acts s -> acts (with_interest <[f := g]> s).
Proof using. intros [Hl Hi Hf]. split; [done| |done]. cbn. by rewrite delete_insert_eq. Qed.

Lemma watched_closed s :
  (forall c, s.(conns) !! id = Some c -> c.(closedFlag) = true) -> watched s.
Proof using. intros Hc c Hid Hop. specialize (Hc c Hid). congruence. Qed.

Lemma aw_update g s :
  (forall c, s.(conns) !! id = Some c ->
     (g c).(fd) = c.(fd) /\ (g c).(outb) = c.(outb) /\ (g c).(closedFlag) = c.(closedFlag)) ->
  acts_watched s -> acts_watched (update id g s).
Proof using.
  intros Hg [Ha Hw]. split; [apply acts_update; [done|]; by intros c (? & ? & ?)%Hg|].
  intros c. rewrite lookup_update, decide_True by done. intros (c0 & Hc0 & ->)%fmap_Some.
  destruct (Hg c0 Hc0) as (_ & -> & ->). by apply Hw.
Qed.

Lemma woken_emit e s : woken s -> woken (emit e s).
Proof using.
  intros [?|(l & Hl & Hin)]; [by left|right]. exists (l ++ [e]). cbn. split; [by rewrite Hl, app_assoc|].
  apply elem_of_app. by left.
Qed.

Lemma aw_emit e s : acts_watched s -> acts_watched (emit e s).
Proof using.
  intros [Ha Hw]. split; [by apply acts_emit|]. intros c Hc Hop.
  destruct (Hw c Hc Hop) as [?|[?|?]]; [by left|by right; left|right; right]. by apply woken_emit.
Qed.

Lemma aw_user g s : acts_watched s -> acts_watched (with_user g s).
Proof using. intros [[] Hw]. done. Qed.

Lemma acts_user g s : acts s -> acts (with_user g s).
Proof using. intros []. done. Qed.

(** ** The operations *)

Lemma spinLock_ok (P : Listener -> Prop) s : P (update id (set_lock true) s) -> ok P (spinLock id s).
Proof using. intros HP. unfold spinLock. apply ok_conn_at. intros c _. by destruct c.(lock). Qed.

Lemma aw_lock b s : acts_watched s -> acts_watched (update id (set_lock b) s).
Proof using. by apply aw_update. Qed.

Lemma acts_lock b s : acts s -> acts (update id (set_lock b) s).
Proof using. intros. by apply acts_update. Qed.

Lemma append_out_acts p s : acts s -> ok acts (append_out id p s).
Proof using.
  intros Ha. unfold append_out. eapply ok_bind; [by apply spinLock_ok, acts_lock|]. intros s1 H1. cbn.
  by apply acts_update; [apply acts_update|].
Qed.

Lemma conn_Write_acts p s : acts s -> ok (fun x => acts x.1) (conn_Write id p s).
Proof using.
  intros Ha. unfold conn_Write. apply ok_conn_at. intros c _. destruct c.(closedFlag); [done|].
  eapply ok_bind; [by apply append_out_acts|]. done.
Qed.

(** [Flush] makes up for what was written before. *)
Lemma conn_Flush_watched s : acts s -> ok acts_watched (conn_Flush id s).
Proof using.
  intros Ha. unfold conn_Flush. apply ok_conn_at. intros c Hc. destruct c.(closedFlag) eqn:Hop; cbn.
  - split; [done|]. apply watched_closed. by rewrite Hc; intros ? [= <-].
  - split; [by apply acts_emit|]. intros c' _ _. right. right. right.
    destruct (acts_log _ Ha) as [l Hl]. rewrite (acts_fd _ Ha c Hc).
    exists (l ++ [EvTrigger f]). cbn. split; [by rewrite Hl, app_assoc|]. apply elem_of_app. right. by left.
Qed.

Lemma truncate_aw sz s : acts_watched s -> ok (fun x => acts_watched x.1) (truncateInputBuffer id sz s).
Proof using.
  intros Ha. unfold truncateInputBuffer. eapply ok_bind; [by apply spinLock_ok, aw_lock|]. intros s1 H1.
  apply ok_conn_at. intros c _. apply (ok_checked_in (fun _ : bytes => True)). intros b _. cbn.
  by apply aw_lock, aw_update.
Qed.

Lemma closeConn_aw t b s : acts s -> ok acts_watched (closeConnWithError hd id t b s).
Proof using.
  intros Ha. unfold closeConnWithError. apply ok_conn_at. intros c Hc. destruct c.(closedFlag) eqn:Hop; cbn zeta.
  { split; [done|]. apply watched_closed. by rewrite Hc; intros ? [= <-]. }
  rewrite (acts_fd _ Ha c Hc).
  eapply (ok_bind (fun s1 => acts s1 /\ forall c, s1.(conns) !! id = Some c -> c.(closedFlag) = true)).
  { assert (acts (update id set_closed s)) as H1 by (by apply acts_update).
    assert (forall c, (update id set_closed s).(conns) !! id = Some c -> c.(closedFlag) = true) as H2.
    { intros c'. rewrite lookup_update, decide_True by done. by intros (? & _ & ->)%fmap_Some. }
    destruct c.(ws) as [w|]; [|done]. apply (ok_checked_in (fun _ => True)). intros h _.
    split; [by apply acts_user, acts_emit|done]. }
  intros s1 [H1 Hcl].
  set (s2 := with_interest (delete f) _).
  assert (acts s2) as H2.
  { destruct (acts_emit (EvFdCount (with_count (fun n => n - 1) s1).(count)) _ H1) as [Hl Hi Hf].
    split; [exact Hl| |exact Hf]. cbn. by rewrite delete_delete_eq. }
  assert (forall s, acts s -> s.(conns) = s1.(conns) -> acts_watched s) as Hw.
  { intros s' ? E. split; [done|]. apply watched_closed. by rewrite E. }
  destruct (hd.(close_fails) f), b; cbn [ok]; (apply Hw; [|done]); repeat apply acts_emit; done.
Qed.

(** After [writeConn] what is left of the output is watched. *)
Lemma writeConn_aw w s : acts s -> ok acts_watched (writeConn hd id w s).
Proof using.
  intros Ha. unfold writeConn. eapply ok_bind; [by apply (spinLock_ok acts), acts_lock|]. intros s1 H1.
  apply ok_conn_at. intros c Hc. rewrite (acts_fd _ H1 c Hc).
  assert (forall s, acts s -> acts_watched (ModReadWrite f s)) as HRW.
  { intros s' Hs. split; [by apply acts_with|]. intros c' _ _. right. left. cbn. by rewrite lookup_insert_eq. }
  assert (forall s, acts s -> (forall c, s.(conns) !! id = Some c -> c.(outb) = []) ->
            acts_watched (ModRead f s)) as HR.
  { intros s' Hs Ho. split; [by apply acts_with|]. intros c' Hc' _. left. by apply Ho. }
  destruct (Z.eqb_spec (len c.(outb)) 0) as [E%len_0_inv|_].
  { cbn. apply HR; [by apply acts_lock|]. intros c'. unfold spinUnlock.
    rewrite lookup_update, decide_True, Hc by done. by intros [= <-]. }
  destruct w as [n|n|typ].
  - destruct (n =? len c.(outb)).
    + set (s2 := spinUnlock _ _). assert (acts s2) as H2 by (by apply acts_lock, acts_update; [apply acts_emit|]).
      destruct (match c.(ws) with Some w => w.(Ws.closed) | None => false end); [by apply closeConn_aw|].
      cbn. apply HR; [done|]. intros c'. unfold s2, spinUnlock.
      rewrite !lookup_update, !decide_True by done. cbn. rewrite Hc. by intros [= <-].
    + apply (ok_checked_in (fun _ : bytes => True)). intros rest _. cbn. apply HRW.
      by apply acts_lock, acts_update; [apply acts_emit|].
  - apply (ok_checked_in (fun _ : bytes => True)). intros rest _. cbn. apply HRW, acts_lock.
    destruct (0 <? n); by apply acts_update; [try apply acts_emit|].
  - by apply closeConn_aw, acts_lock.
Qed.

Lemma async_write_aw p s : acts s -> ok acts_watched (async_write id p s).
Proof using.
  intros Ha. unfold async_write. eapply ok_bind; [by apply conn_Write_acts|]. intros [s1 ?] H1.
  by apply conn_Flush_watched.
Qed.

Lemma ws_writes_aw bs s : acts_watched s -> ok acts_watched (ws_writes id bs s).
Proof using.
  revert s. induction bs as [|b bs IH]; intros s Ha; cbn [ws_writes]; [done|].
  eapply ok_bind; [by apply async_write_aw, Ha|]. exact IH.
Qed.

Lemma ws_effects_aw evs s : acts_watched s -> ok acts_watched (ws_effects hd id evs s).
Proof using.
  revert s. induction evs as [|[p|b|typ err] evs IH]; intros s Ha; cbn [ws_effects]; [done|..].
  - apply (ok_checked_in (fun _ => True)). intros h _. destruct (h _ _) as [[u bs] closes].
    eapply ok_bind; [by apply ws_writes_aw, aw_user, aw_emit|].
    intros s1 H1. apply IH. destruct closes; [by apply aw_update|done].
  - eapply ok_bind; [by apply async_write_aw, Ha|]. exact IH.
  - eapply ok_bind; [by apply closeConn_aw, Ha|]. exact IH.
Qed.

(** What follows a request that was handled. *)
Lemma finish_aw w s :
  acts s ->
  ok acts_watched
    (let s := update id (set_srs newState) s in
     let! c := conn_at id s in
     if negb (len c.(outb) =? 0) then writeConn hd id w s else Ok s).
Proof using.
  intros Ha. cbn zeta. set (s1 := update id _ s). assert (acts s1) as H1 by (by apply acts_update).
  apply ok_conn_at. intros c Hc. destruct (Z.eqb_spec (len c.(outb)) 0) as [E%len_0_inv|_]; cbn [negb].
  - split; [done|]. intros c' Hc' _. left. congruence.
  - by apply writeConn_aw.
Qed.

Lemma reply_aw b (more : bool) w s :
  acts s ->
  ok acts_watched
    (let! s := append_out id b s in
     if negb more then closeConnWithError hd id [] false s
     else let s := update id (set_srs newState) s in
          let! c := conn_at id s in
          if negb (len c.(outb) =? 0) then writeConn hd id w s else Ok s).
Proof using.
  intros Ha. eapply ok_bind; [by apply append_out_acts|]. intros s1 H1.
  destruct more; cbn [negb]; [by apply finish_aw|by apply closeConn_aw].
Qed.

Lemma parse_next_aw fuel d w s : acts_watched s -> ok acts_watched (parse_next hd fuel id d w s).
Proof using.
  revert d s. induction fuel as [|fuel IH]; intros d s Ha; [done|]. cbn [parse_next].
  eapply ok_bind; [by apply (spinLock_ok acts_watched), aw_lock|]. intros s1 H1.
  set (s2 := update id _ s1). assert (acts_watched s2) as H2 by (by apply aw_update).
  apply ok_conn_at. intros c Hc. destruct (_ <? _); [by apply closeConn_aw, H2|].
  destruct (match c.(ws) with Some _ => _ | None => _ end) as [[inp c'] r] eqn:Er.
  assert (c'.(fd) = c.(fd) /\ c'.(outb) = c.(outb) /\ c'.(closedFlag) = c.(closedFlag)) as Hc'.
  { destruct c.(ws) as [wk|].
    - destruct wk.(Ws.closed); [by injection Er as <- <- _|].
      by destruct (ws_parse c.(inb)) as [i [f'|e| |]]; injection Er as <- <- _.
    - destruct (process c.(inb) c.(srs)) as [[i s'] r']. by injection Er as <- <- _. }
  assert (acts_watched (update id (fun _ => set_in inp c') s2)) as H3.
  { apply aw_update; [|done]. rewrite Hc. by intros ? [= <-]. }
  apply (aw_lock false) in H3. unfold spinUnlock. set (s4 := update id (set_lock false) _) in *.
  destruct r as [[]|e| |]; [|destruct (decide _); [done|by apply closeConn_aw, H3]|done|done].
  destruct c'.(ws) as [wsk|].
  - eapply ok_bind; [by apply truncate_aw|]. intros [s5 remain] H5. cbn [fst] in H5.
    destruct (onWebsocket _ wsk) as [[wsk' evs] more].
    eapply ok_bind; [by apply ws_effects_aw, aw_update|]. intros s6 H6. destruct (negb more); [done|].
    destruct (0 <? remain); [by apply IH|by apply finish_aw, H6].
  - destruct c'.(srs).(http) as [req|].
    + eapply ok_bind; [by apply truncate_aw|]. intros [s5 ?] H5. cbn [fst] in H5.
      destruct (hd.(OnHTTP) req _) as [[[u b] upgrade] more]. apply reply_aw.
      destruct upgrade; [apply acts_update; [|done]|]; by apply acts_user, acts_emit, H5.
    + apply (ok_checked_in (fun _ : Redis => True)). intros req _.
      eapply ok_bind; [by apply truncate_aw|]. intros [s5 ?] H5. cbn [fst] in H5.
      destruct (hd.(OnRedis) req _) as [[u b] more]. by apply reply_aw, acts_user, acts_emit, H5.
Qed.

Definition no_output s : Prop := forall c, s.(conns) !! id = Some c -> c.(outb) = [].

Lemma writeConn_no_output w s : no_output s -> ok no_output (writeConn hd id w s).
Proof using.
  intros Hn. unfold writeConn. eapply (ok_bind no_output).
  { apply spinLock_ok. intros c. rewrite lookup_update, decide_True by done.
    intros (c0 & Hc0 & ->)%fmap_Some. cbn. by apply Hn. }
  intros s1 H1. apply ok_conn_at. intros c Hc. rewrite (H1 c Hc). intros c'. cbn [ModRead spinUnlock with_interest conns len length]. unfold spinUnlock.
  rewrite lookup_update, decide_True by done. rewrite Hc. intros [= <-]. by apply (H1 c).
Qed.

(** Reading, unless the answer is "try again" and there is output. *)
Lemma readConn_aw r w s :
  (r = RAgain -> no_output s) -> acts_watched s -> ok acts_watched (readConn hd id r w s).
Proof using.
  intros Hr Ha. unfold readConn. apply ok_conn_at. intros c Hc.
  destruct c.(closedFlag); [by apply closeConn_aw, Ha|].
  destruct r; [by apply parse_next_aw|by apply closeConn_aw, Ha| |by apply closeConn_aw, Ha].
  rewrite (acts_fd _ (proj1 Ha) c Hc). split; [by apply acts_with, Ha|]. intros c' Hc' _. left. by apply Hr.
Qed.
End connection.

(** ** The loop *)

Section loop.
Context `{Env} {U : Type} (hd : @Handlers U).
Local Abbreviation Listener := (@Listener U).
Implicit Types s : Listener.

(** The descriptors that [Trigger] added. *)
Definition triggers (l : list event) : gset Z :=
  list_to_set (omap (fun e => match e with EvTrigger f => Some f | _ => None end) l).

Lemma elem_of_triggers f l : f ∈ triggers l <-> EvTrigger f ∈ l.
Proof using.
  unfold triggers. rewrite elem_of_list_to_set, list_elem_of_omap. split.
  - intros ([] & ? & ?); by simplify_eq.
  - intros. by exists (EvTrigger f).
Qed.

Lemma triggers_app l1 l2 : triggers (l1 ++ l2) = triggers l1 ∪ triggers l2.
Proof using. unfold triggers. by rewrite omap_app, list_to_set_app_L. Qed.

(** [T]: the queue of [Trigger]; [P]: the connections that a goroutine has written to
    and is about to flush. *)
Definition quiet (T P : gset Z) s : Prop :=
  forall id c, s.(conns) !! id = Some c -> c.(closedFlag) = false ->
    c.(outb) = [] \/ s.(interest) !! c.(fd) = Some MReadWrite \/ c.(fd) ∈ T \/ id ∈ P.

(** From [s0] to [s], with what was triggered on the way. *)
Definition stays_quiet (T P : gset Z) s0 s : Prop :=
  exists l, s.(log) = s0.(log) ++ l /\ quiet (T ∪ triggers l) P s.

Lemma quiet_mono T T' P P' s : T ⊆ T' -> P ⊆ P' -> quiet T P s -> quiet T' P' s.
Proof using.
  intros HT HP Hq id c Hid Hop. destruct (Hq id c Hid Hop) as [?|[?|[?|?]]];
    [by left|by right; left|right; right; left|right; right; right]; set_solver.
Qed.

(** Handling [id] leaves the others as they are. *)
Lemma handled_quiet id c T P (W : Prop) s0 s :
  core s0 -> s0.(conns) !! id = Some c -> c.(closedFlag) = false ->
  (forall id' c', id' <> id -> s0.(conns) !! id' = Some c' -> c'.(closedFlag) = false ->
     c'.(outb) = [] \/ s0.(interest) !! c'.(fd) = Some MReadWrite \/ c'.(fd) ∈ T \/ id' ∈ P) ->
  (W -> c.(fd) ∈ T \/ id ∈ P) ->
  others id s0 s -> acts_watched id c.(fd) W s0 s -> stays_quiet T P s0 s.
Proof using.
  intros Hc Hid Hop Hq HW Ho [[[l Hl] Hi Hf] Hw]. exists l. split; [done|]. intros id' c' Hid' Hop'.
  destruct (decide (id' = id)) as [->|Hne].
  - rewrite (Hf c' Hid'). destruct (Hw c' Hid' Hop') as [?|[?|[HW'|(l' & Hl' & Hin)]]];
      [by left|by right; left| |].
    + destruct (HW HW'); [|by do 3 right]. right; right; left. by apply elem_of_union_l.
    + right; right; left. rewrite Hl in Hl'. apply app_inv_head in Hl' as <-.
      by apply elem_of_union_r, elem_of_triggers.
  - rewrite (others_lookup id s0 s id' Ho Hne) in Hid'.
    assert (c'.(fd) <> c.(fd)) as Hfd.
    { intros E. assert (s0.(fdconns) !! c.(fd) = Some id) as E1 by (apply (core_map _ Hc); by exists c).
      assert (s0.(fdconns) !! c.(fd) = Some id') as E2 by (apply (core_map _ Hc); by exists c').
      congruence. }
    assert (s.(interest) !! c'.(fd) = s0.(interest) !! c'.(fd)) as ->.
    { rewrite <- (lookup_delete_ne _ c.(fd)), Hi, lookup_delete_ne by done. done. }
    destruct (Hq id' c' Hne Hid' Hop') as [?|[?|[?|?]]]; [by left|by right; left| |by do 3 right].
    right; right; left. set_solver.
Qed.

Lemma acts_start id f s : (forall c, s.(conns) !! id = Some c -> c.(fd) = f) -> acts id f s s.
Proof using. intros Hf. split; [|done..]. exists []. by rewrite app_nil_r. Qed.

Lemma stays_refl T P s : quiet T P s -> stays_quiet T P s s.
Proof using.
  intros Hq. exists []. rewrite app_nil_r. split; [done|]. by eapply quiet_mono; [..|exact Hq]; set_solver.
Qed.

Lemma stays_trans T P s0 s1 s2 :
  (exists l, s1.(log) = s0.(log) ++ l /\ stays_quiet (T ∪ triggers l) P s1 s2) -> stays_quiet T P s0 s2.
Proof using.
  intros (l1 & E1 & l2 & E2 & Hq). exists (l1 ++ l2). rewrite E2, E1, app_assoc. split; [done|].
  by rewrite triggers_app, (assoc_L (∪)).
Qed.

Lemma sweep_quiet T P ids cutoff s :
  wf s -> quiet T P s -> ok (stays_quiet T P s) (sweep hd ids cutoff s).
Proof using.
  revert T s. induction ids as [|id ids IH]; intros T s Hwf Hq; cbn [sweep]; [by apply stays_refl|].
  apply ok_conn_at. intros c Hid. destruct (_ <? _); [|by apply stays_refl].
  pose proof (closeConn_ok hd id (bs "timeout") true s ltac:(eapply Inv_True, wf_Inv; done)) as Hpost.
  pose proof (closeConn_framed hd id (bs "timeout") true s) as Hfr.
  pose proof (closeConn_aw hd id c.(fd) False s (bs "timeout") true s
                ltac:(apply acts_start; intros ?; congruence)) as Haw.
  destruct c.(closedFlag) eqn:Hop.
  { unfold closeConnWithError, conn_at in *. rewrite Hid in *. cbn [checked_in rbind] in *. rewrite Hop in *.
    cbn [rbind]. by apply IH. }
  destruct (closeConnWithError hd id (bs "timeout") true s) as [s1| | |]; [|done..]. cbn [rbind post framed ok] in *.
  destruct (handled_quiet id c T P False s s1 (proj1 Hwf) Hid Hop) as (l & El & Hq1); try done; [by intros; eapply Hq|].
  pose proof (IH (T ∪ triggers l) s1 (Inv_wf _ _ Hpost) Hq1) as Hs.
  destruct (sweep hd ids cutoff s1) as [s2| | |]; [|done..]. apply (stays_trans T P s s1 s2). by exists l.
Qed.

(** ** An event *)

(** No read of a connection with output answers "try again". *)
Definition no_again (i : input) s : Prop :=
  match i with
  | Ready f _ true _ _ RAgain _ =>
      forall id c, s.(fdconns) !! f = Some id -> s.(conns) !! id = Some c -> c.(outb) = []
  | _ => True
  end.

(** Writing serves what was triggered before. *)
Definition after (i : input) (T : gset Z) : gset Z :=
  match i with Ready f true _ _ _ _ _ => T ∖ {[f]} | _ => T end.

Lemma iter_sweep i now timeout s :
  iter hd i now timeout s
  = let! s := iter hd i now 0 s in
    if 0 <? timeout then sweep hd (reverse s.(order)) (now - timeout) s else Ok s.
Proof using. unfold iter. cbn [Z.ltb Z.compare]. by rewrite rbind_ret. Qed.

(** The queue keeps the descriptors of other connections. *)
Lemma after_other T s f canWrite canRead eof w1 r w2 id c :
  core s -> s.(conns) !! id = Some c -> c.(closedFlag) = false -> s.(fdconns) !! f <> Some id ->
  c.(fd) ∈ T -> c.(fd) ∈ after (Ready f canWrite canRead eof w1 r w2) T.
Proof using.
  intros Hc Hid Hop Hf HT. cbn. destruct canWrite; [|done]. assert (c.(fd) <> f); [|set_solver].
  intros E. apply Hf, (core_map _ Hc). by exists c.
Qed.

(** The connection that the event is for. *)
Lemma ready_quiet T P f canWrite canRead eof w1 r w2 now s :
  let i := Ready f canWrite canRead eof w1 r w2 in
  wf s -> no_again i s -> quiet T P s -> ok (stays_quiet (after i T) P s) (iter hd i now 0 s).
Proof using.
  intros i Hwf Hag Hq. unfold iter, i. cbn [Z.ltb Z.compare]. rewrite rbind_ret.
  destruct (s.(fdconns) !! f) as [id|] eqn:Hf; cbn [rbind].
  2: { cbn [ok]. apply stays_refl. intros id c Hid Hop.
       destruct (Hq id c Hid Hop) as [?|[?|[HT|?]]]; [by left|by right; left| |by do 3 right].
       right; right; left. eapply after_other; [apply Hwf|done|done|by rewrite Hf|done]. }
  pose proof (proj1 (core_map _ (proj1 Hwf) f id) Hf) as (c & Hid & Hop & Hfd).
  set (s1 := attachConn id now (detach id s)).
  assert (s1.(conns) !! id = Some (set_lastTs now c)) as Hid1.
  { unfold s1, attachConn. rewrite lookup_update, decide_True by done. cbn. by rewrite Hid. }
  pose proof (Inv_core _ _ _ (touch_Inv id now s c Hwf Hid Hop)) as Hc1. fold s1 in Hc1.
  set (T' := after i T). set (W := f ∈ T' \/ id ∈ P).
  assert (acts id f s1 s1) as Ha1 by (apply acts_start; intros c'; rewrite Hid1; by intros [= <-]).
  assert (canRead = true -> r = RAgain -> no_output id s1) as Hno1.
  { intros -> -> c'. rewrite Hid1. intros [= <-]. by apply (Hag id c). }
  assert (ok (fun s2 => acts_watched id f W s1 s2 /\ others id s1 s2 /\
                        (canRead = true -> r = RAgain -> no_output id s2))
            (if canWrite then writeConn hd id w1 s1 else Ok s1)) as H2.
  { destruct canWrite.
    - pose proof (writeConn_aw hd id f W s1 w1 s1 Ha1). pose proof (writeConn_framed hd id w1 s1).
      pose proof (writeConn_no_output hd id w1 s1) as Hwn. destruct (writeConn hd id w1 s1); [|done..].
      split; [done|]. split; [done|]. intros. by apply Hwn, Hno1.
    - split; [|by split]. split; [done|]. intros c' Hc' _. rewrite Hid1 in Hc'. injection Hc' as <-.
      destruct (Hq id c Hid Hop) as [?|[?|[?|?]]]; rewrite ?Hfd in *;
        [by left|by right; left|right; right; left; by left|right; right; left; by right]. }
  eapply (ok_bind _ _ _ _ H2). intros s2 (Hw2 & Ho2 & Hno2).
  assert (ok (fun s3 => acts_watched id f W s1 s3 /\ others id s1 s3)
            (if canRead then readConn hd id r w2 s2 else Ok s2)) as H3.
  { destruct canRead; [|done]. pose proof (readConn_framed hd id r w2 s2) as Hfr.
    pose proof (readConn_aw hd id f W s1 r w2 s2) as Hr.
    destruct (readConn hd id r w2 s2) as [s3| | |]; [|done..]. split; [|by transitivity s2].
    apply Hr; [|done]. by apply Hno2. }
  eapply (ok_bind _ _ _ _ H3). intros s3 [Hw3 Ho3].
  assert (ok (fun s4 => acts_watched id f W s1 s4 /\ others id s1 s4)
            (if eof then closeConnWithError hd id (bs "eof") false s3 else Ok s3)) as H4.
  { destruct eof; [|done]. pose proof (closeConn_framed hd id (bs "eof") false s3).
    pose proof (closeConn_aw hd id f W s1 (bs "eof") false s3 (proj1 Hw3)).
    destruct (closeConnWithError hd id (bs "eof") false s3); [|done..]. split; [done|by transitivity s3]. }
  destruct (if eof then _ else _) as [s4| | |]; [|done..]. cbn [rbind ok] in *. destruct H4 as [Hw4 Ho4].
  destruct (handled_quiet id (set_lastTs now c) T' P W s1 s4) as (l & El & Hql); try done.
  - intros id' c' Hne Hc' Hop'. unfold s1, attachConn in Hc'. rewrite lookup_update, decide_False in Hc' by done.
    destruct (Hq id' c' Hc' Hop') as [?|[?|[HT|?]]]; [by left|by right; left| |by do 3 right].
    right; right; left. eapply after_other; [apply Hwf|done|done| |done]. rewrite Hf. congruence.
  - cbn. by rewrite Hfd.
  - cbn. by rewrite Hfd.
  - by exists l.
Qed.

Lemma iter_quiet T P i now timeout s :
  max_ok -> wf s -> accept_ok i s -> no_again i s -> quiet T P s ->
  ok (stays_quiet (after i T) P s) (iter hd i now timeout s).
Proof using.
  intros Hmax Hwf Ha Hag Hq. rewrite iter_sweep. pose proof (iter_post hd i now 0 s Hmax Hwf Ha) as Hpost.
  assert (ok (stays_quiet (after i T) P s) (iter hd i now 0 s)) as Hi.
  { destruct i as [id nfd|e|f canWrite canRead eof w1 r w2]; [| |by apply ready_quiet]; cbn.
    - destruct Ha as [Hnew Hfree]. set (s0 := attachConn _ _ _). exists [EvFdCount (s0.(count) + 1)]. split; [done|].
      intros id' c'. cbn. intros Hc' Hop'. destruct (decide (id' = id)) as [->|Hne].
      + rewrite lookup_alter_eq, lookup_insert_eq in Hc'. injection Hc' as <-. by left.
      + rewrite lookup_alter_ne, lookup_insert_ne in Hc' by done.
        assert (c'.(fd) <> nfd) as Hfd.
        { intros E. assert (s.(fdconns) !! nfd = Some id') as E'; [|congruence].
          apply (core_map _ (proj1 Hwf)). by exists c'. }
        rewrite lookup_insert_ne by done.
        destruct (Hq id' c' Hc' Hop') as [?|[?|[?|?]]]; [by left|by right; left| |by do 3 right].
        right; right; left. by apply elem_of_union_l.
    - exists (match e with AcceptAgain => [] | AcceptFails => [EvError (bs "accept")]
              | SetNonblockFails _ => [EvError (bs "setnonblock")] | SslFails _ => [EvError (bs "ssl")] end).
      split; [by destruct e; rewrite ?app_nil_r|].
      assert (quiet T P (match e with AcceptAgain => s | AcceptFails => emit (EvError (bs "accept")) s
              | SetNonblockFails _ => emit (EvError (bs "setnonblock")) s | SslFails _ => emit (EvError (bs "ssl")) s end))
        as Hq' by (by destruct e).
      eapply quiet_mono; [..|exact Hq']; set_solver. }
  destruct (iter hd i now 0 s) as [s1| | |]; [|done..]. cbn [rbind ok post] in *.
  destruct (0 <? timeout); [|done]. destruct Hi as (l & El & Hq1).
  pose proof (sweep_quiet (after i T ∪ triggers l) P (reverse s1.(order)) (now - timeout) s1 Hpost Hq1) as Hs.
  destruct (sweep _ _ _ _) as [s2| | |]; [|done..]. apply (stays_trans _ _ s s1 s2). by exists l.
Qed.

(** ** Properties *)

(** The states of a listener with the queue of [Trigger] and the goroutines that are
    between writing and [Flush]. *)
Inductive served (timeout : Z) : Listener -> gset Z -> gset Z -> Prop :=
| served_init f u : served timeout (newListener f u) ∅ ∅
| served_event i now s T P s' l :
    served timeout s T P -> accept_ok i s -> no_again i s -> iter hd i now timeout s = Ok s' ->
    s'.(log) = s.(log) ++ l -> served timeout s' (after i T ∪ triggers l) P
| served_write id p s T P s' :
    served timeout s T P -> append_out id p s = Ok s' -> served timeout s' T ({[id]} ∪ P)
| served_flush id s T P s' l :
    served timeout s T P -> conn_Flush id s = Ok s' -> s'.(log) = s.(log) ++ l ->
    served timeout s' (T ∪ triggers l) (P ∖ {[id]}).

Lemma served_reachable timeout s T P : served timeout s T P -> reachable hd timeout s.
Proof using.
  induction 1; [apply reach_init|by eapply reach_step|by eapply reach_append|by eapply reach_flush].
Qed.

Lemma served_quiet timeout s T P : max_ok -> served timeout s T P -> quiet T P s.
Proof using.
  intros Hmax. induction 1 as [f u|i now s T P s' l Hs IH Ha Hag Hi El|id p s T P s' Hs IH Ea|id s T P s' l Hs IH Ef El].
  - intros id c. cbn. by rewrite lookup_empty.
  - pose proof (iter_quiet T P i now timeout s Hmax) as Hq. rewrite Hi in Hq.
    destruct Hq as (l' & El' & Hq); [by eapply reachable_wf, served_reachable|done..|].
    rewrite El in El'. by apply app_inv_head in El' as <-.
  - apply append_out_Ok in Ea as (c & Hc & _ & ->). intros id' c'. rewrite lookup_update.
    case_decide as E; [subst id'; intros _ _; right; right; right; set_solver|].
    intros Hc' Hop'. destruct (IH id' c' Hc' Hop') as [?|[?|[?|?]]]; [by left|by right; left|by right; right; left|].
    right; right; right. by apply elem_of_union_r.
  - apply conn_Flush_Ok in Ef as (c & Hc & ->). intros id' c' Hc' Hop'.
    assert (s.(conns) !! id' = Some c') as Hc0 by (by destruct c.(closedFlag)).
    destruct (decide (id' = id)) as [->|Hne].
    + assert (c' = c) as -> by congruence. rewrite Hop' in El. cbn in El. apply app_inv_head in El as <-.
      right; right; left. apply elem_of_union_r, elem_of_triggers. by left.
    + replace ((if c.(closedFlag) then s else emit (EvTrigger c.(fd)) s).(interest)) with s.(interest)
        by (by destruct c.(closedFlag)).
      destruct (IH id' c' Hc0 Hop') as [?|[?|[?|?]]]; [by left|by right; left| |].
      * right; right; left. by apply elem_of_union_l.
      * right; right; right. set_solver.
Qed.

(** C11: no output is forgotten.  Whatever happens, as long as no read of a
    connection with output answers "try again": when an open connection has output, the poller watches it for writing, or
    its descriptor is in the queue of [Trigger] and will be written, or the goroutine
    that wrote the output has still to call [Flush]. *)
Theorem output_watched timeout s T P id c :
  max_ok -> served timeout s T P -> s.(conns) !! id = Some c -> c.(closedFlag) = false -> c.(outb) <> [] ->
  s.(interest) !! c.(fd) = Some MReadWrite \/ c.(fd) ∈ T \/ id ∈ P.
Proof using.
  intros Hmax Hs Hid Hop Ho. by destruct (served_quiet timeout s T P Hmax Hs id c Hid Hop).
Qed.

(** A read that answers "try again" stops the poller from watching the connection for
    writing, though it has output.  With TLS that is what the first bytes of a record
    lead to. *)
Theorem again_unwatches w1 w2 f id c now s :
  s.(fdconns) !! f = Some id -> s.(conns) !! id = Some c -> c.(closedFlag) = false ->
  exists s', iter hd (Ready f false true false w1 RAgain w2) now 0 s = Ok s' /\
    s'.(conns) !! id = Some (set_lastTs now c) /\ s'.(interest) !! c.(fd) = Some MRead /\
    s'.(log) = s.(log).
Proof using.
  intros Hf Hid Hop. unfold iter. rewrite Hf. cbn [rbind Z.ltb Z.compare]. set (s1 := attachConn id now (detach id s)).
  assert (s1.(conns) !! id = Some (set_lastTs now c)) as Hid1.
  { unfold s1, attachConn. rewrite lookup_update, decide_True by done. cbn. by rewrite Hid. }
  unfold readConn, conn_at. rewrite Hid1. cbn [checked_in rbind closedFlag set_lastTs]. rewrite Hop. cbn [rbind].
  eexists. split; [reflexivity|]. split_and!; [exact Hid1|apply lookup_insert_eq|done].
Qed.
End loop.

(** ** Witnesses *)

(** A reply of which the kernel took two bytes. *)
Definition ex_short : @Listener Z :=
  ok_or ex_listener (@iter default_env Z ex_handlers ex_ready 11 0 ex_listener).

Lemma ex_short_served :
  @served default_env Z ex_handlers 0 ex_short
    (after ex_ready (after ex_input ∅ ∪ triggers [EvFdCount 1])
     ∪ triggers (drop (length ex_listener.(log)) ex_short.(log))) ∅.
Proof.
  apply (served_event _ _ ex_ready 11 ex_listener (after ex_input ∅ ∪ triggers [EvFdCount 1]) ∅);
    [|done|done|by vm_compute|by vm_compute].
  by apply (served_event _ _ ex_input 10 (newListener 3 0) ∅ ∅); [apply served_init|..].
Qed.

Definition ex_short_conn : Conn := set_out (drop 2 ok_reply) (set_lastTs 11 (newConn 5)).

Lemma ex_short_lookup : ex_short.(conns) !! 1 = Some ex_short_conn.
Proof. vm_compute. reflexivity. Qed.

Lemma output_watched_witness :
  exists T : gset Z, ex_short.(interest) !! 5 = Some MReadWrite \/ 5 ∈ T \/ 1 ∈ (∅ : gset Z).
Proof.
  eexists. apply (@output_watched default_env Z ex_handlers 0 ex_short _ ∅ 1 ex_short_conn);
    [apply max_ok_default|apply ex_short_served|apply ex_short_lookup|done..].
Defined.

Lemma again_unwatches_witness :
  exists s', @iter default_env Z ex_handlers (Ready 5 false true false (WN 0) RAgain (WN 0)) 12 0 ex_short = Ok s' /\
    s'.(conns) !! 1 = Some (set_lastTs 12 ex_short_conn) /\ s'.(interest) !! 5 = Some MRead /\
    s'.(log) = ex_short.(log).
Proof.
  apply (@again_unwatches default_env Z ex_handlers (WN 0) (WN 0) 5 1 ex_short_conn 12 ex_short);
    [by vm_compute|apply ex_short_lookup|done].
Defined.
