(* ===== verification/ServeLoop.v ===== *)
(** [Serve] from its beginning to its end (src/server.go): the handlers that it puts
    in place of those that are not set; and, when [Wait] returns or something panics
    in the middle of an event, the deferred function that closes what is still
    open. *)

From stdpp Require Import gmap.
From S2P Require Import Prelude GoStd Escape Util Redis Ws Http HttpSpec HttpResp State StateSpec Server ServerInv ServerSpec.

Section stop.
Context `{Env} {U : Type} (hd : @Handlers U).
Local Abbreviation Listener := (@Listener U).
Implicit Types s : Listener.

(** ** The handlers *)

(** The callbacks of a listener, where a nil function is [None]; of [OnError] only
    whether it is set.  [OnFdCount] only observes.  Nothing is put in place of an
    [OnWSData] or [OnWSClose] that is nil. *)
Record Callbacks := mkCallbacks {
  cbOnRedis : option (Redis -> U -> U * bytes * bool);
  cbOnHTTP : option (HTTP -> U -> U * bytes * bool * bool);
  cbOnWSData : option (bytes -> U -> U * list bytes * bool);
  cbOnWSClose : option (option bytes -> U -> U);
  cbOnError : bool;
  cbCloseFails : Z -> bool;
}.

(** What a writer adds to the output of a connection. *)
Definition written (m : res error sink) : bytes :=
  match m with Ok c => c.(HttpResp.out) | _ => [] end.

(** The start of [Serve], which panics without [OnError]. *)
Definition Serve_handlers (cb : Callbacks) : option (@Handlers U) :=
  if negb cb.(cbOnError) then None
  else Some {|
    OnRedis := match cb.(cbOnRedis) with
               | Some h => h
               | None => fun c u => (u, WriteError [] (bs "OnRedis handler not found"), true)
               end;
    OnHTTP := match cb.(cbOnHTTP) with
              | Some h => h
              | None => fun c u =>
                  (u, written (Text 500 (bs "OnHTTP handler not found") (mkSink [] 0)), false, true)
              end;
    OnWSData' := cb.(cbOnWSData);
    OnWSClose := cb.(cbOnWSClose);
    close_fails := cb.(cbCloseFails) |}.

(** A server without a handler answers a command with an error and stays open for
    the next one. *)
Lemma no_handler_answers cb id d w s c args :
  Serve_handlers cb = Some hd -> cb.(cbOnRedis) = None ->
  s.(conns) !! id = Some c -> idle c -> c.(srs) = newState -> c.(inb) = [] -> c.(outb) = [] ->
  d = command args -> len args <= 65535 -> len d <= RequestMaxBytes -> max_ok ->
  exists req t, (forall i : nat, Get req (Z.of_nat i) = Ok (args !! i)) /\
    replaced id (set_out (bs "-OnRedis handler not found" ++ crlf) c) [EvRedis id req] s.(user) s t /\
    readConn hd id (RData d) w s = writeConn hd id w t.
Proof using.
  intros Hcb Hno Hid Hi Hs Hb Ho Hd Ha Hl Hmax. subst d.
  destruct (readConn_command hd id (command args) w s c args [] Hid Hi Hs) as (req & Hget & Hr);
    [by rewrite Hb, app_nil_r|done|by rewrite app_nil_r|done|].
  assert (hd.(OnRedis) req s.(user) = (s.(user), WriteError [] (bs "OnRedis handler not found"), true)) as E.
  { unfold Serve_handlers in Hcb. destruct (negb _); [done|]. injection Hcb as <-. cbn. by rewrite Hno. }
  rewrite E in Hr. destruct (Hr eq_refl) as (t & Ht & Hrd). exists req, t. split_and!; [done| |].
  - rewrite Ho in Ht. replace (set_in [] c) with c in Ht by (destruct c; cbn in *; by subst). exact Ht.
  - rewrite Hrd, Ho. done.
Qed.

(** ** Closing every connection *)

(** The descriptors that were closed. *)
Definition sys_closes (l : list event) : list Z :=
  omap (fun e => match e with EvSysClose f => Some f | _ => None end) l.

Lemma sys_closes_app l1 l2 : sys_closes (l1 ++ l2) = sys_closes l1 ++ sys_closes l2.
Proof using. apply omap_app. Qed.

Lemma closeConn_log id t b s c s' :
  s.(conns) !! id = Some c -> c.(closedFlag) = false -> closeConnWithError hd id t b s = Ok s' ->
  exists l, s'.(log) = s.(log) ++ l /\ sys_closes l = [c.(fd)].
Proof using.
  intros Hid Hcl. unfold closeConnWithError, conn_at. rewrite Hid. cbn [checked_in rbind]. rewrite Hcl.
  destruct c.(ws) as [w|]; [destruct hd.(OnWSClose) as [h|]; [|done]|];
    destruct (hd.(close_fails) c.(fd)), b; cbn [checked_in rbind]; cbn zeta; intros [= <-]; cbn;
    rewrite <- ?app_assoc; (eexists; split; [reflexivity|done]).
Qed.

(** Closing the entries of the map one after the other. *)
Lemma close_all_core (es : list (Z * Z)) s :
  hd.(OnWSClose) <> None -> core s -> NoDup es.*2 -> (forall f id, (f, id) ∈ es -> s.(fdconns) !! f = Some id) ->
  exists s' l, close_all hd es.*2 s = Ok s' /\ core s' /\
    s'.(order) = filter (fun x => x ∉ es.*2) s.(order) /\ dom s'.(conns) = dom s.(conns) /\
    s'.(log) = s.(log) ++ l /\ sys_closes l = es.*1.
Proof using.
  intros Hws. revert s. induction es as [|[f id] es IH]; intros s Hc Hnd Hin.
  { exists s, []. rewrite app_nil_r. split_and!; try done. symmetry. apply filter_all. intros x _. apply not_elem_of_nil. }
  cbn [fmap list_fmap snd fst] in *. apply NoDup_cons in Hnd as [Hid Hnd].
  destruct (proj1 (core_map _ Hc f id)) as (c & Hcid & Hcl & Hfd); [apply Hin; by left|].
  destruct (closeConn_maps hd id [] false s c Hcid Hcl (or_intror Hws)) as (s1 & E & F1 & F2 & F3 & F4 & F5).
  destruct (closeConn_log id [] false s c s1 Hcid Hcl E) as (l1 & L1 & C1).
  cbn [close_all]. rewrite E. cbn [rbind].
  destruct (IH s1) as (s' & l & E' & Hc' & Ho' & Hd' & L' & C').
  - by eapply core_close.
  - done.
  - intros f' id' Hx. rewrite F2, Hfd. rewrite lookup_delete_ne; [apply Hin; by right|].
    intros <-. assert (Some id = Some id') as [= <-] by (rewrite <- !(Hin f) by (by left || by right); done).
    apply Hid. apply list_elem_of_fmap. by exists (f, id).
  - exists s', (l1 ++ l). split_and!; [done|done| | | |].
    + rewrite Ho', F3, list_filter_filter. apply list_filter_iff. intros x. rewrite not_elem_of_cons. tauto.
    + rewrite Hd', F1. unfold update, with_conns. cbn [conns]. apply dom_alter_L.
    + by rewrite L', L1, app_assoc.
    + by rewrite sys_closes_app, C1, C', Hfd.
Qed.

(** The entries of the map name each open connection once. *)
Lemma fdconns_ids s (es : list (Z * Z)) :
  core s -> es ≡ₚ map_to_list s.(fdconns) ->
  NoDup es.*2 /\ (forall f id, (f, id) ∈ es <-> s.(fdconns) !! f = Some id) /\
  forall id, id ∈ es.*2 <-> id ∈ s.(order).
Proof using.
  intros Hc Hp.
  assert (forall f id, (f, id) ∈ es <-> s.(fdconns) !! f = Some id) as Hin
    by (intros f id; by rewrite Hp, elem_of_map_to_list).
  split_and!; [|done|].
  - apply NoDup_fmap_2_strong; [|rewrite Hp; apply NoDup_map_to_list].
    intros [f1 id1] [f2 id2] H1%Hin H2%Hin E. cbn in E. subst id2.
    apply (core_map _ Hc) in H1 as (c1 & Hc1 & _ & <-). apply (core_map _ Hc) in H2 as (c2 & Hc2 & _ & <-).
    congruence.
  - intros id. rewrite list_elem_of_fmap, (core_order _ Hc). split.
    + intros ([f ?] & -> & (c & ? & ? & ?)%Hin%(core_map _ Hc)). by exists c.
    + intros (c & ? & ?). exists (c.(fd), id). split; [done|]. apply Hin, (core_map _ Hc). by exists c.
Qed.

(** Nothing is left: [s'] is [s] with every connection closed. *)
Definition all_closed (s s' : Listener) : Prop :=
  s'.(fdconns) = ∅ /\ s'.(order) = [] /\ s'.(count) = 0 /\ dom s'.(conns) = dom s.(conns) /\
  forall id c, s'.(conns) !! id = Some c -> c.(closedFlag) = true.

Lemma close_all_stops (es : list (Z * Z)) s :
  hd.(OnWSClose) <> None -> core s -> es ≡ₚ map_to_list s.(fdconns) ->
  exists s' l, close_all hd es.*2 s = Ok s' /\ all_closed s s' /\ s'.(log) = s.(log) ++ l /\ sys_closes l = es.*1.
Proof using.
  intros Hws Hc Hp. destruct (fdconns_ids s es Hc Hp) as (Hnd & Hes & Hin).
  destruct (close_all_core es s Hws Hc Hnd) as (s' & l & E & Hc' & Ho & Hd & L & C); [by intros f id ?%Hes|].
  assert (forall id, id ∉ s'.(order)) as Ho'.
  { intros id. rewrite Ho, list_elem_of_filter. intros [Hn Hi]. by apply Hn, Hin. }
  exists s', l. split; [done|]. split; [|done]. split_and!; [| | |done|].
  - apply map_empty. intros f. apply eq_None_not_Some. intros [id (c & Hid & Hop & _)%(core_map _ Hc')].
    apply (Ho' id), (core_order _ Hc'). by exists c.
  - by apply elem_of_nil_inv.
  - rewrite (core_count _ Hc'), (elem_of_nil_inv _ Ho'). done.
  - intros id c Hid. destruct (closedFlag c) eqn:Hop; [done|].
    exfalso. apply (Ho' id), (core_order _ Hc'). by exists c.
Qed.

(** ** Properties *)

(** The state in which the deferred function of [Serve] starts: the loop has ended,
    or something has panicked and was reported. *)
Definition ends (timeout : Z) (inputs : list (input * Z)) (s s0 : Listener) : Prop :=
  match serve hd timeout inputs s with
  | Ok s1 => s0 = s1
  | Err (Panicked s1) => s0 = emit (EvError (bs "panic")) s1
  | Err Spinning | Panic | OutOfFuel => False
  end.

(** With an [OnWSClose], every panic leaves maps that agree. *)
Lemma halted_core s : hd.(OnWSClose) <> None -> halted hd s -> core s.
Proof using. by intros Hws [?|[? _]]. Qed.

Lemma Serve_ends timeout inputs range s :
  hd.(OnWSClose) <> None -> post hd core (serve hd timeout inputs s) -> (forall l, range l ≡ₚ l) ->
  exists s0 s' l, ends timeout inputs s s0 /\ Serve hd timeout inputs range s = Ok s' /\
    all_closed s0 s' /\ s'.(log) = s0.(log) ++ l /\ sys_closes l = (range (map_to_list s0.(fdconns))).*1.
Proof using.
  intros Hws Hp Hr. unfold ends, Serve, post in *.
  assert (forall s0, core s0 -> exists s' l, close_all hd (range (map_to_list s0.(fdconns))).*2 s0 = Ok s' /\
    all_closed s0 s' /\ s'.(log) = s0.(log) ++ l /\ sys_closes l = (range (map_to_list s0.(fdconns))).*1) as Hc
    by (intros s0 H0; by apply close_all_stops).
  destruct (serve hd timeout inputs s) as [s1|[|s1]| |]; try done; cbn [rbind].
  - destruct (Hc s1 Hp) as (s' & l & ? & ?). by exists s1, s', l.
  - destruct (Hc (emit (EvError (bs "panic")) s1)) as (s' & l & ? & ?).
    { by eapply core_ext; [..|exact (halted_core s1 Hws Hp)]. }
    by exists (emit (EvError (bs "panic")) s1), s', l.
Qed.

(** C28: the end of [Serve] for a listener whose [OnWSClose] is set, whatever the events
    were and whether [Wait] returned or the runtime panicked in the middle of an event
    (calling an [OnWSData] that is nil panics as well): it never hangs, and the deferred
    function closes every connection that is still open, its descriptor once, in
    whatever order it ranges over the map.  Afterwards the map and the list are empty
    and the count is 0.  Without an [OnWSClose] this holds no longer, see
    [no_OnWSClose_leaks]. *)
Theorem Serve_stops timeout inputs range s :
  hd.(OnWSClose) <> None -> max_ok -> reachable hd timeout s -> accepts_ok hd timeout inputs s -> (forall l, range l ≡ₚ l) ->
  exists s0 s' l, ends timeout inputs s s0 /\ Serve hd timeout inputs range s = Ok s' /\
    all_closed s0 s' /\ s'.(log) = s0.(log) ++ l /\ sys_closes l = (range (map_to_list s0.(fdconns))).*1.
Proof using.
  intros Hws Hmax Hr Ha Hp. apply Serve_ends; [done| |done].
  eapply post_mono; [apply serve_post; [done|by eapply reachable_wf|done]|]. by intros ? [? _].
Qed.

(** One client stops the server: when one sends a command whose first argument
    announces a negative length, the event loop panics; [Serve] reports it, closes
    the connections of all clients and returns.  No event after that is handled. *)
Theorem client_stops_server timeout range id f w1 d w now s c n :
  hd.(OnWSClose) <> None -> max_ok -> reachable hd timeout s -> (forall l, range l ≡ₚ l) ->
  s.(conns) !! id = Some c -> idle c -> c.(srs) = newState -> c.(inb) = [] -> c.(fd) = f ->
  d = resp_header 42 1 ++ resp_header 36 (- n) -> len d < n <= 2 ^ 63 -> len d <= RequestMaxBytes ->
  exists s', (forall inputs, Serve hd timeout ((Ready f false true false w1 (RData d) w, now) :: inputs) range s = Ok s') /\
    all_closed s s' /\ EvError (bs "panic") ∈ s'.(log).
Proof using.
  intros Hws Hmax Hr Hrange Hid Hi Hs Hb Hf Hd Hn Hl.
  pose proof (reachable_wf hd timeout s Hmax Hr) as Hwf. set (i := Ready f false true false w1 (RData d) w).
  set (s1 := attachConn id now (detach id s)). set (c1 := set_lastTs now c).
  assert (s1.(conns) !! id = Some c1) as Hid1.
  { unfold s1, attachConn. rewrite lookup_update, decide_True by done. cbn. by rewrite Hid. }
  assert (exists t, iter hd i now timeout s = Err (Panicked t) /\ dom t.(conns) = dom s.(conns)) as (t & Hit & Hdom).
  { destruct (process (c1.(inb) ++ d) c1.(srs)) as [[inp s'] r] eqn:Hpr.
    assert (r = Panic) as ->.
    { cbn in Hpr. rewrite Hb, Hs in Hpr. cbn [app] in Hpr.
      pose proof (process_negative_length n [] ltac:(rewrite Hd in Hn; lia)) as Hpan.
      rewrite app_nil_r, <- Hd, Hpr in Hpan. apply Hpan. unfold max_ok in Hmax. lia. }
    destruct (readConn_process hd id d w s1 c1 inp s' Panic Hid1 Hi) as (t & (Et & _) & E).
    { cbn. by rewrite Hb. } { done. }
    exists (update id (set_lock true) t). split.
    - unfold iter, i. rewrite (proj2 (core_map _ (proj1 Hwf) f id)) by (exists c; by destruct Hi).
      cbn [rbind]. fold s1. by rewrite E.
    - unfold update, with_conns. cbn [conns]. rewrite dom_alter_L, Et, dom_insert_lookup_L by done.
      unfold s1, attachConn, update, with_conns. cbn [conns]. by rewrite dom_alter_L. }
  pose proof (iter_post hd i now timeout s Hmax Hwf I) as Hc. rewrite Hit in Hc. cbn in Hc.
  apply (halted_core t Hws) in Hc.
  destruct (close_all_stops (range (map_to_list t.(fdconns))) (emit (EvError (bs "panic")) t))
    as (s' & l & E & (? & ? & ? & Hd' & ?) & L & _); [done|by eapply core_ext; [..|exact Hc]|apply Hrange|].
  exists s'. split; [|split; [split_and!|]].
  - intros inputs. unfold Serve. cbn [serve]. rewrite Hit. cbn [rbind]. exact E.
  - done.
  - done.
  - done.
  - by rewrite Hd'.
  - done.
  - rewrite L. cbn. rewrite !elem_of_app. left. right. by left.
Qed.
End stop.

(** ** Witnesses *)

(** The listener of [ex_listener] with a second client. *)
Definition ex_two : @Listener Z :=
  ok_or ex_listener (@iter default_env Z ex_handlers (Accept 2 6) 11 0 ex_listener).

Lemma ex_two_reachable : @reachable default_env Z ex_handlers 0 ex_two.
Proof.
  apply (reach_step _ _ (Accept 2 6) 11 ex_listener); [apply ex_reachable|done|reflexivity].
Qed.

Definition ex_stop : bytes := bs "*1" ++ crlf ++ bs "$-100" ++ crlf.
Definition ex_events : list (input * Z) :=
  [(ex_ready, 12); (Ready 6 false true false (WN 0) (RData ex_stop) (WN 0), 13); (ex_ready, 14)].

Lemma Serve_stops_witness :
  exists s0 s' l, @ends default_env Z ex_handlers 0 ex_events ex_two s0 /\
    @Serve default_env Z ex_handlers 0 ex_events reverse ex_two = Ok s' /\
    all_closed s0 s' /\ s'.(log) = s0.(log) ++ l /\
    sys_closes l = (reverse (map_to_list s0.(fdconns))).*1.
Proof.
  apply (@Serve_stops default_env Z ex_handlers 0 ex_events reverse ex_two).
  - done.
  - apply max_ok_default.
  - apply ex_two_reachable.
  - repeat (split; [exact I|intros ? _]). exact I.
  - intros l. apply reverse_Permutation.
Defined.

Lemma client_stops_server_witness :
  exists s', (forall inputs, @Serve default_env Z ex_handlers 0
      ((Ready 6 false true false (WN 0) (RData ex_stop) (WN 0), 12) :: inputs) id ex_two = Ok s') /\
    all_closed ex_two s' /\ EvError (bs "panic") ∈ s'.(log).
Proof.
  apply (@client_stops_server default_env Z ex_handlers 0 id 2 6 (WN 0) ex_stop (WN 0) 12 ex_two
           (set_lastTs 11 (newConn 6)) 100);
    try (apply max_ok_default || apply ex_two_reachable || done || by vm_compute).
Defined.

(** ** Without an [OnWSClose] *)

(** A program that upgrades every request and has set no [OnWSClose]; a client that
    upgrades its connection, beside one that has a connection only ([both = false]) or
    upgrades it too, and then goes away. *)
Definition ex_no_close : @Handlers Z :=
  {| OnRedis := fun _ u => (u, [], true);
     OnHTTP := fun _ u => (u, [], true, true);
     OnWSData' := None;
     OnWSClose := None;
     close_fails := fun _ => false |}.
Definition ex_upgrade : bytes := bs "GET / HTTP/1.1" ++ crlf ++ crlf.
Definition ex_away (both : bool) : list (input * Z) :=
  [(Accept 1 5, 1); (Accept 2 6, 2); (Ready 5 false true false (WN 0) (RData ex_upgrade) (WN 0), 3)] ++
  (if both then [(Ready 6 false true false (WN 0) (RData ex_upgrade) (WN 0), 4)] else []) ++
  [(Ready 5 false true false (WN 0) REof (WN 0), 5)].
Definition ex_serve (both : bool) : @result Z (@Listener Z) :=
  @Serve default_env Z ex_no_close 0 (ex_away both) id (newListener 3 0).

(** The connection of the client that goes away is marked as closed, calling [OnWSClose]
    panics, and [Serve] closes the other one and returns; this one stays in the map and
    the list, and its descriptor stays open.  If the other one is a websocket as well,
    the deferred function panics too and nothing recovers that. *)
Theorem no_OnWSClose_leaks :
  (exists s, ex_serve false = Ok s /\ closedFlag <$> s.(conns) !! 1 = Some true /\
     map_to_list s.(fdconns) = [(5, 1)] /\ s.(order) = [1] /\ s.(count) = 1 /\ sys_closes s.(log) = [6] /\
     omap (fun e => match e with EvError typ => Some typ | _ => None end) s.(log) = [bs "panic"]) /\
  exists s, ex_serve true = Err (Panicked s) /\ sys_closes s.(log) = [].
Proof.
  split.
  - exists (ok_or ex_listener (ex_serve false)). split_and!; by vm_compute.
  - exists (match ex_serve true with Err (Panicked s) => s | _ => ex_listener end). by split; vm_compute.
Qed.
