(* ===== verification/ConnRace.v ===== *)
(** The lock of a connection (src/conn.go): what [spinLock] protects, under every
    schedule of the goroutines that use it.

    [Server] takes what is done between [spinLock] and [spinUnlock] as one step.  Here
    each compare-and-swap of the lock is a step, and each statement in between is two,
    since it loads the fields of the connection before it stores them.  The first part
    is the lock around any state; the second has the sections of the program: the
    writers of replies (src/redis.go, src/conn.go) and the poller's [writeConn] and
    [readConn] (src/server.go). *)

From stdpp Require Import gmap.
From S2P Require Import Prelude GoStd Escape Util Redis Ws Http HttpSpec State Server.

(** ** The lock *)

Section spin.
Context {S : Type}.
Implicit Types (v : S) (t : nat).

(** What a goroutine does: its statements between [spinLock] and [spinUnlock], each of
    which may panic; whether it looks at the flag [closed] first; and, from the state at
    the end, whether it comes to [spinUnlock] at all. *)
Record section := mkSection {
  checks : bool;
  body : list (S -> option S);
  unlocks : S -> bool;
}.

(** Where a goroutine is. *)
Inductive goroutine :=
| Checking (o : section)
| Waiting (o : section)
| Running (fs : list (S -> option S)) (u : S -> bool)
| Loaded (f : S -> option S) (v : S) (fs : list (S -> option S)) (u : S -> bool)
| Refused
| Finished
| Crashed.

Definition start (o : section) : goroutine := if o.(checks) then Checking o else Waiting o.

Record spin := mkSpin { locked : bool; closed : bool; val : S; gos : gmap nat goroutine }.

Definition set_go (t : nat) (g : goroutine) (m : spin) : spin :=
  mkSpin m.(locked) m.(closed) m.(val) (<[t := g]> m.(gos)).

(** One step of the goroutine [t]; a compare-and-swap that fails leaves it where it
    is. *)
Definition sstep (t : nat) (m : spin) : option spin :=
  g ← m.(gos) !! t;
  match g with
  | Checking o => Some (set_go t (if m.(closed) then Refused else Waiting o) m)
  | Waiting o =>
      if m.(locked) then Some m
      else Some (set_go t (Running o.(body) o.(unlocks)) (mkSpin true m.(closed) m.(val) m.(gos)))
  | Running (f :: fs) u => Some (set_go t (Loaded f m.(val) fs u) m)
  | Loaded f v fs u =>
      match f v with
      | Some v' => Some (set_go t (Running fs u) (mkSpin m.(locked) m.(closed) v' m.(gos)))
      | None => Some (set_go t Crashed m)
      end
  | Running [] u =>
      let b := if u m.(val) then false else m.(locked) in
      Some (set_go t Finished (mkSpin b m.(closed) m.(val) m.(gos)))
  | Refused | Finished | Crashed => None
  end.

(** A schedule: steps of goroutines, and the connection being closed. *)
Inductive saction := Step (t : nat) | CloseIt.

Definition saction_step (a : saction) (m : spin) : option spin :=
  match a with
  | Step t => sstep t m
  | CloseIt => Some (mkSpin m.(locked) true m.(val) m.(gos))
  end.

(** Who gets the lock in this step. *)
Definition enters (a : saction) (m : spin) : list (nat * section) :=
  match a with
  | Step t => match m.(gos) !! t with
              | Some (Waiting o) => if m.(locked) then [] else [(t, o)]
              | _ => []
              end
  | CloseIt => []
  end.

(** A run, with the goroutines in the order in which they got the lock. *)
Fixpoint srun (l : list saction) (m : spin) : option (spin * list (nat * section)) :=
  match l with
  | [] => Some (m, [])
  | a :: l => m' ← saction_step a m; '(m'', es) ← srun l m'; Some (m'', enters a m ++ es)
  end.

(** ** Each section at one moment *)

Definition exec (fs : list (S -> option S)) v : option S :=
  foldl (fun o f => v ← o; f v) (Some v) fs.

(** The sections one after the other. *)
Definition exec_all (es : list (nat * section)) v : option S :=
  foldl (fun o e => v ← o; exec e.2.(body) v) (Some v) es.

Lemma foldl_none {A} (h : A -> S -> option S) (l : list A) :
  foldl (fun o a => v ← o; h a v) None l = None.
Proof using. by induction l. Qed.

Lemma exec_cons f fs v : exec (f :: fs) v = (v' ← f v; exec fs v').
Proof using.
  unfold exec. cbn [foldl mbind option_bind]. destruct (f v); [done|].
  apply (foldl_none (fun f v => f v)).
Qed.

Lemma exec_one f v : exec [f] v = f v.
Proof using. rewrite exec_cons. by destruct (f v). Qed.

Lemma exec_all_snoc es e v : exec_all (es ++ [e]) v = (v' ← exec_all es v; exec e.2.(body) v').
Proof using. unfold exec_all. by rewrite foldl_snoc. Qed.

Definition inside (g : goroutine) : Prop :=
  match g with Running _ _ | Loaded _ _ _ _ => True | _ => False end.

#[local] Instance inside_dec g : Decision (inside g).
Proof. destruct g; apply _. Defined.

(** What the goroutine that is inside has still to do, from the value in memory [v]; it
    has loaded that value, if it has loaded one. *)
Definition rest (g : goroutine) v : option S :=
  match g with
  | Running fs _ => exec fs v
  | Loaded f w fs _ => if f w is Some v' then exec fs v' else None
  | _ => Some v
  end.
Definition fresh_load (g : goroutine) v : Prop :=
  match g with Loaded _ w _ _ => w = v | _ => True end.

Context (ops : gmap nat section) (v0 : S).

(** Nothing has happened yet. *)
Definition begin : spin := mkSpin false false v0 (start <$> ops).

(** A goroutine carries its own section. *)
Definition own (o : section) (g : goroutine) : Prop :=
  match g with
  | Checking o' => o' = o /\ o.(checks) = true
  | Waiting o' => o' = o
  | Refused => o.(checks) = true
  | Running _ u | Loaded _ _ _ u => u = o.(unlocks)
  | _ => True
  end.

Definition entered (g : goroutine) : Prop :=
  match g with Running _ _ | Loaded _ _ _ _ | Finished | Crashed => True | _ => False end.

Lemma inside_entered g : inside g -> entered g.
Proof using. by destruct g. Qed.

(** The goroutine [t] is inside; [g] is where it is. *)
Definition holds (es : list (nat * section)) (m : spin) (t : nat) (g : goroutine) : Prop :=
  m.(gos) !! t = Some g /\ inside g /\ m.(locked) = true /\ fresh_load g m.(val) /\
  exec_all es v0 = rest g m.(val) /\
  forall t' g', m.(gos) !! t' = Some g' -> inside g' -> t' = t.

(** Nobody is; the lock is free, or was never given back. *)
Definition nobody (es : list (nat * section)) (m : spin) : Prop :=
  (forall t g, m.(gos) !! t = Some g -> ~ inside g) /\
  (exec_all es v0 = Some m.(val) \/ m.(locked) = true /\ exec_all es v0 = None).

(** Between steps: a goroutine has entered when it is past the lock; at most one is
    inside, with the lock held; and the value in memory is that of the sections so far,
    one after the other, but for what the one inside has still to do. *)
Record lock_inv (es : list (nat * section)) (m : spin) : Prop := {
  li_nodup : NoDup es.*1;
  li_entered t g : m.(gos) !! t = Some g -> t ∈ es.*1 <-> entered g;
  li_ops t o : (t, o) ∈ es -> ops !! t = Some o;
  li_own t g : m.(gos) !! t = Some g -> exists o, ops !! t = Some o /\ own o g;
  li_value : (exists t g, holds es m t g) \/ nobody es m;
}.

Lemma begin_inv : lock_inv [] begin.
Proof using.
  assert (forall t g, begin.(gos) !! t = Some g -> exists o, ops !! t = Some o /\ g = start o) as Hs.
  { intros t g. cbn. rewrite lookup_fmap_Some. intros (o & <- & Ho). by exists o. }
  split.
  - constructor.
  - intros t g (o & _ & ->)%Hs. unfold start. cbn. rewrite elem_of_nil. by destruct o.(checks).
  - intros t o Ho. by apply elem_of_nil in Ho.
  - intros t g (o & Ho & ->)%Hs. exists o. split; [done|]. unfold start. by destruct o.(checks) eqn:E.
  - right. split; [|by left]. intros t g (o & _ & ->)%Hs. unfold start. destruct o.(checks); cbn; tauto.
Qed.

(** A step of [t] that stays outside the lock. *)
Lemma outside_inv es m t g g' b :
  lock_inv es m -> m.(gos) !! t = Some g -> ~ entered g -> ~ entered g' ->
  (forall o, own o g -> own o g') ->
  lock_inv es (set_go t g' (mkSpin m.(locked) b m.(val) m.(gos))).
Proof using.
  intros [H1 H2 H3 H4 H5] Hg Hn Hn' Ho.
  assert (~ inside g') as Hi' by (by intros ?%inside_entered).
  split; [done| |done| |].
  - intros t' g''. cbn. rewrite lookup_insert. case_decide as E; [subst t'|apply H2].
    intros [= <-]. rewrite (H2 t g Hg). tauto.
  - intros t' g''. cbn. rewrite lookup_insert. case_decide as E; [subst t'|apply H4].
    intros [= <-]. destruct (H4 t g Hg) as (o & ? & ?). exists o. auto.
  - assert (forall t1 g1, <[t := g']> m.(gos) !! t1 = Some g1 -> inside g1 -> m.(gos) !! t1 = Some g1) as Hin.
    { intros t1 g1. rewrite lookup_insert. case_decide; [by intros [= <-]|done]. }
    destruct H5 as [(t1 & g1 & E1 & Hi & Hl & Hf & Hx & Hu)|[Hno Hx]].
    + left. exists t1, g1. split_and!; try done.
      * cbn. rewrite lookup_insert_ne; [done|]. intros <-. rewrite Hg in E1. injection E1 as ->.
        by apply inside_entered in Hi.
      * intros t2 g2 E2 Hi2. eapply Hu; [by apply Hin|done].
    + right. split; [|done]. intros t1 g1 E1 Hi. eapply Hno; [by apply Hin|done].
Qed.

(** A step of the goroutine inside. *)
Lemma inside_inv es m t g g' b v :
  lock_inv es m -> m.(gos) !! t = Some g -> inside g -> entered g' -> (forall o, own o g -> own o g') ->
  (m.(locked) = true -> fresh_load g m.(val) -> exec_all es v0 = rest g m.(val) ->
   (inside g' -> b = true /\ fresh_load g' v /\ rest g' v = rest g m.(val)) /\
   (~ inside g' -> rest g m.(val) = Some v \/ b = true /\ rest g m.(val) = None)) ->
  lock_inv es (set_go t g' (mkSpin b m.(closed) v m.(gos))).
Proof using.
  intros [H1 H2 H3 H4 H5] Hg Hi He Ho Hx.
  split; [done| |done| |].
  - intros t' g''. cbn. rewrite lookup_insert. case_decide as E; [subst t'|apply H2].
    intros [= <-]. rewrite (H2 t g Hg). apply inside_entered in Hi. tauto.
  - intros t' g''. cbn. rewrite lookup_insert. case_decide as E; [subst t'|apply H4].
    intros [= <-]. destruct (H4 t g Hg) as (o & ? & ?). exists o. auto.
  - destruct H5 as [(t1 & g1 & E1 & _ & Hl & Hf & Hv & Hu)|[Hno _]]; [|by destruct (Hno t g Hg)].
    assert (t = t1) as <- by by eapply Hu. rewrite Hg in E1. injection E1 as <-.
    destruct (Hx Hl Hf Hv) as [Hx1 Hx2]. rewrite <- Hv in Hx1, Hx2.
    assert (forall t2 g2, <[t := g']> m.(gos) !! t2 = Some g2 -> inside g2 -> t2 = t) as Hone.
    { intros t2 g2. rewrite lookup_insert. case_decide; [done|]. intros E2 Hi2. by eapply Hu. }
    destruct (decide (inside g')) as [Hi'|Hi'].
    + left. exists t, g'. destruct (Hx1 Hi') as (-> & ? & ?). split_and!; try done. cbn. apply lookup_insert_eq.
    + right. split; [|by apply Hx2]. intros t2 g2 E2 Hi2. pose proof (Hone t2 g2 E2 Hi2) as ->.
      cbn in E2. rewrite lookup_insert_eq in E2. by injection E2 as <-.
Qed.

(** Getting the lock. *)
Lemma enter_inv es m t o :
  lock_inv es m -> m.(gos) !! t = Some (Waiting o) -> m.(locked) = false ->
  lock_inv (es ++ [(t, o)])
    (set_go t (Running o.(body) o.(unlocks)) (mkSpin true m.(closed) m.(val) m.(gos))).
Proof using.
  intros [H1 H2 H3 H4 H5] Hg Hl. destruct (H4 t _ Hg) as (o' & Ho & E). cbn in E. subst o'.
  assert (t ∉ es.*1) as Ht by (rewrite (H2 t _ Hg); by intros []).
  destruct H5 as [(t1 & g1 & _ & _ & Hl' & _)|[Hno [Hx|[Hl' _]]]]; [congruence| |congruence].
  split.
  - rewrite fmap_app. apply NoDup_app. split_and!; [done| |apply NoDup_singleton].
    intros x Hx' ->%list_elem_of_singleton. done.
  - intros t' g'. cbn. rewrite lookup_insert, fmap_app, elem_of_app. cbn [fmap list_fmap fst].
    rewrite list_elem_of_singleton.
    case_decide as E; [subst t'; intros [= <-]; cbn; tauto|]. intros Hg'. rewrite (H2 t' g' Hg'). intuition congruence.
  - intros t' o'. rewrite elem_of_app, list_elem_of_singleton. intros [?|[= -> ->]]; auto.
  - intros t' g'. cbn. rewrite lookup_insert. case_decide as E; [subst t'|apply H4]. intros [= <-]. by exists o.
  - left. exists t, (Running o.(body) o.(unlocks)). split_and!; try done.
    + cbn. apply lookup_insert_eq.
    + rewrite exec_all_snoc, Hx. done.
    + intros t' g'. cbn. rewrite lookup_insert. case_decide; [done|]. intros E' Hi. by destruct (Hno t' g').
Qed.

Lemma saction_inv es m a m' :
  lock_inv es m -> saction_step a m = Some m' -> lock_inv (es ++ enters a m) m'.
Proof using.
  intros Hinv Hs. destruct a as [t|]; cbn in Hs.
  2: { injection Hs as <-. cbn. rewrite app_nil_r. by destruct Hinv; split. }
  unfold sstep in Hs. destruct (m.(gos) !! t) as [g|] eqn:Hg; [|done]. cbn [mbind option_bind] in Hs.
  unfold enters. rewrite Hg.
  destruct g as [o|o|[|f fs] u|f v fs u| | |]; try done; rewrite ?app_nil_r.
  - injection Hs as <-. destruct m as [b c v gs]. apply (outside_inv es (mkSpin b c v gs) t (Checking o)); try done;
      destruct c; cbn; try tauto; by intros o' [-> ?].
  - destruct m.(locked) eqn:Hl; injection Hs as <-; [by rewrite app_nil_r|by apply enter_inv].
  - injection Hs as <-. apply (inside_inv es m t (Running [] u)); try done. intros Hl _ _. split; [by intros []|]. by left.
  - injection Hs as <-. destruct m as [b c v gs]. apply (inside_inv es (mkSpin b c v gs) t (Running (f :: fs) u)); try done.
    intros Hl _ _. split; [|by intros []]. intros _. split_and!; [done..|]. cbn [rest val].
    rewrite exec_cons. by destruct (f v).
  - destruct (f v) as [v'|] eqn:Ef; injection Hs as <-; destruct m as [b c w gs];
      apply (inside_inv es (mkSpin b c w gs) t (Loaded f v fs u)); try done; intros Hl _ _; cbn; rewrite Ef.
    + split; [done|]. by intros [].
    + split; [by intros []|]. intros _. by right.
Qed.

Lemma srun_inv l es m m' es' :
  lock_inv es m -> srun l m = Some (m', es') -> lock_inv (es ++ es') m'.
Proof using.
  revert es m es'. induction l as [|a l IH]; intros es m es' Hi Hr; cbn [srun] in Hr.
  { injection Hr as <- <-. by rewrite app_nil_r. }
  destruct (saction_step a m) as [m1|] eqn:E; [|done]. cbn [mbind option_bind] in Hr.
  destruct (srun l m1) as [[m2 es2]|] eqn:E2; [|done]. injection Hr as <- <-.
  rewrite app_assoc. eapply IH; [|exact E2]. by apply saction_inv.
Qed.

(** ** It does not get stuck *)

(** Sections that come to their end and to [spinUnlock]. *)
Definition behaves (o : section) : Prop :=
  (forall v, is_Some (exec o.(body) v)) /\ forall v, o.(unlocks) v = true.

(** Nobody has panicked, and somebody is inside or the lock is free. *)
Definition lively (m : spin) : Prop :=
  (forall t, m.(gos) !! t <> Some Crashed) /\
  ((exists t g, m.(gos) !! t = Some g /\ inside g) \/ m.(locked) = false).

Lemma begin_lively : lively begin.
Proof using.
  split; [|by right]. intros t. cbn. intros (o & E & _)%lookup_fmap_Some. unfold start in E. by destruct o.(checks).
Qed.

Lemma exec_all_Some es v :
  (forall t o, (t, o) ∈ es -> behaves o) -> is_Some (exec_all es v).
Proof using.
  induction es as [|[t o] es IH] using rev_ind; intros He; [by eexists|]. rewrite exec_all_snoc.
  destruct IH as [v' ->]; [intros t' o' Hin; apply (He t' o'); by apply elem_of_app; left|].
  cbn. apply (He t o). apply elem_of_app. right. by left.
Qed.

Lemma set_go_lively t g m b v :
  (forall t', m.(gos) !! t' <> Some Crashed) -> g <> Crashed ->
  (exists t' g', <[t := g]> m.(gos) !! t' = Some g' /\ inside g') \/ b = false ->
  lively (set_go t g (mkSpin b m.(closed) v m.(gos))).
Proof using.
  intros Hc Hg Hf. split; [|done]. intros t'. cbn. rewrite lookup_insert. case_decide; [congruence|apply Hc].
Qed.

Lemma saction_lively es m a m' :
  (forall t o, ops !! t = Some o -> behaves o) -> lock_inv es m -> lively m ->
  saction_step a m = Some m' -> lively m'.
Proof using.
  intros Hb Hinv [Hc Hf] Hs. destruct a as [t|]; cbn in Hs; [|by injection Hs as <-].
  unfold sstep in Hs. destruct (m.(gos) !! t) as [g|] eqn:Hg; [|done]. cbn [mbind option_bind] in Hs.
  assert (forall g', g' <> Crashed -> (inside g -> inside g') ->
    lively (set_go t g' (mkSpin m.(locked) m.(closed) m.(val) m.(gos)))) as Hkeep.
  { intros g' Hg' Hi. apply set_go_lively; [done..|]. destruct Hf as [(t1 & g1 & E1 & Hi1)|?]; [|by right]. left.
    destruct (decide (t1 = t)) as [->|Hne].
    - exists t, g'. rewrite Hg in E1. injection E1 as <-. split; [apply lookup_insert_eq|auto].
    - exists t1, g1. split; [by rewrite lookup_insert_ne|done]. }
  destruct (li_own _ _ Hinv t g Hg) as (o0 & Ho & Hown). pose proof (Hb t o0 Ho) as [_ Hul].
  destruct g as [o|o|[|f fs] u|f v fs u| | |]; try done.
  - injection Hs as <-. destruct m as [b c v gs]. apply Hkeep; destruct c; cbn; try done; tauto.
  - destruct m.(locked) eqn:Hl; injection Hs as <-; [split; [done|by rewrite Hl]|]. apply set_go_lively; [done..|].
    left. eexists t, _. split; [apply lookup_insert_eq|done].
  - injection Hs as <-. cbn in *. subst u. rewrite Hul. apply set_go_lively; by auto.
  - injection Hs as <-. destruct m. apply Hkeep; cbn; tauto || done.
  - destruct (f v) eqn:Ef; injection Hs as <-.
    { apply set_go_lively; [done..|]. left. eexists t, _. split; [apply lookup_insert_eq|done]. }
    exfalso. destruct (li_value _ _ Hinv) as [(t1 & g1 & E1 & _ & _ & _ & Hx & Hu)|[Hno _]].
    + assert (t = t1) as <- by by eapply Hu. rewrite Hg in E1. injection E1 as <-. cbn in Hx. rewrite Ef in Hx.
      destruct (exec_all_Some es v0) as [? E]; [|congruence].
      intros t' o' Hin. eapply Hb. by apply (li_ops _ _ Hinv).
    + by apply (Hno t _ Hg).
Qed.

Lemma srun_lively l es m m' es' :
  (forall t o, ops !! t = Some o -> behaves o) -> lock_inv es m -> lively m ->
  srun l m = Some (m', es') -> lively m'.
Proof using.
  intros Hb. revert es m es'. induction l as [|a l IH]; intros es m es' Hi Hf Hr; cbn [srun] in Hr.
  { by injection Hr as <- <-. }
  destruct (saction_step a m) as [m1|] eqn:E; [|done]. cbn [mbind option_bind] in Hr.
  destruct (srun l m1) as [[m2 es2]|] eqn:E2; [|done]. injection Hr as <- <-.
  eapply IH; [by apply saction_inv| |exact E2]. by eapply saction_lively.
Qed.

Lemma srun_app l l' m m1 m2 es1 es2 :
  srun l m = Some (m1, es1) -> srun l' m1 = Some (m2, es2) -> srun (l ++ l') m = Some (m2, es1 ++ es2).
Proof using.
  revert m es1. induction l as [|a l IH]; intros m es1 Hr Hr'; cbn [srun app] in *.
  { by injection Hr as -> <-. }
  destruct (saction_step a m) as [m'|]; [|done]. cbn [mbind option_bind] in *.
  destruct (srun l m') as [[m'' es]|] eqn:E; [|done]. injection Hr as -> <-.
  rewrite (IH _ _ E Hr'). cbn. by rewrite app_assoc.
Qed.

(** No goroutine goes away. *)
Lemma srun_dom l m m' es : srun l m = Some (m', es) -> dom m'.(gos) = dom m.(gos).
Proof using.
  revert m es. induction l as [|a l IH]; intros m es Hr; cbn [srun] in Hr.
  { by injection Hr as <- <-. }
  destruct (saction_step a m) as [m1|] eqn:E; [|done]. cbn [mbind option_bind] in Hr.
  destruct (srun l m1) as [[m2 es2]|] eqn:E2; [|done]. injection Hr as <- <-. rewrite (IH _ _ E2).
  destruct a as [t|]; cbn in E; [|by injection E as <-].
  unfold sstep in E. destruct (m.(gos) !! t) as [g|] eqn:Hg; [|done]. cbn [mbind option_bind] in E.
  apply elem_of_dom_2 in Hg.
  destruct g as [o|o|[|f fs] u|f v fs u| | |]; [..|done|done|done];
    [|destruct m.(locked)| | |destruct (f v)]; injection E as <-; try done; cbn; rewrite dom_insert_L;
    by apply subseteq_union_1_L, singleton_subseteq_l.
Qed.

(** How many steps the goroutines have still to make. *)
Definition todo (g : goroutine) : nat :=
  match g with
  | Checking o => 4 + 2 * length o.(body)
  | Waiting o => 3 + 2 * length o.(body)
  | Running fs _ => 1 + 2 * length fs
  | Loaded _ _ fs _ => 2 + 2 * length fs
  | Refused | Finished | Crashed => 0
  end.

Definition total (gs : gmap nat goroutine) : nat := sum_list_with (fun e => todo e.2) (map_to_list gs).

Lemma total_delete gs t g : gs !! t = Some g -> total gs = (todo g + total (delete t gs))%nat.
Proof using.
  intros Hg. unfold total. by rewrite <- (map_to_list_delete gs t g Hg).
Qed.

Lemma total_insert gs t g g' :
  gs !! t = Some g -> (todo g' < todo g)%nat -> (total (<[t := g']> gs) < total gs)%nat.
Proof using.
  intros Hg Hlt. rewrite (total_delete _ t g') by apply lookup_insert_eq.
  rewrite (total_delete gs t g Hg), delete_insert_eq. lia.
Qed.

(** Some goroutine can go on, unless all have come to their end. *)
Lemma spin_progress es m :
  (forall t o, ops !! t = Some o -> behaves o) -> lock_inv es m -> lively m ->
  (exists t m', sstep t m = Some m' /\ (total m'.(gos) < total m.(gos))%nat) \/
  forall t g, m.(gos) !! t = Some g -> todo g = 0%nat.
Proof using.
  intros Hb Hinv [_ Hf].
  assert (forall t g g' m', m.(gos) !! t = Some g -> sstep t m = Some m' -> m'.(gos) = <[t := g']> m.(gos) ->
    (todo g' < todo g)%nat -> exists t m', sstep t m = Some m' /\ (total m'.(gos) < total m.(gos))%nat) as Hgo.
  { intros t g g' m' Hg Hs E Hlt. exists t, m'. split; [done|]. rewrite E. by eapply total_insert. }
  destruct Hf as [(t & g & Hg & Hi)|Hl].
  - left. destruct g as [| |[|f fs] u|f v fs u| | |]; try done.
    + eapply Hgo; [exact Hg|unfold sstep; rewrite Hg; reflexivity|reflexivity|cbn; lia].
    + eapply Hgo; [exact Hg|unfold sstep; rewrite Hg; reflexivity|reflexivity|cbn; lia].
    + destruct (f v) eqn:Ef; (eapply Hgo; [exact Hg|unfold sstep; rewrite Hg; cbn; rewrite Ef; reflexivity|reflexivity|cbn; lia]).
  - destruct (decide (map_Forall (fun _ g => todo g = 0%nat) m.(gos))) as [Hall|Hn].
    { right. intros t g Hg. by apply (Hall t g). }
    left. apply map_not_Forall in Hn as (t & g & Hg & Hn); [|intros; apply _].
    destruct g as [o|o|[|f fs] u|f v fs u| | |]; try done.
    + eapply Hgo; [exact Hg|unfold sstep; rewrite Hg; reflexivity|reflexivity|destruct m.(closed); cbn; lia].
    + eapply Hgo; [exact Hg|unfold sstep; rewrite Hg; cbn; rewrite Hl; reflexivity|reflexivity|cbn; lia].
    + eapply Hgo; [exact Hg|unfold sstep; rewrite Hg; reflexivity|reflexivity|cbn; lia].
    + eapply Hgo; [exact Hg|unfold sstep; rewrite Hg; reflexivity|reflexivity|cbn; lia].
    + destruct (f v) eqn:Ef; (eapply Hgo; [exact Hg|unfold sstep; rewrite Hg; cbn; rewrite Ef; reflexivity|reflexivity|cbn; lia]).
Qed.

(** Whatever has run, there is a way for everybody to come to the end. *)
Lemma spin_finishes es m :
  (forall t o, ops !! t = Some o -> behaves o) -> lock_inv es m -> lively m ->
  exists l m' es', srun l m = Some (m', es') /\ forall t g, m'.(gos) !! t = Some g -> todo g = 0%nat.
Proof using.
  intros Hb. remember (total m.(gos)) as n eqn:En. revert es m En.
  induction (lt_wf n) as [n _ IH]. intros es m -> Hinv Hf.
  destruct (spin_progress es m Hb Hinv Hf) as [(t & m1 & Hs & Hlt)|Hall].
  - destruct (IH _ Hlt (es ++ enters (Step t) m) m1 eq_refl) as (l & m' & es' & Hr & Hend).
    + by apply saction_inv.
    + by eapply (saction_lively es m (Step t)).
    + exists (Step t :: l), m', (enters (Step t) m ++ es'). split; [|done]. cbn. by rewrite Hs; cbn; rewrite Hr.
  - by exists [], m, [].
Qed.
End spin.

Arguments section : clear implicits.
Arguments goroutine : clear implicits.
Arguments spin : clear implicits.

(** ** The sections of the program *)

Section conn.
Context `{Env}.

(** What the lock is for: the connection, and the bytes of it that the kernel took. *)
Record guarded := mkGuarded { gconn : Conn; gsent : bytes }.

Definition out_of (g : guarded) : bytes := g.(gconn).(outb).

Definition on_out (f : bytes -> bytes) (g : guarded) : option guarded :=
  Some (mkGuarded (set_out (f (out_of g)) g.(gconn)) g.(gsent)).

(** The methods that take the lock.  [w] of [writeConn] is what the kernel, or TLS,
    answers to so many bytes. *)
Inductive conn_op :=
| OpWrite (p : bytes)
| OpWriteString (v : bytes)
| OpWriteInt (v b : Z)
| OpWriteError (err : bytes)
| OpWriteSimpleString (p : bytes)
| OpWriteBulkString (p : bytes)
| OpWriteArrayBegin (n : Z)
| OpTruncateInputBuffer (sz : Z)
| OpReuseInputBuffer (p : bytes)
| OpWriteConn (w : Z -> wresult)
| OpReadConn (d : bytes).

(** [c.out = append(c.out, p...)] *)
Definition append_stmt (p : bytes) : guarded -> option guarded := on_out (fun out => out ++ p).

(** [c.out = strconv.AppendInt(c.out, v, b)] *)
Definition append_int (v b : Z) : guarded -> option guarded := on_out (fun out => strconv.AppendInt out v b).

Definition truncate_stmt (sz : Z) (g : guarded) : option guarded :=
  b ← slice_from g.(gconn).(inb) sz; Some (mkGuarded (set_in b g.(gconn)) g.(gsent)).

Definition reuse_stmt (p : bytes) (g : guarded) : option guarded :=
  b ← slice p 0 0;
  Some (mkGuarded (if len g.(gconn).(inb) =? 0 then set_in b g.(gconn) else g.(gconn)) g.(gsent)).

(** [writeConn]: the call and what it leaves. *)
Definition write_stmt (w : Z -> wresult) (g : guarded) : option guarded :=
  let out := out_of g in
  let took n := b ← slice_to out n; rest ← slice_from out n;
                Some (mkGuarded (set_out rest g.(gconn)) (g.(gsent) ++ b)) in
  if len out =? 0 then Some g
  else match w (len out) with
       | WAgain n => if 0 <? n then took n else Some g
       | WErr _ => Some g
       | WN n => if n =? len out
                 then Some (mkGuarded (set_out [] g.(gconn)) (g.(gsent) ++ out))
                 else took n
       end.

(** [readConn]: the bytes just read go to the input, which is then parsed. *)
Definition input_stmt (d : bytes) (g : guarded) : option guarded :=
  Some (mkGuarded (set_in (g.(gconn).(inb) ++ d) g.(gconn)) g.(gsent)).

Definition fits (g : guarded) : bool := negb (RequestMaxBytes <? len g.(gconn).(inb)).

Definition parse_stmt (g : guarded) : option guarded :=
  let c := g.(gconn) in
  if negb (fits g) then Some g
  else
    let '(inp, c', r) :=
      match c.(ws) with
      | Some w =>
          if w.(Ws.closed) then (c.(inb), c, Err errWaitMore)
          else
            match ws_parse c.(inb) with
            | (inp, Ok f) =>
                (inp, set_ws (Some (mkWebsocket f w.(contFrame) w.(Ws.closed) w.(closingData))) c, Ok tt)
            | (inp, Err e) => (inp, c, Err e)
            | (inp, Panic) => (inp, c, Panic)
            | (inp, OutOfFuel) => (inp, c, OutOfFuel)
            end
      | None => let '(inp, s', r) := process c.(inb) c.(srs) in (inp, set_srs s' c, r)
      end in
    match r with
    | Panic | OutOfFuel => None
    | _ => Some (mkGuarded (set_in inp c') g.(gsent))
    end.

(** The sections, a statement of the code each.  Only [Write] looks at [closed]; and
    only [readConn] can leave without [spinUnlock], when the input is too large. *)
Definition section_of (o : conn_op) : section guarded :=
  match o with
  | OpWrite p => mkSection true [append_stmt p] (fun _ => true)
  | OpWriteString v => mkSection false [append_stmt v] (fun _ => true)
  | OpWriteInt v b => mkSection false [append_int v b] (fun _ => true)
  | OpWriteError err => mkSection false [append_stmt [45]; append_stmt err; append_stmt crlf] (fun _ => true)
  | OpWriteSimpleString p => mkSection false [append_stmt [43]; append_stmt p; append_stmt crlf] (fun _ => true)
  | OpWriteBulkString p =>
      mkSection false
        [append_stmt [36]; append_int (len p) 10; append_stmt crlf; append_stmt p; append_stmt crlf]
        (fun _ => true)
  | OpWriteArrayBegin n =>
      mkSection false [append_stmt [42]; append_int n 10; append_stmt crlf] (fun _ => true)
  | OpTruncateInputBuffer sz => mkSection false [truncate_stmt sz] (fun _ => true)
  | OpReuseInputBuffer p => mkSection false [reuse_stmt p] (fun _ => true)
  | OpWriteConn w => mkSection false [write_stmt w] (fun _ => true)
  | OpReadConn d => mkSection false [input_stmt d; parse_stmt] fits
  end.

(** What an operation is to add to the output. *)
Definition adds (o : conn_op) : bytes :=
  match o with
  | OpWrite p | OpWriteString p => p
  | OpWriteInt v b => strconv.AppendInt [] v b
  | OpWriteError err => WriteError [] err
  | OpWriteSimpleString p => WriteSimpleString [] p
  | OpWriteBulkString p => WriteBulkString [] p
  | OpWriteArrayBegin n => WriteArrayBegin [] n
  | _ => []
  end.

(** ** What each section does *)

Definition stream (g : guarded) : bytes := g.(gsent) ++ out_of g.

Lemma section_adds o g g' :
  exec (section_of o).(body) g = Some g' -> stream g' = stream g ++ adds o.
Proof.
  destruct g as [c snt]. unfold stream.
  destruct o as [p|v|v b|err|p|p|n|sz|p|w|d]; cbn [section_of body]; first [rewrite exec_one|unfold exec; cbn [foldl]; cbn [mbind option_bind]];
    unfold append_stmt, append_int, on_out, out_of; cbn [mbind option_bind gconn gsent outb set_out adds];
    unfold strconv.AppendInt, WriteError, WriteSimpleString, WriteBulkString, WriteArrayBegin, strconv.AppendInt.
  1-7: intros [= <-]; cbn; by rewrite <- ?app_assoc.
  all: rewrite app_nil_r.
  - unfold truncate_stmt. cbn. destruct (slice_from _ _); [|done]. by intros [= <-].
  - unfold reuse_stmt. cbn. destruct (slice _ _ _); [|done]. intros [= <-]. cbn. by destruct (_ =? _).
  - unfold write_stmt, out_of. cbn.
    assert (forall n r, (b ← slice_to c.(outb) n; rest ← slice_from c.(outb) n;
                         Some (mkGuarded (set_out rest c) (snt ++ b))) = Some r ->
                        r.(gsent) ++ r.(gconn).(outb) = snt ++ c.(outb)) as Htook.
    { intros n r. destruct (slice_to _ _) eqn:E1; [|done]. cbn. destruct (slice_from _ _) eqn:E2; [|done].
      intros [= <-]. apply slice_to_Some in E1 as [_ ->]. apply slice_from_Some in E2 as [_ ->].
      cbn. by rewrite <- app_assoc, take_drop. }
    destruct (_ =? 0); [by intros [= <-]|]. destruct (w _) as [n|n|typ].
    + destruct (n =? _); [|by apply Htook]. intros [= <-]. cbn. by rewrite app_nil_r.
    + destruct (0 <? n); [by apply Htook|]. by intros [= <-].
    + by intros [= <-].
  - unfold input_stmt, parse_stmt. cbn [mbind option_bind gconn gsent]. destruct (negb _); [by intros [= <-]|].
    cbn [ws set_in]. destruct c.(ws) as [k|].
    + destruct k.(Ws.closed); [by intros [= <-]|].
      destruct (ws_parse _) as [inp [f|e| |]]; try done; by intros [= <-].
    + destruct (process _ _) as [[inp s'] [u|e| |]]; try done; by intros [= <-].
Qed.

(** The methods that cannot panic in between: the writers, and [writeConn] when the
    kernel takes no more than it was given. *)
Definition harmless (o : conn_op) : Prop :=
  match o with
  | OpTruncateInputBuffer _ | OpReadConn _ => False
  | OpWriteConn w =>
      forall k, 0 < k -> match w k with WN n | WAgain n => 0 <= n <= k | WErr _ => True end
  | _ => True
  end.

Lemma harmless_behaves o : harmless o -> behaves (section_of o).
Proof.
  intros Ho. split; [|by destruct o]. intros [c snt].
  destruct o as [p|v|v b|err|p|p|n|sz|p|w|d]; try done; cbn [section_of body];
    first [rewrite exec_one|unfold exec; cbn [foldl]; cbn [mbind option_bind]]; try by eexists.
  - unfold reuse_stmt, slice. rewrite bool_decide_true; [by eexists|]. pose proof (len_nonneg p). lia.
  - unfold write_stmt, out_of. cbn [gconn gsent].
    assert (forall n, 0 <= n <= len c.(outb) ->
      is_Some (b ← slice_to c.(outb) n; rest ← slice_from c.(outb) n;
               Some (mkGuarded (set_out rest c) (snt ++ b)))) as Htook.
    { intros n Hn. rewrite (proj2 (slice_to_Some _ n _) (conj Hn eq_refl)). cbn.
      rewrite (proj2 (slice_from_Some _ n _) (conj Hn eq_refl)). by eexists. }
    destruct (Z.eqb_spec (len c.(outb)) 0) as [|Hne]; [by eexists|]. pose proof (len_nonneg c.(outb)).
    specialize (Ho (len c.(outb)) ltac:(lia)). destruct (w _) as [n|n|typ]; [| |by eexists].
    + destruct (n =? _); [by eexists|auto].
    + destruct (0 <? n); [auto|by eexists].
Qed.

(** The goroutines [ops] at a connection that nobody uses yet. *)
Definition goroutines (ops : gmap nat conn_op) (g0 : guarded) : spin guarded :=
  begin (section_of <$> ops) g0.

Definition adds_of (ops : gmap nat conn_op) (t : nat) : bytes := default [] (adds <$> ops !! t).

Lemma exec_all_adds ops es g g' :
  (forall t o, (t, o) ∈ es -> (section_of <$> ops) !! t = Some o) ->
  exec_all es g = Some g' -> stream g' = stream g ++ concat (adds_of ops <$> es.*1).
Proof.
  revert g'. induction es as [|[t o] es IH] using rev_ind; intros g' Hin He.
  { injection He as <-. by rewrite app_nil_r. }
  rewrite exec_all_snoc in He. destruct (exec_all es g) as [g1|]; [|done]. cbn in He.
  assert ((section_of <$> ops) !! t = Some o) as Ho by (apply Hin; apply elem_of_app; right; by left).
  apply lookup_fmap_Some in Ho as (k & <- & Hk).
  rewrite (section_adds _ _ _ He), (IH g1); [|intros; apply Hin; by apply elem_of_app; left|done].
  rewrite !fmap_app, concat_app. cbn. unfold adds_of at 3. rewrite Hk. cbn. by rewrite <- !app_assoc, app_nil_r.
Qed.

(** ** Properties *)

(** C2: whatever the schedule, never do two goroutines hold the lock of a connection; a
    goroutine gets it once at most, and has got it when it is done; and when the lock is
    free, what was sent followed by what is to be sent has got longer by what each of them
    is to write, one after the other in the order in which they got the lock: replies are
    not lost, torn or mixed, and none is sent twice. *)
Theorem writers_serialize (ops : gmap nat conn_op) g0 l m es :
  srun l (goroutines ops g0) = Some (m, es) ->
  let order := es.*1 in
  NoDup order /\
  (forall t t' g g', m.(gos) !! t = Some g -> m.(gos) !! t' = Some g' -> inside g -> inside g' -> t = t') /\
  (forall t, m.(gos) !! t = Some Finished -> t ∈ order) /\
  (forall t, t ∈ order -> is_Some (ops !! t)) /\
  (m.(locked) = false -> stream m.(val) = stream g0 ++ concat (adds_of ops <$> order)).
Proof.
  intros Hr. pose proof (srun_inv _ _ _ _ _ _ _ (begin_inv _ _) Hr) as Hi. cbn [app] in Hi. split_and!.
  - apply Hi.
  - intros t t' g g' Hg Hg' H1 H2. destruct (li_value _ _ _ _ Hi) as [(t1 & g1 & _ & _ & _ & _ & _ & Hu)|[Hno _]].
    + rewrite (Hu _ _ Hg H1). symmetry. by eapply Hu.
    + by destruct (Hno _ _ Hg).
  - intros t Ht. by apply (li_entered _ _ _ _ Hi t _ Ht).
  - intros t ([t' o] & -> & He)%list_elem_of_fmap. apply (li_ops _ _ _ _ Hi) in He.
    apply lookup_fmap_Some in He as (k & _ & Hk). by eexists.
  - intros Hl. apply (exec_all_adds ops es); [apply Hi|].
    destruct (li_value _ _ _ _ Hi) as [(t1 & g1 & _ & _ & Hl' & _)|[_ [?|[Hl' _]]]]; congruence.
Qed.

(** C21: writers and [writeConn] do not get in each other's way for good: after any
    schedule there is one that brings every goroutine to its end, done or refused since
    the connection is closed, and leaves the lock free. *)
Theorem writers_finish (ops : gmap nat conn_op) g0 l m es :
  (forall t o, ops !! t = Some o -> harmless o) -> srun l (goroutines ops g0) = Some (m, es) ->
  exists l' m' es', srun l' m = Some (m', es') /\ m'.(locked) = false /\
    forall t o, ops !! t = Some o ->
      m'.(gos) !! t = Some Finished \/ m'.(gos) !! t = Some Refused /\ checks (section_of o) = true.
Proof.
  intros Hh Hr.
  assert (forall t o, (section_of <$> ops) !! t = Some o -> behaves o) as Hb.
  { intros t o (k & <- & Hk)%lookup_fmap_Some. apply harmless_behaves. by eapply Hh. }
  pose proof (srun_inv _ _ _ _ _ _ _ (begin_inv _ _) Hr) as Hi. cbn [app] in Hi.
  pose proof (srun_lively _ _ _ _ _ _ _ Hb (begin_inv _ _) (begin_lively _ _) Hr) as Hf.
  destruct (spin_finishes _ _ _ _ Hb Hi Hf) as (l' & m' & es' & Hr' & Hend).
  pose proof (srun_inv _ _ _ _ _ _ _ Hi Hr') as Hi'.
  destruct (srun_lively _ _ _ _ _ _ _ Hb Hi Hf Hr') as [Hc Hl].
  exists l', m', es'. split_and!; [done| |].
  - destruct Hl as [(t & g & Hg & Hin)|]; [|done]. pose proof (Hend t g Hg). destruct g; cbn in *; lia.
  - intros t o Ho. assert (t ∈ dom m'.(gos)) as [g Hg]%elem_of_dom.
    { rewrite (srun_dom _ _ _ _ Hr'), (srun_dom _ _ _ _ Hr). cbn. rewrite !dom_fmap_L. by apply elem_of_dom. }
    rewrite Hg. pose proof (Hend t g Hg) as Ht. destruct (li_own _ _ _ _ Hi' t g Hg) as (o' & Ho' & Hown).
    rewrite lookup_fmap, Ho in Ho'. injection Ho' as <-.
    destruct g; cbn in Ht; try lia; [by right|by left|by destruct (Hc t)].
Qed.
End conn.

(** ** Concrete runs *)

(** A reply of two statements, an asynchronous [Write] and the poller, which sends a byte;
    the latter two find the lock taken at first. *)
Definition ex_ops : gmap nat conn_op :=
  {[0%nat := OpWriteArrayBegin 7; 1%nat := OpWrite (bs "bc"); 2%nat := OpWriteConn (fun _ => WN 1)]}.
Definition ex_conn : guarded := mkGuarded (newConn 5) [].
Definition ex_schedule : list saction :=
  Step <$> [1; 0; 0; 1; 2; 0; 0; 1; 0; 0; 2; 0; 0; 2; 1; 2; 2; 2; 1; 1; 1; 1]%nat.

Lemma writers_serialize_witness :
  exists m es, srun ex_schedule (@goroutines default_env ex_ops ex_conn) = Some (m, es) /\
    es.*1 = [0; 2; 1]%nat /\ m.(val).(gsent) = bs "*" /\ out_of m.(val) = [55; CR; LF; 98; 99] /\
    (m.(locked) = false -> stream m.(val) = concat (adds_of ex_ops <$> es.*1)).
Proof.
  eexists _, _. split; [vm_compute; reflexivity|]. split_and!; [vm_compute; reflexivity..|].
  apply (@writers_serialize default_env ex_ops ex_conn ex_schedule). vm_compute. reflexivity.
Defined.

(** The connection is closed before [Write] looks. *)
Lemma writers_finish_witness :
  exists l' m' es',
    srun (CloseIt :: (Step <$> [1; 0; 0; 2]%nat) ++ l') (@goroutines default_env ex_ops ex_conn) = Some (m', es') /\
    m'.(locked) = false.
Proof.
  assert (exists m es, srun (CloseIt :: (Step <$> [1; 0; 0; 2]%nat)) (@goroutines default_env ex_ops ex_conn) = Some (m, es)) as (m & es & Hr).
  { eexists _, _. vm_compute. reflexivity. }
  destruct (@writers_finish default_env ex_ops ex_conn (CloseIt :: (Step <$> [1; 0; 0; 2]%nat)) m es) with (2 := Hr) as (l' & m' & es' & Hr' & Hl & _).
  - intros t o. unfold ex_ops. rewrite !lookup_insert_Some, lookup_singleton_Some.
    intros [[_ <-]|[_ [[_ <-]|[_ [_ <-]]]]]; cbn; try done. intros k Hk. lia.
  - exists l', m', (es ++ es'). split; [|done]. exact (srun_app (CloseIt :: (Step <$> [1; 0; 0; 2]%nat)) _ _ _ _ _ _ Hr Hr').
Defined.
