(* ===== verification/ServerHttp.v ===== *)
(** HTTP requests and websockets in the event loop (src/server.go, [readConn]):
    what reaches the handlers and what becomes of the connection. *)

From stdpp Require Import gmap.
From S2P Require Import Prelude GoStd Escape Util Redis Ws Http HttpSpec State StateSpec Server.
From S2P Require Import ServerInv ServerSpec.

Section http.
Context `{Env} {U : Type} (hd : @Handlers U).
Local Abbreviation Listener := (@Listener U).
Implicit Types (s : Listener) (u : U).

(** ** Requests *)

(** A read that completes a request. *)
Lemma readConn_http id d w s c inp st' req :
  s.(conns) !! id = Some c -> idle c -> len (c.(inb) ++ d) <= RequestMaxBytes ->
  process (c.(inb) ++ d) c.(srs) = (inp, st', Ok tt) ->
  st'.(http) = Some req -> 0 <= req.(bodyLen) + req.(hdrLen) <= len inp ->
  let '(u, b, upgrade, more) := hd.(OnHTTP) req s.(user) in
  exists t,
    replaced id (set_srs (if more : bool then newState else st')
                   (set_out (c.(outb) ++ b) (set_ws (if upgrade : bool then Some newWebsocket else None)
                      (set_in (drop (Z.to_nat (req.(bodyLen) + req.(hdrLen))) inp) c))))
      [EvHTTP id req] u s t /\
    readConn hd id (RData d) w s =
      if more : bool then
        if len (c.(outb) ++ b) =? 0 then Ok t else writeConn hd id w t
      else closeConnWithError hd id [] false t.
Proof using.
  intros Hid Hi Hmax Hp Hreq Hlen.
  destruct (readConn_process hd _ _ w _ _ _ _ _ Hid Hi Hmax Hp) as (t & Hr & ->).
  rewrite Hreq. destruct Hi as (Hop & Hl & Hws).
  destruct (truncate_replaced _ _ _ _ _ _ (req.(bodyLen) + req.(hdrLen)) Hr) as (t1 & -> & Hr1);
    [done|done|].
  cbn [rbind]. apply (replaced_emit _ _ _ _ _ _ (EvHTTP id req)) in Hr1.
  assert ((emit (EvHTTP id req) t1).(user) = s.(user)) as -> by apply Hr1.
  destruct (hd.(OnHTTP) req s.(user)) as [[[u b] upgrade] more].
  apply (replaced_user _ _ _ _ _ _ u) in Hr1.
  match goal with |- context [append_out id b ?t3] => set (t2 := t3) end.
  assert (replaced id (set_srs st' (set_ws (if upgrade then Some newWebsocket else None)
            (set_in (drop (Z.to_nat (req.(bodyLen) + req.(hdrLen))) inp) c))) [EvHTTP id req] u s t2) as Hr2.
  { unfold t2. destruct upgrade.
    - apply (replaced_update _ _ _ _ _ _ (set_ws (Some newWebsocket))) in Hr1. exact Hr1.
    - replace (set_ws None _) with (set_in (drop (Z.to_nat (req.(bodyLen) + req.(hdrLen))) inp) c);
        [exact Hr1|]. destruct c; cbn in *; by subst. }
  destruct (append_out_replaced _ _ _ _ _ _ b Hr2) as (t3 & -> & Hr3); [done|]. cbn [rbind].
  destruct more; cbn [negb].
  - apply (replaced_update _ _ _ _ _ _ (set_srs newState)) in Hr3.
    rewrite (replaced_conn_at _ _ _ _ _ _ Hr3). cbn [rbind set_srs set_out set_in set_ws outb].
    eexists. split; [exact Hr3|by destruct (_ =? _)].
  - eexists. split; [exact Hr3|done].
Qed.

(** C16: A request that arrives in any number of reads, cut anywhere: the handler is
    not called before the last of them, and then once, with the request that was
    sent: its decoded path, its method, its headers and its body; what it writes
    is appended to the output, the connection waits for the next request, or
    becomes a websocket if the handler upgraded it, and the answer begins to be
    written. *)
Theorem reads_request id ds d w s c method target ver hs out body :
  let rq := request method target ver hs in
  s.(conns) !! id = Some c -> idle c -> c.(srs) = newState -> c.(inb) = [] ->
  request_ok method target ver hs -> prefixb [42] method = false ->
  decode false (target_path target) = Some (47 :: out) -> (CR ∉ out) ->
  default 0 ((fun v => (strconv.Atoi v).1) <$> last_value (bs "content-length") hs) = len body ->
  concat ds ++ d = rq ++ body -> d <> [] -> len (rq ++ body) <= RequestMaxBytes -> max_ok ->
  exists req, asks_for method (47 :: out) hs body req /\
    let '(u, b, upgrade, more) := hd.(OnHTTP) req s.(user) in
    more = true ->
    exists t,
      replaced id (set_out (c.(outb) ++ b) (set_ws (if upgrade : bool then Some newWebsocket else None) c))
        [EvHTTP id req] u s t /\
      reads hd id (ds ++ [d]) w s = if len (c.(outb) ++ b) =? 0 then Ok t else writeConn hd id w t.
Proof using.
  intros rq Hid Hi Hs Hb Hok Hm Hout HC Hcl Hd Hne Hl Hmax.
  assert (len (rq ++ body) < 2 ^ 32) as Hl32 by (unfold max_ok in Hmax; lia).
  destruct (process_asks_for method target ver hs out body [] Hok Hm Hout HC Hcl Hl32)
    as (inp' & req & Hp & _ & Hlen' & Hsz & Hask).
  fold rq in Hp, Hlen', Hsz. rewrite !app_nil_r in Hp. exists req. split; [done|].
  destruct (reads_whole hd id ds d w s c _ _ _ Hid Hi Hs Hb Hd Hne Hl Hmax Hp)
    as (t1 & inp & st & -> & Ht1 & Hi1 & Hl1 & Hp1).
  { intros p q Hpq Hq. eapply request_not_wait_prefix; try done. by apply decoded_unesc. }
  assert (t1.(user) = s.(user)) as Hu by apply Ht1.
  pose proof (readConn_http id d w t1 _ _ _ req (replaced_lookup _ _ _ _ _ _ Ht1) Hi1 Hl1 Hp1 eq_refl) as Hr.
  rewrite Hu in Hr. specialize (Hr ltac:(pose proof (len_nonneg inp'); lia)).
  destruct (hd.(OnHTTP) req s.(user)) as [[[u b] upgrade] more].
  intros ->. destruct Hr as (t & Hr & Hc). exists t. split; [|exact Hc].
  pose proof (replaced_trans _ _ _ _ _ _ _ _ _ _ Ht1 Hr) as Hrt. cbn [app] in Hrt.
  rewrite drop_ge in Hrt by (unfold len in *; lia).
  match type of Hrt with replaced _ ?c2 _ _ _ _ => 
    replace (set_out (c.(outb) ++ b) (set_ws (if upgrade then Some newWebsocket else None) c)) with c2 end;
    [exact Hrt|]. destruct c; cbn in *; by subst.
Qed.
(** ** Websockets *)

(** What the events of [onWebsocket] come to when they close nothing: the state
    of the program, the output and the log. *)
Fixpoint ws_outcome (id fd : Z) (evs : list ws_event) (u : U) : option (U * bytes * list event) :=
  match evs with
  | [] => Some (u, [], [])
  | OnWSData p :: evs =>
      h ← hd.(OnWSData');
      let '(u, bs, closes) := h p u in
      if closes : bool then None
      else
        '(u, out, l) ← ws_outcome id fd evs u;
        Some (u, concat bs ++ out, EvWSData id p :: replicate (length bs) (EvTrigger fd) ++ l)
  | WriteFrame b :: evs =>
      '(u, out, l) ← ws_outcome id fd evs u; Some (u, b ++ out, EvTrigger fd :: l)
  | CloseConn _ _ :: _ => None
  end.

Lemma conn_Write_replaced id c evs u s s' p :
  replaced id c evs u s s' -> c.(lock) = false -> c.(closedFlag) = false ->
  exists s2, conn_Write id p s' = Ok (s2, true) /\ replaced id (set_out (c.(outb) ++ p) c) evs u s s2.
Proof using.
  intros Hr Hl Hop. unfold conn_Write. rewrite (replaced_conn_at _ _ _ _ _ _ Hr). cbn [rbind].
  rewrite Hop. destruct (append_out_replaced _ _ _ _ _ _ p Hr Hl) as (s2 & -> & Hr2). cbn [rbind]. eauto.
Qed.

Lemma conn_Flush_replaced id c evs u s s' :
  replaced id c evs u s s' -> c.(closedFlag) = false ->
  exists s2, conn_Flush id s' = Ok s2 /\ replaced id c (evs ++ [EvTrigger c.(fd)]) u s s2.
Proof using.
  intros Hr Hop. unfold conn_Flush. rewrite (replaced_conn_at _ _ _ _ _ _ Hr). cbn [rbind].
  rewrite Hop. eexists. split; [done|]. by apply replaced_emit.
Qed.

Lemma async_write_replaced id c evs u s s' p :
  replaced id c evs u s s' -> c.(lock) = false -> c.(closedFlag) = false ->
  exists s2, async_write id p s' = Ok s2 /\
    replaced id (set_out (c.(outb) ++ p) c) (evs ++ [EvTrigger c.(fd)]) u s s2.
Proof using.
  intros Hr Hl Hop. unfold async_write.
  destruct (conn_Write_replaced _ _ _ _ _ _ p Hr Hl Hop) as (s2 & -> & Hr2). cbn [rbind].
  exact (conn_Flush_replaced _ _ _ _ _ _ Hr2 Hop).
Qed.

Lemma ws_writes_replaced id bs c evs u s s' :
  replaced id c evs u s s' -> c.(lock) = false -> c.(closedFlag) = false ->
  exists s2, ws_writes id bs s' = Ok s2 /\
    replaced id (set_out (c.(outb) ++ concat bs) c) (evs ++ replicate (length bs) (EvTrigger c.(fd))) u s s2.
Proof using.
  revert c evs s'. induction bs as [|b bs IH]; intros c evs s' Hr Hl Hop; cbn [ws_writes].
  { exists s'. split; [done|]. cbn. rewrite !app_nil_r. by replace (set_out c.(outb) c) with c by by destruct c. }
  destruct (async_write_replaced _ _ _ _ _ _ b Hr Hl Hop) as (s2 & -> & Hr2). cbn [rbind].
  destruct (IH _ _ _ Hr2 Hl Hop) as (s3 & -> & Hr3). exists s3. split; [done|].
  cbn [set_out outb fd concat length replicate] in *. rewrite <- !app_assoc in Hr3. exact Hr3.
Qed.

Lemma ws_effects_replaced id evs c lg u u' out l s s' :
  replaced id c lg u s s' -> c.(lock) = false -> c.(closedFlag) = false ->
  ws_outcome id c.(fd) evs u = Some (u', out, l) ->
  exists s2, ws_effects hd id evs s' = Ok s2 /\
    replaced id (set_out (c.(outb) ++ out) c) (lg ++ l) u' s s2.
Proof using.
  revert c lg u out l s'. induction evs as [|[p|b|typ e] evs IH]; intros c lg u out l s' Hr Hl Hop Ho;
    cbn [ws_outcome ws_effects] in *.
  - injection Ho as <- <- <-. exists s'. split; [done|]. rewrite !app_nil_r.
    by replace (set_out c.(outb) c) with c by by destruct c.
  - destruct hd.(OnWSData') as [h|]; [|done]. cbn [checked_in rbind mbind option_bind] in *.
    apply (replaced_emit _ _ _ _ _ _ (EvWSData id p)) in Hr.
    assert ((emit (EvWSData id p) s').(user) = u) as -> by apply Hr.
    destruct (h p u) as [[u1 bs] closes]. destruct closes; [done|].
    destruct (ws_outcome id c.(fd) evs u1) as [[[u2 out2] l2]|] eqn:E; [|done]. injection Ho as <- <- <-.
    apply (replaced_user _ _ _ _ _ _ u1) in Hr.
    destruct (ws_writes_replaced _ bs _ _ _ _ _ Hr Hl Hop) as (s3 & -> & Hr3). cbn [rbind].
    destruct (IH _ _ _ _ _ _ Hr3 Hl Hop E) as (s4 & -> & Hr4). exists s4. split; [done|].
    cbn [set_out outb fd] in Hr4. rewrite <- !app_assoc in Hr4. exact Hr4.
  - destruct (ws_outcome id c.(fd) evs u) as [[[u2 out2] l2]|] eqn:E; [|done]. injection Ho as <- <- <-.
    destruct (async_write_replaced _ _ _ _ _ _ b Hr Hl Hop) as (s3 & -> & Hr3). cbn [rbind].
    destruct (IH _ _ _ _ _ _ Hr3 Hl Hop E) as (s4 & -> & Hr4). exists s4. split; [done|].
    cbn [set_out outb fd] in Hr4. rewrite <- !app_assoc in Hr4. exact Hr4.
  - done.
Qed.

Lemma ws_outcome_app id fd evs1 evs2 u u2 out l :
  ws_outcome id fd (evs1 ++ evs2) u = Some (u2, out, l) ->
  exists u1 o1 l1 o2 l2, ws_outcome id fd evs1 u = Some (u1, o1, l1) /\
    ws_outcome id fd evs2 u1 = Some (u2, o2, l2) /\ out = o1 ++ o2 /\ l = l1 ++ l2.
Proof using.
  revert u out l. induction evs1 as [|[p|b|typ e] evs1 IH]; intros u out l Ho; cbn [ws_outcome app] in *.
  - eexists u, [], [], out, l. done.
  - destruct hd.(OnWSData') as [h|]; [|done]. cbn [mbind option_bind] in *.
    destruct (h p u) as [[u1 bs] closes]. destruct closes; [done|].
    destruct (ws_outcome id fd (evs1 ++ evs2) u1) as [[[u3 o3] l3]|] eqn:E; [|done].
    injection Ho as -> <- <-. destruct (IH _ _ _ E) as (v & o1 & l1 & o2 & l2 & E1 & E2 & -> & ->).
    rewrite E1. eexists v, _, _, o2, l2. split; [reflexivity|]. split; [done|]. cbn [app]. by rewrite <- !app_assoc.
  - destruct (ws_outcome id fd (evs1 ++ evs2) u) as [[[u3 o3] l3]|] eqn:E; [|done].
    injection Ho as -> <- <-. destruct (IH _ _ _ E) as (v & o1 & l1 & o2 & l2 & E1 & E2 & -> & ->).
    rewrite E1. eexists v, _, _, o2, l2. split; [reflexivity|]. split; [done|]. by rewrite app_assoc.
  - done.
Qed.
(** A client's frame on the wire. *)
Record wire_frame := mkWireFrame { wfin : bool; wrsv : Z; wop : Z; wkey : bytes; wpayload : bytes }.
Definition wframe_ok (f : wire_frame) : Prop :=
  0 <= f.(wrsv) < 8 /\ 0 <= f.(wop) < 16 /\ length f.(wkey) = 4%nat /\ len f.(wpayload) < 2 ^ 62.
Definition wframe_bytes (f : wire_frame) : bytes :=
  client_frame f.(wfin) f.(wrsv) f.(wop) f.(wkey) f.(wpayload).
Definition wframe (f : wire_frame) : wsFrame :=
  mkFrame f.(wpayload) f.(wop) f.(wfin) (len (wframe_bytes f)).

(** The beginning of a frame: what is left of a read. *)
Definition frame_part (p : bytes) : Prop :=
  p = [] \/ exists f q, wframe_ok f /\ wframe_bytes f = p ++ q /\ q <> [].

Lemma frame_part_waits p : frame_part p -> ws_parse p = (p, Err errWaitMore).
Proof using.
  intros [->|(f & q & (Hr & Ho & Hk & Hp) & E & Hq)]; [done|]. by eapply ws_parse_strict.
Qed.

Lemma wframe_bytes_pos f : (0 < length (wframe_bytes f))%nat.
Proof using. unfold wframe_bytes, client_frame, client_header. cbn. lia. Qed.

(** The parsed frame makes no difference to what is done with a frame. *)
Definition set_parsed (f : wsFrame) (w : Websocket) : Websocket :=
  mkWebsocket f w.(contFrame) w.(Ws.closed) w.(closingData).

Lemma onWebsocket_parsed f g w w' evs more :
  onWebsocket f w = (w', evs, more) -> onWebsocket f (set_parsed g w) = (set_parsed g w', evs, more).
Proof using.
  unfold onWebsocket. intros E. cbn [contFrame set_parsed].
  repeat (case_match; try done); by injection E as <- <- <-.
Qed.

Lemma ws_run_parsed fs g w w' evs more :
  ws_run fs w = (w', evs, more) -> ws_run fs (set_parsed g w) = (set_parsed g w', evs, more).
Proof using.
  revert w w' evs more. induction fs as [|f fs IH]; intros w w' evs more E; cbn [ws_run] in *.
  { by injection E as <- <- <-. }
  destruct (onWebsocket f w) as [[w1 e1] m1] eqn:E1. rewrite (onWebsocket_parsed _ g _ _ _ _ E1).
  destruct m1; [|by injection E as <- <- <-].
  destruct (ws_run fs w1) as [[w2 e2] m2] eqn:E2. rewrite (IH _ _ _ _ E2). by injection E as <- <- <-.
Qed.

Lemma onWebsocket_open f w w' evs :
  onWebsocket f w = (w', evs, true) -> w'.(Ws.closed) = w.(Ws.closed).
Proof using.
  unfold onWebsocket. intros E.
  repeat (case_match; simplify_eq/=; try done).
Qed.

(** A websocket that is open, on a connection that is. *)
Definition ws_open (c : Conn) (w : Websocket) : Prop :=
  c.(closedFlag) = false /\ c.(lock) = false /\ c.(ws) = Some w /\ w.(Ws.closed) = false.
(** The buffer that one turn of the loop works on. *)
Lemma parse_next_ws fuel id d wr c w lg u s s' :
  replaced id c lg u s s' -> ws_open c w -> len (c.(inb) ++ d) <= RequestMaxBytes ->
  let '(inp, r) := ws_parse (c.(inb) ++ d) in
  match r with
  | Err e =>
      e = errWaitMore -> inp = c.(inb) ++ d ->
      exists t, parse_next hd (S fuel) id d wr s' = Ok t /\ replaced id (set_in inp c) lg u s t
  | Ok f =>
      forall rest, 0 <= f.(flen) <= len inp -> drop (Z.to_nat f.(flen)) inp = rest ->
      forall w1 evs u' out l,
      onWebsocket f (set_parsed f w) = (w1, evs, true) -> ws_outcome id c.(fd) evs u = Some (u', out, l) ->
      exists t, replaced id (set_out (c.(outb) ++ out) (set_ws (Some w1) (set_in rest c))) (lg ++ l) u' s t /\
        parse_next hd (S fuel) id d wr s'
        = if 0 <? len rest then parse_next hd fuel id [] wr t
          else
            let t := update id (set_srs newState) t in
            let! c := conn_at id t in
            if negb (len c.(outb) =? 0) then writeConn hd id wr t else Ok t
  | _ => True
  end.
Proof using.
  intros Hr (Hop & Hl & Hws & Hcl) Hmax.
  destruct (ws_parse (c.(inb) ++ d)) as [inp r] eqn:Hp.
  destruct (spinLock_replaced _ _ _ _ _ _ Hr Hl) as (s1 & E1 & Hr1).
  apply (replaced_update _ _ _ _ _ _ (fun c => set_in (c.(inb) ++ d) c)) in Hr1.
  destruct r as [f|e| |]; try done.
  - intros rest Hf Hrest w1 evs u' out l Hon Hout. cbn [parse_next]. rewrite E1. cbn [rbind].
    rewrite (replaced_conn_at _ _ _ _ _ _ Hr1). cbn [rbind set_in set_lock inb ws].
    destruct (Z.ltb_spec RequestMaxBytes (len (c.(inb) ++ d))); [lia|]. rewrite Hws, Hcl, Hp.
    match goal with |- context [update id ?g (update id ?h s1)] =>
      apply (replaced_update _ _ _ _ _ _ g) in Hr1 end.
    apply (replaced_update _ _ _ _ _ _ (set_lock false)) in Hr1.
    unfold spinUnlock. cbn [set_ws ws parsedFrame].
    destruct (truncate_replaced _ _ _ _ _ _ f.(flen) Hr1) as (s2 & -> & Hr2); [done|done|].
    cbn [rbind set_lock set_in inb set_ws] in *.
    replace (mkWebsocket f w.(contFrame) false w.(closingData)) with (set_parsed f w)
      by (unfold set_parsed; by rewrite Hcl).
    rewrite Hon. apply (replaced_update _ _ _ _ _ _ (set_ws (Some w1))) in Hr2.
    rewrite Hrest in Hr2.
    match type of Hr2 with replaced _ ?c2 _ _ _ _ =>
      destruct (ws_effects_replaced id evs c2 lg u u' out l s _ Hr2) as (t & -> & Ht); [done|done|exact Hout|]
    end.
    cbn [rbind negb]. exists t. split.
    + match type of Ht with replaced _ ?c2 _ _ _ _ =>
        replace (set_out (c.(outb) ++ out) (set_ws (Some w1) (set_in rest c))) with c2 end; [exact Ht|].
      destruct c; cbn in *; by subst.
    + rewrite <- Hrest, len_drop.
      replace (0 `max` (len inp - Z.of_nat (Z.to_nat f.(flen)))) with (len inp - f.(flen)) by lia.
      done.
  - intros -> ->. cbn [parse_next]. rewrite E1. cbn [rbind].
    rewrite (replaced_conn_at _ _ _ _ _ _ Hr1). cbn [rbind set_in set_lock inb ws].
    destruct (Z.ltb_spec RequestMaxBytes (len (c.(inb) ++ d))); [lia|]. rewrite Hws, Hcl, Hp.
    match goal with |- context [update id ?g (update id ?h s1)] =>
      apply (replaced_update _ _ _ _ _ _ g) in Hr1 end.
    apply (replaced_update _ _ _ _ _ _ (set_lock false)) in Hr1.
    rewrite decide_True by done. eexists. split; [reflexivity|].
    match type of Hr1 with replaced _ ?c2 _ _ _ _ => replace (set_in (c.(inb) ++ d) c) with c2 end;
      [exact Hr1|]. destruct c; cbn in *; by subst.
Qed.
Lemma wframe_parse f rest :
  wframe_ok f ->
  exists inp, ws_parse (wframe_bytes f ++ rest) = (inp, Ok (wframe f)) /\
    len inp = len (wframe_bytes f ++ rest) /\ drop (Z.to_nat (wframe f).(flen)) inp = rest.
Proof using.
  intros (Hr & Ho & Hk & Hp).
  pose proof (ws_parse_whole f.(wfin) f.(wrsv) f.(wop) f.(wkey) f.(wpayload) rest Hr Ho Hk Hp) as E.
  eexists. split; [exact E|]. unfold wframe. cbn [flen].
  assert (len (wframe_bytes f) = len (client_header f.(wfin) f.(wrsv) f.(wop) 1 f.(wkey) (len f.(wpayload)) ++ f.(wpayload))) as El.
  { unfold wframe_bytes, client_frame. rewrite masked_unmask by done. rewrite !len_app.
    unfold len. by rewrite length_unmask. }
  split.
  - rewrite app_assoc, len_app, <- El, <- len_app. done.
  - rewrite El. rewrite app_assoc. apply drop_len_app.
Qed.

(** What a connection's websocket has done with a list of frames. *)
Lemma parse_frames id fs p fuel d wr c w w' evs u u' out l lg s s' :
  Forall wframe_ok fs -> frame_part p -> ws_open c w -> c.(srs) = newState ->
  replaced id c lg u s s' ->
  c.(inb) ++ d = concat (wframe_bytes <$> fs) ++ p -> len (c.(inb) ++ d) <= RequestMaxBytes ->
  ws_run (wframe <$> fs) w = (w', evs, true) -> ws_outcome id c.(fd) evs u = Some (u', out, l) ->
  (length fs < fuel)%nat ->
  exists g t,
    replaced id (set_out (c.(outb) ++ out) (set_in p (set_ws (Some (set_parsed g w')) c))) (lg ++ l) u' s t /\
    parse_next hd fuel id d wr s'
    = if decide (fs = [] \/ p <> []) then Ok t
      else if len (c.(outb) ++ out) =? 0 then Ok t else writeConn hd id wr t.
Proof using.
  revert fuel d c w w' evs u u' out l lg s'. induction fs as [|f fs IH];
    intros fuel d c w w' evs u u' out l lg s' Hfs Hp Hop Hsrs Hr Hd Hmax Hrun Hout Hfuel;
    (destruct fuel as [|fuel]; [cbn in Hfuel; lia|]).
  - cbn [fmap list_fmap ws_run concat app] in *. injection Hrun as <- <-. cbn [ws_outcome] in Hout.
    injection Hout as <- <- <-. pose proof (parse_next_ws fuel id d wr c w lg u s s' Hr Hop Hmax) as Hn.
    rewrite Hd, (frame_part_waits p Hp) in Hn.
    destruct (Hn eq_refl eq_refl) as (t & E & Ht). exists w.(parsedFrame), t. rewrite decide_True by auto.
    split; [|done]. rewrite !app_nil_r.
    replace (set_out c.(outb) (set_in p (set_ws (Some (set_parsed w.(parsedFrame) w)) c))) with (set_in p c);
      [exact Ht|]. destruct Hop as (_ & _ & Hw & _). destruct c, w; cbn in *; by subst.
  - apply Forall_cons in Hfs as [Hf Hfs]. cbn [fmap list_fmap ws_run concat] in *.
    rewrite <- app_assoc in Hd. destruct (onWebsocket (wframe f) w) as [[w1 e1] m1] eqn:Hon.
    destruct m1; [|done].
    destruct (ws_run (wframe <$> fs) w1) as [[w2 e2] m2] eqn:Hrun2. injection Hrun as -> <- ->.
    destruct (ws_outcome_app _ _ _ _ _ _ _ _ Hout) as (u1 & o1 & l1 & o2 & l2 & Ho1 & Ho2 & -> & ->).
    destruct (wframe_parse f (concat (wframe_bytes <$> fs) ++ p) Hf) as (inp & Hpa & Hlen & Hdrop).
    pose proof (parse_next_ws fuel id d wr c w lg u s s' Hr Hop Hmax) as Hn. rewrite Hd, Hpa in Hn.
    assert (0 <= (wframe f).(flen) <= len inp) as Hfl.
    { rewrite Hlen. unfold wframe. cbn [flen]. rewrite len_app. pose proof (len_nonneg (wframe_bytes f)).
      pose proof (len_nonneg (concat (wframe_bytes <$> fs) ++ p)). lia. }
    destruct (Hn _ Hfl Hdrop _ _ _ _ _ (onWebsocket_parsed _ (wframe f) _ _ _ _ Hon) Ho1) as (t & Ht & ->).
    set (rest := concat (wframe_bytes <$> fs) ++ p) in *.
    set (c1 := set_out (c.(outb) ++ o1) (set_ws (Some (set_parsed (wframe f) w1)) (set_in rest c))) in *.
    assert (ws_open c1 (set_parsed (wframe f) w1)) as Hop1.
    { destruct Hop as (? & ? & ? & Hcl). split_and!; try done. unfold set_parsed. cbn [Ws.closed].
      by rewrite (onWebsocket_open _ _ _ _ Hon). }
    destruct (Z.ltb_spec 0 (len rest)) as [Hpos|Hpos].
    + destruct (IH fuel [] c1 (set_parsed (wframe f) w1) (set_parsed (wframe f) w') e2 u1 u' o2 l2 (lg ++ l1) t)
        as (g & t2 & Ht2 & E); try done.
      * unfold c1. cbn [set_out set_ws set_in inb]. by rewrite app_nil_r.
      * unfold c1. cbn [set_out set_ws set_in inb]. rewrite app_nil_r. rewrite Hd, len_app in Hmax.
        pose proof (len_nonneg (wframe_bytes f)). lia.
      * by apply ws_run_parsed.
      * cbn in Hfuel. lia.
      * exists g, t2. split.
        -- unfold c1 in Ht2. cbn [set_out set_ws set_in outb] in Ht2. rewrite <- !app_assoc in Ht2.
           exact Ht2.
        -- rewrite E. unfold c1. cbn [set_out outb]. rewrite <- app_assoc.
           destruct (decide (f :: fs = [] \/ p <> [])) as [[?|Hp0]|Hn0]; [done| |].
           ++ rewrite decide_True by auto. done.
           ++ rewrite decide_False; [done|]. intros [->|?]; [|apply Hn0; by right].
              apply Hn0. right. intros ->. by cbn in Hpos.
    + assert (rest = []) as Erest by (apply len_0_inv; pose proof (len_nonneg rest); lia).
      apply app_nil in Erest as Er. destruct Er as [Ec ->].
      assert (fs = []) as -> by (destruct fs as [|f2 fs]; [done|]; exfalso; cbn [fmap list_fmap concat] in Ec;
        apply app_nil in Ec as [Ec _]; pose proof (wframe_bytes_pos f2) as Hx; rewrite Ec in Hx; cbn in Hx; lia).
      cbn [fmap list_fmap ws_run] in Hrun2. injection Hrun2 as <- <-. cbn [ws_outcome] in Ho2.
      injection Ho2 as <- <- <-.
      apply (replaced_update _ _ _ _ _ _ (set_srs newState)) in Ht.
      exists (wframe f), (update id (set_srs newState) t). rewrite !app_nil_r. split.
      * replace (set_out (c.(outb) ++ o1) (set_in [] (set_ws (Some (set_parsed (wframe f) w1)) c)))
          with (set_srs newState c1); [exact Ht|]. unfold c1. rewrite Erest. destruct c; cbn in *; by subst.
      * rewrite decide_False by naive_solver. cbn zeta. rewrite (replaced_conn_at _ _ _ _ _ _ Ht).
        cbn [rbind set_srs outb]. unfold c1. cbn [set_out outb]. by destruct (_ =? _).
Qed.

(** C34: A websocket in the event loop.  The frames that arrive in one read, after
    what was buffered, and perhaps the beginning of another, are all handed over:
    what happens to the websocket, to the program and to the output is what
    happens when its frames are run one after the other ([ws_run]), the handlers
    being called and the answers appended in that order, and the beginning of the
    next frame stays in the buffer.  After each answer the poller is triggered;
    when the read ends at the end of a frame the output begins to be written. *)
Theorem reads_frames id fs p d wr c w w' evs u' out l s :
  s.(conns) !! id = Some c -> ws_open c w -> c.(srs) = newState ->
  Forall wframe_ok fs -> frame_part p -> c.(inb) ++ d = concat (wframe_bytes <$> fs) ++ p ->
  len (c.(inb) ++ d) <= RequestMaxBytes ->
  ws_run (wframe <$> fs) w = (w', evs, true) -> ws_outcome id c.(fd) evs s.(user) = Some (u', out, l) ->
  exists g t,
    replaced id (set_out (c.(outb) ++ out) (set_in p (set_ws (Some (set_parsed g w')) c))) l u' s t /\
    readConn hd id (RData d) wr s
    = if decide (fs = [] \/ p <> []) then Ok t
      else if len (c.(outb) ++ out) =? 0 then Ok t else writeConn hd id wr t.
Proof using.
  intros Hid Hop Hsrs Hfs Hp Hd Hmax Hrun Hout. pose proof (replaced_same id c s Hid) as Hr.
  unfold readConn. rewrite (replaced_conn_at _ _ _ _ _ _ Hr). cbn [rbind].
  destruct Hop as (Hcf & Hop). rewrite Hcf.
  eapply (parse_frames id fs p _ d wr c w w' evs s.(user) u' out l [] s s); try done.
  apply (f_equal length) in Hd. rewrite !length_app in Hd.
  assert (length fs <= length (concat (wframe_bytes <$> fs)))%nat as Hlen.
  { clear. induction fs as [|f fs IH]; [done|]. cbn [fmap list_fmap concat length]. rewrite length_app.
    pose proof (wframe_bytes_pos f). lia. }
  lia.
Qed.
End http.

(** ** Witnesses *)

(** A program that upgrades every request and answers every message. *)
Definition ex_ws_handlers : @Handlers Z :=
  {| OnRedis := fun _ u => (u, [], true);
     OnHTTP := fun _ u => (u + 1, bs "ok", true, true);
     OnWSData' := Some (fun p u => (u + len p, [ws_frame 1 p], false));
     OnWSClose := Some (fun _ u => u);
     close_fails := fun _ => false |}.

Lemma reads_request_witness :
  let rq := request (bs "Post") (bs "/p%20q?x=1") (bs "HTTP/1.1") ex_headers in
  exists req, asks_for (bs "Post") (bs "/p q") ex_headers (bs "ok") req /\
    exists t,
      replaced 1 (set_out (bs "ok") (set_ws (Some newWebsocket) (set_lastTs 10 (newConn 5))))
        [EvHTTP 1 req] 1 ex_listener t /\
      @reads default_env Z ex_ws_handlers 1 [bs "Po"; drop 2 rq; bs "o"; bs "k"] (WN 1) ex_listener
      = @writeConn Z ex_ws_handlers 1 (WN 1) t.
Proof.
  destruct (@reads_request default_env Z ex_ws_handlers 1
              [bs "Po"; drop 2 (request (bs "Post") (bs "/p%20q?x=1") (bs "HTTP/1.1") ex_headers); bs "o"]
              (bs "k") (WN 1) ex_listener (set_lastTs 10 (newConn 5))
              (bs "Post") (bs "/p%20q?x=1") (bs "HTTP/1.1") ex_headers (bs "p q") (bs "ok"))
    as (req & Hreq & Hc).
  - reflexivity.
  - done.
  - done.
  - done.
  - apply ex_request_ok; [compute_done|compute_done|by vm_compute].
  - by vm_compute.
  - by vm_compute.
  - compute_done.
  - by vm_compute.
  - by vm_compute.
  - done.
  - by vm_compute.
  - apply max_ok_default.
  - exists req. split; [exact Hreq|]. exact (Hc eq_refl).
Defined.

Definition ex_frames : list wire_frame :=
  [mkWireFrame true 0 9 [1; 2; 3; 4] (bs "hi"); mkWireFrame false 0 1 [5; 6; 7; 8] (bs "yo");
   mkWireFrame true 0 0 [0; 0; 0; 0] (bs "ga")].
Definition ex_ws_conn : Conn := set_ws (Some newWebsocket) (set_lastTs 10 (newConn 5)).
Definition ex_ws_listener : @Listener Z :=
  mkListener 3 {[1 := ex_ws_conn]} {[5 := 1]} [1] 1 {[5 := MRead]} [] 0.

Lemma reads_frames_witness :
  exists g t,
    replaced 1 (set_out (ws_frame 10 (bs "hi") ++ ws_frame 1 (bs "yoga"))
                  (set_in [129] (set_ws (Some (set_parsed g newWebsocket)) ex_ws_conn)))
      [EvTrigger 5; EvWSData 1 (bs "yoga"); EvTrigger 5] 4 ex_ws_listener t /\
    @readConn default_env Z ex_ws_handlers 1 (RData (concat (wframe_bytes <$> ex_frames) ++ [129])) (WN 0)
      ex_ws_listener = Ok t.
Proof.
  apply (@reads_frames default_env Z ex_ws_handlers 1 ex_frames [129]
           (concat (wframe_bytes <$> ex_frames) ++ [129]) (WN 0) ex_ws_conn newWebsocket newWebsocket
           [WriteFrame (ws_frame 10 (bs "hi")); OnWSData (bs "yoga")]
           4 (ws_frame 10 (bs "hi") ++ ws_frame 1 (bs "yoga"))
           [EvTrigger 5; EvWSData 1 (bs "yoga"); EvTrigger 5] ex_ws_listener).
  - reflexivity.
  - done.
  - done.
  - repeat (apply Forall_cons; split; [by split_and!|]). by apply Forall_nil.
  - right. exists (mkWireFrame true 0 1 [1; 2; 3; 4] []), [128; 1; 2; 3; 4].
    split; [by split_and!|done].
  - by vm_compute.
  - by vm_compute.
  - by vm_compute.
  - by vm_compute.
Defined.
