(* ===== verification/Tls.v ===== *)
(** TLS connections (src/ssl_cgo.go) in the event loop of src/server.go.

    OpenSSL is a library: what its calls answer is part of an event.  The C
    functions of the file ([X_handshake], [X_read], [X_write]) turn an answer into
    a number, and the methods of [SSL] turn that into what [readConn] and
    [writeConn] expect.  An [SSL] object is freed when its connection is closed;
    using it after that is the error [FreedSSL], which the C library does not
    report. *)

From stdpp Require Import gmap.
From S2P Require Import Prelude GoStd Escape Util Redis Ws Http HttpSpec State StateSpec Server ServerInv ServerFrame ServerSpec.

(** ** OpenSSL *)

(** The values of [SSL_get_error] that the code names. *)
Class OpenSSL := {
  SSL_ERROR_WANT_READ : Z;
  SSL_ERROR_WANT_WRITE : Z;
  SSL_ERROR_ZERO_RETURN : Z;
  SSL_ERROR_SYSCALL : Z;
}.

(** They are different small positive numbers. *)
Class OpenSSLLaws `{OpenSSL} := {
  ssl_errors_small : Forall (fun e => 0 < e < 10000)
    [SSL_ERROR_WANT_READ; SSL_ERROR_WANT_WRITE; SSL_ERROR_ZERO_RETURN; SSL_ERROR_SYSCALL];
  ssl_errors_differ :
    NoDup [SSL_ERROR_WANT_READ; SSL_ERROR_WANT_WRITE; SSL_ERROR_ZERO_RETURN; SSL_ERROR_SYSCALL];
}.

(** What a call answers: its value, and, if that is not positive, what
    [SSL_get_error] and [errno] are then. *)
Record answer := mkAnswer { ret : Z; sslerr : Z; errno : Z }.

(** An error, and what a handshake and a read or write can answer. *)
Definition error_ok (a : answer) : Prop := 0 < a.(sslerr) < 10000 /\ 0 <= a.(errno).
Definition shakes_ok (a : answer) : Prop := a.(ret) <> 1 -> error_ok a.
Definition answer_ok (a : answer) : Prop := a.(ret) <= 0 -> error_ok a.

Section ssl.
Context `{OpenSSL}.

Definition get_error (a : answer) : Z :=
  if a.(sslerr) =? SSL_ERROR_SYSCALL then - (10000 + a.(errno)) else - a.(sslerr).

Definition X_handshake (a : answer) : Z := if a.(ret) =? 1 then 1 else get_error a.
Definition X_read (a : answer) : Z := if 0 <? a.(ret) then a.(ret) else get_error a.
Definition X_write (a : answer) : Z := if 0 <? a.(ret) then a.(ret) else get_error a.

(** ** [SSL] *)

(** [SSL] without the descriptor and the C pointer; [accept] returns the first. *)
Record SSL := mkSSL { handshaked : bool }.
Definition newSSL : SSL := mkSSL false.

(** Go errors: [syscall.EAGAIN], or an [Error] of some type. *)
Inductive goerror := EAGAIN | TypedError (typ : bytes).

(** [Read(p)]: [h] is what the handshake answers, [r] what reading does. *)
Definition SSL_Read (h r : answer) (s : SSL) : SSL * (Z * option goerror) :=
  if negb s.(handshaked) then
    let res := X_handshake h in
    if res =? 1 then (mkSSL true, (-1, Some EAGAIN))
    else if res =? - SSL_ERROR_WANT_WRITE then (s, (-1, Some (TypedError (bs "sslhandshake"))))
    else if res =? - SSL_ERROR_WANT_READ then (s, (-1, Some EAGAIN))
    else (s, (-1, Some (TypedError (bs "sslhandshake"))))
  else
    let rd := X_read r in
    if 0 <? rd then (s, (rd, None))
    else if rd =? - SSL_ERROR_ZERO_RETURN then (s, (0, None))
    else if rd =? - SSL_ERROR_WANT_READ then (s, (-1, Some EAGAIN))
    else (s, (-1, Some (TypedError (bs "sslread")))).

(** [Write(p)] *)
Definition SSL_Write (w : answer) (s : SSL) : Z * option goerror :=
  if negb s.(handshaked) then (-1, Some (TypedError (bs "sslhandshake")))
  else
    let wr := X_write w in
    if 0 <? wr then (wr, None)
    else if wr =? - SSL_ERROR_WANT_WRITE then (wr, Some EAGAIN)
    else (-1, Some (TypedError (bs "sslwrite"))).

(** How [readConn] and [writeConn] go on: [n == 0] first, then the error; [d] is
    what the buffer holds after the call, of which they use the first [n] bytes. *)
Definition read_result (d : bytes) (x : Z * option goerror) : rresult :=
  let (n, err) := x in
  if n =? 0 then REof
  else match err with
       | Some EAGAIN => RAgain
       | Some (TypedError typ) => RErr typ
       | None => RData (take (Z.to_nat n) d)
       end.
Definition write_result (x : Z * option goerror) : wresult :=
  let (n, err) := x in
  match err with
  | Some EAGAIN => WAgain n
  | Some (TypedError typ) => WErr typ
  | None => WN n
  end.
End ssl.

(** ** The event loop *)

Section listener.
Context `{Env} `{OpenSSL} {U : Type} (hd : @Handlers U).
Local Abbreviation Listener := (@Listener U).
Local Abbreviation result := (@result U).

(** A listener with a certificate: each of its connections has an [SSL], which is
    freed when the connection is closed. *)
Record TListener := mkTListener { ln : Listener; ssls : gmap Z SSL }.

(** What the loop can be stuck on. *)
Inductive tstuck := Waiting | FreedSSL | TPanicked (s : Listener).
Definition tresult (A : Type) : Type := res tstuck A.
Definition lift {A} (m : result A) : tresult A :=
  match m with
  | Ok a => Ok a
  | Err Spinning => Err Waiting
  | Err (Panicked s) => Err (TPanicked s)
  | Panic => Panic
  | OutOfFuel => OutOfFuel
  end.

Definition tls_writeConn (id : Z) (w : answer) (t : TListener) : tresult TListener :=
  let! ssl := checked (t.(ssls) !! id) in
  let! s := lift (spinLock id t.(ln)) in
  let! c := lift (conn_at id s) in
  if negb (len c.(outb) =? 0) && c.(closedFlag) then Err FreedSSL
  else
    let! s := lift (writeConn hd id (write_result (SSL_Write w ssl)) t.(ln)) in
    Ok (mkTListener s t.(ssls)).

(** [readConn]; the connection is open when it comes to write ([w2]). *)
Definition tls_readConn (id : Z) (h r : answer) (d : bytes) (w2 : answer) (t : TListener)
  : tresult TListener :=
  let! ssl := checked (t.(ssls) !! id) in
  let! c := lift (conn_at id t.(ln)) in
  if c.(closedFlag) then Err FreedSSL
  else
    let (ssl, x) := SSL_Read h r ssl in
    let! s := lift (readConn hd id (read_result d x) (write_result (SSL_Write w2 ssl)) t.(ln)) in
    Ok (mkTListener s (<[id := ssl]> t.(ssls))).

(** An event: as for plain connections, with the answers of OpenSSL. *)
Inductive tinput :=
| TAccept (id : Z) (nfd : Z)
| TAcceptError (e : accept_error)
| TReady (f : Z) (canWrite canRead eof : bool) (w1 h r : answer) (d : bytes) (w2 : answer).

Definition on_ln (f : Listener -> result Listener) (t : TListener) : tresult TListener :=
  let! s := lift (f t.(ln)) in Ok (mkTListener s t.(ssls)).

Definition titer (i : tinput) (now : Z) (timeout : Z) (t : TListener) : tresult TListener :=
  match i with
  | TAcceptError e => on_ln (iter hd (AcceptError e) now timeout) t
  | TAccept id nfd =>
      on_ln (iter hd (Accept id nfd) now timeout) (mkTListener t.(ln) (<[id := newSSL]> t.(ssls)))
  | TReady f canWrite canRead eof w1 h r d w2 =>
      let! t :=
        match t.(ln).(fdconns) !! f with
        | None => Ok t
        | Some id =>
            let t := mkTListener (attachConn id now (detach id t.(ln))) t.(ssls) in
            let! t := if canWrite : bool then tls_writeConn id w1 t else Ok t in
            let! t := if canRead : bool then tls_readConn id h r d w2 t else Ok t in
            if eof : bool then on_ln (closeConnWithError hd id (bs "eof") false) t else Ok t
        end in
      if 0 <? timeout
      then on_ln (fun s => sweep hd (reverse s.(order)) (now - timeout) s) t else Ok t
  end.

Definition taccept_ok (i : tinput) (t : TListener) : Prop :=
  match i with TAccept id nfd => accept_ok (Accept id nfd) t.(ln) | _ => True end.

(** Other goroutines write to a connection only after a handler was called with it, so
    after its handshake. *)
Inductive treachable (timeout : Z) : TListener -> Prop :=
| treach_init f u : treachable timeout (mkTListener (newListener f u) ∅)
| treach_step i now t t' :
    treachable timeout t -> taccept_ok i t -> titer i now timeout t = Ok t' ->
    treachable timeout t'
| treach_append id ssl p t s' :
    treachable timeout t -> t.(ssls) !! id = Some ssl -> ssl.(handshaked) = true ->
    append_out id p t.(ln) = Ok s' -> treachable timeout (mkTListener s' t.(ssls))
| treach_flush id t s' :
    treachable timeout t -> conn_Flush id t.(ln) = Ok s' -> treachable timeout (mkTListener s' t.(ssls)).
End listener.

(** ** Lemmas: the answers *)

Section answers.
Context `{OpenSSLLaws}.

Lemma get_error_eq a e :
  error_ok a -> e ∈ [SSL_ERROR_WANT_READ; SSL_ERROR_WANT_WRITE; SSL_ERROR_ZERO_RETURN] ->
  (get_error a =? - e) = (a.(sslerr) =? e).
Proof using All.
  intros [Hs He] Hin. pose proof ssl_errors_small as Hsm. pose proof ssl_errors_differ as Hnd.
  rewrite !Forall_cons in Hsm. rewrite !NoDup_cons, !elem_of_cons in Hnd.
  rewrite !elem_of_cons, elem_of_nil in Hin.
  assert (0 < e < 10000) as Hb by (destruct Hin as [->|[->|[->|[]]]]; lia).
  assert (e <> SSL_ERROR_SYSCALL) as Hne by (destruct Hin as [->|[->|[->|[]]]]; tauto).
  unfold get_error. zb; congruence || lia.
Qed.

Lemma get_error_negative a : error_ok a -> get_error a < 0.
Proof using. intros [? ?]. unfold get_error. zb; lia. Qed.

(** What reading answers, on every branch: before the handshake is done nothing is
    read; then bytes, the end of the stream for a close-notify alert, and "try
    again" when OpenSSL waits for input; all else is an error.  The number of a
    system error is never taken for one of OpenSSL's. *)
Lemma SSL_Read_answers h r d s :
  shakes_ok h -> answer_ok r ->
  read_result d (SSL_Read h r s).2
  = if s.(handshaked) then
      if 0 <? r.(ret) then RData (take (Z.to_nat r.(ret)) d)
      else if r.(sslerr) =? SSL_ERROR_ZERO_RETURN then REof
      else if r.(sslerr) =? SSL_ERROR_WANT_READ then RAgain
      else RErr (bs "sslread")
    else if (h.(ret) =? 1) || (h.(sslerr) =? SSL_ERROR_WANT_READ) then RAgain
    else RErr (bs "sslhandshake").
Proof using All.
  intros Hh Hr. unfold SSL_Read. destruct s as [hs]. cbn [handshaked]. destruct hs; cbn [negb].
  - unfold X_read. destruct (Z.ltb_spec 0 r.(ret)) as [Hp|Hn].
    + rewrite (proj2 (Z.ltb_lt _ _) Hp). cbn. by rewrite (proj2 (Z.eqb_neq _ _)) by lia.
    + specialize (Hr Hn). pose proof (get_error_negative r Hr). rewrite (proj2 (Z.ltb_ge _ _)) by lia.
      rewrite !get_error_eq by (done || by (rewrite !elem_of_cons; tauto)).
      by destruct (r.(sslerr) =? SSL_ERROR_ZERO_RETURN), (r.(sslerr) =? SSL_ERROR_WANT_READ).
  - unfold X_handshake. destruct (Z.eqb_spec h.(ret) 1) as [E|E]; [done|]. specialize (Hh E).
    pose proof (get_error_negative h Hh). rewrite (proj2 (Z.eqb_neq _ _)) by lia. cbn [orb].
    rewrite !get_error_eq by (done || by (rewrite !elem_of_cons; tauto)).
    destruct (Z.eqb_spec h.(sslerr) SSL_ERROR_WANT_WRITE) as [E1|E1],
      (Z.eqb_spec h.(sslerr) SSL_ERROR_WANT_READ) as [E2|E2]; try done.
    exfalso. pose proof ssl_errors_differ as Hnd. rewrite E1 in E2.
    apply NoDup_cons in Hnd as [Hnd _]. apply Hnd. rewrite !elem_of_cons. by left.
Qed.

(** The state of the handshake after it. *)
Lemma SSL_Read_state h r s :
  shakes_ok h -> (SSL_Read h r s).1.(handshaked) = s.(handshaked) || (h.(ret) =? 1).
Proof using.
  intros Hh. unfold SSL_Read. destruct s as [[]]; cbn [handshaked negb orb]; [by repeat case_match|].
  unfold X_handshake. destruct (Z.eqb_spec h.(ret) 1) as [E|E]; [done|].
  pose proof (get_error_negative h (Hh E)). rewrite (proj2 (Z.eqb_neq _ _)) by lia. by repeat case_match.
Qed.

Lemma SSL_Write_answers w s :
  answer_ok w -> s.(handshaked) = true ->
  write_result (SSL_Write w s)
  = if 0 <? w.(ret) then WN w.(ret)
    else if w.(sslerr) =? SSL_ERROR_WANT_WRITE then WAgain (- SSL_ERROR_WANT_WRITE)
    else WErr (bs "sslwrite").
Proof using All.
  intros Hw Hs. unfold SSL_Write. rewrite Hs. cbn [negb]. unfold X_write.
  destruct (Z.ltb_spec 0 w.(ret)) as [Hp|Hn].
  - by rewrite (proj2 (Z.ltb_lt _ _) Hp).
  - specialize (Hw Hn). pose proof (get_error_negative w Hw). rewrite (proj2 (Z.ltb_ge _ _)) by lia.
    pose proof (get_error_eq w SSL_ERROR_WANT_WRITE Hw ltac:(rewrite !elem_of_cons; tauto)) as E.
    rewrite E. destruct (w.(sslerr) =? SSL_ERROR_WANT_WRITE); [|done].
    apply Z.eqb_eq in E. cbn. by rewrite E.
Qed.
End answers.

Section tls.
Context `{Env} `{OpenSSL} {U : Type} (hd : @Handlers U).
Local Abbreviation Listener := (@Listener U).
Local Abbreviation result := (@result U).
Local Abbreviation TListener := (@TListener U).
Implicit Types (s : Listener) (t : TListener).

(** ** Lemmas: the plain loop underneath *)

(** A run of the loop with TLS, beside one of the plain loop; [Q] is about the
    [SSL] objects.  Only using a freed one ([Y]), or a missing one ([X]), makes a
    difference. *)
Definition sim (X Y : Prop) (Q : gmap Z SSL -> Prop) (m : tresult TListener) (m' : result Listener) : Prop :=
  match m with
  | Ok t => m' = Ok t.(ln) /\ Q t.(ssls)
  | Err FreedSSL => Y
  | Err Waiting => m' = Err Spinning
  | Err (TPanicked s) => m' = Err (Panicked s)
  | Panic => X \/ m' = Panic
  | OutOfFuel => m' = OutOfFuel
  end.

Lemma sim_bind X Y (Q R : gmap Z SSL -> Prop) m m' k k' :
  sim X Y Q m m' -> (forall t, Q t.(ssls) -> m' = Ok t.(ln) -> sim X Y R (k t) (k' t.(ln))) ->
  sim X Y R (rbind m k) (rbind m' k').
Proof using.
  destruct m as [t|[| |]| |]; cbn; intros Hm Hk; [|by subst m'|done|by subst m'| |by subst m'].
  - destruct Hm as [-> HQ]. by apply Hk.
  - destruct Hm as [?| ->]; [by left|by right].
Qed.

Lemma sim_lift X Y (Q : gmap Z SSL -> Prop) (m : result Listener) (f : Listener -> TListener) :
  (forall s, (f s).(ln) = s /\ Q (f s).(ssls)) ->
  sim X Y Q (rbind (lift m) (fun s => Ok (f s))) m.
Proof using.
  intros Hf. destruct m as [s|[|]| |]; cbn; try done; [|by right]. by destruct (Hf s) as [-> ?].
Qed.

Lemma sim_on_ln X Y (Q : gmap Z SSL -> Prop) f t : Q t.(ssls) -> sim X Y Q (on_ln f t) (f t.(ln)).
Proof using. intros HQ. unfold on_ln. by apply (sim_lift X Y Q _ (fun s => mkTListener s t.(ssls))). Qed.

(** A connection that is closed. *)
Definition closed_conn (id : Z) (s : Listener) : Prop :=
  exists c, s.(conns) !! id = Some c /\ c.(closedFlag) = true.

(** The [SSL] of a connection. *)
Definition ssl_of (id : Z) (t : TListener) : SSL :=
  match t.(ssls) !! id with Some ssl => ssl | None => newSSL end.

Lemma tls_writeConn_sim (X Y : Prop) id w t :
  (t.(ssls) !! id = None -> X) -> (closed_conn id t.(ln) -> Y) ->
  sim X Y (eq t.(ssls)) (tls_writeConn hd id w t)
    (writeConn hd id (write_result (SSL_Write w (ssl_of id t))) t.(ln)).
Proof using.
  intros HX HY. unfold tls_writeConn, ssl_of. destruct (t.(ssls) !! id) as [ssl|]; [|left; auto].
  cbn [checked checked_in rbind].
  destruct (spinLock id t.(ln)) as [s|[]| |] eqn:El; cbn [lift rbind].
  2-5: unfold writeConn; rewrite El; by try right.
  unfold spinLock, conn_at in El. destruct (t.(ln).(conns) !! id) as [c|] eqn:Hc; [|done].
  cbn [checked_in rbind] in El. destruct c.(lock); [done|]. injection El as <-.
  unfold conn_at at 1. rewrite lookup_update, decide_True, Hc by done. cbn.
  destruct (negb _ && c.(closedFlag)) eqn:Ew.
  - apply HY. exists c. split; [done|]. by apply andb_true_iff in Ew as [_ ?].
  - by apply (sim_lift X Y (eq t.(ssls)) _ (fun s => mkTListener s t.(ssls))).
Qed.

Lemma tls_readConn_sim (X Y : Prop) id h r d w2 t :
  (t.(ssls) !! id = None -> X) -> (closed_conn id t.(ln) -> Y) ->
  let (ssl, x) := SSL_Read h r (ssl_of id t) in
  sim X Y (eq (<[id := ssl]> t.(ssls))) (tls_readConn hd id h r d w2 t)
    (readConn hd id (read_result d x) (write_result (SSL_Write w2 ssl)) t.(ln)).
Proof using.
  intros HX HY. unfold tls_readConn, ssl_of. destruct (t.(ssls) !! id) as [ssl|]; cbn [checked checked_in rbind].
  2: { destruct (SSL_Read _ _ _). left; auto. }
  destruct (SSL_Read h r ssl) as [ssl' x]. unfold conn_at. destruct (t.(ln).(conns) !! id) as [c|] eqn:Hc.
  2: { cbn. unfold readConn, conn_at. by rewrite Hc. }
  cbn [checked_in lift rbind]. destruct c.(closedFlag) eqn:Hcl; [apply HY; by exists c|].
  by apply (sim_lift X Y (eq (<[id := ssl']> t.(ssls))) _ (fun s => mkTListener s (<[id := ssl']> t.(ssls)))).
Qed.

(** The [SSL] of the connection that an event is for. *)
Definition event_ssl (f : Z) (t : TListener) : SSL :=
  match t.(ln).(fdconns) !! f with Some id => ssl_of id t | None => newSSL end.

(** The event of the plain loop that an event with TLS comes to. *)
Definition raw_input (i : tinput) (t : TListener) : input :=
  match i with
  | TAccept id nfd => Accept id nfd
  | TAcceptError e => AcceptError e
  | TReady f canWrite canRead eof w1 h r d w2 =>
      let (ssl, x) := SSL_Read h r (event_ssl f t) in
      Ready f canWrite canRead eof (write_result (SSL_Write w1 (event_ssl f t))) (read_result d x)
        (write_result (SSL_Write w2 ssl))
  end.

(** What an event leaves of the [SSL] objects. *)
Definition next_ssls (i : tinput) (t : TListener) : gmap Z SSL :=
  match i with
  | TAcceptError _ => t.(ssls)
  | TAccept id _ => <[id := newSSL]> t.(ssls)
  | TReady f _ canRead _ _ h r _ _ =>
      match t.(ln).(fdconns) !! f with
      | Some id => if canRead : bool then <[id := (SSL_Read h r (ssl_of id t)).1]> t.(ssls) else t.(ssls)
      | None => t.(ssls)
      end
  end.

(** The [SSL] of the connection is missing; the connection was closed before the event,
    or writing closes it and the same event reads from it. *)
Definition event_missing (i : tinput) (t : TListener) : Prop :=
  match i with
  | TReady f _ _ _ _ _ _ _ _ => exists id, t.(ln).(fdconns) !! f = Some id /\ t.(ssls) !! id = None
  | _ => False
  end.
Definition freed_by_write (i : input) (now : Z) (s : Listener) : Prop :=
  match i with
  | Ready f canWrite canRead _ w1 _ _ =>
      exists id s', s.(fdconns) !! f = Some id /\ canWrite = true /\ canRead = true /\
        writeConn hd id w1 (attachConn id now (detach id s)) = Ok s' /\ closed_conn id s'
  | _ => False
  end.
Definition event_freed (i : tinput) (now : Z) (t : TListener) : Prop :=
  (exists f id, t.(ln).(fdconns) !! f = Some id /\ closed_conn id (attachConn id now (detach id t.(ln)))) \/
  freed_by_write (raw_input i t) now t.(ln).

(** Every step of the loop with TLS is a step of the plain loop, whose system
    calls answer what the [SSL] objects do. *)
Lemma titer_sim i now timeout t :
  sim (event_missing i t) (event_freed i now t) (eq (next_ssls i t)) (titer hd i now timeout t)
    (iter hd (raw_input i t) now timeout t.(ln)).
Proof using.
  destruct i as [id nfd|e|f canWrite canRead eof w1 h r d w2].
  - cbn [titer]. by apply (sim_on_ln _ _ _ _ (mkTListener t.(ln) _)).
  - by apply sim_on_ln.
  - set (i := TReady _ _ _ _ _ _ _ _ _).
    assert (forall X Y Q t', Q t'.(ssls) -> sim X Y Q
      (if 0 <? timeout then on_ln (fun s => sweep hd (reverse s.(order)) (now - timeout) s) t' else Ok t')
      (if 0 <? timeout then sweep hd (reverse t'.(ln).(order)) (now - timeout) t'.(ln) else Ok t'.(ln))) as Hsw.
    { intros X Y Q t' HQ. destruct (0 <? timeout); [|done].
      by apply (sim_on_ln X Y Q (fun s => sweep hd (reverse s.(order)) (now - timeout) s)). }
    destruct (SSL_Read h r (event_ssl f t)) as [ssl x] eqn:Er.
    assert (raw_input i t = Ready f canWrite canRead eof (write_result (SSL_Write w1 (event_ssl f t)))
              (read_result d x) (write_result (SSL_Write w2 ssl))) as Ei by (unfold raw_input, i; by rewrite Er).
    rewrite Ei. unfold i at 4. cbn [titer]. unfold iter.
    destruct (t.(ln).(fdconns) !! f) as [id|] eqn:Hf.
    2: { cbn [rbind]. apply Hsw. unfold next_ssls, i. by rewrite Hf. }
    assert (event_ssl f t = ssl_of id t) as Ees by (unfold event_ssl; by rewrite Hf).
    set (t1 := mkTListener (attachConn id now (detach id t.(ln))) t.(ssls)).
    assert (t.(ssls) !! id = None -> event_missing i t) as HX by (intros ?; by exists id).
    assert (closed_conn id t1.(ln) -> event_freed i now t) as HY1 by (intros ?; left; by exists f, id).
    eapply (sim_bind _ _ (eq (next_ssls i t))); [|intros t' ? _; by apply Hsw].
    eapply (sim_bind _ _ (eq t.(ssls))).
    { destruct canWrite; [|done]. rewrite Ees. by apply (tls_writeConn_sim _ _ id w1 t1). }
    intros t2 E2 Ew. eapply (sim_bind _ _ (eq (next_ssls i t))).
    { unfold next_ssls, i. rewrite Hf. destruct canRead; [|done].
      pose proof (tls_readConn_sim (event_missing i t) (event_freed i now t) id h r d w2 t2) as Hs.
      rewrite <- Ees, Er. unfold ssl_of in Ees, Hs. rewrite <- E2, <- Ees, Er in Hs. apply Hs; [exact HX|].
      intros Hcl. destruct canWrite; [|apply HY1; unfold t1; cbn [ln]; injection Ew as Ew; by rewrite Ew].
      right. rewrite Ei. by exists id, t2.(ln). }
    intros t3 E3 _. destruct eof; [|done]. by apply sim_on_ln.
Qed.

Lemma taccept_raw i t : taccept_ok i t -> accept_ok (raw_input i t) t.(ln).
Proof using. destruct i; cbn; [done..|]. by destruct (SSL_Read _ _ _). Qed.

Lemma treachable_plain timeout t : treachable hd timeout t -> reachable hd timeout t.(ln).
Proof using.
  induction 1 as [f u|i now t t' _ IH Ha Hi| |];
    [apply reach_init| |by eapply reach_append|by eapply reach_flush].
  pose proof (titer_sim i now timeout t) as Hs. rewrite Hi in Hs. destruct Hs as [Hs _].
  eapply reach_step; [exact IH|by apply taccept_raw|exact Hs].
Qed.

(** ** Lemmas: before the handshake *)

(** A connection whose handshake is not done has neither read nor written. *)
Definition virgin (c : Conn) : Prop := c.(inb) = [] /\ c.(outb) = [] /\ c.(ws) = None.
Definition guarded (c : Conn) (ssl : SSL) : Prop :=
  c.(closedFlag) = false -> ssl.(handshaked) = false -> virgin c.
Definition hs_ok (t : TListener) : Prop :=
  forall id c, t.(ln).(conns) !! id = Some c -> exists ssl, t.(ssls) !! id = Some ssl /\ guarded c ssl.

(** A step that changes one connection. *)
Lemma hs_step id t t' :
  hs_ok t -> others id t.(ln) t'.(ln) -> delete id t'.(ssls) = delete id t.(ssls) ->
  (forall c', t'.(ln).(conns) !! id = Some c' -> exists ssl, t'.(ssls) !! id = Some ssl /\ guarded c' ssl) ->
  hs_ok t'.
Proof using.
  intros Hok Ho Hs Hid id' c' Hc'. destruct (decide (id' = id)) as [->|Hne]; [by apply Hid|].
  rewrite (others_lookup _ _ _ _ Ho Hne) in Hc'. destruct (Hok id' c' Hc') as (ssl & E & ?).
  exists ssl. split; [|done]. apply (f_equal (fun m => m !! id')) in Hs.
  by rewrite !lookup_delete_ne, E in Hs by done.
Qed.

Lemma hs_closed id t t' :
  hs_ok t -> others id t.(ln) t'.(ln) -> t'.(ssls) = t.(ssls) -> is_Some (t.(ln).(conns) !! id) ->
  (forall c', t'.(ln).(conns) !! id = Some c' -> c'.(closedFlag) = true) -> hs_ok t'.
Proof using.
  intros Hok Ho Hs [c Hc] Hcl. eapply hs_step; [exact Hok|exact Ho|by rewrite Hs|].
  intros c' Hc'. destruct (Hok id c Hc) as (ssl & E & _). exists ssl. rewrite Hs. split; [done|].
  intros Hop. specialize (Hcl c' Hc'). congruence.
Qed.

(** Closing a connection leaves it closed. *)
Lemma close_id id typ b s s' c :
  s.(conns) !! id = Some c -> closeConnWithError hd id typ b s = Ok s' ->
  forall c', s'.(conns) !! id = Some c' -> c'.(closedFlag) = true.
Proof using.
  intros Hid E. destruct c.(closedFlag) eqn:Hcl.
  - unfold closeConnWithError, conn_at in E. rewrite Hid in E. cbn [checked checked_in rbind] in E.
    rewrite Hcl in E. injection E as <-. intros c'. congruence.
  - destruct (closable_or hd c) as [Hws|Hws];
      [|by rewrite (proj1 (closeConn_half hd id typ b s c Hid Hcl Hws)) in E].
    destruct (closeConn_maps hd id typ b s c Hid Hcl Hws) as (s1 & E1 & F & _).
    rewrite E in E1. injection E1 as <-. intros c'. rewrite F, lookup_update, decide_True by done.
    rewrite Hid. by intros [= <-].
Qed.

Lemma framed_Ok id (m : result Listener) s s' :
  framed id (fun s => s) s m -> m = Ok s' -> others id s s'.
Proof using. by intros Hf ->. Qed.

Lemma on_close_hs id typ b t t' c :
  hs_ok t -> t.(ln).(conns) !! id = Some c -> on_ln (closeConnWithError hd id typ b) t = Ok t' -> hs_ok t'.
Proof using.
  intros Hok Hc E. unfold on_ln in E.
  destruct (closeConnWithError hd id typ b t.(ln)) as [s'|[]| |] eqn:Ec; try done.
  cbn in E. injection E as <-. eapply (hs_closed id); [exact Hok| |done|by eexists|].
  - eapply framed_Ok; [apply closeConn_framed|exact Ec].
  - by eapply close_id.
Qed.

(** A run that ended in a state, and what is known of its result. *)
Lemma post_Ok {A} (Q : A -> Prop) (m : result A) a : post hd Q m -> m = Ok a -> Q a.
Proof using. by intros Hp ->. Qed.

Lemma lift_Ok {A} (m : result A) a : lift m = Ok a -> m = Ok a.
Proof using. by destruct m as [?|[]| |]; intros [= ->]. Qed.

Lemma write_hs id w t t' c :
  hs_ok t -> Inv conn_ok id t.(ln) -> t.(ln).(conns) !! id = Some c -> c.(closedFlag) = false ->
  tls_writeConn hd id w t = Ok t' -> hs_ok t' /\ Inv conn_ok id t'.(ln).
Proof using.
  intros Hok Hi Hc Hop E. destruct (Hok id c Hc) as (ssl & Hs & Hg).
  pose proof Hi as (Hcore & Hoth & c0 & Hc0 & Hcok). assert (c0 = c) as -> by congruence.
  destruct (Hcok Hop) as [Hl Hin].
  unfold tls_writeConn in E. rewrite Hs in E. cbn [checked checked_in rbind] in E.
  destruct (spinLock id t.(ln)) as [s1|[]| |] eqn:El; try done. cbn [lift rbind] in E.
  destruct (lift (conn_at id s1)) as [c1|[]| |] eqn:Ec; try done. cbn [rbind] in E.
  destruct (_ && _); [done|].
  destruct (lift (writeConn hd id _ t.(ln))) as [s'|[]| |] eqn:Ew; try done. cbn [rbind] in E.
  injection E as <-. apply lift_Ok in Ew. cbn [ln].
  assert (Inv conn_ok id s') as Hi'.
  { eapply post_Ok; [|exact Ew]. apply writeConn_post. split_and!; [done..|]. exists c. by split_and!. }
  split; [|done]. eapply (hs_step id); [exact Hok| |done|]; cbn [ln ssls].
  { eapply framed_Ok; [apply writeConn_framed|exact Ew]. }
  intros c' Hc'. exists ssl. split; [done|]. intros _ Hh. destruct (Hg Hop Hh) as (E1 & E2 & E3).
  unfold writeConn in Ew. rewrite El in Ew. cbn [rbind] in Ew.
  unfold spinLock, conn_at in El. rewrite Hc in El. cbn [checked checked_in rbind] in El. rewrite Hl in El.
  injection El as <-. unfold conn_at in Ew. rewrite lookup_update, decide_True, Hc in Ew by done.
  cbn [fmap option_fmap option_map checked checked_in rbind set_lock outb] in Ew. rewrite E2 in Ew.
  change (len [] =? 0) with true in Ew. cbv iota in Ew. injection Ew as <-.
  unfold ModRead, spinUnlock in Hc'. cbn [with_interest conns] in Hc'.
  rewrite !lookup_update, !decide_True, Hc in Hc' by done. by injection Hc' as <-.
Qed.

Lemma read_hs id h r d w2 t t' :
  max_ok -> hs_ok t -> Inv conn_ok id t.(ln) -> tls_readConn hd id h r d w2 t = Ok t' ->
  hs_ok t' /\ Inv conn_ok id t'.(ln).
Proof using.
  intros Hmax Hok Hi E. pose proof Hi as (_ & _ & c & Hc & _). destruct (Hok id c Hc) as (ssl & Hs & Hg).
  unfold tls_readConn in E. rewrite Hs in E. cbn [checked checked_in rbind] in E.
  unfold conn_at in E at 1. rewrite Hc in E. cbn [checked checked_in lift rbind] in E.
  destruct c.(closedFlag) eqn:Hop; [done|].
  destruct (SSL_Read h r ssl) as [ssl' x] eqn:Er.
  destruct (lift (readConn hd id _ _ t.(ln))) as [s'|[]| |] eqn:Ew; try done. cbn [rbind] in E.
  injection E as <-. apply lift_Ok in Ew. cbn [ln].
  split; [|by eapply post_Ok; [apply readConn_post|exact Ew]].
  eapply (hs_step id); [exact Hok| |cbn [ssls]; apply delete_insert_eq|]; cbn [ln ssls].
  { eapply framed_Ok; [apply readConn_framed|exact Ew]. }
  intros c' Hc'. exists ssl'. rewrite lookup_insert_eq. split; [done|]. intros Hop' Hh.
  destruct ssl as [[]]; cbn in Er; [repeat case_match; by simplify_eq/=|].
  assert (x = (-1, Some EAGAIN) \/ exists typ, x = (-1, Some (TypedError typ))) as Hx
    by (repeat case_match; simplify_eq/=; eauto).
  destruct (Hg Hop eq_refl) as (E1 & E2 & E3).
  unfold readConn, conn_at in Ew. rewrite Hc in Ew. cbn [checked checked_in rbind] in Ew. rewrite Hop in Ew.
  destruct Hx as [->|[typ ->]]; cbn in Ew.
  - injection Ew as <-. cbn in Hc'. rewrite Hc in Hc'. by injection Hc' as <-.
  - pose proof (close_id _ _ _ _ _ _ Hc Ew c' Hc'). congruence.
Qed.

Lemma sweep_hs ids cutoff t t' :
  hs_ok t -> on_ln (fun s => sweep hd ids cutoff s) t = Ok t' -> hs_ok t'.
Proof using.
  intros Hok E. unfold on_ln in E. destruct (lift (sweep hd ids cutoff t.(ln))) as [s'|[]| |] eqn:Ew; try done.
  apply lift_Ok in Ew. injection E as <-. intros id c Hc. cbn [ln ssls] in *.
  destruct (sweep_closes _ _ _ _ _ Ew id c Hc) as [H1|(c0 & H1 & ->)]; [by apply Hok|].
  destruct (Hok id c0 H1) as (ssl & E & _). exists ssl. split; [done|]. done.
Qed.

(** What a step does before the sweep, and the sweep. *)
Lemma swept_hs i now timeout t t' s1 :
  iter hd i now timeout t.(ln)
  = (if 0 <? timeout then sweep hd (reverse s1.(order)) (now - timeout) s1 else Ok s1) ->
  hs_ok (mkTListener s1 t.(ssls)) -> on_ln (iter hd i now timeout) t = Ok t' -> hs_ok t'.
Proof using.
  intros Ei Hok E. unfold on_ln in E. rewrite Ei in E. destruct (0 <? timeout).
  - by eapply (sweep_hs _ _ (mkTListener s1 t.(ssls))).
  - by injection E as <-.
Qed.

Lemma titer_hs i now timeout t t' :
  max_ok -> wf t.(ln) -> hs_ok t -> taccept_ok i t -> titer hd i now timeout t = Ok t' -> hs_ok t'.
Proof using.
  intros Hmax Hwf Hok Ha E. destruct i as [id nfd|e|f canWrite canRead eof w1 h r d w2]; cbn [titer] in E.
  - set (t1 := mkTListener t.(ln) (<[id := newSSL]> t.(ssls))) in E.
    set (s1 := attachConn id now (with_fdconns (<[nfd := id]>)
                 (with_interest (<[nfd := MRead]>) (with_conns (<[id := newConn nfd]>) t.(ln))))).
    set (s2 := with_count (fun n => n + 1) s1).
    apply (swept_hs (Accept id nfd) now timeout t1 t' (emit (EvFdCount s2.(count)) s2)); [done| |done].
    eapply (hs_step id); [exact Hok| |cbn [ssls]; apply delete_insert_eq|].
    + unfold others. cbn. by rewrite delete_alter_eq, delete_insert_eq.
    + intros c'. cbn. rewrite lookup_alter_eq, !lookup_insert_eq. intros [= <-]. by exists newSSL.
  - apply (swept_hs (AcceptError e) now timeout t t'
             (match e with
              | AcceptAgain => t.(ln)
              | AcceptFails => emit (EvError (bs "accept")) t.(ln)
              | SetNonblockFails _ => emit (EvError (bs "setnonblock")) t.(ln)
              | SslFails _ => emit (EvError (bs "ssl")) t.(ln)
              end)); [done| |done]. by destruct e.
  - destruct (match t.(ln).(fdconns) !! f with Some _ => _ | None => _ end) as [t1|[]| |] eqn:E1; try done.
    cbn [rbind] in E.
    assert (hs_ok t1) as Hok1; [|destruct (0 <? timeout); [by eapply sweep_hs|by injection E as <-]].
    destruct (t.(ln).(fdconns) !! f) as [id|] eqn:Hf; [|by injection E1 as <-].
    pose proof Hwf as [[Hm _ _ _] _]. apply Hm in Hf as (c & Hid & Hcl & _).
    pose proof (touch_Inv id now t.(ln) c Hwf Hid Hcl) as Hi.
    set (s1 := attachConn id now (detach id t.(ln))) in *.
    assert (hs_ok (mkTListener s1 t.(ssls))) as Hok2.
    { eapply (hs_step id); [exact Hok|unfold others; cbn; apply delete_alter_eq|done|]. intros c' Hc'.
      cbn [ln] in Hc'. unfold s1, attachConn in Hc'. rewrite lookup_update, decide_True in Hc' by done.
      cbn in Hc'. rewrite Hid in Hc'. injection Hc' as <-.
      destruct (Hok id c Hid) as (ssl & Es & Hg). exists ssl. split; [exact Es|exact Hg]. }
    destruct (if canWrite then _ else _) as [t2|[]| |] eqn:E2 in E1; try done. cbn [rbind] in E1.
    assert (hs_ok t2 /\ Inv conn_ok id t2.(ln)) as [Hok3 Hi3].
    { destruct canWrite; [|by injection E2 as <-]. eapply write_hs; [exact Hok2|exact Hi| | |exact E2].
      - cbn [ln]. unfold s1, attachConn. rewrite lookup_update, decide_True by done. cbn. by rewrite Hid.
      - done. }
    destruct (if canRead then _ else _) as [t3|[]| |] eqn:E3 in E1; try done. cbn [rbind] in E1.
    assert (hs_ok t3 /\ Inv conn_ok id t3.(ln)) as [Hok4 (_ & _ & c3 & Hc3 & _)].
    { destruct canRead; [|by injection E3 as <-]. by eapply read_hs. }
    destruct eof; [by eapply on_close_hs|by injection E1 as <-].
Qed.

Lemma treachable_hs timeout t : max_ok -> treachable hd timeout t -> hs_ok t.
Proof using.
  intros Hmax. induction 1 as [f u|i now t t' Hr IH Ha Hi|id ssl p t s' _ IH Hs Hh Ea|id t s' _ IH Ef]; [done|..].
  - eapply titer_hs; [done| |exact IH|exact Ha|exact Hi].
    eapply reachable_wf; [done|by apply treachable_plain].
  - apply append_out_Ok in Ea as (c & Hc & _ & ->). eapply (hs_step id); [exact IH|apply others_update|done|].
    cbn [ln]. intros c'. rewrite lookup_update, decide_True, Hc by done. intros [= <-].
    exists ssl. split; [done|]. intros _. congruence.
  - apply conn_Flush_Ok in Ef as (c & Hc & ->). by destruct c.(closedFlag).
Qed.

(** Before the handshake is done, an event of a connection ends it or goes on with
    it, and leaves everything else alone. *)
Definition reads_only (f : Z) (h : answer) : tinput :=
  TReady f false true false h h h [] h.

Lemma handshake_step f id c now h t ssl' x :
  t.(ln).(fdconns) !! f = Some id -> t.(ln).(conns) !! id = Some c -> c.(closedFlag) = false ->
  t.(ssls) !! id = Some newSSL -> SSL_Read h h newSSL = (ssl', (x, Some EAGAIN)) -> x = -1 ->
  exists t', titer hd (reads_only f h) now 0 t = Ok t' /\
    t'.(ln).(conns) !! id = Some (set_lastTs now c) /\ t'.(ln).(log) = t.(ln).(log) /\
    t'.(ln).(user) = t.(ln).(user) /\ t'.(ln).(fdconns) = t.(ln).(fdconns) /\
    t'.(ssls) = <[id := ssl']> t.(ssls).
Proof using.
  intros Hf Hc Hop Hs Er ->. unfold reads_only. cbn [titer]. rewrite Hf. cbn [rbind].
  unfold tls_readConn. cbn [ssls ln]. rewrite Hs. cbn [checked checked_in rbind].
  set (s1 := attachConn id now (detach id t.(ln))).
  assert (s1.(conns) !! id = Some (set_lastTs now c)) as H1.
  { unfold s1, attachConn. rewrite lookup_update, decide_True by done. cbn. by rewrite Hc. }
  unfold conn_at at 1. rewrite H1. cbn [checked checked_in lift rbind set_lastTs closedFlag]. rewrite Hop, Er.
  unfold readConn, conn_at. rewrite H1. cbn [checked checked_in rbind set_lastTs closedFlag]. rewrite Hop. cbn.
  eexists. split; [reflexivity|]. done.
Qed.
End tls.

Section properties.
Context `{Env} `{OpenSSLLaws} {U : Type} (hd : @Handlers U).
Local Abbreviation TListener := (@TListener U).

(** ** Properties *)

(** What a read and a write on a TLS connection come to, by what the OpenSSL calls
    answer; [hs] tells whether the handshake is done. *)
Definition read_outcome (hs : bool) (h r : answer) (d : bytes) : rresult :=
  if hs then
    if 0 <? r.(ret) then RData (take (Z.to_nat r.(ret)) d)
    else if r.(sslerr) =? SSL_ERROR_ZERO_RETURN then REof
    else if r.(sslerr) =? SSL_ERROR_WANT_READ then RAgain
    else RErr (bs "sslread")
  else if (h.(ret) =? 1) || (h.(sslerr) =? SSL_ERROR_WANT_READ) then RAgain
  else RErr (bs "sslhandshake").
Definition write_outcome (hs : bool) (w : answer) : wresult :=
  if hs then
    if 0 <? w.(ret) then WN w.(ret)
    else if w.(sslerr) =? SSL_ERROR_WANT_WRITE then WAgain (- SSL_ERROR_WANT_WRITE)
    else WErr (bs "sslwrite")
  else WErr (bs "sslhandshake").

(** The event of the plain loop that an event with TLS amounts to, and which handshakes
    are done after it. *)
Definition plain_input (i : tinput) (t : TListener) : input :=
  match i with
  | TAccept id nfd => Accept id nfd
  | TAcceptError e => AcceptError e
  | TReady f canWrite canRead eof w1 h r d w2 =>
      let hs := (event_ssl f t).(handshaked) in
      Ready f canWrite canRead eof (write_outcome hs w1) (read_outcome hs h r d)
        (write_outcome (hs || (h.(ret) =? 1)) w2)
  end.
Definition handshakes (t : TListener) : gmap Z bool := handshaked <$> t.(ssls).
Definition handshakes_after (i : tinput) (t : TListener) : gmap Z bool :=
  match i with
  | TAcceptError _ => handshakes t
  | TAccept id _ => <[id := false]> (handshakes t)
  | TReady f _ canRead _ _ h _ _ _ =>
      match t.(ln).(fdconns) !! f with
      | Some id =>
          if canRead : bool then <[id := (event_ssl f t).(handshaked) || (h.(ret) =? 1)]> (handshakes t)
          else handshakes t
      | None => handshakes t
      end
  end.

(** The answers in an event are answers of OpenSSL. *)
Definition tanswers_ok (i : tinput) : Prop :=
  match i with
  | TReady _ _ _ _ w1 h r _ w2 => answer_ok w1 /\ shakes_ok h /\ answer_ok r /\ answer_ok w2
  | _ => True
  end.

Lemma write_outcome_eq w ssl : answer_ok w -> write_result (SSL_Write w ssl) = write_outcome ssl.(handshaked) w.
Proof using All.
  intros Hw. destruct (handshaked ssl) eqn:Hs; [by apply SSL_Write_answers|]. unfold SSL_Write. by rewrite Hs.
Qed.

Lemma raw_plain i t : tanswers_ok i -> raw_input i t = plain_input i t.
Proof using All.
  destruct i as [id nfd|e|f canWrite canRead eof w1 h r d w2]; [done..|]. intros (Hw1 & Hh & Hr & Hw2).
  unfold raw_input, plain_input. pose proof (SSL_Read_answers h r d (event_ssl f t) Hh Hr) as E1.
  pose proof (SSL_Read_state h r (event_ssl f t) Hh) as E2.
  destruct (SSL_Read h r (event_ssl f t)) as [ssl x]. cbn [fst snd] in E1, E2.
  by rewrite !write_outcome_eq, E2, E1 by done.
Qed.

Lemma next_handshakes i t :
  tanswers_ok i -> handshaked <$> next_ssls i t = handshakes_after i t.
Proof using.
  destruct i as [id nfd|e|f canWrite canRead eof w1 h r d w2]; [|done|].
  - intros _. unfold next_ssls, handshakes_after, handshakes. by rewrite fmap_insert.
  - intros (_ & Hh & _). unfold next_ssls, handshakes_after, event_ssl, handshakes.
    destruct (t.(ln).(fdconns) !! f); [|done]. destruct canRead; [|done].
    by rewrite fmap_insert, SSL_Read_state.
Qed.

(** C9: TLS and plain TCP are one loop.  Every reachable state of a listener with
    TLS is, apart from the [SSL] objects, a reachable state of a plain one, so that
    the invariants of the plain loop hold in it.  And an event in it is the event of the
    plain loop in which [read(2)] and [write(2)] answer this, whatever OpenSSL answers (an
    error number below 10000 where a call fails, with an [errno] that is not negative): before the handshake is
    done nothing is read, "try again" when the handshake has just been done or waits for
    input and an error otherwise; after it, the bytes, the end of the stream for a
    close-notify alert, "try again" when OpenSSL waits for input (for writing: for
    output), and an error otherwise.  The handshake is done after a read in which
    OpenSSL says so, and stays done.  The two loops end in the same state, or panic in
    the same state; only when writing closes the connection and the same event also
    reads from it, the freed [SSL] is used. *)
Theorem tls_refines timeout (t : TListener) i now :
  max_ok -> treachable hd timeout t -> taccept_ok i t -> tanswers_ok i ->
  reachable hd timeout t.(ln) /\
  match titer hd i now timeout t with
  | Ok t' => iter hd (plain_input i t) now timeout t.(ln) = Ok t'.(ln) /\ handshakes t' = handshakes_after i t
  | Err (TPanicked s) => iter hd (plain_input i t) now timeout t.(ln) = Err (Panicked s)
  | Err FreedSSL => freed_by_write hd (plain_input i t) now t.(ln)
  | Err Waiting | Panic | OutOfFuel => False
  end.
Proof using All.
  intros Hmax Hr Ha Hans. pose proof (treachable_plain hd timeout t Hr) as Hp. split; [done|].
  pose proof (reachable_wf hd timeout _ Hmax Hp) as Hwf. pose proof (core_map _ (proj1 Hwf)) as Hm.
  pose proof (titer_sim hd i now timeout t) as Hs. pose proof (taccept_raw i t Ha) as Hok.
  pose proof (iter_post hd _ now timeout t.(ln) Hmax Hwf Hok) as Hi. rewrite raw_plain in * by done.
  unfold sim in Hs. destruct (titer hd i now timeout t) as [t'|[| |]| |].
  - destruct Hs as [-> E]. split; [done|]. unfold handshakes. by rewrite <- E, next_handshakes.
  - by rewrite Hs in Hi.
  - destruct Hs as [(f & id & Hf & c' & Hc' & Hcl)|Hs]; [|by rewrite raw_plain in Hs].
    apply Hm in Hf as (c & Hc & Hop & _). unfold attachConn in Hc'. rewrite lookup_update, decide_True in Hc' by done.
    cbn in Hc'. rewrite Hc in Hc'. injection Hc' as <-. cbn in Hcl. congruence.
  - done.
  - destruct Hs as [Hmi|Hs]; [|by rewrite Hs in Hi]. destruct i as [| |f]; try done.
    destruct Hmi as (id & (c & Hc & _)%Hm & Hno). destruct (treachable_hs hd timeout t Hmax Hr id c Hc) as (ssl & E & _).
    congruence.
  - by rewrite Hs in Hi.
Qed.

(** C10: nothing passes before the handshake: in every reachable state each open
    connection has an [SSL], and one whose handshake is not done has no input, no
    output and no websocket; so [Write] is never called on it, and its error "not
    finished" is never met by the loop. *)
Theorem tls_handshake_first timeout (t : TListener) id c :
  max_ok -> treachable hd timeout t -> t.(ln).(conns) !! id = Some c -> c.(closedFlag) = false ->
  exists ssl, t.(ssls) !! id = Some ssl /\ (ssl.(handshaked) = false -> virgin c).
Proof using.
  intros Hmax Hr Hc Hop. destruct (treachable_hs hd timeout t Hmax Hr id c Hc) as (ssl & E & Hg).
  exists ssl. split; [done|]. by apply Hg.
Qed.

(** The handshake: however many times OpenSSL waits for more of it, the connection
    is kept as it was and nobody is told; when it is done, the [SSL] says so. *)
Theorem tls_handshake f id c hs (h : answer) (t : TListener) :
  t.(ln).(fdconns) !! f = Some id -> t.(ln).(conns) !! id = Some c -> c.(closedFlag) = false ->
  t.(ssls) !! id = Some newSSL ->
  Forall (fun '(h, _) => error_ok h /\ h.(ret) <> 1 /\ h.(sslerr) = SSL_ERROR_WANT_READ) hs ->
  h.(ret) = 1 ->
  exists t' now', foldl (fun t '(h, now) => let! t := t in titer hd (reads_only f h) now 0 t) (Ok t)
                    (hs ++ [(h, 0)]) = Ok t' /\
    t'.(ln).(conns) !! id = Some (set_lastTs now' c) /\ t'.(ln).(log) = t.(ln).(log) /\
    t'.(ln).(user) = t.(ln).(user) /\ t'.(ssls) !! id = Some (mkSSL true).
Proof using All.
  intros Hf Hc Hop Hs Hall Hh. rewrite foldl_app. cbn [foldl].
  revert t c Hf Hc Hop Hs. induction Hall as [|[h1 now] hs (Ha & Hr & He) Hall IH]; intros t c Hf Hc Hop Hs.
  - cbn [foldl rbind].
    destruct (handshake_step hd f id c 0 h t (mkSSL true) (-1) Hf Hc Hop Hs) as (t' & E & E1 & E2 & E3 & _ & E4);
      [|done|].
    { unfold SSL_Read, X_handshake. cbn [newSSL handshaked negb]. by rewrite Hh. }
    exists t', 0. split_and!; [exact E|done|done|done|by rewrite E4, lookup_insert_eq].
  - cbn [foldl rbind].
    destruct (handshake_step hd f id c now h1 t newSSL (-1) Hf Hc Hop Hs) as (t1 & E & E1 & E2 & E3 & E4 & E5);
      [|done|].
    { unfold SSL_Read, X_handshake. cbn [newSSL handshaked negb].
      rewrite (proj2 (Z.eqb_neq _ _) Hr). pose proof (get_error_negative h1 Ha).
      rewrite (proj2 (Z.eqb_neq (get_error h1) 1)) by lia.
      pose proof ssl_errors_differ as Hnd. rewrite !NoDup_cons, !elem_of_cons in Hnd.
      rewrite !get_error_eq by (done || by (rewrite !elem_of_cons; tauto)). rewrite He, Z.eqb_refl.
      rewrite (proj2 (Z.eqb_neq SSL_ERROR_WANT_READ SSL_ERROR_WANT_WRITE)) by tauto. done. }
    rewrite E. destruct (IH t1 (set_lastTs now c)) as (t' & n & F & F1 & F2 & F3 & F4); try done.
    { by rewrite E4. }
    { by rewrite E5, lookup_insert_eq. }
    exists t', n. split_and!; [exact F|done|congruence|congruence|done].
Qed.

(** ** What goes wrong *)

(** Use after free.  A connection with output left is reported as ready for
    writing and for reading in one event, as happens when the peer resets it; the
    write fails, the connection is closed and its [SSL] freed, and then the same
    event reads through it.  On a plain connection the same event only reads a
    closed descriptor. *)
Theorem tls_use_after_free f id c ssl w h r d w2 eof now (t : TListener) :
  t.(ln).(fdconns) !! f = Some id -> t.(ln).(conns) !! id = Some c -> c.(closedFlag) = false ->
  closable hd c -> c.(lock) = false -> c.(outb) <> [] -> t.(ssls) !! id = Some ssl -> ssl.(handshaked) = true ->
  answer_ok w -> w.(ret) <= 0 -> w.(sslerr) <> SSL_ERROR_WANT_WRITE ->
  titer hd (TReady f true true eof w h r d w2) now 0 t = Err FreedSSL /\
  exists s', iter hd (Ready f true true eof (WErr (bs "write")) (RData d) (WN 0)) now 0 t.(ln) = Ok s' /\
    exists c', s'.(conns) !! id = Some c' /\ c'.(closedFlag) = true.
Proof using All.
  intros Hf Hc Hop Hcw Hl Ho Hs Hh Hw Hr He.
  set (s1 := attachConn id now (detach id t.(ln))). set (c1 := set_lastTs now c).
  assert (s1.(conns) !! id = Some c1) as Hc1.
  { unfold s1, attachConn. rewrite lookup_update, decide_True by done. cbn. by rewrite Hc. }
  assert ((len c.(outb) =? 0) = false) as Hlen.
  { apply Z.eqb_neq. intros E. by apply len_0_inv in E. }
  assert (forall typ, exists s2 c2, writeConn hd id (WErr typ) s1 = Ok s2 /\ s2.(conns) !! id = Some c2 /\
            c2.(closedFlag) = true) as Hwr.
  { intros typ. unfold writeConn, spinLock, conn_at. rewrite Hc1. cbn [checked checked_in rbind c1 set_lastTs lock].
    rewrite Hl. cbn [rbind]. rewrite lookup_update, decide_True, Hc1 by done.
    cbn [fmap option_fmap option_map checked checked_in rbind c1 set_lastTs set_lock outb]. rewrite Hlen.
    set (s2 := spinUnlock id _).
    assert (s2.(conns) !! id = Some (set_lock false (set_lock true c1))) as Hc2
      by (unfold s2, spinUnlock; by rewrite !lookup_update, !decide_True, Hc1 by done).
    destruct (closeConn_maps hd id typ true s2 _ Hc2 Hop Hcw) as (s3 & E & F & _). rewrite E. eexists _, _. split; [done|].
    rewrite F, lookup_update, decide_True, Hc2 by done. split; [done|]. done. }
  split.
  - cbn [titer]. rewrite Hf. fold s1. cbn [rbind]. unfold tls_writeConn. cbn [ssls ln]. rewrite Hs.
    cbn [checked checked_in rbind]. unfold spinLock at 1, conn_at at 1. rewrite Hc1. cbn [checked checked_in rbind c1 set_lastTs lock].
    rewrite Hl. cbn [lift rbind]. unfold conn_at at 1. rewrite lookup_update, decide_True, Hc1 by done.
    cbn [fmap option_fmap option_map checked checked_in lift rbind c1 set_lastTs set_lock outb closedFlag].
    rewrite Hop, andb_false_r. rewrite SSL_Write_answers by done.
    rewrite (proj2 (Z.ltb_ge 0 (ret w))) by lia. rewrite (proj2 (Z.eqb_neq _ _) He).
    destruct (Hwr (bs "sslwrite")) as (s2 & c2 & -> & Hc2 & Hcl). cbn [lift rbind].
    unfold tls_readConn. cbn [ssls ln]. rewrite Hs. cbn [checked checked_in rbind]. unfold conn_at. rewrite Hc2.
    cbn [checked checked_in lift rbind]. by rewrite Hcl.
  - unfold iter. rewrite Hf. fold s1. destruct (Hwr (bs "write")) as (s2 & c2 & -> & Hc2 & Hcl). cbn [rbind].
    assert (forall typ b, closeConnWithError hd id typ b s2 = Ok s2) as Hcc.
    { intros typ b. unfold closeConnWithError, conn_at. rewrite Hc2. cbn [checked checked_in rbind]. by rewrite Hcl. }
    unfold readConn, conn_at. rewrite Hc2. cbn [checked checked_in rbind]. rewrite Hcl, Hcc. cbn [rbind].
    exists s2. destruct eof; rewrite ?Hcc; (split; [done|by exists c2]).
Qed.
End properties.

(** ** Witnesses *)

(** The constants of OpenSSL. *)
#[export] Instance openssl : OpenSSL := {
  SSL_ERROR_WANT_READ := 2; SSL_ERROR_WANT_WRITE := 3; SSL_ERROR_ZERO_RETURN := 6; SSL_ERROR_SYSCALL := 5;
}.
#[export] Instance openssl_laws : OpenSSLLaws.
Proof. split; [by repeat constructor|by apply (bool_decide_unpack _); vm_compute]. Qed.

(** A listener with one TLS connection, whose handshake is done or not, with some output. *)
Definition ex_tls (hs : bool) (out : bytes) : @TListener Z :=
  mkTListener (update 1 (set_out out) ex_listener) {[ 1 := mkSSL hs ]}.
Definition ex_done : answer := mkAnswer 1 0 0.
Definition ex_more : answer := mkAnswer (-1) 2 0.

Lemma ex_treachable : @treachable default_env openssl Z ex_handlers 0 (ex_tls false []).
Proof.
  eapply (@treach_step default_env openssl Z ex_handlers 0 (TAccept 1 5) 10); [apply (treach_init _ _ 3 0)|done|].
  vm_compute. reflexivity.
Qed.

Lemma tls_refines_witness :
  let i := TReady 5 true true false ex_done ex_done ex_more [1] ex_done in
  @reachable default_env Z ex_handlers 0 (ex_tls false []).(ln) /\
  match @titer default_env openssl Z ex_handlers i 11 0 (ex_tls false []) with
  | Ok t' => @iter default_env Z ex_handlers (@plain_input openssl Z i (ex_tls false [])) 11 0 (ex_tls false []).(ln)
             = Ok t'.(ln) /\ handshakes t' = {[1 := true]}
  | Err (TPanicked s) => @iter default_env Z ex_handlers (@plain_input openssl Z i (ex_tls false [])) 11 0
                           (ex_tls false []).(ln) = Err (Panicked s)
  | Err FreedSSL => freed_by_write ex_handlers (@plain_input openssl Z i (ex_tls false [])) 11 (ex_tls false []).(ln)
  | Err Waiting | Panic | OutOfFuel => False
  end.
Proof.
  apply (@tls_refines default_env openssl openssl_laws Z ex_handlers 0);
    [apply max_ok_default|apply ex_treachable|done|by split_and!].
Defined.

Lemma tls_handshake_first_witness :
  exists ssl, (ex_tls false []).(ssls) !! 1 = Some ssl /\
    (ssl.(handshaked) = false -> virgin (set_lastTs 10 (newConn 5))).
Proof.
  apply (@tls_handshake_first default_env openssl Z ex_handlers 0 (ex_tls false []) 1 (set_lastTs 10 (newConn 5)));
    [apply max_ok_default|apply ex_treachable|done|done].
Defined.

Lemma tls_handshake_witness :
  exists t' now', foldl (fun t '(h, now) => let! t := t in @titer default_env openssl Z ex_handlers (reads_only 5 h) now 0 t)
      (Ok (ex_tls false [])) ([(ex_more, 11)] ++ [(ex_done, 0)]) = Ok t' /\
    t'.(ln).(conns) !! 1 = Some (set_lastTs now' (set_lastTs 10 (newConn 5))) /\
    t'.(ln).(log) = (ex_tls false []).(ln).(log) /\
    t'.(ln).(user) = (ex_tls false []).(ln).(user) /\ t'.(ssls) !! 1 = Some (mkSSL true).
Proof.
  apply (@tls_handshake default_env openssl openssl_laws Z ex_handlers); try done.
  by repeat constructor.
Defined.

Lemma tls_use_after_free_witness :
  @titer default_env openssl Z ex_handlers
    (TReady 5 true true true (mkAnswer (-1) 5 32) ex_done (mkAnswer (-1) 5 104) [] ex_done) 11 0 (ex_tls true [43])
  = Err FreedSSL /\
  exists s', @iter default_env Z ex_handlers
      (Ready 5 true true true (WErr (bs "write")) (RData []) (WN 0)) 11 0 (ex_tls true [43]).(ln) = Ok s' /\
    exists c', s'.(conns) !! 1 = Some c' /\ c'.(closedFlag) = true.
Proof.
  apply (@tls_use_after_free default_env openssl openssl_laws Z ex_handlers 5 1
           (set_out [43] (set_lastTs 10 (newConn 5))) (mkSSL true)); 
    (by vm_compute) || (intros _; by vm_compute) || (by right) || (cbn; lia).
Defined.
