(* ===== verification/TlsWrite.v ===== *)
(** Writing again over TLS (src/server.go, [writeConn]; src/ssl_cgo.go, [X_write]): what
    OpenSSL did not take must be offered again from the same memory.

    When [SSL_write] answers "want write", OpenSSL has made a record of the bytes and
    demands that the next call passes the same buffer, unless the mode
    [SSL_MODE_ACCEPT_MOVING_WRITE_BUFFER] is set, which the code does not do.  The buffer
    is the output of the connection, and [append] may move that ([GoMem]). *)

From S2P Require Import Prelude GoStd Server GoMem Tls.

Section retry.
Context `{OpenSSLLaws} (grow : nat -> nat -> nat).

(** OpenSSL: what it says to a call that is not the same one again; the pointer and the
    length of the call before, if that is to be repeated. *)
Context (SSL_ERROR_SSL : Z) (bad_retry : option (nat * nat * nat) -> nat * nat -> nat -> bool).
Hypothesis SSL_ERROR_SSL_other : 0 < SSL_ERROR_SSL < 10000 /\ SSL_ERROR_SSL <> SSL_ERROR_WANT_WRITE /\
                                 SSL_ERROR_SSL <> SSL_ERROR_SYSCALL.
Hypothesis bad_retry_first : forall p n, bad_retry None p n = false.
Hypothesis bad_retry_again : forall p0 n0 p n,
  bad_retry (Some (p0, n0)) p n = negb (bool_decide (p = p0 /\ (n0 <= n)%nat)).

(** A connection that has shaken hands: its output; the call that OpenSSL waits for;
    what the peer gets. *)
Record tls_conn := mkTls {
  theap : memory;
  tout : gslice;
  again : option (nat * nat * nat);
  tsent : bytes;
  topen : bool;
}.

(** What the network does with the call: it takes everything (OpenSSL is not asked for
    partial writes), it is full, it is broken. *)
Inductive net := Taken | Full | Broken (errno : Z).

Definition ssl_answer (c : tls_conn) (w : net) : answer :=
  let p := (c.(tout).(arr), c.(tout).(off)) in
  if bad_retry c.(again) p c.(tout).(slen) then mkAnswer (-1) SSL_ERROR_SSL 0
  else match w with
       | Taken => mkAnswer (Z.of_nat c.(tout).(slen)) 0 0
       | Full => mkAnswer (-1) SSL_ERROR_WANT_WRITE 0
       | Broken e => mkAnswer (-1) SSL_ERROR_SYSCALL e
       end.

(** The writers: [c.out = append(c.out, p...)]. *)
Definition tls_append (p : bytes) (c : tls_conn) : tls_conn :=
  let (h, s) := append grow c.(theap) c.(tout) p in mkTls h s c.(again) c.(tsent) c.(topen).

(** [writeConn], as long as the connection is open. *)
Definition tls_flush (w : net) (c : tls_conn) : tls_conn :=
  let n := c.(tout).(slen) in
  if negb c.(topen) || (n =? 0)%nat then c
  else
    let took k := mkTls c.(theap) (sub_from c.(tout) k) None (c.(tsent) ++ take k (view c.(theap) c.(tout))) true in
    match write_result (SSL_Write (ssl_answer c w) (mkSSL true)) with
    | WN k =>
        if k =? Z.of_nat n
        then mkTls c.(theap) (sub_to c.(tout) 0) None (c.(tsent) ++ view c.(theap) c.(tout)) true
        else took (Z.to_nat k)
    | WAgain k =>
        if 0 <? k then took (Z.to_nat k)
        else
          let call := (c.(tout).(arr), c.(tout).(off), n) in
          mkTls c.(theap) c.(tout) (Some (default call c.(again))) c.(tsent) true
    | WErr _ => mkTls c.(theap) c.(tout) c.(again) c.(tsent) false
    end.

Definition repeated (c : tls_conn) : Prop :=
  bad_retry c.(again) (c.(tout).(arr), c.(tout).(off)) c.(tout).(slen) = false.

Definition delivered (c : tls_conn) : bytes := c.(tsent) ++ view c.(theap) c.(tout).

Lemma get_error_want n : get_error (mkAnswer n SSL_ERROR_WANT_WRITE 0) = - SSL_ERROR_WANT_WRITE.
Proof using All.
  pose proof ssl_errors_differ as Hd. unfold get_error. cbn.
  destruct (Z.eqb_spec SSL_ERROR_WANT_WRITE SSL_ERROR_SYSCALL) as [E|]; [|done]. exfalso.
  rewrite E in Hd. apply NoDup_cons in Hd as [_ [Hd _]%NoDup_cons]. apply Hd. right. by left.
Qed.

Lemma want_write_positive : 0 < SSL_ERROR_WANT_WRITE < 10000.
Proof using All. pose proof ssl_errors_small as Hs. rewrite Forall_forall in Hs. apply Hs. right. by left. Qed.

Lemma flush_taken c :
  c.(topen) = true -> c.(tout).(slen) <> 0%nat -> repeated c ->
  tls_flush Taken c
  = mkTls c.(theap) (sub_to c.(tout) 0) None (c.(tsent) ++ view c.(theap) c.(tout)) true.
Proof using All.
  intros Ho Hn Hr. unfold tls_flush. rewrite Ho, (proj2 (Nat.eqb_neq _ _) Hn). cbn [negb orb].
  unfold ssl_answer. rewrite Hr. unfold SSL_Write, X_write. cbn [handshaked negb ret].
  rewrite (proj2 (Z.ltb_lt 0 (Z.of_nat c.(tout).(slen)))) by lia. cbn [write_result].
  rewrite (proj2 (Z.ltb_lt 0 (Z.of_nat c.(tout).(slen)))) by lia. cbn [write_result]. by rewrite Z.eqb_refl.
Qed.

Lemma flush_full c :
  c.(topen) = true -> c.(tout).(slen) <> 0%nat -> repeated c ->
  tls_flush Full c
  = mkTls c.(theap) c.(tout)
      (Some (default (c.(tout).(arr), c.(tout).(off), c.(tout).(slen)) c.(again))) c.(tsent) true.
Proof using All.
  intros Ho Hn Hr. pose proof want_write_positive. unfold tls_flush. rewrite Ho, (proj2 (Nat.eqb_neq _ _) Hn). cbn [negb orb].
  unfold ssl_answer. rewrite Hr. unfold SSL_Write, X_write. cbn [handshaked negb ret]. change (0 <? -1) with false. cbv iota.
  rewrite get_error_want, (proj2 (Z.ltb_ge 0 _)), Z.eqb_refl by lia. cbn [write_result].
  by rewrite (proj2 (Z.ltb_ge 0 _)) by lia.
Qed.

(** A call that is not the same again is refused, and the connection closed. *)
Lemma flush_refused w c :
  c.(topen) = true -> c.(tout).(slen) <> 0%nat -> ~ repeated c ->
  tls_flush w c = mkTls c.(theap) c.(tout) c.(again) c.(tsent) false.
Proof using All.
  intros Ho Hn Hr. pose proof want_write_positive. unfold tls_flush. rewrite Ho, (proj2 (Nat.eqb_neq _ _) Hn). cbn [negb orb].
  unfold ssl_answer. unfold repeated in Hr. apply not_false_is_true in Hr. rewrite Hr.
  unfold SSL_Write, X_write, get_error. cbn [handshaked negb ret sslerr]. change (0 <? -1) with false. cbv iota.
  destruct SSL_ERROR_SSL_other as (? & ? & ?). rewrite (proj2 (Z.eqb_neq SSL_ERROR_SSL _)) by done.
  rewrite (proj2 (Z.ltb_ge 0 _)) by lia. rewrite (proj2 (Z.eqb_neq _ _)) by lia. done.
Qed.

(** The network is full while there is output, another goroutine writes [p], and then
    everything could be sent.  If the array of the output has room for [p], everything
    is; if it has not, [append] has moved the output, OpenSSL refuses the call and the
    connection is closed, with what was written. *)
Theorem tls_retry p c :
  valid c.(theap) c.(tout) -> c.(topen) = true -> c.(tout).(slen) <> 0%nat -> c.(again) = None ->
  let c' := tls_flush Taken (tls_append p (tls_flush Full c)) in
  if decide (c.(tout).(slen) + length p <= c.(tout).(scap))%nat
  then c'.(topen) = true /\ c'.(tsent) = delivered c ++ p /\ c'.(tout).(slen) = 0%nat
  else c'.(topen) = false /\ c'.(tsent) = c.(tsent).
Proof using All.
  intros Hv Ho Hn Ha. cbn zeta. assert (repeated c) as Hr by (unfold repeated; by rewrite Ha, bad_retry_first).
  rewrite flush_full by done. rewrite Ha. cbn [default]. unfold tls_append. cbn [theap tout again tsent topen].
  pose proof (append_view grow _ _ p Hv) as Hvw. pose proof (valid_lookup _ _ Hv) as Hlt. unfold append in *. cbn zeta in *.
  case_decide as E; cbn [fst snd] in Hvw.
  - rewrite flush_taken; cbn [topen tout slen tsent theap]; [|done|cbn; lia|].
    + split_and!; [done| |done]. unfold delivered. by rewrite Hvw, <- app_assoc.
    + unfold repeated. cbn. rewrite bad_retry_again, bool_decide_true; [done|]. split; [done|lia].
  - rewrite flush_refused; cbn [topen tout slen tsent]; [done|done|cbn; lia|].
    unfold repeated. cbn. rewrite bad_retry_again, bool_decide_false; [done|]. intros [[= E' _] _]. lia.
Qed.

End retry.

(** ** Concrete runs *)

Definition ex_bad_retry (a : option (nat * nat * nat)) (p : nat * nat) (n : nat) : bool :=
  match a with Some (p0, n0) => negb (bool_decide (p = p0 /\ (n0 <= n)%nat)) | None => false end.

(** Four bytes of output in an array of eight: five more do not fit. *)
Definition ex_tls_conn : tls_conn := mkTls [bs "head0000"] (mkSlice 0 0 4 8) None [] true.

Lemma tls_retry_witness :
  let c' := tls_flush 1 ex_bad_retry Taken (tls_append (fun c n => n) (bs "-tail") (tls_flush 1 ex_bad_retry Full ex_tls_conn)) in
  c'.(topen) = false /\ c'.(tsent) = [].
Proof.
  assert (0 < 1 < 10000 /\ 1 <> SSL_ERROR_WANT_WRITE /\ 1 <> SSL_ERROR_SYSCALL) as H1 by (by vm_compute).
  apply (tls_retry (fun c n => n) 1 ex_bad_retry H1 (fun p n => eq_refl) (fun p0 n0 p n => eq_refl) (bs "-tail") ex_tls_conn); try done.
  split; [cbn; lia|]. eexists. split; [reflexivity|]. cbn. lia.
Defined.
