(* ===== verification/Listen.v ===== *)
(** The resources of a listener (src/server.go: [Listen], [LoadCertPEMs], [Close];
    src/ssl_cgo.go: [X_init], [X_accept]; src/internal: [SetKeepAlive]).

    The process has a table of descriptors, and OpenSSL objects that are freed by hand;
    the threads that are locked are counted.  What the libraries and the kernel answer is
    an argument.  [Close] is a list of steps, since other goroutines open descriptors in
    between. *)

From stdpp Require Import gmap.
From S2P Require Import Prelude.

(** ** OpenSSL's objects *)

(** How many there are that nobody has freed: contexts, certificates, keys, buffers,
    connections, strings of C. *)
Record objects := mkObjects {
  ctxs : nat; certs : nat; pkeys : nat; bios : nat; ssl_objs : nat; cstrings : nat;
}.
Definition add_ctxs n o := mkObjects (n + o.(ctxs)) o.(certs) o.(pkeys) o.(bios) o.(ssl_objs) o.(cstrings).
Definition add_certs n o := mkObjects o.(ctxs) (n + o.(certs)) o.(pkeys) o.(bios) o.(ssl_objs) o.(cstrings).
Definition add_pkeys n o := mkObjects o.(ctxs) o.(certs) (n + o.(pkeys)) o.(bios) o.(ssl_objs) o.(cstrings).
Definition add_bios n o := mkObjects o.(ctxs) o.(certs) o.(pkeys) (n + o.(bios)) o.(ssl_objs) o.(cstrings).
Definition add_ssl n o := mkObjects o.(ctxs) o.(certs) o.(pkeys) o.(bios) (n + o.(ssl_objs)) o.(cstrings).
Definition add_cstrings n o := mkObjects o.(ctxs) o.(certs) o.(pkeys) o.(bios) o.(ssl_objs) (n + o.(cstrings)).
Definition free_ctx o := mkObjects (pred o.(ctxs)) o.(certs) o.(pkeys) o.(bios) o.(ssl_objs) o.(cstrings).
Definition free_bio o := mkObjects o.(ctxs) o.(certs) o.(pkeys) (pred o.(bios)) o.(ssl_objs) o.(cstrings).
Definition free_ssl o := mkObjects o.(ctxs) o.(certs) o.(pkeys) o.(bios) (pred o.(ssl_objs)) o.(cstrings).
Definition free_cstrings n o := mkObjects o.(ctxs) o.(certs) o.(pkeys) o.(bios) o.(ssl_objs) (o.(cstrings) - n).

(** What OpenSSL answers to the calls of [X_init]: whether there is a context; whether
    the PEM data has a certificate and a key; the values of [SSL_CTX_use_certificate],
    [SSL_CTX_use_PrivateKey] and [SSL_CTX_check_private_key]. *)
Record init_answers := mkInit {
  new_ctx : bool; has_cert : bool; use_cert : Z; has_key : bool; use_key : Z; check_key : Z;
}.

(** [X_init], and whether it answers a context. *)
Definition X_init (is_client : Z) (a : init_answers) (o : objects) : objects * bool :=
  if negb a.(new_ctx) then (o, false)
  else
    let o := add_ctxs 1 o in
    if is_client =? 1 then (o, true)
    else
      let o := add_bios 1 o in
      let o := if a.(has_cert) then add_certs 1 o else o in
      let o := free_bio o in
      if a.(use_cert) <=? 0 then (free_ctx o, false)
      else
        let o := add_bios 1 o in
        let o := if a.(has_key) then add_pkeys 1 o else o in
        let o := free_bio o in
        if a.(use_key) <=? 0 then (free_ctx o, false)
        else if a.(check_key) <=? 0 then (free_ctx o, false)
        else (o, true).

(** [sslNewCtx]: the strings of C are freed when it returns. *)
Definition sslNewCtx (a : init_answers) (o : objects) : objects * bool :=
  let o := add_cstrings 2 o in
  let (o, ok) := X_init 0 a o in
  (free_cstrings 2 o, ok).

Definition sslNewClientCtx (a : init_answers) (o : objects) : objects * bool := X_init 1 a o.

(** [X_accept]: whether there is an object, and what [SSL_set_fd] answers. *)
Definition X_accept (new_ssl : bool) (set_fd : Z) (o : objects) : objects * bool :=
  if negb new_ssl then (o, false)
  else
    let o := add_ssl 1 o in
    if set_fd =? 0 then (free_ssl o, false) else (o, true).

(** [X_set_alpn_select_cb]: what it selects, whatever the client offers ([offered]).  The
    length is the size of a pointer, not that of the text. *)
Definition default_alpn : bytes := bs "http/1.1".
Definition X_set_alpn_select_cb (pointer_size : nat) (offered : list bytes) : bytes := take pointer_size default_alpn.

Lemma alpn_selected offered :
  X_set_alpn_select_cb 8 offered = bs "http/1.1" /\ X_set_alpn_select_cb 4 offered = bs "http".
Proof. done. Qed.

(** ** The listener *)

(** What the proc_state has. *)
Record proc_state := mkProcess { fds : gset Z; objs : objects; locked_threads : nat }.

(** The fields of [Listener] that hold resources; a descriptor 0 is none. *)
Record listener := mkListen { raw : option Z; f : option Z; lfd : Z; sslCtx : bool }.

(** The steps of [Close]; each closes a descriptor, whoever it belongs to by then, or
    fails, which nobody asks. *)
Inductive close_step := CloseDescriptor (d : Z) | FreeCtx | UnlockThread.

Definition Close_steps (ln : listener) : list close_step :=
  (if ln.(lfd) =? 0 then [] else [CloseDescriptor ln.(lfd)]) ++
  match ln.(f) with Some d => [CloseDescriptor d] | None => [] end ++
  match ln.(raw) with Some d => [CloseDescriptor d] | None => [] end ++
  (if ln.(sslCtx) then [FreeCtx; UnlockThread] else []).

Definition do_close (c : close_step) (s : proc_state) : proc_state :=
  match c with
  | CloseDescriptor d => mkProcess (s.(fds) ∖ {[d]}) s.(objs) s.(locked_threads)
  | FreeCtx => mkProcess s.(fds) (free_ctx s.(objs)) s.(locked_threads)
  | UnlockThread => mkProcess s.(fds) s.(objs) (pred s.(locked_threads))
  end.

Definition Listener_Close (ln : listener) (s : proc_state) : proc_state :=
  foldl (fun s c => do_close c s) s (Close_steps ln).

(** [Listen]: the descriptor of the listener of the library, if there is one; and the
    duplicate that [File] answers.  Its descriptor is [ln.fd]. *)
Definition Listen (r d : option Z) (s : proc_state) : proc_state * option listener :=
  match r with
  | None => (s, None)
  | Some r =>
      let s := mkProcess ({[r]} ∪ s.(fds)) s.(objs) s.(locked_threads) in
      match d with
      | None => (Listener_Close (mkListen (Some r) None 0 false) s, None)
      | Some d =>
          (mkProcess ({[d]} ∪ s.(fds)) s.(objs) s.(locked_threads), Some (mkListen (Some r) (Some d) d false))
      end
  end.

(** [LoadCertPEMs]: the thread is locked first, and stays so when there is an error. *)
Definition LoadCertPEMs (a : init_answers) (ln : listener) (s : proc_state) : proc_state * listener * bool :=
  let n := S s.(locked_threads) in
  let (o, ok) := sslNewCtx a s.(objs) in
  (mkProcess s.(fds) o n, if ok then mkListen ln.(raw) ln.(f) ln.(lfd) true else ln, ok).

(** ** Lemmas *)

(** What [X_init] leaves: a context if and only if it answers one, and no buffers; the
    certificate and the key that it read are never freed. *)
Lemma X_init_objects c a o :
  let '(o', ok) := X_init c a o in
  o'.(ctxs) = (if ok : bool then S o.(ctxs) else o.(ctxs)) /\ o'.(bios) = o.(bios) /\
  o'.(ssl_objs) = o.(ssl_objs) /\ o'.(cstrings) = o.(cstrings) /\
  (o.(certs) <= o'.(certs))%nat /\ (o.(pkeys) <= o'.(pkeys))%nat /\
  (c <> 1 -> ok = true -> a.(has_cert) = true -> a.(has_key) = true ->
   o'.(certs) = S o.(certs) /\ o'.(pkeys) = S o.(pkeys)).
Proof.
  unfold X_init. destruct a.(new_ctx); [|split_and!; done]. cbn [negb].
  destruct (Z.eqb_spec c 1) as [->|]; [cbn; split_and!; (done || lia)|].
  destruct a.(has_cert), (a.(use_cert) <=? 0); [cbn; split_and!; (done || lia)| |cbn; split_and!; (done || lia)|];
    destruct a.(has_key), (a.(use_key) <=? 0); try (cbn; split_and!; (done || lia));
    destruct (a.(check_key) <=? 0); cbn; split_and!; (done || lia).
Qed.

Lemma sslNewCtx_objects a o :
  let '(o', ok) := sslNewCtx a o in
  o'.(ctxs) = (if ok : bool then S o.(ctxs) else o.(ctxs)) /\ o'.(bios) = o.(bios) /\ o'.(cstrings) = o.(cstrings).
Proof.
  unfold sslNewCtx. pose proof (X_init_objects 0 a (add_cstrings 2 o)) as Hx.
  destruct (X_init 0 a _) as [o' ok]. destruct Hx as (Hc & Hb & _ & Hs & _). cbn in *. split_and!; [done..|lia].
Qed.

Lemma difference_new (d : Z) (F : gset Z) : d ∉ F -> ({[d]} ∪ F) ∖ {[d]} = F.
Proof.
  intros Hd. apply set_eq. intros x. rewrite elem_of_difference, elem_of_union, elem_of_singleton.
  split; [by intros [[?|?] ?]|]. intros Hx. split; [by right|congruence].
Qed.

(** ** Properties *)

(** What [Listen] and [LoadCertPEMs] take, [Close] gives back, when nothing happens in
    between: descriptors and the context of OpenSSL; and a [Listen] that fails has taken
    nothing. *)
Theorem Close_gives_back r d a s :
  0 < r -> 0 < d -> r <> d -> r ∉ s.(fds) -> d ∉ s.(fds) ->
  (forall d' s', Listen (Some r) d' s = (s', None) -> s' = s) /\
  exists s1 ln, Listen (Some r) (Some d) s = (s1, Some ln) /\
    (Listener_Close ln s1).(fds) = s.(fds) /\
    (let '(s2, ln2, ok) := LoadCertPEMs a ln s1 in
     (Listener_Close ln2 s2).(fds) = s.(fds) /\ (Listener_Close ln2 s2).(objs).(ctxs) = s.(objs).(ctxs) /\
     (ok = true -> (Listener_Close ln2 s2).(locked_threads) = s.(locked_threads))).
Proof.
  intros Hr Hd Hne HrF HdF.
  assert (forall F : gset Z, F = s.(fds) -> ((({[d]} ∪ ({[r]} ∪ F)) ∖ {[d]}) ∖ {[d]}) ∖ {[r]} = F) as Hback.
  { intros F ->. rewrite (difference_new d) by (rewrite elem_of_union, elem_of_singleton; intros [?|?]; congruence).
    rewrite difference_disjoint_L with (X := {[r]} ∪ s.(fds)) (Y := {[d]}).
    - by apply difference_new.
    - apply disjoint_singleton_r. rewrite elem_of_union, elem_of_singleton. intros [?|?]; congruence. }
  split.
  - intros [d'|] s'; cbn; [done|]. intros [= <-]. unfold Listener_Close. cbn. rewrite difference_new by done. by destruct s.
  - eexists _, _. split; [reflexivity|].
    assert ((d =? 0) = false) as Hd0 by (apply Z.eqb_neq; lia).
    split; [unfold Listener_Close, Close_steps; cbn; rewrite Hd0; cbn; by apply Hback|].
    unfold LoadCertPEMs. cbn [objs]. pose proof (sslNewCtx_objects a s.(objs)) as Ho.
    destruct (sslNewCtx a s.(objs)) as [o ok]. destruct Ho as (Hc & _ & _).
    destruct ok; unfold Listener_Close, Close_steps; cbn; rewrite Hd0; cbn; (split_and!; [by apply Hback| |done]);
      [by rewrite Hc|done].
Qed.

(** [Close] closes the descriptor of the listening socket twice, once by the system call
    and once through its file.  When another goroutine opens a descriptor in between, the
    kernel gives it the number that has just become free, and [Close] closes that. *)
Theorem Close_closes_another r d s :
  0 < d -> r <> d -> r ∉ s.(fds) -> d ∉ s.(fds) ->
  exists s1 ln c cs, Listen (Some r) (Some d) s = (s1, Some ln) /\ Close_steps ln = c :: cs /\
    (let s2 := do_close c s1 in
    let s3 := mkProcess ({[d]} ∪ s2.(fds)) s2.(objs) s2.(locked_threads) in
    (d ∉ s2.(fds)) /\ d ∉ (foldl (fun s c => do_close c s) s3 cs).(fds)).
Proof.
  intros Hd Hne HrF HdF. assert ((d =? 0) = false) as Hd0 by (apply Z.eqb_neq; lia).
  eexists _, _, (CloseDescriptor d), _. split; [reflexivity|]. unfold Close_steps. cbn. rewrite Hd0.
  split; [reflexivity|]. cbn. split.
  - rewrite elem_of_difference, elem_of_singleton. tauto.
  - rewrite !elem_of_difference, elem_of_singleton. tauto.
Qed.

(** ** Socket options *)

(** [SetsockoptInt(fd, level, name, value)], and what it answers. *)
Record sockopt := mkOpt { level : Z; name : Z; value : Z }.

Inductive errno := ENOPROTOOPT | OtherErrno (n : Z).

Definition SOL_SOCKET : Z := 1.
Definition SO_KEEPALIVE : Z := 9.
Definition IPPROTO_TCP : Z := 6.
Definition TCP_KEEPIDLE : Z := 4.
Definition TCP_KEEPINTVL : Z := 5.

(** The options one after the other, until one fails; [skip] tells which errors do not
    count. *)
Fixpoint set_options (skip : sockopt -> errno -> bool) (ask : sockopt -> option errno) (l : list sockopt)
  : list sockopt * option errno :=
  match l with
  | [] => ([], None)
  | o :: l =>
      match ask o with
      | Some e => if skip o e then let (asked, r) := set_options skip ask l in (o :: asked, r) else ([o], Some e)
      | None => let (asked, r) := set_options skip ask l in (o :: asked, r)
      end
  end.

(** [SetKeepAlive] of internal_unix.go, with the numbers of Linux; of
    internal_darwin.go, where a system without the interval is not an error; of
    internal_openbsd.go. *)
Definition SetKeepAlive_unix (ask : sockopt -> option errno) (secs : Z) : list sockopt * option errno :=
  set_options (fun _ _ => false) ask
    [mkOpt SOL_SOCKET SO_KEEPALIVE 1; mkOpt IPPROTO_TCP TCP_KEEPINTVL secs; mkOpt IPPROTO_TCP TCP_KEEPIDLE secs].

Definition darwin_SOL_SOCKET : Z := 65535.
Definition TCP_KEEPALIVE : Z := 16.
Definition darwin_skip (o : sockopt) (e : errno) : bool :=
  match e with ENOPROTOOPT => o.(name) =? 257 | OtherErrno _ => false end.
Definition SetKeepAlive_darwin (ask : sockopt -> option errno) (secs : Z) : list sockopt * option errno :=
  set_options darwin_skip ask
    [mkOpt darwin_SOL_SOCKET 8 1; mkOpt IPPROTO_TCP 257 secs; mkOpt IPPROTO_TCP TCP_KEEPALIVE secs].

Definition SetKeepAlive_openbsd (secs : Z) : option errno := None.

(** No error means that every option was asked for, and answered or skipped. *)
Lemma set_options_ok skip ask l :
  (set_options skip ask l).2 = None ->
  (set_options skip ask l).1 = l /\ Forall (fun o => match ask o with Some e => skip o e = true | None => True end) l.
Proof.
  induction l as [|o l IH]; [by constructor|]. cbn [set_options].
  destruct (ask o) as [e|] eqn:Ea; [destruct (skip o e) eqn:Es|]; [|done|];
    destruct (set_options skip ask l) as [asked r]; cbn in *; intros Hr; destruct (IH Hr) as [-> ?];
    (split; [done|]); constructor; by rewrite ?Ea.
Qed.
