(* ===== verification/FdMap.v ===== *)
(** The client's table of connections (src/redis/fd_map.go): what the client
    relies on, as a class, and the slice of pointers that implements it.

    Each operation is taken as one step: what concurrent calls can do to the
    slice while it grows is not part of this file.  An operation that panics
    answers [None]. *)

From stdpp Require Import gmap.
From S2P Require Import Prelude.

(** ** The interface

    A finite map from descriptors ([view]) with a capacity that only grows:
    adding under a descriptor in use panics, and so does deleting one that is not
    in use, except beyond the capacity, where it does nothing. *)
Class FdTable (M T : Type) := {
  empty_table : M;
  Add : Z -> T -> M -> option M;
  Get : Z -> M -> option (option T);
  Delete : Z -> M -> option M;
  Foreach : M -> list (Z * T);
  Len : M -> Z;
  Cap : M -> Z;
  view : M -> gmap Z T;
  table_ok : M -> Prop;

  empty_table_ok : table_ok empty_table /\ view empty_table = ∅;
  Get_view fd m : table_ok m -> 0 <= fd -> Get fd m = Some (view m !! fd);
  Add_free fd v m : table_ok m -> 0 <= fd -> view m !! fd = None ->
    exists m', Add fd v m = Some m' /\ table_ok m' /\ view m' = <[fd := v]> (view m) /\
      Cap m' = Z.max (Cap m) (fd + 1);
  Add_used fd v w m : table_ok m -> view m !! fd = Some w -> Add fd v m = None;
  Delete_used fd v m : table_ok m -> view m !! fd = Some v ->
    exists m', Delete fd m = Some m' /\ table_ok m' /\ view m' = delete fd (view m) /\
      Cap m' = Cap m;
  Delete_free fd m : table_ok m -> 0 <= fd -> view m !! fd = None ->
    Delete fd m = if fd <? Cap m then None else Some m;
  Foreach_view fd v m : table_ok m -> (fd, v) ∈ Foreach m <-> view m !! fd = Some v;
  Foreach_nodup m : table_ok m -> NoDup (Foreach m).*1;
  Len_size m : table_ok m -> Len m = Z.of_nat (size (view m));
  view_Cap fd v m : table_ok m -> view m !! fd = Some v -> 0 <= fd < Cap m;
}.

(** ** The implementation *)

Record fdMap (T : Type) := mkFdMap { fds : list (option T); count : Z }.
Arguments mkFdMap {T}.
Arguments fds {T}.
Arguments count {T}.

(** The slice after [Add] has made room for [fd]. *)
Definition grow {T} (fd : Z) (l : list (option T)) : list (option T) :=
  if len l <=? fd then l ++ replicate (Z.to_nat (fd + 1 - len l)) None else l.

Definition fdMap_Add {T} (fd : Z) (v : T) (m : fdMap T) : option (fdMap T) :=
  let l := grow fd m.(fds) in
  match at_ l fd with
  | Some None => Some (mkFdMap (<[Z.to_nat fd := Some v]> l) (m.(count) + 1))
  | _ => None
  end.

Definition fdMap_Get {T} (fd : Z) (m : fdMap T) : option (option T) :=
  if len m.(fds) <=? fd then Some None else at_ m.(fds) fd.

Definition fdMap_Delete {T} (fd : Z) (m : fdMap T) : option (fdMap T) :=
  if fd <? len m.(fds) then
    match at_ m.(fds) fd with
    | Some (Some _) => Some (mkFdMap (<[Z.to_nat fd := None]> m.(fds)) (m.(count) - 1))
    | _ => None
    end
  else Some m.

(** [Foreach(f)]: the descriptors in use and what is stored there, in order. *)
Fixpoint foreach_from {T} (i : Z) (l : list (option T)) : list (Z * T) :=
  match l with
  | [] => []
  | Some v :: l => (i, v) :: foreach_from (i + 1) l
  | None :: l => foreach_from (i + 1) l
  end.
Definition fdMap_Foreach {T} (m : fdMap T) : list (Z * T) := foreach_from 0 m.(fds).

Definition fdMap_Len {T} (m : fdMap T) : Z := m.(count).
Definition fdMap_Cap {T} (m : fdMap T) : Z := len m.(fds).

(** The map it stands for, and the counter that agrees with it. *)
Definition fdMap_view {T} (m : fdMap T) : gmap Z T := omap id (map_seqZ 0 m.(fds)).
Definition fdMap_ok {T} (m : fdMap T) : Prop := m.(count) = Z.of_nat (size (fdMap_view m)).

(** ** Lemmas *)

Section lemmas.
Context {T : Type}.
Implicit Types (m : fdMap T) (l : list (option T)).

Lemma lookup_view m fd : fdMap_view m !! fd = mjoin (at_ m.(fds) fd).
Proof.
  unfold fdMap_view. rewrite lookup_omap. unfold at_. case_bool_decide as H0.
  - rewrite lookup_map_seqZ_0 by done. by destruct (m.(fds) !! Z.to_nat fd).
  - assert (fd < 0) as Hn by lia. by rewrite (proj2 (lookup_map_seqZ_None (M := gmap Z) 0 m.(fds) fd) (or_introl Hn)).
Qed.

Lemma at_insert l (x : option T) fd fd' :
  0 <= fd < len l ->
  at_ (<[Z.to_nat fd := x]> l) fd' = if decide (fd' = fd) then Some x else at_ l fd'.
Proof.
  intros Hb. unfold at_, len in *. case_decide as E.
  - subst. rewrite bool_decide_true by lia. apply list_lookup_insert_eq. lia.
  - case_bool_decide; [|done]. apply list_lookup_insert_ne. lia.
Qed.

Lemma at_grow fd l fd' : mjoin (at_ (grow fd l) fd') = mjoin (at_ l fd').
Proof.
  unfold grow. destruct (Z.leb_spec (len l) fd); [|done]. unfold at_. case_bool_decide; [|done].
  destruct (decide (Z.to_nat fd' < length l)%nat).
  - by rewrite lookup_app_l by done.
  - rewrite lookup_app_r by lia. rewrite (lookup_ge_None_2 l) by lia.
    destruct (replicate _ None !! _) as [x|] eqn:E; [|done].
    by apply lookup_replicate in E as [-> _].
Qed.

Lemma len_grow fd l : len (grow fd l) = Z.max (len l) (fd + 1).
Proof.
  unfold grow. destruct (Z.leb_spec (len l) fd); [|lia].
  pose proof (len_nonneg l). unfold len in *. rewrite length_app, length_replicate. lia.
Qed.

Lemma foreach_from_spec i l fd v :
  (fd, v) ∈ foreach_from i l <-> exists n : nat, fd = i + Z.of_nat n /\ l !! n = Some (Some v).
Proof.
  revert i. induction l as [|x l IH]; intros i; cbn [foreach_from].
  - split; [by intros ?%not_elem_of_nil|]. intros (n & _ & E). done.
  - assert ((fd, v) ∈ foreach_from (i + 1) l <->
            exists n : nat, fd = i + Z.of_nat (S n) /\ (x :: l) !! S n = Some (Some v)) as Hn.
    { rewrite IH. split; intros (n & -> & E); exists n; (split; [lia|done]). }
    destruct x as [w|]; rewrite ?elem_of_cons, Hn; split.
    + intros [[= -> ->]|(n & ? & ?)]; [exists 0%nat; by rewrite Z.add_0_r|by exists (S n)].
    + intros ([|n] & -> & E); [left; injection E as ->; by rewrite Z.add_0_r|right; by exists n].
    + intros (n & ? & ?). by exists (S n).
    + intros ([|n] & -> & E); [done|by exists n].
Qed.

Lemma foreach_from_nodup i l : NoDup (foreach_from i l).*1.
Proof.
  revert i. induction l as [|[w|] l IH]; intros i; cbn [foreach_from]; [constructor| |apply IH].
  rewrite fmap_cons. constructor; [|apply IH]. rewrite list_elem_of_fmap.
  intros ([fd v] & E & (n & -> & _)%foreach_from_spec). cbn in E. lia.
Qed.
End lemmas.

(** The slice of pointers is a table. *)
#[export] Program Instance fdMap_table T : FdTable (fdMap T) T := {
  empty_table := mkFdMap [] 0;
  Add := fdMap_Add;
  Get := fdMap_Get;
  Delete := fdMap_Delete;
  Foreach := fdMap_Foreach;
  Len := fdMap_Len;
  Cap := fdMap_Cap;
  view := fdMap_view;
  table_ok := fdMap_ok;
}.
Next Obligation. done. Qed.
Next Obligation.
  intros T fd m _ H0. unfold fdMap_Get. rewrite lookup_view.
  destruct (Z.leb_spec (len m.(fds)) fd) as [Hl|Hl].
  - unfold at_, len in *. rewrite bool_decide_true, lookup_ge_None_2 by lia. done.
  - destruct (at_is_Some m.(fds) fd) as [x ->]; [lia|]. by destruct x.
Qed.
Next Obligation.
  intros T fd v m Hok H0 Hf. pose proof (len_grow fd m.(fds)) as Hl.
  pose proof (at_grow fd m.(fds) fd) as Hg. rewrite <- lookup_view, Hf in Hg.
  unfold fdMap_Add. destruct (at_is_Some (grow fd m.(fds)) fd) as [x E]; [lia|].
  rewrite E in *. destruct x as [w|]; [done|].
  assert (fdMap_view (mkFdMap (<[Z.to_nat fd := Some v]> (grow fd m.(fds))) (m.(count) + 1))
          = <[fd := v]> (fdMap_view m)) as Ev.
  { apply map_eq. intros fd'. rewrite lookup_view. cbn [fds]. rewrite at_insert by lia.
    rewrite lookup_insert. rewrite (lookup_view m). do 2 case_decide; try done.
    by rewrite at_grow. }
  eexists. split; [done|]. split_and!.
  - unfold fdMap_ok in *. rewrite Ev. cbn [count]. rewrite map_size_insert_None by done. lia.
  - done.
  - unfold fdMap_Cap, len in *. cbn [fds]. by rewrite length_insert.
Qed.
Next Obligation.
  intros T fd v w m _ Hf. unfold fdMap_Add. rewrite lookup_view in Hf.
  rewrite <- (at_grow fd) in Hf. by destruct (at_ (grow fd m.(fds)) fd) as [[?|]|].
Qed.
Next Obligation.
  intros T fd v m Hok Hf. pose proof Hf as Ha. rewrite lookup_view in Ha.
  destruct (at_ m.(fds) fd) as [[w|]|] eqn:E; try done. unfold fdMap_Delete.
  pose proof (at_Some_bound _ _ _ E). destruct (Z.ltb_spec fd (len m.(fds))); [|lia]. rewrite E.
  assert (fdMap_view (mkFdMap (<[Z.to_nat fd := None]> m.(fds)) (m.(count) - 1))
          = delete fd (fdMap_view m)) as Ev.
  { apply map_eq. intros fd'. rewrite lookup_view. cbn [fds]. rewrite at_insert by lia.
    rewrite lookup_delete. rewrite (lookup_view m). by do 2 case_decide. }
  eexists. split; [done|]. split_and!.
  - unfold fdMap_ok in *. rewrite Ev. cbn [count]. rewrite map_size_delete, Hf.
    assert (size (fdMap_view m) <> 0%nat).
    { intros Hz%map_size_empty_inv. by rewrite Hz in Hf. } lia.
  - done.
  - unfold fdMap_Cap, len. cbn [fds]. by rewrite length_insert.
Qed.
Next Obligation.
  intros T fd m _ H0 Hf. unfold fdMap_Delete, fdMap_Cap. rewrite lookup_view in Hf.
  destruct (Z.ltb_spec fd (len m.(fds))); [|done]. by destruct (at_ m.(fds) fd) as [[?|]|].
Qed.
Next Obligation.
  intros T fd v m _. unfold fdMap_Foreach. rewrite foreach_from_spec, lookup_view. unfold at_.
  split.
  - intros (n & -> & E). rewrite bool_decide_true by lia. rewrite Z.add_0_l, Nat2Z.id. by rewrite E.
  - intros E. case_bool_decide; [|done]. exists (Z.to_nat fd). split; [lia|].
    by destruct (m.(fds) !! Z.to_nat fd) as [[?|]|]; simplify_eq/=.
Qed.
Next Obligation. intros T m _. apply foreach_from_nodup. Qed.
Next Obligation. done. Qed.
Next Obligation.
  intros T fd v m _ Hf. rewrite lookup_view in Hf.
  destruct (at_ m.(fds) fd) eqn:E; [|done]. by apply at_Some_bound in E.
Qed.

(** What is visited is the map, in some order. *)
Lemma Foreach_list {M T} `{FdTable M T} (m : M) :
  table_ok m -> Foreach m ≡ₚ map_to_list (view m).
Proof.
  intros Ht. apply NoDup_Permutation; [|apply NoDup_map_to_list|].
  - by eapply NoDup_fmap_1, Foreach_nodup.
  - intros [fd v]. by rewrite elem_of_map_to_list, Foreach_view.
Qed.

(** ** Refinement *)

(** The calls that change a table, on any table and on a finite map with a
    capacity. *)
Inductive table_op (T : Type) := OpAdd (fd : Z) (v : T) | OpDelete (fd : Z).
Arguments OpAdd {T}.
Arguments OpDelete {T}.

Definition op_fd {T} (o : table_op T) : Z := match o with OpAdd fd _ | OpDelete fd => fd end.

Definition table_step `{FdTable M T} (o : table_op T) (m : M) : option M :=
  match o with OpAdd fd v => Add fd v m | OpDelete fd => Delete fd m end.
Definition table_run `{FdTable M T} (ops : list (table_op T)) (m : M) : option M :=
  foldl (fun m o => m ≫= table_step o) (Some m) ops.

Definition map_step {T} (o : table_op T) (s : gmap Z T * Z) : option (gmap Z T * Z) :=
  match o, s.1 !! op_fd o with
  | OpAdd fd v, None => Some (<[fd := v]> s.1, Z.max s.2 (fd + 1))
  | OpAdd _ _, Some _ => None
  | OpDelete fd, Some _ => Some (delete fd s.1, s.2)
  | OpDelete fd, None => if fd <? s.2 then None else Some s
  end.
Definition map_run {T} (ops : list (table_op T)) (s : gmap Z T * Z) : option (gmap Z T * Z) :=
  foldl (fun s o => s ≫= map_step o) (Some s) ops.

(** What a table and a map have in common. *)
Definition table_rel `{FdTable M T} (m : M) (s : gmap Z T * Z) : Prop :=
  table_ok m /\ view m = s.1 /\ Cap m = s.2.

Lemma table_step_refines `{FdTable M T} o (m : M) s :
  0 <= op_fd o -> table_rel m s -> option_Forall2 table_rel (table_step o m) (map_step o s).
Proof.
  intros H0 (Hok & Hv & Hc). destruct o as [fd v|fd]; cbn [table_step map_step op_fd] in *;
    rewrite <- Hv, <- Hc; destruct (view m !! fd) as [w|] eqn:E.
  - rewrite (Add_used fd v w m) by done. constructor.
  - destruct (Add_free fd v m) as (m' & -> & ? & ? & ?); [done..|]. by constructor.
  - destruct (Delete_used fd w m) as (m' & -> & ? & ? & ?); [done..|]. by constructor.
  - rewrite Delete_free by done. destruct (_ <? _); constructor. by split_and!.
Qed.

Lemma table_run_refines `{FdTable M T} ops (m : M) s :
  Forall (fun o => 0 <= op_fd o) ops -> table_rel m s ->
  option_Forall2 table_rel (table_run ops m) (map_run ops s).
Proof.
  intros Hops Hr. unfold table_run, map_run. generalize (Some_Forall2 _ m s Hr).
  generalize (Some m) (Some s). induction Hops as [|o ops Ho _ IH]; intros om os Hs; [done|].
  cbn [foldl]. apply IH. destruct Hs as [m' s' Hr'|]; [|constructor].
  by apply table_step_refines.
Qed.

(** C19: the table of connections behaves as a finite map from descriptors with a
    capacity, for any sequence of calls: after each call it panics exactly when
    the map does (a descriptor added twice, or deleted though not in use and
    within the capacity), and otherwise [Get] answers the map's entry, [Foreach]
    visits its entries and [Len] counts them. *)
Theorem fdMap_refines {T} (ops : list (table_op T)) :
  Forall (fun o => 0 <= op_fd o) ops ->
  match table_run ops (mkFdMap [] 0), map_run ops (∅, 0) with
  | Some m, Some (s, cap) =>
      (forall fd, 0 <= fd -> fdMap_Get fd m = Some (s !! fd)) /\
      (forall fd v, (fd, v) ∈ fdMap_Foreach m <-> s !! fd = Some v) /\
      fdMap_Len m = Z.of_nat (size s) /\ fdMap_Cap m = cap
  | None, None => True
  | _, _ => False
  end.
Proof.
  intros Hops. assert (table_rel (mkFdMap (T := T) [] 0) (∅, 0)) as Hr.
  { by split; [exact (proj1 empty_table_ok)|]. }
  destruct (table_run_refines ops _ _ Hops Hr) as [m [s cap] (Hok & Hv & Hc)|]; [|done].
  cbn in Hv, Hc. subst s. split_and!; [|intros fd v|exact (Len_size m Hok)|done].
  - intros fd H0. exact (Get_view fd m Hok H0).
  - exact (Foreach_view fd v m Hok).
Qed.

Lemma fdMap_refines_witness :
  let ops := [OpAdd 3 (bs "a"); OpAdd 7 (bs "b"); OpDelete 3; OpDelete 9] in
  match table_run ops (mkFdMap [] 0), map_run ops (∅, 0) with
  | Some m, Some (s, cap) =>
      (forall fd, 0 <= fd -> fdMap_Get fd m = Some (s !! fd)) /\
      (forall fd v, (fd, v) ∈ fdMap_Foreach m <-> s !! fd = Some v) /\
      fdMap_Len m = Z.of_nat (size s) /\ fdMap_Cap m = cap
  | None, None => True
  | _, _ => False
  end.
Proof.
  intros ops. apply (fdMap_refines ops). by repeat constructor.
Defined.
