(* ===== verification/FdMapRace.v ===== *)
(** The client's table of connections under concurrent calls (src/redis/fd_map.go).

    [FdMap] takes each call as one step.  Here every access to shared memory is
    one: the slice that [fds] points to, its backing array, the lock, the counter.
    [Exec] calls [Add] from any goroutine, the poller and the timers call
    [Delete] and [Get].  A slice is a backing array and a length; [append] writes
    into the array while it has room and otherwise copies it to a new one, whose
    capacity is the runtime's choice. *)

From stdpp Require Import gmap.
From S2P Require Import Prelude FdMap.

(** ** State *)

Section race.
Context {T : Type}.

Record slice_of := mkSlice { arr : positive; slen : nat }.

(** Where a call is; [l] is the slice it has loaded. *)
Inductive caller :=
| AddCheck (fd : nat) (v : T)
| AddLock (fd : nat) (v : T)
| AddLoad (fd : nat) (v : T)
| AddGrow (fd : nat) (v : T) (l : slice_of)
| AddStore (fd : nat) (v : T) (l : slice_of)
| AddUnlock (fd : nat) (v : T)
| AddReload (fd : nat) (v : T)
| AddSwap (fd : nat) (v : T) (l : slice_of)
| AddCount
| DelLock (fd : nat)
| DelLoad (fd : nat)
| DelSwap (fd : nat) (l : slice_of)
| DelCount
| DelUnlock
| Returned
| Panicked.

(** [fds] and [count] of the table, its lock, the arrays, and the calls. *)
Record table := mkTable {
  tfds : slice_of;
  tcount : Z;
  mu : option nat;
  arrays : gmap positive (list (option T));
  callers : gmap nat caller;
}.

Definition set_tfds l (m : table) := mkTable l m.(tcount) m.(mu) m.(arrays) m.(callers).
Definition set_tcount n (m : table) := mkTable m.(tfds) n m.(mu) m.(arrays) m.(callers).
Definition set_mu o (m : table) := mkTable m.(tfds) m.(tcount) o m.(arrays) m.(callers).
Definition set_arrays a (m : table) := mkTable m.(tfds) m.(tcount) m.(mu) a m.(callers).
Definition set_caller t c (m : table) :=
  mkTable m.(tfds) m.(tcount) m.(mu) m.(arrays) (<[t := c]> m.(callers)).

(** ** Steps *)

(** [append(l, atomic.Pointer[T]{})]; [a] is a new array, should one be needed,
    with [extra] elements more than the slice has then. *)
Definition append1 (a : positive) (extra : nat) (l : slice_of) (m : table) : option (slice_of * table) :=
  x ← m.(arrays) !! l.(arr);
  if decide (l.(slen) < length x)%nat then
    Some (mkSlice l.(arr) (S l.(slen)), set_arrays (<[l.(arr) := <[l.(slen) := None]> x]> m.(arrays)) m)
  else
    match m.(arrays) !! a with
    | Some _ => None
    | None => Some (mkSlice a (S l.(slen)),
                    set_arrays (<[a := take l.(slen) x ++ None :: replicate extra None]> m.(arrays)) m)
    end.

(** [l[fd].Swap(o)]: what was there, and the table after it. *)
Definition swap_at (l : slice_of) (fd : nat) (o : option T) (m : table) : option (option T * table) :=
  if decide (fd < l.(slen))%nat then
    x ← m.(arrays) !! l.(arr);
    old ← x !! fd;
    Some (old, set_arrays (<[l.(arr) := <[fd := o]> x]> m.(arrays)) m)
  else None.

(** One step of the goroutine [t]; [None]: it cannot go on now. *)
Definition rstep (t : nat) (a : positive) (extra : nat) (m : table) : option table :=
  c ← m.(callers) !! t;
  match c with
  | AddCheck fd v =>
      Some (set_caller t (if decide (m.(tfds).(slen) <= fd)%nat then AddLock fd v else AddReload fd v) m)
  | AddLock fd v =>
      match m.(mu) with None => Some (set_caller t (AddLoad fd v) (set_mu (Some t) m)) | Some _ => None end
  | AddLoad fd v => Some (set_caller t (AddGrow fd v m.(tfds)) m)
  | AddGrow fd v l =>
      if decide (l.(slen) <= fd)%nat then
        '(l, m) ← append1 a extra l m; Some (set_caller t (AddGrow fd v l) m)
      else Some (set_caller t (AddStore fd v l) m)
  | AddStore fd v l => Some (set_caller t (AddUnlock fd v) (set_tfds l m))
  | AddUnlock fd v => Some (set_caller t (AddReload fd v) (set_mu None m))
  | AddReload fd v => Some (set_caller t (AddSwap fd v m.(tfds)) m)
  | AddSwap fd v l =>
      match swap_at l fd (Some v) m with
      | Some (None, m) => Some (set_caller t AddCount m)
      | Some (Some _, m) => Some (set_caller t Panicked m)
      | None => Some (set_caller t Panicked m)
      end
  | AddCount => Some (set_caller t Returned (set_tcount (m.(tcount) + 1) m))
  | DelLock fd =>
      match m.(mu) with None => Some (set_caller t (DelLoad fd) (set_mu (Some t) m)) | Some _ => None end
  | DelLoad fd =>
      Some (set_caller t (if decide (fd < m.(tfds).(slen))%nat then DelSwap fd m.(tfds) else DelUnlock) m)
  | DelSwap fd l =>
      match swap_at l fd None m with
      | Some (Some _, m) => Some (set_caller t DelCount m)
      | Some (None, m) => Some (set_caller t Panicked m)
      | None => Some (set_caller t Panicked m)
      end
  | DelCount => Some (set_caller t DelUnlock (set_tcount (m.(tcount) - 1) m))
  | DelUnlock => Some (set_caller t Returned (set_mu None m))
  | Returned | Panicked => None
  end.

(** A schedule: the goroutine of each step, and what the runtime chooses. *)
Fixpoint rrun (l : list (nat * positive * nat)) (m : table) : option table :=
  match l with
  | [] => Some m
  | (t, a, extra) :: l => m ← rstep t a extra m; rrun l m
  end.

Definition steps (n t : nat) : list (nat * positive * nat) := replicate n (t, 1%positive, 0%nat).

(** What the table holds, as [FdMap] has it. *)
Definition as_fdMap (m : table) : option (fdMap T) :=
  x ← m.(arrays) !! m.(tfds).(arr);
  Some (mkFdMap (take m.(tfds).(slen) x) m.(tcount)).

(** The table [m], all of its array in use, and nobody inside a call. *)
Definition quiet (m : fdMap T) (s : table) : Prop :=
  s.(arrays) !! s.(tfds).(arr) = Some m.(fds) /\ s.(tfds).(slen) = length m.(fds) /\
  s.(tcount) = m.(count) /\ s.(mu) = None.
(** ** The moment of each call *)

(** What a call has still to do to the table, and to its counter. *)
Definition op_of (c : caller) : list (table_op T) :=
  match c with
  | AddCheck fd v | AddLock fd v | AddLoad fd v | AddGrow fd v _ | AddStore fd v _ | AddUnlock fd v
  | AddReload fd v | AddSwap fd v _ => [OpAdd (Z.of_nat fd) v]
  | DelLock fd | DelLoad fd | DelSwap fd _ => [OpDelete (Z.of_nat fd)]
  | AddCount | DelCount | DelUnlock | Returned | Panicked => []
  end.
Definition owes (c : caller) : Z := match c with AddCount => 1 | DelCount => -1 | _ => 0 end.

Definition calls (m : table) : list (table_op T) := mbind (fun x => op_of x.2) (map_to_list m.(callers)).
Definition owed (m : table) : Z := map_fold (fun _ c n => owes c + n) 0 m.(callers).

(** The call takes effect in this step: its exchange, or the test that finds a
    descriptor to delete out of range. *)
Definition takes_effect (t : nat) (m : table) : list (table_op T) :=
  match m.(callers) !! t with
  | Some (AddSwap _ _ _ as c) | Some (DelSwap _ _ as c) => op_of c
  | Some (DelLoad fd as c) => if decide (fd < m.(tfds).(slen))%nat then [] else op_of c
  | _ => []
  end.
Fixpoint effects (l : list (nat * positive * nat)) (m : table) : list (table_op T) :=
  match l with
  | [] => []
  | (t, a, extra) :: l =>
      takes_effect t m ++ match rstep t a extra m with Some m => effects l m | None => [] end
  end.

(** ** Lemmas *)

Lemma rrun_app l1 l2 (m : table) : rrun (l1 ++ l2) m = m ← rrun l1 m; rrun l2 m.
Proof using.
  revert m. induction l1 as [|[[t a] e] l1 IH]; intros m; [done|]. cbn [app rrun].
  destruct (rstep t a e m); [apply IH|done].
Qed.

(** One step and the rest. *)
Lemma rrun_step t a e l (m m1 m2 : table) :
  rstep t a e m = Some m1 -> rrun l m1 = Some m2 -> rrun ((t, a, e) :: l) m = Some m2.
Proof using. intros E1 E2. cbn [rrun]. by rewrite E1. Qed.

(** Growing inside the capacity, over elements that are [nil] anyway. *)
Lemma grow_in_place t a fd v x k (m : table) :
  m.(callers) !! t = Some (AddGrow fd v (mkSlice a k)) -> m.(arrays) !! a = Some x ->
  (length x = S fd) -> (k <= S fd)%nat -> (forall j, (k <= j < length x)%nat -> x !! j = Some None) ->
  rrun (replicate (S fd - k) (t, a, 0%nat)) m
  = Some (set_caller t (AddGrow fd v (mkSlice a (S fd))) m).
Proof using.
  intros Hc Ha Hl Hk Hx. remember (S fd - k)%nat as n eqn:En. revert k m Hc Ha Hk Hx En.
  induction n as [|n IH]; intros k m Hc Ha Hk Hx En.
  - cbn [replicate rrun]. replace k with (S fd) in Hc by lia.
    destruct m as [? ? ? ? cs]. unfold set_caller. cbn in *. by rewrite insert_id.
  - cbn [replicate]. eapply rrun_step.
    + unfold rstep. rewrite Hc. cbn [option_bind mbind slen]. rewrite decide_True by lia.
      unfold append1. cbn [arr slen]. rewrite Ha. cbn [option_bind mbind tfds slen]. rewrite decide_True by lia.
      reflexivity.
    + assert (set_arrays (<[a := <[k := None]> x]> m.(arrays)) m = m) as ->.
      { rewrite list_insert_id by (apply Hx; lia). destruct m as [? ? ? aa cs].
        unfold set_arrays. cbn in *. by rewrite insert_id. }
      rewrite (IH (S k)); [|cbn; by rewrite lookup_insert_eq|done|lia|intros j Hj; apply Hx; lia|lia].
      unfold set_caller. cbn. by rewrite insert_insert_eq.
Qed.
(** The schedule: [t1] checks that its descriptor is within the slice; [t2] grows
    it, up to the new array; [t1] stores into the old one; [t2] publishes the new
    one. *)
Definition lost_schedule (t1 t2 : nat) (a : positive) (grow more : nat) : list (nat * positive * nat) :=
  [(t1, a, 0); (t2, a, 0); (t2, a, 0); (t2, a, 0); (t2, a, more)]%nat ++ replicate grow (t2, a, 0%nat) ++
  [(t2, a, 0); (t1, a, 0); (t1, a, 0); (t1, a, 0); (t2, a, 0); (t2, a, 0); (t2, a, 0); (t2, a, 0); (t2, a, 0)]%nat.

Ltac run1 :=
  eapply rrun_step;
  [unfold rstep, set_caller, set_mu, set_tfds, set_tcount, set_arrays;
   cbn [callers tfds tcount mu arrays slen arr];
   rewrite ?lookup_insert_eq, ?lookup_insert_ne by done; cbn [option_bind mbind];
   rewrite ?lookup_insert_eq, ?lookup_insert_ne by done|].

Lemma lost_run (m : fdMap T) (s : table) (fd1 fd2 : nat) v1 v2 t1 t2 a :
  quiet m s -> m.(fds) !! fd1 = Some None -> (length m.(fds) <= fd2)%nat -> t1 <> t2 ->
  s.(callers) !! t1 = Some (AddCheck fd1 v1) -> s.(callers) !! t2 = Some (AddCheck fd2 v2) ->
  s.(arrays) !! a = None ->
  let x := m.(fds) ++ replicate (fd2 - length m.(fds)) None ++ [Some v2] in
  exists s', rrun (lost_schedule t1 t2 a (fd2 - length m.(fds)) (fd2 - length m.(fds))) s = Some s' /\
    s'.(callers) !! t1 = Some Returned /\ s'.(callers) !! t2 = Some Returned /\ s'.(mu) = None /\
    as_fdMap s' = Some (mkFdMap x (m.(count) + 2)).
Proof using.
  intros (Harr & Hlen & Hcnt & Hmu) Hfree Hgrow Hne H1 H2 Ha x.
  assert (t2 <> t1) as Hne' by congruence. assert (fd1 < length m.(fds))%nat as Hlt by (by eapply lookup_lt_Some).
  destruct s as [[a0 n0] cnt mu0 aa cs]. cbn [tfds tcount mu arrays callers arr slen] in *. subst n0 cnt mu0.
  assert (a0 <> a) as Ha0 by congruence. assert (a <> a0) as Ha0' by congruence.
  set (L := length m.(fds)) in *. set (y := m.(fds) ++ None :: replicate (fd2 - L) None).
  assert (length y = S fd2) as Hy.
  { unfold y. rewrite length_app. cbn [length]. rewrite length_replicate. fold L. lia. }
  assert (forall j, (L <= j < S fd2)%nat -> y !! j = Some None) as Hy0.
  { intros j Hj. unfold y. rewrite lookup_app_r by (fold L; lia). fold L.
    change (None :: replicate (fd2 - L) None) with (replicate (S (fd2 - L)) (@None T)).
    apply lookup_replicate. split; [done|]. lia. }
  assert (y !! fd2 = Some None) as Hnil.
  { apply Hy0. lia. }
  unfold lost_schedule. cbn [app].
  eexists. split; [|].
  { run1. { rewrite H1. cbn [option_bind mbind tfds slen]. rewrite decide_False by lia. reflexivity. }
    run1. { rewrite H2. cbn [option_bind mbind tfds slen]. rewrite decide_True by lia. reflexivity. }
    run1. { reflexivity. }
    run1. { reflexivity. }
    run1. { cbn [slen tfds]. rewrite decide_True by lia. unfold append1. cbn [arr slen arrays].
            rewrite Harr. cbn [option_bind mbind tfds slen]. rewrite decide_False by (fold L; lia). rewrite Ha.
            reflexivity. }
    rewrite rrun_app. fold L. rewrite take_ge by (fold L; lia). fold y.
    change (fd2 - L)%nat with (S fd2 - S L)%nat.
    rewrite (grow_in_place t2 a fd2 v2 y (S L)).
    - cbn [option_bind mbind]. 
      run1. { cbn [slen]. rewrite decide_False by lia. reflexivity. }
      run1. { reflexivity. }
      run1. { unfold swap_at. cbn [slen arr arrays]. rewrite decide_True by lia.
              rewrite lookup_insert_ne by done. rewrite Harr. cbn [option_bind mbind].
              rewrite Hfree. reflexivity. }
      run1. { reflexivity. }
      run1. { reflexivity. }
      run1. { reflexivity. }
      run1. { reflexivity. }
      run1. { unfold swap_at. cbn [slen arr arrays tfds]. rewrite decide_True by lia.
              unfold set_arrays. cbn [arrays]. rewrite lookup_insert_ne, lookup_insert_eq by done.
              cbn [option_bind mbind]. rewrite Hnil. reflexivity. }
      run1. { reflexivity. }
      reflexivity.
    - cbn. by rewrite lookup_insert_eq.
    - cbn. by rewrite lookup_insert_eq.
    - done.
    - lia.
    - intros j Hj. apply Hy0. lia. }
  unfold set_arrays. cbn [callers mu]. split_and!; [|by rewrite lookup_insert_eq|done|].
  - rewrite ?lookup_insert_ne by done. by rewrite lookup_insert_eq.
  - unfold as_fdMap. cbn [tfds arr slen arrays tcount]. rewrite lookup_insert_eq. cbn [option_bind mbind].
    do 2 f_equal; [|lia]. rewrite take_ge by (rewrite length_insert; lia). unfold y, x.
    rewrite insert_app_r_alt by (fold L; lia). fold L. f_equal.
    change (None :: replicate (fd2 - L) None) with (replicate (S (fd2 - L)) (@None T)).
    replace (S (fd2 - L)) with (fd2 - L + 1)%nat by lia. rewrite replicate_add.
    rewrite insert_app_r_alt by (rewrite length_replicate; lia). rewrite length_replicate.
    by rewrite Nat.sub_diag.
Qed.
(** ** Lemmas: calls that need no room *)

(** A call whose descriptor is within the slice [l], and how far it can be. *)
Definition in_range (l : slice_of) (c : caller) : Prop :=
  match c with
  | AddCheck fd _ | AddReload fd _ => (fd < l.(slen))%nat
  | AddSwap fd _ l' => (fd < l.(slen))%nat /\ l' = l
  | DelSwap fd l' => (fd < l.(slen))%nat /\ l' = l
  | DelLock _ | DelLoad _ | AddCount | DelCount | DelUnlock | Returned | Panicked => True
  | _ => False
  end.

Lemma owed_set_caller t c c' m :
  m.(callers) !! t = Some c -> owed (set_caller t c' m) = owed m - owes c + owes c'.
Proof using.
  intros Hc. unfold owed, set_caller. cbn [callers].
  assert (forall (cs : gmap nat caller) c0, cs !! t = Some c0 ->
    map_fold (fun _ c n => owes c + n) 0 cs = owes c0 + map_fold (fun _ c n => owes c + n) 0 (delete t cs)) as Hf.
  { intros cs c0 E. apply (map_fold_delete_L (fun _ c n => owes c + n)); [intros; lia|done]. }
  rewrite (Hf m.(callers) c Hc), (Hf (<[t := c']> m.(callers)) c') by apply lookup_insert_eq.
  rewrite delete_insert_eq. lia.
Qed.

Lemma calls_set_caller t c c' m l :
  m.(callers) !! t = Some c -> l ++ op_of c' ≡ₚ op_of c -> l ++ calls (set_caller t c' m) ≡ₚ calls m.
Proof using.
  intros Hc Hl. unfold calls, set_caller. cbn [callers].
  assert (forall (cs : gmap nat caller) c0, cs !! t = Some c0 ->
    mbind (fun x => op_of x.2) (map_to_list cs)
    ≡ₚ op_of c0 ++ mbind (fun x => op_of x.2) (map_to_list (delete t cs))) as Hf.
  { intros cs c0 E. rewrite <- (map_to_list_delete cs t c0 E). done. }
  rewrite (Hf m.(callers) c Hc), (Hf (<[t := c']> m.(callers)) c') by apply lookup_insert_eq.
  rewrite delete_insert_eq, <- Hl. by rewrite app_assoc.
Qed.

(** What a schedule has done to [m], and to the table [s]. *)
Definition linear (m : fdMap T) (ops : list (table_op T)) (s : table) : Prop :=
  (forall t c, s.(callers) !! t = Some c -> in_range s.(tfds) c) /\
  match table_run ops m with
  | Some m' =>
      (forall t, s.(callers) !! t <> Some Panicked) /\
      s.(arrays) !! s.(tfds).(arr) = Some m'.(fds) /\ s.(tfds).(slen) = length m'.(fds) /\
      s.(tcount) = m'.(count) - owed s
  | None => exists t, s.(callers) !! t = Some Panicked
  end.

Lemma table_run_app (ops1 ops2 : list (table_op T)) (m : fdMap T) :
  table_run (ops1 ++ ops2) m = table_run ops1 m ≫= table_run ops2.
Proof using.
  unfold table_run. rewrite foldl_app. destruct (foldl _ (Some m) ops1) as [m'|]; [done|].
  cbn. induction ops2; [done|]. cbn. auto.
Qed.

Lemma Add_in_range fd v old (m : fdMap T) :
  m.(fds) !! fd = Some old ->
  table_step (OpAdd (Z.of_nat fd) v) m
  = match old with None => Some (mkFdMap (<[fd := Some v]> m.(fds)) (m.(count) + 1)) | Some _ => None end.
Proof using.
  intros Hx. apply lookup_lt_Some in Hx as Hl. cbn. unfold fdMap_Add, grow, len.
  rewrite (proj2 (Z.leb_gt _ _)) by lia. unfold at_. rewrite bool_decide_true by lia. rewrite Nat2Z.id, Hx.
  by destruct old.
Qed.

Lemma Delete_in_range fd old (m : fdMap T) :
  m.(fds) !! fd = Some old ->
  table_step (OpDelete (Z.of_nat fd)) m
  = match old with Some _ => Some (mkFdMap (<[fd := None]> m.(fds)) (m.(count) - 1)) | None => None end.
Proof using.
  intros Hx. apply lookup_lt_Some in Hx as Hl. cbn. unfold fdMap_Delete, len.
  rewrite (proj2 (Z.ltb_lt _ _)) by lia. unfold at_. rewrite bool_decide_true by lia. rewrite Nat2Z.id, Hx.
  by destruct old.
Qed.

Lemma Delete_out_of_range fd (m : fdMap T) :
  (length m.(fds) <= fd)%nat -> table_step (OpDelete (Z.of_nat fd)) m = Some m.
Proof using. intros Hl. cbn. unfold fdMap_Delete, len. by rewrite (proj2 (Z.ltb_ge _ _)) by lia. Qed.

(** A call goes on: [s'] is [s] with another lock, array or counter. *)
Lemma linear_goes (m : fdMap T) ops ops' s s' t c c' :
  linear m ops s -> s.(callers) !! t = Some c -> c <> Panicked -> s'.(callers) = s.(callers) ->
  s'.(tfds) = s.(tfds) -> in_range s.(tfds) c' ->
  (forall m1, table_run ops m = Some m1 -> s.(arrays) !! s.(tfds).(arr) = Some m1.(fds) ->
     s.(tfds).(slen) = length m1.(fds) -> s.(tcount) = m1.(count) - owed s ->
     match table_run ops' m1 with
     | Some m2 => c' <> Panicked /\ s'.(arrays) !! s.(tfds).(arr) = Some m2.(fds) /\
         length m2.(fds) = length m1.(fds) /\ s'.(tcount) = m2.(count) - (owed s - owes c + owes c')
     | None => c' = Panicked
     end) ->
  linear m (ops ++ ops') (set_caller t c' s').
Proof using.
  intros [Hr Hs] Hc Hnp Ec Ef Hin Hk. split.
  { intros t' c1. unfold set_caller. cbn [callers tfds]. rewrite Ec, Ef.
    intros [[<- <-]|[_ E]]%lookup_insert_Some; eauto. }
  rewrite table_run_app. destruct (table_run ops m) as [m1|]; cbn [mbind option_bind].
  2: { destruct Hs as [t' Ht']. exists t'. unfold set_caller. cbn [callers]. rewrite Ec.
       rewrite lookup_insert_ne; [done|]. intros ->. congruence. }
  destruct Hs as (Hp & Ha & Hl & Hcnt). specialize (Hk m1 eq_refl Ha Hl Hcnt).
  destruct (table_run ops' m1) as [m2|].
  - destruct Hk as (Hp' & Ha' & Hl' & Hcnt'). split_and!.
    + intros t'. unfold set_caller. cbn [callers]. rewrite Ec.
      intros [[<- ?]|[_ E]]%lookup_insert_Some; [done|by eapply Hp].
    + unfold set_caller. cbn [arrays tfds]. by rewrite Ef.
    + unfold set_caller. cbn [tfds]. rewrite Ef. congruence.
    + rewrite (owed_set_caller t c c') by (by rewrite Ec). unfold set_caller. cbn [tcount].
      replace (owed s') with (owed s) by (unfold owed; by rewrite Ec). done.
  - exists t. unfold set_caller. cbn [callers]. rewrite Hk. apply lookup_insert_eq.
Qed.

Lemma table_run_1 op (m : fdMap T) : table_run [op] m = table_step op m.
Proof using. done. Qed.

(** An exchange: it is what the call does to the map, if that does not panic. *)
Lemma swap_linear t fd o op (wants : option T -> bool) c c1 (m : fdMap T) ops s :
  linear m ops s -> s.(callers) !! t = Some c -> c <> Panicked -> owes c = 0 -> op_of c = [op] ->
  (fd < s.(tfds).(slen))%nat -> in_range s.(tfds) c1 -> c1 <> Panicked -> op_of c1 = [] ->
  (forall m1 old, m1.(fds) !! fd = Some old ->
     table_step op m1 = if wants old then Some (mkFdMap (<[fd := o]> m1.(fds)) (m1.(count) + owes c1)) else None) ->
  let s1 := match swap_at s.(tfds) fd o s with
            | Some (old, s') => set_caller t (if wants old then c1 else Panicked) s'
            | None => set_caller t Panicked s
            end in
  linear m (ops ++ [op]) s1 /\ [op] ++ calls s1 ≡ₚ calls s.
Proof using.
  intros Hlin Hc Hnp Hw Hop Hlt Hin Hp1 Hop1 Hstep s1.
  assert (exists c' s', s1 = set_caller t c' s' /\ op_of c' = [] /\ s'.(callers) = s.(callers) /\
    s'.(tfds) = s.(tfds) /\ s'.(tcount) = s.(tcount) /\ in_range s.(tfds) c' /\
    forall m1, s.(arrays) !! s.(tfds).(arr) = Some m1.(fds) -> s.(tfds).(slen) = length m1.(fds) ->
      match table_step op m1 with
      | Some m2 => c' = c1 /\ s'.(arrays) !! s.(tfds).(arr) = Some m2.(fds) /\
          length m2.(fds) = length m1.(fds) /\ m2.(count) = m1.(count) + owes c1
      | None => c' = Panicked
      end) as (c' & s' & -> & E0 & E1 & E2 & E3 & Hin' & Hm).
  { subst s1. unfold swap_at. rewrite decide_True by done.
    destruct (s.(arrays) !! s.(tfds).(arr)) as [x|] eqn:Hx; cbn [mbind option_bind].
    2: { do 2 eexists. split; [reflexivity|]. by split_and!. }
    destruct (x !! fd) as [old|] eqn:Hxf; cbn [mbind option_bind].
    - do 2 eexists. split; [reflexivity|]. split_and!; try done; [by destruct (wants old)..|].
      intros m1 [= ->] Hl. rewrite (Hstep m1 old Hxf). destruct (wants old); [|done].
      cbn. by rewrite lookup_insert_eq, length_insert.
    - do 2 eexists. split; [reflexivity|]. split_and!; try done. intros m1 [= ->] Hl.
      apply lookup_ge_None in Hxf. lia. }
  split.
  - eapply linear_goes; [exact Hlin|exact Hc|done|done|done|done|]. intros m1 _ Ha Hl Hcnt.
    rewrite table_run_1. specialize (Hm m1 Ha Hl). destruct (table_step op m1) as [m2|]; [|done].
    destruct Hm as (-> & ? & ? & ?). split_and!; [done..|lia].
  - replace (calls s) with (calls s') by (unfold calls; by rewrite E1).
    apply (calls_set_caller t c); [by rewrite E1|]. by rewrite Hop, E0.
Qed.

(** Every step keeps the relation, the effect of the call coming with its exchange. *)
Lemma rstep_linear t a extra (m : fdMap T) ops s s1 :
  linear m ops s -> rstep t a extra s = Some s1 ->
  linear m (ops ++ takes_effect t s) s1 /\ takes_effect t s ++ calls s1 ≡ₚ calls s.
Proof using.
  intros Hlin Hs. pose proof Hlin as [Hr _]. unfold rstep in Hs. unfold takes_effect.
  destruct (s.(callers) !! t) as [c|] eqn:Hc; [|done]. cbn [mbind option_bind] in Hs.
  specialize (Hr t c Hc).
  assert (forall s' c', s'.(callers) = s.(callers) -> s'.(tfds) = s.(tfds) -> s'.(arrays) = s.(arrays) ->
    s'.(tcount) = s.(tcount) + owes c - owes c' -> in_range s.(tfds) c' -> op_of c = op_of c' ->
    c <> Panicked -> c' <> Panicked ->
    linear m (ops ++ []) (set_caller t c' s') /\ [] ++ calls (set_caller t c' s') ≡ₚ calls s) as Hmove.
  { intros s' c' E1 E2 E3 E4 Hin Hop Hp Hp'. split.
    - eapply linear_goes; [exact Hlin|exact Hc|done|done|done|done|]. intros m1 _ Ha Hl Hcnt.
      change (table_run [] m1) with (Some m1). split_and!; [done|by rewrite E3|done|lia].
    - replace (calls s) with (calls s') by (unfold calls; by rewrite E1).
      apply (calls_set_caller t c); [by rewrite E1|by rewrite Hop]. }
  destruct c as [fd v|fd v|fd v|fd v l|fd v l|fd v|fd v|fd v l| |fd|fd|fd l| | | |]; cbn [in_range] in Hr; try done.
  - (* AddCheck *) rewrite decide_False in Hs by lia. injection Hs as <-. apply Hmove; cbn; done || lia.
  - (* AddReload *) injection Hs as <-. apply Hmove; cbn; done || lia.
  - (* AddSwap *) destruct Hr as [Hlt ->].
    replace s1 with (match swap_at s.(tfds) fd (Some v) s with
      | Some (old, s') => set_caller t (if match old with None => true | Some _ => false end then AddCount else Panicked) s'
      | None => set_caller t Panicked s end)
      by (destruct (swap_at _ _ _ _) as [[[w|] s']|]; by injection Hs).
    apply (swap_linear t fd (Some v) (OpAdd (Z.of_nat fd) v) _ (AddSwap fd v s.(tfds))); try done.
    intros m1 old Hx. rewrite (Add_in_range fd v old m1 Hx). by destruct old.
  - (* AddCount *) injection Hs as <-. apply Hmove; cbn; done || lia.
  - (* DelLock *) destruct s.(mu); [done|]. injection Hs as <-. apply Hmove; cbn; done || lia.
  - (* DelLoad *) case_decide; injection Hs as <-; [apply Hmove; cbn; done || lia|]. cbn [op_of].
    split.
    + eapply linear_goes; [exact Hlin|exact Hc|done|done|done|done|]. intros m1 _ Ha Hl Hcnt.
      rewrite table_run_1, Delete_out_of_range by lia. cbn [owes]. split_and!; [done..|lia].
    + by apply (calls_set_caller t (DelLoad fd)).
  - (* DelSwap *) destruct Hr as [Hlt ->].
    replace s1 with (match swap_at s.(tfds) fd None s with
      | Some (old, s') => set_caller t (if match old with None => false | Some _ => true end then DelCount else Panicked) s'
      | None => set_caller t Panicked s end)
      by (destruct (swap_at _ _ _ _) as [[[w|] s']|]; by injection Hs).
    apply (swap_linear t fd None (OpDelete (Z.of_nat fd)) _ (DelSwap fd s.(tfds))); try done.
    intros m1 old Hx. rewrite (Delete_in_range fd old m1 Hx). by destruct old.
  - (* DelCount *) injection Hs as <-. apply Hmove; cbn; done || lia.
  - (* DelUnlock *) injection Hs as <-. apply Hmove; cbn; done || lia.
Qed.
Lemma rrun_linear l (m : fdMap T) ops s s1 :
  linear m ops s -> rrun l s = Some s1 ->
  linear m (ops ++ effects l s) s1 /\ effects l s ++ calls s1 ≡ₚ calls s.
Proof using.
  revert ops s. induction l as [|[[t a] extra] l IH]; intros ops s Hlin Hr; cbn [rrun effects] in *.
  { injection Hr as <-. by rewrite app_nil_r. }
  destruct (rstep t a extra s) as [s2|] eqn:Hs; [|done]. cbn in Hr.
  destruct (rstep_linear _ _ _ _ _ _ _ Hlin Hs) as [Hlin2 Hc2]. destruct (IH _ _ Hlin2 Hr) as [Hlin1 Hc1].
  split; [by rewrite app_assoc|]. by rewrite <- app_assoc, Hc1.
Qed.

Lemma owed_zero s : (forall t c, s.(callers) !! t = Some c -> owes c = 0) -> owed s = 0.
Proof using.
  unfold owed. generalize s.(callers). clear s.
  apply (map_fold_weak_ind (fun r (cs : gmap nat caller) => (forall t c, cs !! t = Some c -> owes c = 0) -> r = 0));
    [done|].
  intros t c cs r Hn IH Hc. rewrite IH.
  - rewrite (Hc t c); [done|]. apply lookup_insert_eq.
  - intros t' c' E. apply (Hc t' c'). rewrite lookup_insert_ne; [done|]. intros ->. congruence.
Qed.

Lemma calls_none s : (forall t c, s.(callers) !! t = Some c -> op_of c = []) -> calls s = [].
Proof using.
  intros Hc. unfold calls. assert (forall x, x ∈ map_to_list s.(callers) -> op_of x.2 = []) as Hx.
  { intros [t c] E. apply elem_of_map_to_list in E. by eapply Hc. }
  induction (map_to_list s.(callers)) as [|x l IH]; [done|]. cbn.
  rewrite (Hx x) by left. apply IH. intros y Hy. apply Hx. by right.
Qed.

(** A call that starts, and needs no room. *)
Definition starts (m : fdMap T) (c : caller) : Prop :=
  match c with AddCheck fd _ => (fd < length m.(fds))%nat | DelLock _ => True | _ => False end.

Lemma quiet_linear (m : fdMap T) s :
  quiet m s -> (forall t c, s.(callers) !! t = Some c -> starts m c) -> linear m [] s.
Proof using.
  intros (Ha & Hl & Hc & _) Hst. split.
  - intros t c E. specialize (Hst t c E). destruct c; try done. cbn in *. lia.
  - cbn. split_and!; [|done|done|].
    + intros t E. by specialize (Hst t _ E).
    + rewrite owed_zero; [lia|]. intros t c E. specialize (Hst t c E). by destruct c.
Qed.

(** ** Theorems *)

(** C20: calls that need no room are atomic.  Any number of goroutines call [Add]
    and [Delete] on a table that is large enough for what they add; under every
    schedule there is one moment inside each call, its exchange, such that what
    the slice holds is what the same calls leave that are made one after the other
    in the order of these moments, and the counter is behind by the calls that are
    between their exchange and its change; a call panics exactly when that
    sequence does.  When all have returned, the table is what the sequence leaves. *)
Theorem no_growth_linearizes (m : fdMap T) s l s' :
  quiet m s -> (forall t c, s.(callers) !! t = Some c -> starts m c) -> rrun l s = Some s' ->
  let ops := effects l s in
  ops ++ calls s' ≡ₚ calls s /\
  match table_run ops m with
  | Some m' => (forall t, s'.(callers) !! t <> Some Panicked) /\
      as_fdMap s' = Some (mkFdMap m'.(fds) (m'.(count) - owed s'))
  | None => exists t, s'.(callers) !! t = Some Panicked
  end /\
  ((forall t c, s'.(callers) !! t = Some c -> c = Returned) ->
   ops ≡ₚ calls s /\ as_fdMap s' = table_run ops m).
Proof using.
  intros Hq Hst Hr ops. destruct (rrun_linear l m [] s s' (quiet_linear m s Hq Hst) Hr) as [[_ Hlin] Hc].
  change ([] ++ effects l s) with ops in Hlin. fold ops in Hc. split; [done|].
  assert (forall m', table_run ops m = Some m' ->
    as_fdMap s' = Some (mkFdMap m'.(fds) (m'.(count) - owed s'))) as Has.
  { intros m' E. rewrite E in Hlin. destruct Hlin as (_ & Ha & Hl & Hcnt). unfold as_fdMap. rewrite Ha.
    cbn [mbind option_bind]. rewrite take_ge by lia. by rewrite Hcnt. }
  split.
  - destruct (table_run ops m) as [m'|]; [|done]. split; [apply Hlin|by apply Has].
  - intros Hret. rewrite (calls_none s'), app_nil_r in Hc by (intros t c E; by rewrite (Hret t c E)).
    split; [done|]. destruct (table_run ops m) as [m'|].
    + rewrite (Has m' eq_refl), owed_zero by (intros t c E; by rewrite (Hret t c E)).
      rewrite Z.sub_0_r. by destruct m'.
    + destruct Hlin as [t E]. by specialize (Hret t _ E).
Qed.

(** An addition that is lost.  While one goroutine's [Add] grows the slice, the
    [Add] of another, whose descriptor is within the old length, stores into the
    array that is being replaced: both calls return, the counter counts both, and
    the first descriptor is not in the table.  For the client this is a connection
    whose events are not found, whose callback is never called, and whose deletion
    panics. *)
Theorem concurrent_Add_lost (m : fdMap T) (s : table) (fd1 fd2 : nat) v1 v2 t1 t2 a :
  quiet m s -> m.(fds) !! fd1 = Some None -> (length m.(fds) <= fd2)%nat -> t1 <> t2 ->
  s.(callers) !! t1 = Some (AddCheck fd1 v1) -> s.(callers) !! t2 = Some (AddCheck fd2 v2) ->
  s.(arrays) !! a = None ->
  exists l s' m', rrun l s = Some s' /\
    s'.(callers) !! t1 = Some Returned /\ s'.(callers) !! t2 = Some Returned /\
    as_fdMap s' = Some m' /\ fdMap_Len m' = fdMap_Len m + 2 /\
    fdMap_Get (Z.of_nat fd2) m' = Some (Some v2) /\ fdMap_Get (Z.of_nat fd1) m' = Some None /\
    fdMap_Delete (Z.of_nat fd1) m' = None.
Proof using.
  intros Hq Hfree Hgrow Hne H1 H2 Ha.
  destruct (lost_run m s fd1 fd2 v1 v2 t1 t2 a Hq Hfree Hgrow Hne H1 H2 Ha) as (s' & Hrun & E1 & E2 & _ & Em).
  set (x := m.(fds) ++ _) in *. apply lookup_lt_Some in Hfree as Hlt.
  assert (length x = S fd2) as Hlx.
  { unfold x. rewrite !length_app, length_replicate. cbn. lia. }
  assert (x !! fd1 = Some None) as Hx1 by (unfold x; by rewrite lookup_app_l by done).
  assert (x !! fd2 = Some (Some v2)) as Hx2.
  { unfold x. rewrite lookup_app_r by done. rewrite lookup_app_r by (rewrite length_replicate; lia).
    rewrite length_replicate. by rewrite Nat.sub_diag. }
  assert (forall n, at_ x (Z.of_nat n) = x !! n) as Hat.
  { intros n. unfold at_. rewrite bool_decide_true by lia. by rewrite Nat2Z.id. }
  eexists _, s', _. split; [exact Hrun|]. split; [done|]. split; [done|]. split; [exact Em|].
  unfold fdMap_Len, fdMap_Get, fdMap_Delete, len. cbn [count fds]. rewrite !Hat, Hlx, Hx1, Hx2.
  split_and!; [done|..].
  - destruct (Z.leb_spec (Z.of_nat (S fd2)) (Z.of_nat fd2)); [lia|done].
  - by destruct (_ <=? _).
  - destruct (Z.ltb_spec (Z.of_nat fd1) (Z.of_nat (S fd2))); [done|lia].
Qed.
End race.

(** ** Witnesses *)

Definition ex_table : @table Z :=
  mkTable (mkSlice 1 8) 0 None {[1%positive := replicate 8 None]}
    {[1%nat := AddCheck 6 60; 2%nat := AddCheck 9 90]}.

Lemma concurrent_Add_lost_witness :
  exists l s' m', rrun l ex_table = Some s' /\
    s'.(callers) !! 1%nat = Some Returned /\ s'.(callers) !! 2%nat = Some Returned /\
    as_fdMap s' = Some m' /\ fdMap_Len m' = 2 /\
    fdMap_Get 9 m' = Some (Some 90) /\ fdMap_Get 6 m' = Some None /\ fdMap_Delete 6 m' = None.
Proof.
  apply (concurrent_Add_lost (mkFdMap (replicate 8 None) 0) ex_table 6 9 60 90 1 2 2); try reflexivity.
  - split_and!; reflexivity.
  - cbn. lia.
  - done.
Defined.

(** An addition and a deletion that overlap. *)
Definition ex_quiet : @table Z :=
  mkTable (mkSlice 1 8) 1 None {[1%positive := replicate 5 None ++ [Some 50] ++ replicate 2 None]}
    {[1%nat := AddCheck 6 60; 2%nat := DelLock 5]}.
Definition ex_overlap : list (nat * positive * nat) :=
  [(1, 1%positive, 0); (2, 1%positive, 0); (2, 1%positive, 0); (1, 1%positive, 0); (2, 1%positive, 0);
   (1, 1%positive, 0); (1, 1%positive, 0); (2, 1%positive, 0); (2, 1%positive, 0)]%nat.

Lemma no_growth_linearizes_witness :
  let m := mkFdMap (replicate 5 None ++ [Some 50] ++ replicate 2 None) 1 in
  let ops := [OpDelete 5; OpAdd 6 60] in
  effects ex_overlap ex_quiet = ops /\
  exists s', rrun ex_overlap ex_quiet = Some s' /\ ops ≡ₚ calls ex_quiet /\ as_fdMap s' = table_run ops m.
Proof.
  intros m ops. split; [by vm_compute|]. eexists. split; [vm_compute; reflexivity|].
  refine (proj2 (proj2 (no_growth_linearizes m ex_quiet ex_overlap _ _ _ _)) _).
  - by split_and!.
  - intros t c. unfold ex_quiet. cbn [callers].
    intros [[_ <-]|[_ [_ <-]%lookup_singleton_Some]]%lookup_insert_Some; cbn; [lia|done].
  - by vm_compute.
  - intros t c. cbn [callers]. intros E. apply elem_of_map_to_list in E.
    match type of E with _ ∈ ?L => let L' := eval vm_compute in L in change L with L' in E end.
    rewrite !elem_of_cons, elem_of_nil in E. by destruct E as [[= _ ->]|[[= _ ->]|[]]].
Defined.
