(* ===== verification/Client.v ===== *)
(** The Redis client (src/redis/client.go): a pool of connections, what a call of
    [Exec], an event of the poller and the timer of a connection do to it.

    A connection is an object of the map [conns], known by an identity that is
    never used again; [fdConns] is any table of [FdMap]; [fdIdle] is the buffered
    channel of idle connections, oldest first.  The answers of the system calls
    are inputs.  A call of [Exec] is a sequence of steps, one for each access to what
    calls in other goroutines share with it (the channel, the table, a timer); an event
    and a timer are one step each.  A callback is an entry of the log and calls nothing
    itself. *)

From stdpp Require Import gmap.
From S2P Require Import Prelude GoStd Util RespClient FdMap.

(** ** State *)

(** The timer [death]: waiting to fire, or stopped or fired. *)
Inductive timer := TActive | TInactive.

#[export] Instance timer_eq_dec : EqDecision timer.
Proof. solve_decision. Defined.

(** What a callback is called with instead of a reply. *)
Inductive cerror :=
| eClosed
| eConnect
| eTimeout
| eWrite
| eRead
| eNotActive
| eOversize
| eElement (e : rerror).

(** [Conn]; [callback] is [None] when Go's function value is [nil], otherwise the
    number of the call of [Exec] that it belongs to. *)
Record CConn := mkCConn {
  cfd : Z;
  callback : option nat;
  cin : bytes;
  cout : bytes;
  death : option timer;
  authState : Z;
}.

Definition set_callback (f : option nat) (c : CConn) : CConn :=
  mkCConn c.(cfd) f c.(cin) c.(cout) c.(death) c.(authState).
Definition set_cin (b : bytes) (c : CConn) : CConn :=
  mkCConn c.(cfd) c.(callback) b c.(cout) c.(death) c.(authState).
Definition set_cout (b : bytes) (c : CConn) : CConn :=
  mkCConn c.(cfd) c.(callback) c.(cin) b c.(death) c.(authState).
Definition set_death (t : option timer) (c : CConn) : CConn :=
  mkCConn c.(cfd) c.(callback) c.(cin) c.(cout) t c.(authState).
Definition set_authState (a : Z) (c : CConn) : CConn :=
  mkCConn c.(cfd) c.(callback) c.(cin) c.(cout) c.(death) a.

(** What the poller watches a descriptor for. *)
Inductive cmode := CRead | CReadWrite.

(** What can be observed from outside; of a call of [OnFdCount] also what the client's
    [IdleCount] and [ActiveCount] answer in it. *)
Inductive cevent :=
| CbReply (cb : nat) (r : Reader) (e : option bytes)
| CbError (cb : nat) (e : cerror)
| CEvError (typ : bytes)
| CEvFdCount (idle active : Z)
| CEvSysClose (fd : Z)
| CEvTrigger (fd : Z)
| CEvSent (id : Z) (p : bytes).

(** The settings of a client; [has_timeout] tells whether [Timeout] is positive. *)
Record config := mkConfig {
  auth : bytes;
  poolSize : Z;
  has_timeout : bool;
  ResponseMaxBytes : Z;
  sys_close_fails : Z -> bool;
}.

(** The arguments of [Exec]; [AOther] is what [fmt.Sprint] makes of a value of
    another type. *)
Inductive arg := ABytes (b : bytes) | AString (s : bytes) | AInt (n : Z) | AOther (s : bytes).

Definition arg_text (a : arg) : bytes :=
  match a with
  | ABytes s | AString s | AOther s => s
  | AInt n => strconv.FormatInt 10 n
  end.

Section client.
Context {M : Type} `{FdTable M Z}.
Context (cfg : config).

Record Client := mkClient {
  conns : gmap Z CConn;
  fdConns : M;
  fdIdle : list Z;
  cinterest : gmap Z cmode;
  clog : list cevent;
}.

Definition newClient : Client := mkClient ∅ empty_table [] ∅ [].

Definition with_cconns f (s : Client) : Client :=
  mkClient (f s.(conns)) s.(fdConns) s.(fdIdle) s.(cinterest) s.(clog).
Definition with_table t (s : Client) : Client :=
  mkClient s.(conns) t s.(fdIdle) s.(cinterest) s.(clog).
Definition with_idle l (s : Client) : Client :=
  mkClient s.(conns) s.(fdConns) l s.(cinterest) s.(clog).
Definition with_cinterest f (s : Client) : Client :=
  mkClient s.(conns) s.(fdConns) s.(fdIdle) (f s.(cinterest)) s.(clog).
Definition cemit e (s : Client) : Client :=
  mkClient s.(conns) s.(fdConns) s.(fdIdle) s.(cinterest) (s.(clog) ++ [e]).

(** [IdleCount()], [ActiveCount()] *)
Definition IdleCount (s : Client) : Z := len s.(fdIdle).
Definition ActiveCount (s : Client) : Z := Len s.(fdConns) - len s.(fdIdle).
Definition fd_count (s : Client) : cevent := CEvFdCount (IdleCount s) (ActiveCount s).
Definition OnFdCount (s : Client) : Client := cemit (fd_count s) s.

(** A goroutine that waits for the channel [fdIdle]. *)
Inductive waiting := Blocked.

Definition cresult (A : Type) : Type := res waiting A.

(** The object behind the pointer [c]. *)
Definition cconn_at (id : Z) (s : Client) : cresult CConn := checked (s.(conns) !! id).
Definition cupdate (id : Z) (f : CConn -> CConn) (s : Client) : Client :=
  with_cconns (fun m => alter f id m) s.

Definition CModRead (f : Z) (s : Client) : Client := with_cinterest (<[f := CRead]>) s.
Definition CModReadWrite (f : Z) (s : Client) : Client := with_cinterest (<[f := CReadWrite]>) s.

(** [death.Reset(d)] and [death.Stop()]: whether the timer was active; a [nil]
    timer panics. *)
Definition timer_Reset (id : Z) (s : Client) : cresult (Client * bool) :=
  let! c := cconn_at id s in
  let! t := checked c.(death) in
  Ok (cupdate id (set_death (Some TActive)) s, bool_decide (t = TActive)).
Definition timer_Stop (id : Z) (s : Client) : cresult (Client * bool) :=
  let! c := cconn_at id s in
  let! t := checked c.(death) in
  Ok (cupdate id (set_death (Some TInactive)) s, bool_decide (t = TActive)).

(** ** Closing *)

Definition closeConnWithError (id : Z) (typ : bytes) (err : option cerror) (s : Client)
  : cresult Client :=
  let! c := cconn_at id s in
  let! t := checked (Delete c.(cfd) s.(fdConns)) in
  let s := OnFdCount (with_table t s) in
  let s := cemit (CEvSysClose c.(cfd)) (with_cinterest (delete c.(cfd)) s) in
  let s := if cfg.(sys_close_fails) c.(cfd) then cemit (CEvError (bs "close")) s else s in
  let s := match err with Some _ => cemit (CEvError typ) s | None => s end in
  Ok match c.(callback) with
     | Some cb =>
         if bool_decide (typ = bs "free") then s else cemit (CbError cb (default eClosed err)) s
     | None => s
     end.

(** ** Requests *)

(** The command that [Exec] appends to the output. *)
Fixpoint append_args (args : list arg) (out : bytes) : bytes :=
  match args with
  | [] => out
  | a :: args =>
      let s := arg_text a in
      let out := out ++ bs "$" in
      let out := strconv.AppendInt out (len s) 10 in
      let out := out ++ crlf in
      let out := out ++ s in
      append_args args (out ++ crlf)
  end.
Definition append_command (args : list arg) (out : bytes) : bytes :=
  let out := out ++ bs "*" in
  let out := strconv.AppendInt out (len args) 10 in
  append_args args (out ++ crlf).

(** What a new connection sends first. *)
Definition auth_command : bytes :=
  if bool_decide (cfg.(auth) = []) then []
  else
    let out := bs "*2" ++ crlf ++ bs "$4" ++ crlf ++ bs "AUTH" ++ crlf ++ bs "$" in
    let out := strconv.AppendInt out (len cfg.(auth)) 10 in
    let out := out ++ crlf in
    let out := out ++ cfg.(auth) in
    out ++ crlf.

(** Where a call of [Exec] is.  In [activateFreeConn]: before the [select] on the channel,
    before it looks at the length of the table, at the channel when that is full, before
    it connects, and before it adds the connection that it has opened.  In [fillIdleConn],
    with the connection [id]: before its callback and output are set, before its timer is
    set, before the loop looks at the length of the table, at the channel in the loop,
    before it closes the idle connection [v], and before it triggers the poller.  Adding a
    connection, setting its timer and handing its descriptor to the poller are one step:
    there is no event for it before, and its timer has just been set. *)
Inductive call_pc :=
| XSelect
| XTest
| XWait
| XConnect
| XAdd (fd : Z)
| XFill (id : Z)
| XReset (id : Z)
| XLoop (id : Z)
| XDrop (id : Z)
| XClose (id v : Z)
| XTrigger (id : Z)
| XDone.

#[export] Instance call_pc_eq_dec : EqDecision call_pc.
Proof. solve_decision. Defined.

(** One step of [activateFreeConn] (one access to what goroutines share). [id] is the
    identity of a new connection and [fd] what connecting it answers ([None]: a system
    call failed). *)
Definition activateFreeConn (id : Z) (fd : option Z) (cb : nat) (args : list arg) (p : call_pc) (s : Client)
  : cresult (call_pc * Client) :=
  match p with
  | XSelect =>
      match s.(fdIdle) with
      | idle :: ids => Ok (XFill idle, with_idle ids s)
      | [] => Ok (XTest, s)
      end
  | XTest => Ok (if cfg.(poolSize) <=? Len s.(fdConns) then XWait else XConnect, s)
  | XWait =>
      match s.(fdIdle) with
      | idle :: ids => Ok (XFill idle, with_idle ids s)
      | [] => Err Blocked
      end
  | XConnect =>
      match fd with
      | None => Ok (XDone, cemit (CbError cb eConnect) s)
      | Some fd => Ok (XAdd fd, s)
      end
  | XAdd fd =>
      let authState := if bool_decide (cfg.(auth) = []) then 0 else 1 in
      let c := mkCConn fd (Some cb) [] (append_command args auth_command) None authState in
      let s := with_cconns (<[id := c]>) s in
      let! t := checked (Add fd id s.(fdConns)) in
      let s := with_table t s in
      let s := if cfg.(has_timeout) then cupdate id (set_death (Some TActive)) s else s in
      Ok (XDone, CModReadWrite fd (OnFdCount s))
  | _ => Ok (p, s)
  end.

(** One step of [fillIdleConn]. *)
Definition fillIdleConn (cb : nat) (args : list arg) (p : call_pc) (s : Client) : cresult (call_pc * Client) :=
  match p with
  | XFill id =>
      let! c := cconn_at id s in
      if 0 <? len c.(cout) then Panic
      else
        let s := cupdate id (fun c => set_cout (append_command args []) (set_callback (Some cb) c)) s in
        Ok (if cfg.(has_timeout) then XReset id else XLoop id, s)
  | XReset id => let! (s, _) := timer_Reset id s in Ok (XLoop id, s)
  | XLoop id => Ok (if cfg.(poolSize) <? Len s.(fdConns) then XDrop id else XTrigger id, s)
  | XDrop id =>
      match s.(fdIdle) with
      | v :: ids => Ok (XClose id v, with_idle ids s)
      | [] => Ok (XTrigger id, s)
      end
  | XClose id v => let! s := closeConnWithError v [] None s in Ok (XLoop id, s)
  | XTrigger id =>
      let! c := cconn_at id s in
      Ok (XDone, cemit (CEvTrigger c.(cfd)) (OnFdCount s))
  | _ => Ok (p, s)
  end.

(** One step of a call. *)
Definition call_step (id : Z) (fd : option Z) (cb : nat) (args : list arg) (p : call_pc) (s : Client)
  : cresult (call_pc * Client) :=
  match p with
  | XSelect | XTest | XWait | XConnect | XAdd _ => activateFreeConn id fd cb args p s
  | _ => fillIdleConn cb args p s
  end.

(** A call that nobody disturbs, from [p]: its steps one after the other. *)
Fixpoint run_call (fuel : nat) (id : Z) (fd : option Z) (cb : nat) (args : list arg) (p : call_pc) (s : Client)
  : cresult Client :=
  if decide (p = XDone) then Ok s
  else
    match fuel with
    | O => OutOfFuel
    | S fuel => let! (p, s) := call_step id fd cb args p s in run_call fuel id fd cb args p s
    end.

(** It goes round its loop once for each idle connection at most. *)
Definition call_fuel (s : Client) : nat := 3 * length s.(fdIdle) + 10.

Definition Exec (id : Z) (fd : option Z) (cb : nat) (args : list arg) (s : Client) : cresult Client :=
  run_call (call_fuel s) id fd cb args XSelect s.

(** ** Events *)

(** The answers of [write(2)] and [read(2)]. *)
Inductive cwresult := CWN (n : Z) | CWAgain (n : Z) | CWErr.
Inductive crresult := CRData (d : bytes) | CREof | CRAgain | CRErr.

Definition writeConn (id : Z) (w : cwresult) (s : Client) : cresult Client :=
  let! c := cconn_at id s in
  if len c.(cout) =? 0 then Ok (CModRead c.(cfd) s)
  else
    match w with
    | CWAgain n =>
        let! rest := checked (if 0 <? n then slice_from c.(cout) n else Some c.(cout)) in
        let s := if 0 <? n then cemit (CEvSent id (take (Z.to_nat n) c.(cout))) s else s in
        Ok (CModReadWrite c.(cfd) (cupdate id (set_cout rest) s))
    | CWErr => closeConnWithError id (bs "write") (Some eWrite) s
    | CWN n =>
        let s := cemit (CEvSent id (take (Z.to_nat n) c.(cout))) s in
        if n =? len c.(cout) then Ok (CModRead c.(cfd) (cupdate id (set_cout []) s))
        else
          let! rest := checked (slice_from c.(cout) n) in
          Ok (CModReadWrite c.(cfd) (cupdate id (set_cout rest) s))
    end.

(** The loop of [readConn] over the replies in the input; [true] when it ended
    without closing the connection. *)
Fixpoint read_replies (fuel : nat) (id : Z) (s : Client) : cresult (Client * bool) :=
  let! c := cconn_at id s in
  if 0 <? len c.(cin) then
    match fuel with
    | O => OutOfFuel
    | S fuel =>
        match readElement c.(cin) with
        | Panic => Panic
        | OutOfFuel => OutOfFuel
        | Err e =>
            if decide (e = rWaitMore) then Ok (s, true)
            else
              let! s := closeConnWithError id (bs "read") (Some (eElement e)) s in
              Ok (s, false)
        | Ok bb =>
            let! s :=
              if c.(authState) =? 1 then Ok (cupdate id (set_authState 2) s)
              else
                let! b := checked (slice_to c.(cin) bb) in
                match err (mkReader b) with
                | Ok (r, e) =>
                    let! cb := checked c.(callback) in
                    Ok (cupdate id (set_authState 0) (cemit (CbReply cb r e) s))
                | OutOfFuel => OutOfFuel
                | _ => Panic
                end in
            let! rest := checked (slice_from c.(cin) bb) in
            read_replies fuel id (cupdate id (set_cin rest) s)
        end
    end
  else Ok (s, true).

(** The end of [readConn]: back to the pool, or closed. *)
Definition release (id : Z) (s : Client) : cresult Client :=
  let! c := cconn_at id s in
  if (len c.(cin) =? 0) && (c.(authState) =? 0) then
    if Len s.(fdConns) <=? cfg.(poolSize) then
      let s := cupdate id (set_callback None) s in
      let! (s, stopped) :=
        match c.(death) with
        | Some _ => timer_Stop id s
        | None => Ok (s, true)
        end in
      if negb stopped then Ok s
      else if len s.(fdIdle) <? cfg.(poolSize) then Ok (with_idle (s.(fdIdle) ++ [id]) s)
      else Err Blocked
    else closeConnWithError id (bs "free") None s
  else Ok s.

Definition readConn (id : Z) (r : crresult) (s : Client) : cresult Client :=
  let! c := cconn_at id s in
  match r with
  | CREof => closeConnWithError id [] None s
  | CRAgain => Ok (CModRead c.(cfd) s)
  | CRErr => closeConnWithError id (bs "read") (Some eRead) s
  | CRData d =>
      if bool_decide (c.(callback) = None) then Ok (cemit (CEvError (bs "warning")) s)
      else
        let b := c.(cin) ++ d in
        let s := cupdate id (set_cin b) s in
        if cfg.(ResponseMaxBytes) <? len b then
          closeConnWithError id (bs "oversize") (Some eOversize) s
        else
          let! (s, more) := read_replies (length b) id s in
          if more : bool then release id s else Ok s
  end.

(** The callback of [Wait]; [write] tells whether the event has the write flag. *)
Definition on_event (fd : Z) (write : bool) (w : cwresult) (r : crresult) (s : Client)
  : cresult Client :=
  let! o := checked (Get fd s.(fdConns)) in
  match o with
  | None => Ok (cemit (CEvError (bs "warning")) s)
  | Some id =>
      let! c := cconn_at id s in
      let! (s, alive) :=
        if negb (bool_decide (c.(callback) = None)) && cfg.(has_timeout) then timer_Reset id s
        else Ok (s, true) in
      if negb alive then Ok s
      else if write then
        if bool_decide (c.(callback) = None) then
          closeConnWithError id (bs "write") (Some eNotActive) s
        else writeConn id w s
      else readConn id r s
  end.

(** The timer of a connection fires. *)
Definition on_timer (id : Z) (s : Client) : cresult Client :=
  let s := cupdate id (set_death (Some TInactive)) s in
  closeConnWithError id (bs "timeout") (Some eTimeout) s.

(** [Close()], without the poller. *)
Definition Close (s : Client) : cresult Client :=
  foldl (fun r '(fd, _) =>
           let! s := r in
           let! o := checked (Get fd s.(fdConns)) in
           match o with
           | Some id => closeConnWithError id [] None s
           | None => Ok s
           end) (Ok s) (Foreach s.(fdConns)).

(** Everything that can happen to a client; here a call is not disturbed ([ClientCalls]
    has calls that are). *)
Inductive cinput :=
| CExec (id : Z) (fd : option Z) (cb : nat) (args : list arg)
| CEvent (fd : Z) (write : bool) (w : cwresult) (r : crresult)
| CTimer (id : Z).

Definition cstep (i : cinput) (s : Client) : cresult Client :=
  match i with
  | CExec id fd cb args => Exec id fd cb args s
  | CEvent fd write w r => on_event fd write w r s
  | CTimer id => on_timer id s
  end.
End client.
