(* ===== verification/ClientInv.v ===== *)
(** The invariant of the client's pool, and that every input keeps it: the pool
    never exceeds its size, and handing a connection back never waits. *)

From stdpp Require Import gmap.
From S2P Require Import Prelude GoStd Util RespClient FdMap Client.

Section invariant.
Context {M : Type} `{FdTable M Z}.
Context (cfg : config).
Local Abbreviation Client := (@Client M).
Implicit Types (s : Client) (c : CConn).

(** A connection that waits in the channel. *)
Definition idle_conn (c : CConn) : Prop :=
  c.(callback) = None /\ c.(death) <> Some TActive /\ c.(cin) = [] /\ c.(authState) = 0.

(** The identities that use up the pool: open connections, and idle ones, which
    may have been closed since. *)
Definition in_pool (s : Client) : gset Z := list_to_set s.(fdIdle) ∪ map_img (view s.(fdConns)).

(** The invariant. *)
Record pool_ok (s : Client) : Prop := {
  pool_table : table_ok s.(fdConns);
  pool_conns fd id : view s.(fdConns) !! fd = Some id ->
    exists c, s.(conns) !! id = Some c /\ c.(cfd) = fd;
  pool_conn id c : s.(conns) !! id = Some c ->
    0 <= c.(cfd) /\ (is_Some c.(death) <-> cfg.(has_timeout) = true);
  pool_nodup : NoDup s.(fdIdle);
  pool_idle id : id ∈ s.(fdIdle) -> exists c, s.(conns) !! id = Some c /\ idle_conn c;
  pool_size : Z.of_nat (size (in_pool s)) <= cfg.(poolSize);
  pool_len : Z.of_nat (size (view s.(fdConns))) <= cfg.(poolSize);
}.

(** A connection in the table, and in use. *)
Definition busy (id : Z) (s : Client) : Prop :=
  id ∉ s.(fdIdle) /\ id ∈ (map_img (view s.(fdConns)) : gset Z) /\
  exists c, s.(conns) !! id = Some c /\ c.(callback) <> None.

(** What an operation may end with: a state that satisfies [P], or a panic. *)
Definition cpost {A} (P : A -> Prop) (r : cresult A) : Prop :=
  match r with Ok a => P a | Panic => True | Err _ | OutOfFuel => False end.

Lemma cpost_bind {A B} (P : A -> Prop) (Q : B -> Prop) (r : cresult A) (f : A -> cresult B) :
  cpost P r -> (forall a, P a -> cpost Q (f a)) -> cpost Q (rbind r f).
Proof using. destruct r; cbn; auto. Qed.

Lemma cpost_mono {A} (P Q : A -> Prop) (r : cresult A) : (forall a, P a -> Q a) -> cpost P r -> cpost Q r.
Proof using. destruct r; cbn; auto. Qed.

Lemma cpost_checked {A} (P : A -> Prop) (o : option A) :
  (forall a, o = Some a -> P a) -> cpost P (checked o).
Proof using. destruct o; cbn; auto. Qed.

(** ** Changes that keep the invariant *)

Lemma pool_ext s s' :
  s'.(conns) = s.(conns) -> s'.(fdConns) = s.(fdConns) -> s'.(fdIdle) = s.(fdIdle) ->
  pool_ok s -> pool_ok s'.
Proof using.
  intros E1 E2 E3 [??????]. split; unfold in_pool in *; rewrite ?E1, ?E2, ?E3; auto.
Qed.

Lemma lookup_cupdate id f s id' :
  (cupdate id f s).(conns) !! id' = (if decide (id' = id) then f <$> s.(conns) !! id else s.(conns) !! id').
Proof using.
  cbn. case_decide as E; [subst; apply lookup_alter_eq|by apply lookup_alter_ne].
Qed.

(** A change of a connection that is not idle. *)
Lemma pool_update id f s :
  (id ∉ s.(fdIdle)) ->
  (forall c, s.(conns) !! id = Some c ->
     (f c).(cfd) = c.(cfd) /\ (is_Some (f c).(death) <-> is_Some c.(death))) ->
  pool_ok s -> pool_ok (cupdate id f s).
Proof using.
  intros Hn Hf [Ht Hc Hd Hnd Hi Hs Hl]. split; [done| | |done| |done|done].
  - intros fd id' Hv. destruct (Hc fd id' Hv) as (c & Hid & Hfd). rewrite lookup_cupdate.
    case_decide as E; [subst id'; rewrite Hid|by exists c]. exists (f c). split; [done|].
    by rewrite (proj1 (Hf c Hid)).
  - intros id' c. rewrite lookup_cupdate. case_decide as E; [|apply Hd]. subst id'.
    destruct (s.(conns) !! id) as [c0|] eqn:Hid; [|done]. intros [= <-].
    destruct (Hf c0 eq_refl) as [-> ->]. by apply (Hd id).
  - intros id' Hid. rewrite lookup_cupdate. rewrite decide_False by (intros ->; done). by apply Hi.
Qed.

Lemma busy_update id f s :
  (forall c, c.(callback) <> None -> (f c).(callback) <> None) -> busy id s -> busy id (cupdate id f s).
Proof using.
  intros Hf (Hn & Hv & c & Hid & Hcb). split_and!; [done|done|]. exists (f c).
  rewrite lookup_cupdate, decide_True, Hid by done. auto.
Qed.

Lemma busy_ext id s s' :
  s'.(conns) = s.(conns) -> s'.(fdConns) = s.(fdConns) -> s'.(fdIdle) = s.(fdIdle) ->
  busy id s -> busy id s'.
Proof using. unfold busy. by intros -> -> ->. Qed.

(** ** Closing *)

Lemma closeConn_eq id typ e s c t :
  s.(conns) !! id = Some c -> Delete c.(cfd) s.(fdConns) = Some t ->
  exists s', closeConnWithError cfg id typ e s = Ok s' /\
    s'.(conns) = s.(conns) /\ s'.(fdConns) = t /\ s'.(fdIdle) = s.(fdIdle).
Proof using.
  intros Hid Ht. unfold closeConnWithError, cconn_at. rewrite Hid. cbn [checked rbind]. rewrite Ht.
  cbn [checked rbind]. eexists. split; [done|].
  destruct (cfg.(sys_close_fails) c.(cfd)), e, c.(callback), (bool_decide (typ = bs "free"));
    by split_and!.
Qed.

Lemma pool_delete id c s s' t :
  pool_ok s -> s.(conns) !! id = Some c -> Delete c.(cfd) s.(fdConns) = Some t ->
  s'.(conns) = s.(conns) -> s'.(fdConns) = t -> s'.(fdIdle) = s.(fdIdle) -> pool_ok s'.
Proof using.
  intros Hp Hid Hdel E1 E2 E3. pose proof Hp as [Ht Hc Hd Hnd Hi Hs Hl].
  pose proof (proj1 (Hd id c Hid)) as H0.
  destruct (view s.(fdConns) !! c.(cfd)) as [v|] eqn:Hv.
  - destruct (Delete_used _ _ _ Ht Hv) as (t' & Hdel' & Hok & Hview & _).
    rewrite Hdel in Hdel'. injection Hdel' as <-.
    split; unfold in_pool; rewrite ?E1, ?E2, ?E3; try done.
    + rewrite Hview. intros fd id' [_ Hl']%lookup_delete_Some. by apply Hc.
    + rewrite Hview. etransitivity; [|exact Hs]. apply inj_le, subseteq_size.
      apply union_mono_l, map_img_delete_subseteq.
    + rewrite Hview, map_size_delete, Hv. lia.
  - rewrite Delete_free in Hdel by done. destruct (_ <? _); [done|]. injection Hdel as <-.
    by eapply pool_ext.
Qed.

Lemma cclose_post id typ e s :
  pool_ok s -> cpost pool_ok (closeConnWithError cfg id typ e s).
Proof using.
  intros Hp. destruct (s.(conns) !! id) as [c|] eqn:Hid.
  2: { unfold closeConnWithError, cconn_at. by rewrite Hid. }
  destruct (Delete c.(cfd) s.(fdConns)) as [t|] eqn:Hdel.
  - destruct (closeConn_eq id typ e s c t Hid Hdel) as (s' & -> & ? & ? & ?).
    by eapply pool_delete.
  - unfold closeConnWithError, cconn_at. rewrite Hid. cbn [checked rbind]. by rewrite Hdel.
Qed.

(** ** Timers *)

(** What setting the timer of a connection in use leaves. *)
Definition same_pool (id : Z) (s s' : Client) : Prop :=
  pool_ok s' /\ s'.(fdIdle) = s.(fdIdle) /\ s'.(fdConns) = s.(fdConns) /\ (busy id s -> busy id s').

Lemma set_death_same id x s c t :
  s.(conns) !! id = Some c -> c.(death) = Some t -> pool_ok s -> (id ∉ s.(fdIdle)) ->
  same_pool id s (cupdate id (set_death (Some x)) s).
Proof using.
  intros Hid Ht Hp Hn. split_and!; [|done|done|by apply busy_update].
  apply pool_update; [done| |done]. intros c'. rewrite Hid. intros [= <-]. cbn. rewrite Ht.
  split; [done|]. split; by eexists.
Qed.

Lemma timer_Reset_post id s :
  pool_ok s -> (id ∉ s.(fdIdle)) -> cpost (fun sb => same_pool id s sb.1) (timer_Reset id s).
Proof using.
  intros Hp Hn. unfold timer_Reset, cconn_at. destruct (s.(conns) !! id) as [c|] eqn:Hid; [|done].
  cbn [checked rbind]. destruct c.(death) as [t|] eqn:Ht; [|done]. cbn. by eapply set_death_same.
Qed.

Lemma timer_Stop_post id s :
  pool_ok s -> (id ∉ s.(fdIdle)) -> cpost (fun sb => same_pool id s sb.1) (timer_Stop id s).
Proof using.
  intros Hp Hn. unfold timer_Stop, cconn_at. destruct (s.(conns) !! id) as [c|] eqn:Hid; [|done].
  cbn [checked rbind]. destruct c.(death) as [t|] eqn:Ht; [|done]. cbn. by eapply set_death_same.
Qed.

(** ** Requests *)

Lemma pool_pop s id ids : pool_ok s -> s.(fdIdle) = id :: ids -> pool_ok (with_idle ids s) /\ (id ∉ ids).
Proof using.
  intros [Ht Hc Hd Hnd Hi Hs Hl] E. rewrite E in Hnd. apply NoDup_cons in Hnd as [Hn Hnd].
  split; [|done]. split; try done.
  - intros id' Hin. apply Hi. rewrite E. by right.
  - etransitivity; [|exact Hs]. apply inj_le, subseteq_size. unfold in_pool. rewrite E. cbn. set_solver.
Qed.

Lemma pool_Len s : pool_ok s -> (Len s.(fdConns) <=? cfg.(poolSize)) = true.
Proof using. intros [Ht _ _ _ _ _ Hl]. apply Z.leb_le. by rewrite Len_size. Qed.

(** *** A call that nobody disturbs *)

Lemma run_call_S fuel id fd cb args p s :
  p <> XDone ->
  run_call cfg (S fuel) id fd cb args p s
  = let! (p, s) := call_step cfg id fd cb args p s in run_call cfg fuel id fd cb args p s.
Proof using. intros Hp. cbn [run_call]. by rewrite decide_False. Qed.

Lemma run_call_done fuel id fd cb args s : run_call cfg fuel id fd cb args XDone s = Ok s.
Proof using. by destruct fuel. Qed.

(** What it does to an idle connection, when there are not too many. *)
Definition fill_alone (id : Z) (cb : nat) (args : list arg) (s : Client) : cresult Client :=
  let! c := cconn_at id s in
  if 0 <? len c.(cout) then Panic
  else
    let s := cupdate id (fun c => set_cout (append_command args []) (set_callback (Some cb) c)) s in
    let! s := if cfg.(has_timeout) then let! (s, _) := timer_Reset id s in Ok s else Ok s in
    let! c := cconn_at id s in
    Ok (cemit (CEvTrigger c.(cfd)) (OnFdCount s)).

Lemma timer_Reset_table id s s' b : timer_Reset id s = Ok (s', b) -> s'.(fdConns) = s.(fdConns).
Proof using.
  unfold timer_Reset, cconn_at. destruct (s.(conns) !! id) as [c|]; [|done]. cbn [checked rbind].
  destruct c.(death); [|done]. by intros [= <- _].
Qed.

Lemma Exec_fill i id fd ids cb args s :
  Len s.(fdConns) <= cfg.(poolSize) -> s.(fdIdle) = i :: ids ->
  Exec cfg id fd cb args s = fill_alone i cb args (with_idle ids s).
Proof using.
  intros Hl E. unfold Exec, call_fuel. rewrite E. cbn [length]. replace (3 * S (length ids) + 10)%nat
    with (S (S (S (S (3 * length ids + 9))))) by lia.
  rewrite run_call_S by done. cbn [call_step activateFreeConn]. rewrite E. cbn [rbind].
  rewrite run_call_S by done. cbn [call_step fillIdleConn]. unfold fill_alone.
  destruct (cconn_at i (with_idle ids s)) as [c|?| |]; [|done..]. cbn [rbind]. destruct (0 <? len c.(cout)); [done|].
  cbn [rbind]. set (s1 := cupdate i _ _).
  assert (forall fuel s', s'.(fdConns) = s.(fdConns) ->
    run_call cfg (S (S fuel)) id fd cb args (XLoop i) s'
    = let! c := cconn_at i s' in Ok (cemit (CEvTrigger c.(cfd)) (OnFdCount s'))) as Hloop.
  { intros fuel s' Es. rewrite run_call_S by done. cbn [call_step fillIdleConn]. rewrite Es.
    rewrite (proj2 (Z.ltb_ge _ _) Hl). cbn [rbind]. rewrite run_call_S by done. cbn [call_step fillIdleConn].
    destruct (cconn_at i s'); [|done..]. cbn [rbind]. by rewrite run_call_done. }
  replace (3 * length ids + 9)%nat with (S (3 * length ids + 8)) by lia.
  destruct cfg.(has_timeout); [|by apply Hloop].
  rewrite run_call_S by done. cbn [call_step fillIdleConn].
  destruct (timer_Reset i s1) as [[s2 b]|?| |] eqn:Er; [|done..]. cbn [rbind].
  replace (3 * length ids + 8)%nat with (S (3 * length ids + 7)) by lia. apply Hloop.
  by rewrite (timer_Reset_table _ _ _ _ Er).
Qed.

(** And what it does when none is idle. *)
Lemma Exec_open id fd cb args s :
  s.(fdIdle) = [] ->
  Exec cfg id fd cb args s
  = if cfg.(poolSize) <=? Len s.(fdConns) then Err Blocked
    else match fd with
         | None => Ok (cemit (CbError cb eConnect) s)
         | Some fd => let! (_, s) := activateFreeConn cfg id None cb args (XAdd fd) s in Ok s
         end.
Proof using.
  intros E. unfold Exec, call_fuel. rewrite E. cbn [length Nat.mul Nat.add].
  rewrite run_call_S by done. cbn [call_step activateFreeConn]. rewrite E. cbn [rbind].
  rewrite run_call_S by done. cbn [call_step activateFreeConn rbind].
  destruct (_ <=? _); [rewrite run_call_S by done; cbn [call_step activateFreeConn]; by rewrite E|].
  rewrite run_call_S by done. cbn [call_step activateFreeConn].
  destruct fd as [fd|]; cbn [rbind]; [|by rewrite run_call_done].
  rewrite run_call_S by done. cbn [call_step activateFreeConn with_cconns fdConns].
  destruct (Add fd id s.(fdConns)); [|done]. cbn [checked rbind]. by rewrite run_call_done.
Qed.

Lemma fill_alone_post id ids cb args s :
  pool_ok s -> s.(fdIdle) = id :: ids -> cpost pool_ok (fill_alone id cb args (with_idle ids s)).
Proof using.
  intros Hp E. destruct (pool_pop s id ids Hp E) as [Hp1 Hn]. unfold fill_alone.
  unfold cconn_at at 1. destruct ((with_idle ids s).(conns) !! id) as [c|] eqn:Hid; [|done].
  cbn [checked rbind]. destruct (0 <? _); [done|]. set (s1 := cupdate id _ _).
  assert (pool_ok s1) as Hp2 by (by apply pool_update).
  eapply (cpost_bind pool_ok).
  { destruct cfg.(has_timeout); [|done]. eapply cpost_bind; [by apply timer_Reset_post|].
    intros [s2 b] [Hp3 _]. exact Hp3. }
  intros s2 Hp3. eapply (cpost_bind (fun _ => True)); [by apply cpost_checked|].
  intros c2 _. cbn. by eapply pool_ext; [..|exact Hp3].
Qed.

Lemma size_map_img (m : gmap Z Z) : (size (map_img m : gset Z) <= size m)%nat.
Proof using.
  induction m as [|i x m Hi IH] using map_ind; [by rewrite map_img_empty_L, size_empty|].
  rewrite map_img_insert_notin_L, map_size_insert_None by done.
  pose proof (size_union_alt {[x]} (map_img m : gset Z)) as E. rewrite size_singleton in E.
  etransitivity; [|apply le_n_S; exact IH].
  pose proof (subseteq_size (map_img m ∖ {[x]} : gset Z) (map_img m) ltac:(set_solver)). lia.
Qed.
(** A new connection has an identity and a descriptor that are not in use. *)
Definition fresh (id : Z) (fd : option Z) (s : Client) : Prop :=
  s.(conns) !! id = None /\ forall f, fd = Some f -> 0 <= f /\ view s.(fdConns) !! f = None.

(** A call waits only while the pool is full and nothing is idle. *)
Definition exec_post (s : Client) (r : cresult Client) : Prop :=
  match r with
  | Ok s' => pool_ok s'
  | Panic => True
  | Err Blocked => s.(fdIdle) = [] /\ cfg.(poolSize) <= Z.of_nat (size (view s.(fdConns)))
  | OutOfFuel => False
  end.

Lemma pool_add id fd c s s' t :
  pool_ok s -> s.(fdIdle) = [] -> Len s.(fdConns) < cfg.(poolSize) -> s.(conns) !! id = None ->
  0 <= fd -> view s.(fdConns) !! fd = None -> Add fd id s.(fdConns) = Some t ->
  c.(cfd) = fd -> (is_Some c.(death) <-> cfg.(has_timeout) = true) ->
  s'.(conns) = <[id := c]> s.(conns) -> s'.(fdConns) = t -> s'.(fdIdle) = s.(fdIdle) -> pool_ok s'.
Proof using.
  intros [Ht Hc Hd _ _ _ Hl] Hidle Hlen Hid H0 Hv Hadd Hfd Hdeath E1 E2 E3.
  destruct (Add_free fd id _ Ht H0 Hv) as (t' & Hadd' & Hok & Hview & _).
  rewrite Hadd in Hadd'. injection Hadd' as <-. rewrite (Len_size _ Ht) in Hlen.
  split; unfold in_pool; rewrite ?E1, ?E2, ?E3, ?Hidle; try done.
  - rewrite Hview. intros f id' [[<- <-]|[Hne Hl']]%lookup_insert_Some.
    + exists c. by rewrite lookup_insert_eq.
    + destruct (Hc f id' Hl') as (c' & Hid' & ?). exists c'. split; [|done].
      rewrite lookup_insert_ne by congruence. done.
  - intros id' c' [[<- <-]|[Hne Hl']]%lookup_insert_Some; [|by eapply Hd]. split; [lia|done].
  - constructor.
  - intros id' []%not_elem_of_nil.
  - rewrite Hview, map_img_insert_notin_L by done. cbn [list_to_set].
    rewrite union_empty_l_L. pose proof (size_map_img (view s.(fdConns))) as Hsz.
    assert (size ({[id]} ∪ map_img (view s.(fdConns)) : gset Z)
            <= S (size (map_img (view s.(fdConns)) : gset Z)))%nat as Hu.
    { rewrite size_union_alt, size_singleton. apply le_n_S, subseteq_size. set_solver. }
    lia.
  - rewrite Hview, map_size_insert_None by done. lia.
Qed.

Lemma Exec_post id fd cb args s :
  pool_ok s -> fresh id fd s -> exec_post s (Exec cfg id fd cb args s).
Proof using.
  intros Hp [Hid Hfd]. pose proof (pool_table s Hp) as Ht. destruct s.(fdIdle) as [|i ids] eqn:E.
  2: { rewrite (Exec_fill i id fd ids) by (done || by apply Z.leb_le, pool_Len).
       pose proof (fill_alone_post i ids cb args s Hp E) as Hf.
       by destruct (fill_alone i cb args (with_idle ids s)). }
  rewrite Exec_open by done.
  destruct (Z.leb_spec cfg.(poolSize) (Len s.(fdConns))) as [Hf|Hf].
  { cbn. rewrite E, <- (Len_size _ Ht). done. }
  destruct fd as [fd|]; [|by eapply (pool_ext s)]. destruct (Hfd fd eq_refl) as [H0 Hv].
  cbn [activateFreeConn with_cconns fdConns]. destruct (Add fd id s.(fdConns)) as [t|] eqn:Hadd; [|done].
  cbn [checked rbind exec_post].
  set (c := mkCConn fd (Some cb) [] _ None _).
  eapply (pool_add id fd (if cfg.(has_timeout) then set_death (Some TActive) c else c));
    [exact Hp|done..|exact Hadd| | | | |]; destruct cfg.(has_timeout) eqn:Eh; try done; cbn;
    rewrite ?Eh.
  - split; [by intros []|done].
  - by rewrite alter_insert_eq.
Qed.

(** ** Events *)

Lemma busy_of id fd c s :
  pool_ok s -> view s.(fdConns) !! fd = Some id -> s.(conns) !! id = Some c -> c.(callback) <> None ->
  busy id s.
Proof using.
  intros Hp Hv Hid Hcb.
  split; [|split; [by apply (elem_of_map_img_2 (SA := gset Z) _ fd)|by exists c]].
  intros Hin. destruct (pool_idle s Hp id Hin) as (c' & Hid' & Hi & _). by simplify_eq.
Qed.

Lemma pool_set_cout id b s c :
  pool_ok s -> busy id s -> s.(conns) !! id = Some c -> pool_ok (cupdate id (set_cout b) s).
Proof using. intros Hp (Hn & _) Hid. by apply pool_update. Qed.

Lemma cwrite_post id w s :
  pool_ok s -> busy id s -> cpost pool_ok (writeConn cfg id w s).
Proof using.
  intros Hp Hb. destruct (Hb) as (_ & _ & c & Hid & _). unfold writeConn, cconn_at. rewrite Hid.
  cbn [checked rbind]. destruct (_ =? _); [by eapply (pool_ext s)|].
  assert (forall b t, t.(conns) = s.(conns) -> t.(fdConns) = s.(fdConns) -> t.(fdIdle) = s.(fdIdle) ->
            pool_ok (cupdate id (set_cout b) t)) as Hset.
  { intros b t E1 E2 E3. apply (pool_set_cout _ _ _ c); [by eapply pool_ext|by eapply busy_ext|by rewrite E1]. }
  destruct w as [n|n|].
  - destruct (_ =? _).
    + cbn. eapply pool_ext; [..|apply (Hset [] (cemit (CEvSent id (take (Z.to_nat n) c.(cout))) s))]; done.
    + eapply (cpost_bind (fun _ => True)); [by apply cpost_checked|]. intros rest _. cbn.
      eapply pool_ext; [..|apply (Hset rest (cemit (CEvSent id (take (Z.to_nat n) c.(cout))) s))]; done.
  - eapply (cpost_bind (fun _ => True)); [by apply cpost_checked|]. intros rest _. cbn.
    destruct (0 <? n).
    + eapply pool_ext; [..|apply (Hset rest (cemit (CEvSent id (take (Z.to_nat n) c.(cout))) s))]; done.
    + eapply pool_ext; [..|apply (Hset rest s)]; done.
  - by apply cclose_post.
Qed.

(** The loop over the replies ends.  [J] is what holds of the client while the loop has
    the connection, [I] what holds when it is closed. *)
Lemma read_replies_inv (I J : Client -> Prop) fuel id s c :
  (forall s f, (forall c, (f c).(cfd) = c.(cfd) /\ (f c).(death) = c.(death) /\ (f c).(callback) = c.(callback)) ->
     J s -> J (cupdate id f s)) ->
  (forall s e, J s -> J (cemit e s)) ->
  (forall s typ e, J s -> cpost I (closeConnWithError cfg id typ e s)) ->
  J s -> s.(conns) !! id = Some c -> (length c.(cin) <= fuel)%nat -> len c.(cin) < 2 ^ 62 ->
  cpost (fun sm => if sm.2 : bool then J sm.1 else I sm.1) (read_replies cfg fuel id s).
Proof using.
  intros Hupd Hemit Hclose. revert s c.
  induction fuel as [|fuel IH]; intros s c HJ Hid Hfuel Hl; cbn [read_replies];
    unfold cconn_at; rewrite Hid; cbn [checked rbind]; destruct (Z.ltb_spec 0 (len c.(cin))) as [H0|H0];
    try by cbn.
  { unfold len in H0. lia. }
  pose proof (readElement_fuel c.(cin)) as Hnf.
  destruct (readElement c.(cin)) as [bb|e| |] eqn:Hrd; [|..|done]; [|case_decide; [done|]|done].
  2: { eapply cpost_bind; [by apply Hclose|]. intros s' Hp'. by cbn. }
  pose proof (readElement_ok _ _ Hrd) as Hbb. pose proof (err_take _ _ Hl Hrd) as Hnext.
  eapply (cpost_bind (fun s' => J s' /\ exists c', s'.(conns) !! id = Some c' /\ c'.(cin) = c.(cin))).
  { destruct (_ =? 1).
    - cbn [cpost]. split; [by apply Hupd|]. exists (set_authState 2 c).
      by rewrite lookup_cupdate, decide_True, Hid by done.
    - destruct (slice_to c.(cin) bb) as [b|] eqn:Eb; [|done]. cbn [checked rbind].
      apply slice_to_Some in Eb as [_ ->]. destruct Hnext as (re & ->).
      destruct re as [r e]. destruct c.(callback) as [cb|]; [|done].
      cbn [checked rbind cpost]. split; [by apply Hupd, Hemit|].
      exists (set_authState 0 c). rewrite lookup_cupdate, decide_True by done. cbn. by rewrite Hid. }
  intros s' (HJ' & c' & Hid' & Ec). eapply (cpost_bind (fun b => b = drop (Z.to_nat bb) c.(cin))).
  { apply cpost_checked. by intros b [_ ->]%slice_from_Some. }
  intros b ->. eapply (IH _ (set_cin (drop (Z.to_nat bb) c.(cin)) c')).
  - by apply Hupd.
  - by rewrite lookup_cupdate, decide_True, Hid' by done.
  - cbn. rewrite length_drop. unfold len in *. lia.
  - cbn. rewrite len_drop. lia.
Qed.

(** In a pool within its size, the connection stays in use. *)
Lemma read_replies_post fuel id s c :
  pool_ok s -> busy id s -> s.(conns) !! id = Some c -> (length c.(cin) <= fuel)%nat ->
  len c.(cin) < 2 ^ 62 ->
  cpost (fun sm => pool_ok sm.1 /\ (sm.2 = true -> busy id sm.1)) (read_replies cfg fuel id s).
Proof using.
  intros Hp Hb Hid Hfuel Hl.
  assert (cpost (fun sm => if sm.2 : bool then pool_ok sm.1 /\ busy id sm.1 else pool_ok sm.1)
            (read_replies cfg fuel id s)) as H1.
  { apply (read_replies_inv pool_ok (fun s => pool_ok s /\ busy id s) fuel id s c); try done.
    - intros s' f Hf [Hp' Hb']. split.
      + apply pool_update; [apply Hb'| |done]. intros c' _. by destruct (Hf c') as (-> & -> & _).
      + apply busy_update; [|done]. intros c'. by destruct (Hf c') as (_ & _ & ->).
    - intros s' e [Hp' Hb']. split; [by eapply (pool_ext s')|done].
    - intros s' typ e [Hp' _]. by apply cclose_post. }
  destruct (read_replies cfg fuel id s) as [[s' []]|?| |]; cbn in *; [|by split|done..].
  destruct H1. by split.
Qed.

(** There is room in the channel for a connection in use. *)
Lemma idle_room id s : pool_ok s -> busy id s -> len s.(fdIdle) < cfg.(poolSize).
Proof using.
  intros Hp (Hn & Hv & _).
  assert (Z.of_nat (length (id :: s.(fdIdle))) <= cfg.(poolSize)) as Hsz.
  { etransitivity; [|apply (pool_size s Hp)]. rewrite <- (size_list_to_set (C := gset Z)).
    - apply inj_le, subseteq_size. unfold in_pool. set_solver.
    - apply NoDup_cons. split; [done|apply (pool_nodup s Hp)]. }
  unfold len. cbn [length] in Hsz. lia.
Qed.

Lemma release_post id s : pool_ok s -> busy id s -> cpost pool_ok (release cfg id s).
Proof using.
  intros Hp Hb. pose proof Hb as (Hn & Hv & c & Hid & _). unfold release, cconn_at. rewrite Hid.
  cbn [checked rbind]. destruct (Z.eqb_spec (len c.(cin)) 0) as [E0|]; [|done].
  destruct (Z.eqb_spec c.(authState) 0) as [Ea|]; [|done]. cbn [andb].
  destruct (_ <=? _); [|by apply cclose_post].
  set (s1 := cupdate id (set_callback None) s).
  assert (pool_ok s1) as Hp1 by (by apply pool_update).
  assert (s1.(conns) !! id = Some (set_callback None c)) as Hid1
    by (unfold s1; by rewrite lookup_cupdate, decide_True, Hid by done).
  eapply (cpost_bind (fun sb => pool_ok sb.1 /\ sb.1.(fdIdle) = s.(fdIdle) /\
            sb.1.(fdConns) = s.(fdConns) /\
            exists c', sb.1.(conns) !! id = Some c' /\ idle_conn c')).
  { destruct c.(death) as [t|] eqn:Ed.
    - unfold timer_Stop, cconn_at. rewrite Hid1. cbn [checked rbind set_callback death]. rewrite Ed.
      cbn [checked rbind cpost fst].
      destruct (set_death_same id TInactive s1 (set_callback None c) t Hid1 Ed Hp1 Hn) as (? & ? & ? & _).
      split_and!; [done..|]. eexists. rewrite lookup_cupdate, decide_True, Hid1 by done.
      split; [done|]. split_and!; [done|done|by apply len_0_inv|done].
    - cbn. split_and!; [done..|]. exists (set_callback None c). split; [done|].
      split_and!; [done|cbn; congruence|by apply len_0_inv|done]. }
  intros [s2 stopped] (Hp2 & E1 & E2 & c2 & Hid2 & Hi2). cbn [fst] in *.
  destruct (negb stopped); [done|]. pose proof (idle_room id s Hp Hb) as Hroom.
  rewrite <- E1 in Hroom. rewrite (proj2 (Z.ltb_lt _ _) Hroom).
  cbn. pose proof Hp2 as [Ht Hc Hd Hnd Hi Hps Hl]. split; cbn; try done.
  - rewrite E1 in *. apply NoDup_app. split_and!; [done| |by apply NoDup_singleton].
    intros x Hx ->%list_elem_of_singleton. done.
  - intros id'. rewrite elem_of_app, list_elem_of_singleton. intros [?| ->]; [by apply Hi|by exists c2].
  - etransitivity; [|exact Hps]. apply inj_le, subseteq_size. unfold in_pool. cbn.
    rewrite list_to_set_app_L. rewrite E2. set_solver.
Qed.

Lemma cread_post id fd r s :
  cfg.(ResponseMaxBytes) < 2 ^ 62 -> pool_ok s -> view s.(fdConns) !! fd = Some id ->
  cpost pool_ok (readConn cfg id r s).
Proof using.
  intros Hmax Hp Hv. destruct (pool_conns s Hp fd id Hv) as (c & Hid & _).
  unfold readConn, cconn_at. rewrite Hid. cbn [checked rbind].
  destruct r as [d| | |]; [|by apply cclose_post|by eapply (pool_ext s)|by apply cclose_post].
  case_bool_decide as Hcb; [by eapply (pool_ext s)|].
  pose proof (busy_of id fd c s Hp Hv Hid Hcb) as Hb.
  set (s1 := cupdate id _ s).
  assert (pool_ok s1) as Hp1 by (apply pool_update; [apply Hb|done|done]).
  assert (busy id s1) as Hb1 by (by apply busy_update).
  destruct (Z.ltb_spec cfg.(ResponseMaxBytes) (len (c.(cin) ++ d))); [by apply cclose_post|].
  eapply cpost_bind.
  - apply (read_replies_post _ _ _ (set_cin (c.(cin) ++ d) c) Hp1 Hb1); [|done|cbn; lia].
    unfold s1. by rewrite lookup_cupdate, decide_True, Hid by done.
  - intros [s2 more] [Hp2 Hb2]. destruct more; [|done]. apply release_post; [done|by apply Hb2].
Qed.

Lemma on_event_post fd wr w r s :
  cfg.(ResponseMaxBytes) < 2 ^ 62 -> pool_ok s -> 0 <= fd -> cpost pool_ok (on_event cfg fd wr w r s).
Proof using.
  intros Hmax Hp H0. pose proof (pool_table s Hp) as Ht. unfold on_event.
  rewrite (Get_view fd _ Ht H0). cbn [checked rbind].
  destruct (view s.(fdConns) !! fd) as [id|] eqn:Hv; [|by eapply (pool_ext s)].
  destruct (pool_conns s Hp fd id Hv) as (c & Hid & _). unfold cconn_at. rewrite Hid.
  cbn [checked rbind].
  eapply (cpost_bind (fun sb => pool_ok sb.1 /\ view sb.1.(fdConns) !! fd = Some id /\
            (c.(callback) <> None -> busy id sb.1))).
  { case_bool_decide as Hcb; [by cbn|]. pose proof (busy_of id fd c s Hp Hv Hid Hcb) as Hb.
    destruct cfg.(has_timeout); [|by cbn]. cbn [negb andb].
    pose proof (timer_Reset_post id s Hp (proj1 Hb)) as Hr. destruct (timer_Reset id s) as [[s' b]| | |];
      try done. destruct Hr as (? & _ & E & Hb'). cbn [cpost fst] in *. split_and!; [done|by rewrite E|auto]. }
  intros [s1 alive] (Hp1 & Hv1 & Hb1). cbn [fst] in *. destruct (negb alive); [done|].
  destruct wr; [|by eapply cread_post].
  case_bool_decide; [by apply cclose_post|]. apply cwrite_post; auto.
Qed.

Lemma on_timer_post id c s :
  pool_ok s -> s.(conns) !! id = Some c -> c.(death) = Some TActive ->
  cpost pool_ok (on_timer cfg id s).
Proof using.
  intros Hp Hid Hd. unfold on_timer. apply cclose_post. eapply set_death_same; [done..|].
  intros Hin. destruct (pool_idle s Hp id Hin) as (c' & Hid' & _ & Hi & _). by simplify_eq.
Qed.

(** What can happen next: a new connection is fresh, descriptors are not negative,
    and only active timers fire. *)
Definition cinput_ok (i : cinput) (s : Client) : Prop :=
  match i with
  | CExec id fd _ _ => fresh id fd s
  | CEvent fd _ _ _ => 0 <= fd
  | CTimer id => exists c, s.(conns) !! id = Some c /\ c.(death) = Some TActive
  end.

Lemma cstep_post i s :
  cfg.(ResponseMaxBytes) < 2 ^ 62 -> pool_ok s -> cinput_ok i s -> exec_post s (cstep cfg i s).
Proof using.
  intros Hmax Hp Hi. destruct i as [id fd cb args|fd wr w r|id]; cbn [cstep].
  - by apply Exec_post.
  - pose proof (on_event_post fd wr w r s Hmax Hp Hi) as He.
    by destruct (on_event cfg fd wr w r s).
  - destruct Hi as (c & Hid & Hd). pose proof (on_timer_post id c s Hp Hid Hd) as He.
    by destruct (on_timer cfg id s).
Qed.

Lemma newClient_ok : 0 <= cfg.(poolSize) -> pool_ok newClient.
Proof using.
  intros Hs. destruct (empty_table_ok (M := M) (T := Z)) as [Hok Hv].
  split; unfold in_pool; cbn; rewrite ?Hv; try done.
  - constructor.
  - intros id []%not_elem_of_nil.
Qed.

Inductive creachable : Client -> Prop :=
| creach_init : creachable newClient
| creach_step i s s' : creachable s -> cinput_ok i s -> cstep cfg i s = Ok s' -> creachable s'.

Lemma creachable_ok s :
  0 <= cfg.(poolSize) -> cfg.(ResponseMaxBytes) < 2 ^ 62 -> creachable s -> pool_ok s.
Proof using.
  intros Hs Hmax. induction 1 as [|i s s' _ IH Hi Hst]; [by apply newClient_ok|].
  pose proof (cstep_post i s Hmax IH Hi) as Hp. by rewrite Hst in Hp.
Qed.
End invariant.
