(* ===== verification/ClientCalls.v ===== *)
(** The client's pool under calls of [Exec] in several goroutines (src/redis/client.go):
    the steps of the calls, the events of the poller and the timers in any order, up to
    [Close].

    Between the moment at which a call finds the table not full and the moment at which it
    adds its connection to it, other calls can do the same; so the pool can have more
    connections than [poolSize], which the loop of [fillIdleConn] and the end of
    [readConn] are there for. *)

From stdpp Require Import gmap.
From S2P Require Import Prelude GoStd Util RespClient FdMap Client ClientInv.

Section calls.
Context {M : Type} `{FdTable M Z}.
Context (cfg : config).
Local Abbreviation Client := (@Client M).
Implicit Types (s : Client) (c : CConn).

(** ** Steps *)

(** A client and its calls that have not returned, by the number of their callback. *)
Record Pool := mkPool { client : Client; calls : gmap nat (call_pc * list arg) }.

Definition newPool : Pool := mkPool newClient ∅.

(** What can happen: a call begins, a call takes a step (with the identity of a new
    connection and the answer of connecting), the poller has an event, a timer fires. *)
Inductive paction :=
| PCall (k : nat) (args : list arg)
| PStep (k : nat) (id : Z) (fd : option Z)
| PEvent (fd : Z) (write : bool) (w : cwresult) (r : crresult)
| PTimer (id : Z).

Definition set_call (k : nat) (p : call_pc) (args : list arg) (l : gmap nat (call_pc * list arg))
  : gmap nat (call_pc * list arg) :=
  if decide (p = XDone) then delete k l else <[k := (p, args)]> l.

Definition pool_step (a : paction) (m : Pool) : cresult Pool :=
  match a with
  | PCall k args => Ok (mkPool m.(client) (<[k := (XSelect, args)]> m.(calls)))
  | PStep k id fd =>
      match m.(calls) !! k with
      | None => Ok m
      | Some (p, args) =>
          let! (p, s) := call_step cfg id fd k args p m.(client) in
          Ok (mkPool s (set_call k p args m.(calls)))
      end
  | PEvent fd write w r => let! s := on_event cfg fd write w r m.(client) in Ok (mkPool s m.(calls))
  | PTimer id => let! s := on_timer cfg id m.(client) in Ok (mkPool s m.(calls))
  end.

(** A call past the test of the length of the table that has not added its connection. *)
Definition connecting (p : call_pc) : bool := match p with XConnect | XAdd _ => true | _ => false end.
Definition pending (m : Pool) : Z := Z.of_nat (size (filter (fun kc => connecting kc.2.1 = true) m.(calls))).

(** The kernel answers a descriptor that neither the table nor another call has; a new
    connection has an identity of its own; descriptors are not negative. *)
Definition paction_ok (a : paction) (m : Pool) : Prop :=
  match a with
  | PCall k _ => m.(calls) !! k = None
  | PStep k id fd =>
      m.(client).(conns) !! id = None /\
      match fd with
      | Some f =>
          0 <= f /\ view m.(client).(fdConns) !! f = None /\ map_Forall (fun _ pa => pa.1 <> XAdd f) m.(calls)
      | None => True
      end
  | PEvent fd _ _ _ => 0 <= fd
  | PTimer id => (m.(client).(conns) !! id ≫= death) = Some TActive
  end.

#[export] Instance paction_ok_dec a m : Decision (paction_ok a m).
Proof. destruct a as [k args|k id [fd|]|fd write w r|id]; cbn; apply _. Defined.

(** The states in which at most [P] calls at a time were past the test. *)
Inductive preachable (P : Z) : Pool -> Prop :=
| preach_init : preachable P newPool
| preach_step a m m' :
    preachable P m -> paction_ok a m -> pool_step a m = Ok m' -> pending m' <= P -> preachable P m'.

(** ** The invariant *)

(** The table leads to connections with their descriptors, what the channel has are
    connections, and it has room for [poolSize] of them. *)
Record shape (s : Client) : Prop := {
  sh_table : table_ok s.(fdConns);
  sh_conns fd id : view s.(fdConns) !! fd = Some id -> exists c, s.(conns) !! id = Some c /\ c.(cfd) = fd;
  sh_conn id c : s.(conns) !! id = Some c -> 0 <= c.(cfd);
  sh_idle id : id ∈ s.(fdIdle) -> is_Some (s.(conns) !! id);
  sh_cap : len s.(fdIdle) <= cfg.(poolSize);
}.

(** What a step that opens no connection leaves of [s]; the channel is as before, too. *)
Definition keeps (s s' : Client) : Prop :=
  shape s' /\ view s'.(fdConns) ⊆ view s.(fdConns) /\ dom s.(conns) ⊆ dom s'.(conns).
Definition same_idle (s s' : Client) : Prop := keeps s s' /\ s'.(fdIdle) = s.(fdIdle).

Lemma keeps_refl s : shape s -> keeps s s.
Proof using. done. Qed.

Lemma keeps_trans s1 s2 s3 : keeps s1 s2 -> keeps s2 s3 -> keeps s1 s3.
Proof using. intros (_ & ? & ?) (? & ? & ?). split_and!; [done|by etransitivity|by etransitivity]. Qed.

Lemma same_trans s1 s2 s3 : same_idle s1 s2 -> same_idle s2 s3 -> same_idle s1 s3.
Proof using. intros [? E1] [? E2]. split; [by eapply keeps_trans|congruence]. Qed.

Lemma shape_ext s s' :
  s'.(conns) = s.(conns) -> s'.(fdConns) = s.(fdConns) -> s'.(fdIdle) = s.(fdIdle) -> shape s -> shape s'.
Proof using. intros E1 E2 E3 []. split; rewrite ?E1, ?E2, ?E3; auto. Qed.

Lemma same_ext s s' :
  s'.(conns) = s.(conns) -> s'.(fdConns) = s.(fdConns) -> s'.(fdIdle) = s.(fdIdle) -> shape s -> same_idle s s'.
Proof using.
  intros E1 E2 E3 Hs. split; [|done]. split; [by eapply shape_ext|]. by rewrite E1, E2.
Qed.

Lemma same_update id f s :
  (forall c, (f c).(cfd) = c.(cfd)) -> shape s -> same_idle s (cupdate id f s).
Proof using.
  intros Hf Hs. pose proof Hs as [Ht Hc Hn Hi Hcap]. split; [|done]. split_and!; [|done|cbn; by rewrite dom_alter_L].
  split; [done| | | |done].
  - intros fd id' Hv. destruct (Hc fd id' Hv) as (c & Hid & Hfd). rewrite lookup_cupdate.
    case_decide as E; [subst id'; rewrite Hid|by exists c]. exists (f c). by rewrite Hf.
  - intros id' c. rewrite lookup_cupdate. case_decide; [|apply Hn].
    intros (c0 & Hc0 & ->)%fmap_Some. rewrite Hf. by eapply Hn.
  - intros id' Hid%Hi. rewrite lookup_cupdate. case_decide; [subst; by apply fmap_is_Some|done].
Qed.

(** The channel loses its first connection. *)
Lemma keeps_pop id ids s : shape s -> s.(fdIdle) = id :: ids -> keeps s (with_idle ids s) /\ is_Some (s.(conns) !! id).
Proof using.
  intros [Ht Hc Hn Hi Hcap] E. rewrite E, len_cons in Hcap. split; [|by apply Hi; rewrite E; left].
  split_and!; [|done|done]. split; try done; [|cbn; lia]. intros id' Hin. apply Hi. rewrite E. by right.
Qed.

Lemma same_close id typ e s : shape s -> cpost (same_idle s) (closeConnWithError cfg id typ e s).
Proof using.
  intros Hs. pose proof Hs as [Ht Hc Hn Hi Hcap].
  destruct (s.(conns) !! id) as [c|] eqn:Hid; [|by unfold closeConnWithError, cconn_at; rewrite Hid].
  destruct (Delete c.(cfd) s.(fdConns)) as [t|] eqn:Hdel.
  2: { unfold closeConnWithError, cconn_at. rewrite Hid. cbn [checked rbind]. by rewrite Hdel. }
  destruct (closeConn_eq cfg id typ e s c t Hid Hdel) as (s' & -> & E1 & E2 & E3). cbn [cpost].
  assert (table_ok t /\ view t ⊆ view s.(fdConns)) as [Ht' Hv'].
  { destruct (view s.(fdConns) !! c.(cfd)) as [v|] eqn:Hv.
    - destruct (Delete_used _ _ _ Ht Hv) as (t' & Hd' & Hok & Ev & _). rewrite Hdel in Hd'.
      injection Hd' as <-. split; [done|]. rewrite Ev. apply delete_subseteq.
    - rewrite Delete_free in Hdel by (done || by eapply Hn). destruct (_ <? _); [done|]. by injection Hdel as <-. }
  split; [|done]. split_and!; [|by rewrite E2|by rewrite E1].
  split; rewrite ?E1, ?E2, ?E3; try done. intros fd id' Hv. by apply Hc, (lookup_weaken _ _ _ _ Hv).
Qed.

Lemma same_timer id s (f : cresult (Client * bool)) :
  f = timer_Reset id s \/ f = timer_Stop id s -> shape s -> cpost (fun x => same_idle s x.1) f.
Proof using.
  intros [->| ->] Hs; unfold timer_Reset, timer_Stop, cconn_at; (destruct (s.(conns) !! id) as [c|]; [|done]);
    cbn [checked rbind]; (destruct c.(death); [|done]); by apply same_update.
Qed.

Lemma same_write id w s : shape s -> cpost (same_idle s) (writeConn cfg id w s).
Proof using.
  intros Hs. unfold writeConn, cconn_at. destruct (s.(conns) !! id) as [c|] eqn:Hid; [|done].
  cbn [checked rbind]. destruct (_ =? _); [by apply same_ext|].
  assert (forall b e m, same_idle s (with_cinterest m (cupdate id (set_cout b) (cemit e s)))) as Hset.
  { intros b e m. eapply same_trans; [by apply (same_ext s (cemit e s))|].
    eapply same_trans; [by apply (same_update id (set_cout b)), (shape_ext s)|].
    apply same_ext; [done..|]. by apply (same_update id (set_cout b)), (shape_ext s). }
  destruct w as [n|n|]; [| |by apply same_close].
  - cbn zeta. destruct (_ =? _); [apply (Hset [])|].
    eapply (cpost_bind (fun _ => True)); [by apply cpost_checked|]. intros rest _. apply Hset.
  - eapply (cpost_bind (fun _ => True)); [by apply cpost_checked|]. intros rest _. cbn.
    destruct (0 <? n); [apply Hset|]. eapply same_trans; [by apply (same_update id (set_cout rest))|].
    apply same_ext; [done..|]. by apply same_update.
Qed.

(** What an event ends with: the poller's loop waits only when a connection goes back to
    a channel that is full. *)
Definition fine s (r : cresult Client) : Prop :=
  match r with
  | Ok s' => keeps s s'
  | Err Blocked => len s.(fdIdle) = cfg.(poolSize)
  | Panic => True
  | OutOfFuel => False
  end.

Lemma fine_post s s1 r : same_idle s s1 -> cpost (same_idle s1) r -> fine s r.
Proof using. intros H1. destruct r; cbn; try done. intros H2. by destruct (same_trans _ _ _ H1 H2). Qed.

Lemma fine_bind {A} (P : A -> Prop) s (r : cresult A) (k : A -> cresult Client) :
  cpost P r -> (forall a, P a -> fine s (k a)) -> fine s (rbind r k).
Proof using. destruct r; cbn; auto; done. Qed.

Lemma fine_release id s s1 : same_idle s s1 -> fine s (release cfg id s1).
Proof using.
  intros H1. pose proof H1 as [(Hs1 & _) _]. unfold release, cconn_at.
  destruct (s1.(conns) !! id) as [c|] eqn:Hid; [|done]. cbn [checked rbind].
  destruct (_ && _); [|by destruct H1]. destruct (_ <=? _); [|by eapply fine_post, same_close].
  set (s2 := cupdate id (set_callback None) s1).
  assert (same_idle s s2) as H2 by (eapply same_trans; [exact H1|by apply same_update]).
  pose proof H2 as [(Hs2 & _) _].
  assert (id ∈ dom s2.(conns)) as Hin.
  { apply elem_of_dom. unfold s2. rewrite lookup_cupdate, decide_True, Hid by done. by eexists. }
  eapply (fine_bind (fun x => same_idle s2 x.1)).
  { destruct c.(death); [|by apply same_ext]. by apply (same_timer id s2); [right|]. }
  intros [s3 stopped] H3. cbn [fst] in *. destruct (same_trans _ _ _ H2 H3) as [(Hs3 & Hv & Hd) E3].
  destruct (negb stopped); [done|].
  pose proof Hs3 as [Ht Hc Hn Hi Hcap]. destruct (Z.ltb_spec (len s3.(fdIdle)) cfg.(poolSize)) as [Hlt|Hge].
  - cbn. split_and!; [|done|done]. split; try done.
    + intros id'. cbn. rewrite elem_of_app, list_elem_of_singleton. intros [?| ->]; [by apply Hi|].
      apply elem_of_dom. by apply (proj1 H3).
    + cbn. rewrite len_app. change (len [id]) with 1. lia.
  - cbn. rewrite <- E3. lia.
Qed.

Lemma fine_read id r s s1 :
  cfg.(ResponseMaxBytes) < 2 ^ 62 -> same_idle s s1 -> fine s (readConn cfg id r s1).
Proof using.
  intros Hmax H1. pose proof H1 as [(Hs1 & _) _]. unfold readConn, cconn_at.
  destruct (s1.(conns) !! id) as [c|] eqn:Hid; [|done]. cbn [checked rbind].
  assert (forall typ e, fine s (closeConnWithError cfg id typ e s1)) as Hcl
    by (intros; by eapply fine_post, same_close).
  destruct r as [d| | |]; [|apply Hcl| |apply Hcl].
  2: { cbn. eapply keeps_trans; [apply H1|]. by apply (same_ext s1). }
  case_bool_decide as Hcb; [cbn; eapply keeps_trans; [apply H1|]; by apply (same_ext s1)|].
  set (s2 := cupdate id _ s1).
  assert (same_idle s s2) as H2 by (eapply same_trans; [exact H1|by apply same_update]).
  assert (s2.(conns) !! id = Some (set_cin (c.(cin) ++ d) c)) as Hid2
    by (unfold s2; by rewrite lookup_cupdate, decide_True, Hid by done).
  destruct (Z.ltb_spec cfg.(ResponseMaxBytes) (len (c.(cin) ++ d))); [eapply fine_post, same_close; [done|apply H2]|].
  eapply (fine_bind (fun sm => if sm.2 : bool then same_idle s sm.1 else same_idle s sm.1)).
  - apply (read_replies_inv cfg (same_idle s) (same_idle s) _ _ _ (set_cin (c.(cin) ++ d) c)); try done.
    + intros s' f Hf H'. eapply same_trans; [exact H'|]. apply same_update; [apply Hf|apply H'].
    + intros s' e H'. eapply same_trans; [exact H'|]. apply same_ext; [done..|apply H'].
    + intros s' typ e H'. eapply cpost_mono; [intros s3; by apply (same_trans s s' s3)|]. apply same_close, H'.
    + cbn. lia.
  - intros [s3 more] H3. cbn [fst snd] in H3. destruct more; [by apply fine_release|by destruct H3].
Qed.

Lemma fine_event fd write w r s :
  cfg.(ResponseMaxBytes) < 2 ^ 62 -> shape s -> fine s (on_event cfg fd write w r s).
Proof using.
  intros Hmax Hs. unfold on_event. destruct (Get fd s.(fdConns)) as [[id|]|]; [| |done]; cbn [checked rbind].
  2: { cbn. by apply (same_ext s). }
  unfold cconn_at. destruct (s.(conns) !! id) as [c|]; [|done]. cbn [checked rbind].
  eapply (fine_bind (fun x => same_idle s x.1)).
  { destruct (_ && _); [by apply (same_timer id s); [left|]|by apply same_ext]. }
  intros [s1 alive] H1. cbn [fst] in H1. destruct (negb alive); [by destruct H1|].
  destruct write; [|by apply fine_read].
  case_bool_decide; eapply fine_post; [exact H1|apply same_close, H1|exact H1|apply same_write, H1].
Qed.

Lemma fine_timer id s : shape s -> cpost (same_idle s) (on_timer cfg id s).
Proof using.
  intros Hs. unfold on_timer. assert (same_idle s (cupdate id (set_death (Some TInactive)) s)) as H1 by by apply same_update.
  eapply cpost_mono; [intros s'; by apply same_trans|]. apply same_close, H1.
Qed.

(** ** Calls *)

(** The connection that a step opens, by where the call was. *)
Definition opened (id : Z) (p : call_pc) s : gmap Z Z :=
  match p with XAdd f => <[f := id]> (view s.(fdConns)) | _ => view s.(fdConns) end.

(** A step of a call: what it leaves, and where it can come past the test from. *)
Definition stepped (id : Z) (fd : option Z) (p : call_pc) s (r : cresult (call_pc * Client)) : Prop :=
  match r with
  | Ok (p', s') =>
      shape s' /\ view s'.(fdConns) ⊆ opened id p s /\
      match p' with
      | XConnect => p = XTest /\ Len s.(fdConns) < cfg.(poolSize)
      | XAdd f => p = XConnect /\ fd = Some f
      | _ => True
      end
  | Err Blocked => p = XWait /\ s.(fdIdle) = []
  | Panic => True
  | OutOfFuel => False
  end.

Lemma stepped_post id fd p p' s (r : cresult Client) :
  (forall f, p <> XAdd f) -> connecting p' = false -> cpost (keeps s) r ->
  stepped id fd p s (let! s := r in Ok (p', s)).
Proof using.
  intros Hp Hp' Hr. destruct r; cbn in *; try done. destruct Hr as (? & Hv & _). split_and!; [done| |by destruct p'].
  destruct p; try done. by destruct (Hp fd0).
Qed.

Lemma stepped_ok id fd p p' s s' :
  (forall f, p <> XAdd f) -> connecting p' = false -> keeps s s' -> stepped id fd p s (Ok (p', s')).
Proof using. intros. by apply (stepped_post id fd p p' s (Ok s')). Qed.

Lemma shape_add id fd s s' t c :
  shape s -> s.(conns) !! id = None -> 0 <= fd -> view s.(fdConns) !! fd = None -> Add fd id s.(fdConns) = Some t ->
  c.(cfd) = fd -> s'.(conns) = <[id := c]> s.(conns) -> s'.(fdConns) = t -> s'.(fdIdle) = s.(fdIdle) ->
  shape s' /\ view t = <[fd := id]> (view s.(fdConns)).
Proof using.
  intros [Ht Hc Hn Hi Hcap] Hid H0 Hv Hadd Hfd E1 E2 E3.
  destruct (Add_free fd id _ Ht H0 Hv) as (t' & Hadd' & Hok & Hview & _).
  rewrite Hadd in Hadd'. injection Hadd' as <-. split; [|done]. split; rewrite ?E1, ?E2, ?E3; try done.
  - rewrite Hview. intros f id' [[<- <-]|[Hne Hl']]%lookup_insert_Some; [exists c; by rewrite lookup_insert_eq|].
    destruct (Hc f id' Hl') as (c' & Hid' & ?). exists c'. split; [|done]. rewrite lookup_insert_ne by congruence. done.
  - intros id' c' [[<- <-]|[Hne Hl']]%lookup_insert_Some; [lia|by eapply Hn].
  - intros id' Hin. apply lookup_insert_is_Some'. right. by apply Hi.
Qed.

Lemma call_stepped id fd k args p s :
  shape s -> p <> XDone -> s.(conns) !! id = None ->
  (forall f, p = XAdd f -> 0 <= f /\ view s.(fdConns) !! f = None) ->
  stepped id fd p s (call_step cfg id fd k args p s).
Proof using.
  intros Hs Hp Hid Hadd. assert (keeps s s) as Hk by done.
  destruct p as [| | | |f|i|i|i|i|i v|i|]; cbn [call_step activateFreeConn fillIdleConn].
  - destruct s.(fdIdle) as [|i ids] eqn:E; [by apply stepped_ok|]. by apply stepped_ok; [..|eapply keeps_pop].
  - destruct (Z.leb_spec cfg.(poolSize) (Len s.(fdConns))); [by apply stepped_ok|]. by split_and!.
  - destruct s.(fdIdle) as [|i ids] eqn:E; [done|]. by apply stepped_ok; [..|eapply keeps_pop].
  - destruct fd as [f|]; [by split_and!|]. apply stepped_ok; [done..|]. by apply (same_ext s).
  - destruct (Hadd f eq_refl) as [H0 Hv]. cbn [with_cconns fdConns].
    destruct (Add f id s.(fdConns)) as [t|] eqn:Et; [|done]. cbn [checked rbind].
    set (c := mkCConn f (Some k) [] _ None _). set (s2 := with_table t _).
    assert (shape s2 /\ view t = <[f := id]> (view s.(fdConns))) as [Hs2 Hv2] by (by eapply (shape_add id f s s2 t c)).
    assert (shape (if cfg.(has_timeout) then cupdate id (set_death (Some TActive)) s2 else s2)) as Hs3
      by (destruct cfg.(has_timeout); [by apply same_update|done]).
    split_and!; [by eapply (shape_ext _ _); [..|exact Hs3]| |done]. cbn [opened]. rewrite <- Hv2.
    by destruct cfg.(has_timeout).
  - unfold cconn_at. destruct (s.(conns) !! i) as [c|]; [|done]. cbn [checked rbind]. destruct (0 <? _); [done|].
    apply stepped_ok; [done|by destruct cfg.(has_timeout)|]. by apply same_update.
  - pose proof (same_timer i s (timer_Reset i s) (or_introl eq_refl) Hs) as Hr.
    destruct (timer_Reset i s) as [[s1 b]|?| |]; try done. by apply stepped_ok; [..|apply Hr].
  - destruct (_ <? _); by apply stepped_ok.
  - destruct s.(fdIdle) as [|v ids] eqn:E; [by apply stepped_ok|]. by apply stepped_ok; [..|eapply keeps_pop].
  - apply stepped_post; [done..|]. eapply cpost_mono; [|by apply same_close]. by intros s' [].
  - unfold cconn_at. destruct (s.(conns) !! i) as [c|]; [|done]. cbn [checked rbind].
    apply stepped_ok; [done..|]. by apply (same_ext s).
  - done.
Qed.

(** ** Counting *)

Definition b2z (b : bool) : Z := if b then 1 else 0.
Definition count_calls (l : gmap nat (call_pc * list arg)) : Z :=
  Z.of_nat (size (filter (fun kc => connecting kc.2.1 = true) l)).

Lemma count_insert k x l : l !! k = None -> count_calls (<[k := x]> l) = count_calls l + b2z (connecting x.1).
Proof using.
  intros Hk. unfold count_calls. destruct (connecting x.1) eqn:E; cbn [b2z].
  - rewrite map_filter_insert_True by done. rewrite map_size_insert_None; [lia|].
    apply map_lookup_filter_None. by left.
  - rewrite map_filter_insert_not' by (cbn; congruence || (intros y; congruence)). lia.
Qed.

Lemma count_set k p args p' l :
  l !! k = Some (p, args) ->
  count_calls (set_call k p' args l) = count_calls l - b2z (connecting p) + b2z (connecting p').
Proof using.
  intros Hk. assert (count_calls l = count_calls (delete k l) + b2z (connecting p)) as E.
  { rewrite <- (insert_delete_id l k (p, args)) at 1 by done. by apply count_insert, lookup_delete_eq. }
  rewrite E. unfold set_call. case_decide as Ed; [subst p'; cbn; lia|].
  rewrite <- insert_delete_eq, count_insert by apply lookup_delete_eq. cbn. lia.
Qed.

(** ** The invariant of the pool *)

Record pool_inv (P : Z) (m : Pool) : Prop := {
  pi_shape : shape m.(client);
  pi_bound : Z.of_nat (size (view m.(client).(fdConns))) + pending m <= cfg.(poolSize) + P - 1;
  pi_fds k args f : m.(calls) !! k = Some (XAdd f, args) -> 0 <= f /\ view m.(client).(fdConns) !! f = None;
  pi_differ k k' args args' f :
    m.(calls) !! k = Some (XAdd f, args) -> m.(calls) !! k' = Some (XAdd f, args') -> k = k';
}.

Lemma lookup_set_call k p args l k' x :
  set_call k p args l !! k' = Some x -> k' = k /\ x = (p, args) \/ k' <> k /\ l !! k' = Some x.
Proof using.
  unfold set_call. case_decide.
  - intros [? ?]%lookup_delete_Some. by right.
  - intros [[-> <-]|[? ?]]%lookup_insert_Some; [by left|by right].
Qed.

(** A step that opens no connection and moves no call past the test. *)
Lemma inv_keeps P m s' :
  pool_inv P m -> keeps m.(client) s' -> pool_inv P (mkPool s' m.(calls)).
Proof using.
  intros [Hs Hb Hf Hd] (Hs' & Hv & _). split; [done| | |done].
  - unfold pending in *. cbn [client calls] in *. pose proof (map_subseteq_size _ _ Hv). lia.
  - intros k args f Hk. destruct (Hf k args f Hk) as [? Hn]. split; [done|].
    by apply (lookup_weaken_None _ _ _ Hn).
Qed.

Lemma inv_stepped P m k id fd p args p' s' :
  pool_inv P m -> m.(calls) !! k = Some (p, args) ->
  paction_ok (PStep k id fd) m ->
  stepped id fd p m.(client) (Ok (p', s')) ->
  count_calls (set_call k p' args m.(calls)) <= P -> pool_inv P (mkPool s' (set_call k p' args m.(calls))).
Proof using.
  intros [Hs Hb Hf Hd] Hk [_ Hfd] (Hs' & Hv & Hp') HP. pose proof (sh_table _ Hs) as Ht.
  pose proof (map_subseteq_size _ _ Hv) as Hsz. change (pending m) with (count_calls m.(calls)) in Hb.
  assert (forall k' args' f, set_call k p' args m.(calls) !! k' = Some (XAdd f, args') ->
            p' = XAdd f /\ k' = k /\ fd = Some f \/ k' <> k /\ m.(calls) !! k' = Some (XAdd f, args')) as Hset.
  { intros k' args' f [[-> [= <- <-]]|?]%lookup_set_call; [left|by right]. by destruct Hp'. }
  assert (Z.of_nat (size (opened id p m.(client)))
          <= Z.of_nat (size (view m.(client).(fdConns))) + match p with XAdd _ => 1 | _ => 0 end) as Ho.
  { destruct p; cbn [opened]; try lia. rewrite map_size_insert. destruct (view _ !! _); unfold Datatypes.id; lia. }
  split; [done| | |].
  - unfold pending. cbn [client calls].
    change (Z.of_nat (size (filter _ _))) with (count_calls (set_call k p' args m.(calls))).
    rewrite (count_set k p) in * by done.
    destruct p'; try (destruct p; cbn [connecting b2z] in *; lia).
    + destruct Hp' as [-> Hl]. rewrite (Len_size _ Ht) in Hl. cbn [connecting b2z] in *. lia.
    + destruct Hp' as [-> _]. cbn [connecting b2z] in *. lia.
  - intros k' args' f Hk'. cbn [client calls] in *. destruct (Hset _ _ _ Hk') as [(-> & -> & ->)|[Hne Hk1]].
    + destruct Hfd as (? & Hn & _). destruct Hp' as [-> _]. split; [done|].
      by apply (lookup_weaken_None _ _ _ Hn).
    + destruct (Hf k' args' f Hk1) as [? Hn]. split; [done|]. apply (lookup_weaken_None _ (opened id p m.(client))); [|done].
      destruct p; try done. cbn [opened]. rewrite lookup_insert_ne; [done|]. intros ->.
      apply Hne. by eapply Hd.
  - intros k1 k2 a1 a2 f H1 H2. cbn [calls] in *.
    destruct (Hset _ _ _ H1) as [(-> & -> & ->)|[Hne1 H1']], (Hset _ _ _ H2) as [(E2 & -> & E3)|[Hne2 H2']]; try done.
    + destruct Hfd as (_ & _ & Hno). by destruct (Hno k2 _ H2').
    + subst fd. destruct Hfd as (_ & _ & Hno). by destruct (Hno k1 _ H1').
    + by eapply Hd.
Qed.

Lemma newPool_inv P : 0 <= cfg.(poolSize) -> 1 <= P -> pool_inv P newPool.
Proof using.
  intros Hs HP. destruct (empty_table_ok (M := M) (T := Z)) as [Hok Hv]. split; cbn; rewrite ?Hv; try done.
  - split; cbn; rewrite ?Hv; try done. intros id []%not_elem_of_nil.
  - unfold pending. cbn [newPool calls]. rewrite map_filter_empty, !map_size_empty. lia.
Qed.

(** Why a step waits: a call that found the table full, while no connection is idle; the
    poller's loop, with a connection to hand back while the channel is full. *)
Definition waits (a : paction) (m : Pool) : Prop :=
  match a with
  | PStep k _ _ => exists args, m.(calls) !! k = Some (XWait, args) /\ m.(client).(fdIdle) = []
  | PEvent _ _ _ _ => len m.(client).(fdIdle) = cfg.(poolSize)
  | _ => False
  end.

(** What a step ends with. *)
Definition pool_post (P : Z) (a : paction) (m : Pool) (r : cresult Pool) : Prop :=
  match r with
  | Ok m' => pending m' <= P -> pool_inv P m'
  | Err Blocked => waits a m
  | Panic => True
  | OutOfFuel => False
  end.

Lemma pool_step_post P a m :
  cfg.(ResponseMaxBytes) < 2 ^ 62 -> pool_inv P m -> (forall k args, m.(calls) !! k <> Some (XDone, args)) ->
  paction_ok a m -> pool_post P a m (pool_step a m).
Proof using.
  intros Hmax Hi Hnd Ha. pose proof (pi_shape _ _ Hi) as Hs. destruct a as [k args|k id fd|fd write w r|id]; cbn [pool_step].
  - intros HP. cbn in Ha. destruct Hi as [_ Hb Hf Hd].
    assert (forall k' args' f, <[k := (XSelect, args)]> m.(calls) !! k' = Some (XAdd f, args') ->
              m.(calls) !! k' = Some (XAdd f, args')) as Hl by (by intros k' args' f [[_ [=]]|[_ ?]]%lookup_insert_Some).
    split; [done| | |].
    + unfold pending in *. cbn [client calls] in *. change (Z.of_nat (size (filter _ ?l))) with (count_calls l) in *.
      rewrite count_insert by done. cbn [connecting b2z fst]. lia.
    + intros k' args' f Hk. cbn in *. eapply Hf, Hl, Hk.
    + intros k1 k2 a1 a2 f H1 H2. cbn in *. by eapply Hd; apply Hl.
  - destruct (m.(calls) !! k) as [[p args]|] eqn:Hk; [|by intros _]. pose proof Ha as [Hid _].
    pose proof (call_stepped id fd k args p m.(client) Hs) as Hc.
    assert (p <> XDone) as Hp by (intros ->; by eapply Hnd). specialize (Hc Hp Hid).
    assert (forall f, p = XAdd f -> 0 <= f /\ view m.(client).(fdConns) !! f = None) as Hadd
      by (intros f ->; by eapply (pi_fds _ _ Hi)).
    specialize (Hc Hadd). destruct (call_step cfg id fd k args p m.(client)) as [[p' s']|[]| |]; try done.
    + intros HP. by eapply inv_stepped.
    + destruct Hc as [-> ?]. by exists args.
  - pose proof (fine_event fd write w r m.(client) Hmax Hs) as He.
    destruct (on_event cfg fd write w r m.(client)) as [s'|[]| |]; try done. intros _. by apply inv_keeps.
  - pose proof (fine_timer id m.(client) Hs) as He.
    destruct (on_timer cfg id m.(client)) as [s'|?| |]; try done. intros _. apply inv_keeps; [done|apply He].
Qed.

Lemma pool_inv_mono P P' m : P <= P' -> pool_inv P m -> pool_inv P' m.
Proof using. intros HP []. split; [done|lia|done|done]. Qed.

(** A call that has returned is not in the map. *)
Lemma no_done P m k args : preachable P m -> m.(calls) !! k <> Some (XDone, args).
Proof using.
  induction 1 as [|a m m' _ IH _ Hst _]; [done|]. destruct a as [k' args'|k' id fd|fd write w r|id]; cbn in Hst.
  - injection Hst as <-. cbn. by intros [[_ [=]]|[_ ?]]%lookup_insert_Some.
  - destruct (m.(calls) !! k') as [[p args']|]; [|by injection Hst as <-].
    destruct (call_step _ _ _ _ _ _ _) as [[p' s']|?| |]; try done. injection Hst as <-. cbn.
    intros Hk. unfold set_call in Hk. case_decide; [by apply lookup_delete_Some in Hk as [_ ?]|].
    by apply lookup_insert_Some in Hk as [[_ [= -> _]]|[_ ?]].
  - destruct (on_event _ _ _ _ _ _); try done. by injection Hst as <-.
  - destruct (on_timer _ _ _); try done. by injection Hst as <-.
Qed.

Lemma preachable_inv P m :
  0 <= cfg.(poolSize) -> 1 <= P -> cfg.(ResponseMaxBytes) < 2 ^ 62 -> preachable P m -> pool_inv P m.
Proof using.
  intros Hs HP Hmax. induction 1 as [|a m m' Hr IH Ha Hst Hp]; [by apply newPool_inv|].
  pose proof (pool_step_post P a m Hmax IH (fun k args => no_done P m k args Hr) Ha) as Hpost. rewrite Hst in Hpost. by apply Hpost.
Qed.

(** No connection is in use: each of the table is in the channel. *)
Definition at_rest (s : Client) : Prop := forall fd id, view s.(fdConns) !! fd = Some id -> id ∈ s.(fdIdle).

Lemma rest_bound s : shape s -> at_rest s -> Z.of_nat (size (view s.(fdConns))) <= len s.(fdIdle).
Proof using.
  intros [Ht Hc _ _ _] Hr. unfold len. apply inj_le. rewrite <- length_map_to_list.
  rewrite <- (length_fmap snd). apply submseteq_length, NoDup_submseteq.
  - apply NoDup_fmap_2_strong; [|apply NoDup_map_to_list]. intros [f1 i1] [f2 i2] H1%elem_of_map_to_list H2%elem_of_map_to_list E.
    cbn in E. subst i2. destruct (Hc _ _ H1) as (c1 & E1 & <-), (Hc _ _ H2) as (c2 & E2 & <-). congruence.
  - intros i ([f i'] & -> & Hi%elem_of_map_to_list)%list_elem_of_fmap. by eapply Hr.
Qed.

(** ** Properties *)

(** C5: the pool of a client that is not closed, under any number of calls, however their steps, the events of the
    poller and the timers interleave, whatever the server sends and the system calls
    answer.  The table leads from each descriptor to a connection with it, and the channel
    holds connections, at most [poolSize].  As long as at most [P] calls at a time are
    between finding the table not full and adding their connection to it, the table and
    those calls together never exceed [poolSize + P - 1]: calls that do not overlap there
    keep the pool within its size ([calls_race] reaches the bound with more); and whenever
    no connection is in use the pool is within its size again.  Every step ends, unless
    something panics; a call waits only when it has found the table full and nothing is
    idle, and the poller's loop only to hand a connection to a channel that is full. *)
Theorem client_invariant P m a :
  0 <= cfg.(poolSize) -> 1 <= P -> cfg.(ResponseMaxBytes) < 2 ^ 62 -> preachable P m -> paction_ok a m ->
  shape m.(client) /\
  Z.of_nat (size (view m.(client).(fdConns))) + pending m <= cfg.(poolSize) + P - 1 /\
  (at_rest m.(client) -> Z.of_nat (size (view m.(client).(fdConns))) <= cfg.(poolSize)) /\
  match pool_step a m with
  | Ok m' => shape m'.(client)
  | Err Blocked => waits a m
  | Panic => True
  | OutOfFuel => False
  end.
Proof using.
  intros Hs HP Hmax Hr Ha. pose proof (preachable_inv P m Hs HP Hmax Hr) as Hi. pose proof (pi_shape _ _ Hi) as Hsh.
  split; [done|]. split; [apply Hi|]. split.
  { intros Hrest. pose proof (rest_bound _ Hsh Hrest). pose proof (sh_cap _ Hsh). lia. }
  pose proof (pool_step_post (Z.max P (match pool_step a m with Ok m' => pending m' | _ => 0 end)) a m Hmax
                (pool_inv_mono P _ m (Z.le_max_l _ _) Hi) (fun k args => no_done P m k args Hr) Ha) as Hpost.
  destruct (pool_step a m) as [m'|[]| |]; cbn [pool_post] in Hpost; try done.
  apply (pi_shape (Z.max P (pending m'))), Hpost. lia.
Qed.

(** The loop of [fillIdleConn], when nobody disturbs it: it ends, and then the pool is
    within its size or nothing is idle. *)
Theorem loop_trims i fuel id fd k args s :
  shape s -> (3 * length s.(fdIdle) + 2 < fuel)%nat ->
  match run_call cfg fuel id fd k args (XLoop i) s with
  | Ok s' => Len s'.(fdConns) <= cfg.(poolSize) \/ s'.(fdIdle) = []
  | Panic => True
  | Err _ | OutOfFuel => False
  end.
Proof using.
  intros Hs. remember (length s.(fdIdle)) as n eqn:En. revert s fuel Hs En.
  assert (forall fuel s', (0 < fuel)%nat -> Len s'.(fdConns) <= cfg.(poolSize) \/ s'.(fdIdle) = [] ->
    match run_call cfg fuel id fd k args (XTrigger i) s' with
    | Ok s' => Len s'.(fdConns) <= cfg.(poolSize) \/ s'.(fdIdle) = []
    | Panic => True
    | Err _ | OutOfFuel => False
    end) as Hend.
  { intros [|fuel] s' Hf Hs'; [lia|]. rewrite run_call_S by done. cbn [call_step fillIdleConn]. unfold cconn_at.
    destruct (s'.(conns) !! i); [|done]. cbn [checked rbind]. by rewrite run_call_done. }
  induction n as [|n IH]; intros s fuel Hs En Hf; (destruct fuel as [|fuel]; [lia|]); rewrite run_call_S by done;
    cbn [call_step fillIdleConn rbind]; destruct (Z.ltb_spec cfg.(poolSize) (Len s.(fdConns))) as [Hl|Hl];
    try (apply Hend; [lia|by left]); (destruct fuel as [|fuel]; [lia|]); rewrite run_call_S by done;
    cbn [call_step fillIdleConn]; destruct s.(fdIdle) as [|v ids] eqn:Ei; try done; cbn [rbind].
  - apply Hend; [lia|by right].
  - destruct fuel as [|fuel]; [lia|]. rewrite run_call_S by done. cbn [call_step fillIdleConn].
    destruct (keeps_pop v ids s Hs Ei) as [(Hs1 & _) _]. pose proof (same_close v [] None _ Hs1) as Hc.
    destruct (closeConnWithError cfg v [] None (with_idle ids s)) as [s2|?| |]; try done.
    destruct Hc as [(Hs2 & _) E2]. cbn [rbind]. apply IH; [done| |lia]. rewrite E2. cbn in En |- *. by injection En.
Qed.

(** ** Runs *)

Fixpoint pool_run (l : list paction) (m : Pool) : cresult Pool :=
  match l with
  | [] => Ok m
  | a :: l => let! m := pool_step a m in pool_run l m
  end.

(** A run of the kind that [preachable] allows. *)
Fixpoint run_ok (P : Z) (l : list paction) (m : Pool) : bool :=
  match l with
  | [] => true
  | a :: l =>
      bool_decide (paction_ok a m) &&
      match pool_step a m with Ok m' => (pending m' <=? P) && run_ok P l m' | _ => true end
  end.

Lemma run_reachable P l m m' :
  preachable P m -> run_ok P l m = true -> pool_run l m = Ok m' -> preachable P m'.
Proof using.
  revert m. induction l as [|a l IH]; intros m Hr Hok Hrun; cbn in *; [by injection Hrun as <-|].
  apply andb_true_iff in Hok as [Ha%bool_decide_eq_true Hok]. destruct (pool_step a m) as [m1|?| |] eqn:E; try done. cbn in Hrun.
  apply andb_true_iff in Hok as [Hp%Z.leb_le Hok]. apply (IH m1); [by eapply preach_step|done|done].
Qed.
End calls.

(** ** Witnesses *)

Definition ex_pool_cfg : config :=
  {| auth := []; poolSize := 1; has_timeout := true; ResponseMaxBytes := 1048576;
     sys_close_fails := fun _ => false |}.
Local Abbreviation FdPool := (@Pool (fdMap Z)).

(** Two calls find the table of a pool of one connection empty, and both connect; the
    second has not yet added its connection. *)
Definition ex_ping : list arg := [AString (bs "PING")].
Definition ex_two_pass : list paction :=
  [PCall 0 ex_ping; PCall 1 ex_ping; PStep 0 1 None; PStep 0 1 None; PStep 1 1 None; PStep 1 1 None;
   PStep 0 1 (Some 5); PStep 0 1 None; PStep 1 2 (Some 6)].
Definition pool_after (l : list paction) : FdPool :=
  match pool_run ex_pool_cfg l newPool with Ok m => m | _ => newPool end.


Lemma pool_after_reachable P l :
  run_ok ex_pool_cfg P l newPool = true -> (exists m, pool_run ex_pool_cfg l newPool = Ok m) ->
  preachable ex_pool_cfg P (pool_after l).
Proof.
  intros Hok [m E]. eapply run_reachable; [apply preach_init|exact Hok|]. unfold pool_after. by rewrite E.
Qed.

Lemma ex_two_calls_reachable : preachable ex_pool_cfg 2 (pool_after ex_two_pass).
Proof. apply pool_after_reachable; [by vm_compute|eexists; vm_compute; reflexivity]. Qed.

Lemma client_invariant_witness :
  let m := pool_after ex_two_pass in
  shape ex_pool_cfg m.(client) /\
  Z.of_nat (size (view m.(client).(fdConns))) + pending m <= 1 + 2 - 1 /\
  (at_rest m.(client) -> Z.of_nat (size (view m.(client).(fdConns))) <= 1) /\
  match pool_step ex_pool_cfg (PStep 1 2 None) m with
  | Ok m' => shape ex_pool_cfg m'.(client)
  | Err Blocked => waits ex_pool_cfg (PStep 1 2 None) m
  | Panic => True
  | OutOfFuel => False
  end.
Proof.
  apply (client_invariant ex_pool_cfg 2); [done|done|done|apply ex_two_calls_reachable|].
  apply (bool_decide_unpack _). vm_compute. exact I.
Defined.

Lemma loop_trims_witness :
  match run_call ex_pool_cfg 20 1 None 0 ex_ping (XLoop 1) (pool_after ex_two_pass).(client) with
  | Ok s' => Len s'.(fdConns) <= 1 \/ s'.(fdIdle) = []
  | Panic => True
  | Err _ | OutOfFuel => False
  end.
Proof.
  apply (loop_trims ex_pool_cfg 1 20); [|vm_compute; lia].
  apply (pi_shape ex_pool_cfg 2), preachable_inv; [done|done|done|apply ex_two_calls_reachable].
Defined.

(** The bound is reached: two connections in a pool of one. *)
Theorem calls_race :
  preachable ex_pool_cfg 2 (pool_after (ex_two_pass ++ [PStep 1 2 None])) /\
  Len (pool_after (ex_two_pass ++ [PStep 1 2 None])).(client).(fdConns) = 1 + 2 - 1.
Proof. split; [apply pool_after_reachable; [by vm_compute|eexists; vm_compute; reflexivity]|by vm_compute]. Qed.

(** The poller's loop waits for the channel: the first of the two calls is answered, so
    that its connection is idle, and the server closes it, which leaves it in the channel;
    then the second adds its connection and is answered too.  The pool is not over its
    size, but there is no room in the channel: no event is handled any more until another
    call takes the connection that is closed. *)
Definition ex_pong : crresult := CRData (bs "+PONG" ++ crlf).
Definition ex_stale : list paction :=
  ex_two_pass ++ [PEvent 5 true (CWN 14) CRAgain; PEvent 5 false (CWN 0) ex_pong; PEvent 5 false (CWN 0) CREof;
                  PStep 1 2 None; PEvent 6 true (CWN 14) CRAgain].

Theorem loop_waits :
  preachable ex_pool_cfg 2 (pool_after ex_stale) /\ Len (pool_after ex_stale).(client).(fdConns) = 1 /\
  pool_step ex_pool_cfg (PEvent 6 false (CWN 0) ex_pong) (pool_after ex_stale) = Err Blocked.
Proof.
  split; [apply pool_after_reachable; [by vm_compute|eexists; vm_compute; reflexivity]|]. by split; vm_compute.
Qed.
