(* ===== verification/ClientSpec.v ===== *)
(** What the client guarantees (src/redis/client.go): the properties of
    [Client]. *)

From stdpp Require Import gmap.
From S2P Require Import Prelude GoStd Util Redis RespClient FdMap Client ClientInv.

Section properties.
Context {M : Type} `{FdTable M Z}.
Context (cfg : config).
Local Abbreviation Client := (@Client M).
Implicit Types (s : Client) (c : CConn).

(** The state of [s] with the connection [id] replaced, and nothing else changed
    but the log. *)
Definition creplaced (id : Z) (c : CConn) (evs : list cevent) (s s' : Client) : Prop :=
  s'.(conns) = <[id := c]> s.(conns) /\ s'.(fdConns) = s.(fdConns) /\ s'.(fdIdle) = s.(fdIdle) /\
  s'.(cinterest) = s.(cinterest) /\ s'.(clog) = s.(clog) ++ evs.

Lemma creplaced_same id c s : s.(conns) !! id = Some c -> creplaced id c [] s s.
Proof using. intros Hid. split_and!; try done; [by rewrite insert_id|by rewrite app_nil_r]. Qed.

Lemma creplaced_update id c evs s s' f :
  creplaced id c evs s s' -> creplaced id (f c) evs s (cupdate id f s').
Proof using.
  intros (E1 & ? & ? & ? & ?). split_and!; try done. cbn. rewrite E1. by rewrite alter_insert_eq.
Qed.

Lemma creplaced_emit id c evs s s' e :
  creplaced id c evs s s' -> creplaced id c (evs ++ [e]) s (cemit e s').
Proof using. intros (? & ? & ? & ? & E). split_and!; try done. cbn. by rewrite E, app_assoc. Qed.

Lemma creplaced_conn id c evs s s' : creplaced id c evs s s' -> s'.(conns) !! id = Some c.
Proof using. intros (E & _). rewrite E. by rewrite lookup_insert_eq. Qed.

Lemma creplaced_at id c evs s s' : creplaced id c evs s s' -> cconn_at id s' = Ok c.
Proof using. intros Hr. unfold cconn_at. by rewrite (creplaced_conn _ _ _ _ _ Hr). Qed.

Lemma creplaced_trans id c1 evs1 c2 evs2 s s1 s2 :
  creplaced id c1 evs1 s s1 -> creplaced id c2 evs2 s1 s2 -> creplaced id c2 (evs1 ++ evs2) s s2.
Proof using.
  intros (A1 & A2 & A3 & A4 & A5) (B1 & B2 & B3 & B4 & B5). split_and!; try congruence.
  - rewrite B1, A1. by rewrite insert_insert_eq.
  - by rewrite B5, A5, app_assoc.
Qed.

(** A connection that is in use by the call [cb]. *)
Definition live (id fd : Z) (cb : nat) (c : CConn) (s : Client) : Prop :=
  view s.(fdConns) !! fd = Some id /\ s.(conns) !! id = Some c /\ c.(cfd) = fd /\
  c.(callback) = Some cb /\ c.(death) = (if cfg.(has_timeout) then Some TActive else None).

Lemma live_busy id fd cb c s : pool_ok cfg s -> live id fd cb c s -> busy id s.
Proof using.
  intros Hp (Hv & Hid & _ & Hcb & _). eapply busy_of; [done..|]. by rewrite Hcb.
Qed.

Lemma live_replaced id fd cb c c' evs s s' :
  live id fd cb c s -> creplaced id c' evs s s' ->
  c'.(cfd) = c.(cfd) -> c'.(callback) = c.(callback) -> c'.(death) = c.(death) ->
  live id fd cb c' s'.
Proof using.
  intros (Hv & Hid & ? & ? & ?) Hr E1 E2 E3. pose proof (creplaced_conn _ _ _ _ _ Hr).
  destruct Hr as (_ & Et & _). split_and!; [by rewrite Et|done|congruence..].
Qed.

Lemma pool_replaced id fd cb c c' evs s s' :
  pool_ok cfg s -> live id fd cb c s -> creplaced id c' evs s s' ->
  c'.(cfd) = c.(cfd) -> c'.(death) = c.(death) -> pool_ok cfg s'.
Proof using.
  intros Hp Hl (E1 & E2 & E3 & _) Ef Ed. pose proof (live_busy _ _ _ _ _ Hp Hl) as (Hn & _).
  destruct Hl as (_ & Hid & _). eapply (pool_ext cfg (cupdate id (fun _ => c') s)); [|done|done|].
  - rewrite E1. apply map_eq. intros i. rewrite lookup_cupdate, lookup_insert.
    rewrite Hid. cbn. do 2 case_decide; congruence.
  - apply pool_update; [done| |done]. intros c0. rewrite Hid. intros [= <-]. by rewrite Ed.
Qed.

(** ** Reading replies *)

Lemma read_wait fuel id c evs s s' :
  creplaced id c evs s s' -> (length c.(cin) <= fuel)%nat -> readElement c.(cin) = Err rWaitMore ->
  read_replies cfg fuel id s' = Ok (s', true).
Proof using.
  intros Hr Hf Hw. destruct fuel as [|fuel]; cbn [read_replies];
    rewrite (creplaced_at _ _ _ _ _ Hr); cbn [rbind]; destruct (Z.ltb_spec 0 (len c.(cin))); try done.
  - unfold len in *. lia.
  - rewrite Hw. by rewrite decide_True.
Qed.

Lemma read_auth fuel id c evs s s' e y :
  creplaced id c evs s s' -> c.(authState) = 1 -> c.(cin) = e ++ y ->
  readElement (e ++ y) = Ok (len e) ->
  exists s2, read_replies cfg (S fuel) id s' = read_replies cfg fuel id s2 /\
    creplaced id (set_cin y (set_authState 2 c)) evs s s2.
Proof using.
  intros Hr Ha Hc Hrd. cbn [read_replies]. rewrite (creplaced_at _ _ _ _ _ Hr). cbn [rbind].
  pose proof (readElement_ok _ _ Hrd) as Hb. rewrite Hc. destruct (Z.ltb_spec 0 (len (e ++ y))); [|lia].
  rewrite Hrd, Ha. cbn [Z.eqb Pos.eqb rbind]. rewrite slice_suffix by done.
  cbn [checked rbind]. eexists. split; [done|]. by do 2 apply creplaced_update.
Qed.

Lemma read_one fuel id c evs s s' cb e y r er :
  creplaced id c evs s s' -> c.(authState) <> 1 -> c.(callback) = Some cb -> c.(cin) = e ++ y ->
  readElement (e ++ y) = Ok (len e) -> err (mkReader e) = Ok (r, er) ->
  exists s2, read_replies cfg (S fuel) id s' = read_replies cfg fuel id s2 /\
    creplaced id (set_cin y (set_authState 0 c)) (evs ++ [CbReply cb r er]) s s2.
Proof using.
  intros Hr Ha Hcb Hc Hrd He. cbn [read_replies]. rewrite (creplaced_at _ _ _ _ _ Hr). cbn [rbind].
  pose proof (readElement_ok _ _ Hrd) as Hb. rewrite Hc. destruct (Z.ltb_spec 0 (len (e ++ y))); [|lia].
  rewrite Hrd. destruct (Z.eqb_spec c.(authState) 1); [done|]. unfold slice_to.
  rewrite slice_prefix by done. cbn [checked rbind]. rewrite He, Hcb. cbn [checked rbind].
  rewrite slice_suffix by done. cbn [checked rbind]. eexists. split; [done|].
  do 2 apply creplaced_update. by apply creplaced_emit.
Qed.

(** A reply that has been read completely: the connection goes back. *)
Definition idle_of (c : CConn) : CConn :=
  mkCConn c.(cfd) None [] c.(cout) (if cfg.(has_timeout) then Some TInactive else None) 0.

Lemma release_idle id fd cb c s :
  pool_ok cfg s -> live id fd cb c s -> c.(cin) = [] -> c.(authState) = 0 ->
  exists s1 s2, creplaced id (idle_of c) [] s s1 /\ release cfg id s = Ok s2 /\
    s2 = with_idle (s.(fdIdle) ++ [id]) s1.
Proof using.
  intros Hp Hl Hc Ha. pose proof (idle_room cfg id s Hp (live_busy _ _ _ _ _ Hp Hl)) as Hroom.
  destruct Hl as (Hv & Hid & Hfd & Hcb & Hd). unfold release, cconn_at. rewrite Hid.
  cbn [checked rbind]. rewrite Hc, Ha. cbn [Z.eqb andb]. rewrite len_nil. cbn [Z.eqb].
  rewrite (pool_Len cfg s Hp). pose proof (creplaced_same id c s Hid) as Hr.
  apply (creplaced_update _ _ _ _ _ (set_callback None)) in Hr. rewrite Hd.
  destruct cfg.(has_timeout) eqn:Eh.
  - unfold timer_Stop. rewrite (creplaced_at _ _ _ _ _ Hr).
    cbn [checked rbind set_callback death]. rewrite Hd. cbn [checked rbind].
    rewrite bool_decide_true by done. cbn [negb].
    apply (creplaced_update _ _ _ _ _ (set_death (Some TInactive))) in Hr.
    replace (idle_of c) with (set_death (Some TInactive) (set_callback None c)).
    2: { unfold idle_of. rewrite Eh. destruct c; cbn in *; by subst. }
    eexists _, _. split; [exact Hr|]. split; [|reflexivity].
    cbn [with_idle cupdate with_cconns fdIdle]. by rewrite (proj2 (Z.ltb_lt _ _) Hroom).
  - cbn [rbind negb]. replace (idle_of c) with (set_callback None c).
    2: { unfold idle_of. rewrite Eh. destruct c; cbn in *; by subst. }
    eexists _, _. split; [exact Hr|]. split; [|reflexivity].
    cbn [with_idle cupdate with_cconns fdIdle]. by rewrite (proj2 (Z.ltb_lt _ _) Hroom).
Qed.

(** An event resets the timer of a connection in use. *)
Lemma event_timer id fd cb c s :
  live id fd cb c s ->
  exists s0, (if negb (bool_decide (c.(callback) = None)) && cfg.(has_timeout) then timer_Reset id s
              else Ok (s, true)) = Ok (s0, true) /\ creplaced id c [] s s0.
Proof using.
  intros (Hv & Hid & Hfd & Hcb & Hd). rewrite Hcb, bool_decide_false by done. cbn [negb andb].
  pose proof (creplaced_same id c s Hid) as Hr. destruct cfg.(has_timeout) eqn:Eh; [|by exists s].
  unfold timer_Reset, cconn_at. rewrite Hid. cbn [checked rbind]. rewrite Hd. cbn [checked rbind].
  rewrite bool_decide_true by done. eexists. split; [done|].
  apply (creplaced_update _ _ _ _ _ (set_death (Some TActive))) in Hr.
  destruct c; cbn in *; by subst.
Qed.

(** One event that brings data, up to the loop over the replies. *)
Lemma on_event_data id fd cb c w d s :
  pool_ok cfg s -> live id fd cb c s -> len (c.(cin) ++ d) <= cfg.(ResponseMaxBytes) ->
  exists s1, creplaced id (set_cin (c.(cin) ++ d) c) [] s s1 /\
    on_event cfg fd false w (CRData d) s
    = let! (s, more) := read_replies cfg (length (c.(cin) ++ d)) id s1 in
      if more : bool then release cfg id s else Ok s.
Proof using.
  intros Hp Hl Hmax. destruct (event_timer id fd cb c s Hl) as (s0 & E & Hr).
  destruct Hl as (Hv & Hid & Hfd & Hcb & Hd). pose proof (pool_table cfg s Hp) as Ht.
  assert (0 <= fd) as H0 by (by eapply view_Cap).
  unfold on_event. rewrite (Get_view fd _ Ht H0). cbn [checked rbind]. rewrite Hv.
  unfold cconn_at at 1. rewrite Hid. cbn [checked rbind].
  match goal with |- context [rbind ?m _ = _] => replace m with (@Ok waiting _ (s0, true)) by exact (eq_sym E) end.
  cbn [rbind negb]. unfold readConn. rewrite (creplaced_at _ _ _ _ _ Hr). cbn [rbind].
  rewrite Hcb. rewrite bool_decide_false by done.
  destruct (Z.ltb_spec cfg.(ResponseMaxBytes) (len (c.(cin) ++ d))); [lia|].
  eexists. split; [|done]. by apply (creplaced_update _ _ _ _ _ (set_cin (c.(cin) ++ d))).
Qed.

(** One event that writes a part of the output. *)
Lemma write_event id fd cb c m r s :
  pool_ok cfg s -> live id fd cb c s -> 0 < m <= len c.(cout) ->
  exists t, on_event cfg fd true (CWN m) r s
      = Ok (with_cinterest (<[fd := if m =? len c.(cout) then CRead else CReadWrite]>) t) /\
    creplaced id (set_cout (drop (Z.to_nat m) c.(cout)) c)
      [CEvSent id (take (Z.to_nat m) c.(cout))] s t.
Proof using.
  intros Hp (Hv & Hid & Hfd & Hcb & Hd) Hm. pose proof (pool_table cfg s Hp) as Ht.
  assert (0 <= fd) as H0 by (by eapply view_Cap).
  destruct (event_timer id fd cb c s) as (s0 & E & Hr); [done..|].
  unfold on_event. rewrite (Get_view fd _ Ht H0). cbn [checked rbind]. rewrite Hv.
  unfold cconn_at at 1. rewrite Hid. cbn [checked rbind].
  match goal with |- context [rbind ?m _ = _] => replace m with (@Ok waiting _ (s0, true)) by exact (eq_sym E) end.
  cbn [rbind negb]. rewrite Hcb, bool_decide_false by done.
  unfold writeConn. rewrite (creplaced_at _ _ _ _ _ Hr). cbn [rbind].
  destruct (Z.eqb_spec (len c.(cout)) 0); [lia|]. rewrite Hfd.
  apply (creplaced_emit _ _ _ _ _ (CEvSent id (take (Z.to_nat m) c.(cout)))) in Hr.
  destruct (Z.eqb_spec m (len c.(cout))) as [->|Hne].
  - eexists. split; [reflexivity|].
    replace (drop (Z.to_nat (len c.(cout))) c.(cout)) with (@nil Z)
      by (rewrite drop_ge; [done|unfold len; lia]).
    by apply (creplaced_update _ _ _ _ _ (set_cout [])) in Hr.
  - destruct (slice_from_is_Some c.(cout) m) as [b Hb]; [lia|]. rewrite Hb.
    apply slice_from_Some in Hb as [_ ->]. cbn [checked rbind]. eexists. split; [reflexivity|].
    by apply (creplaced_update _ _ _ _ _ (set_cout (drop (Z.to_nat m) c.(cout)))) in Hr.
Qed.

(** Data that arrives in several reads. *)
Fixpoint data_events (fd : Z) (w : cwresult) (ds : list bytes) (s : Client) : @cresult Client :=
  match ds with
  | [] => Ok s
  | d :: ds => let! s := on_event cfg fd false w (CRData d) s in data_events fd w ds s
  end.

Lemma data_events_app fd w l1 l2 s :
  data_events fd w (l1 ++ l2) s = let! s := data_events fd w l1 s in data_events fd w l2 s.
Proof using.
  revert s. induction l1 as [|d l1 IH]; intros s; [done|]. cbn [app data_events].
  destruct (on_event _ _ _ _ _ s); cbn [rbind]; auto.
Qed.

(** ** One reply

    What a connection is owed: the answer to its authentication, if it has not
    come yet ([ra]), then the reply [r]. *)
Definition owed (a : Z) (ra r : reply) : bytes := (if a =? 1 then enc ra else []) ++ enc r.

(** Where it is after the bytes [p]: its input and its [authState]. *)
Definition progress (a : Z) (ra : reply) (p x : bytes) (a' : Z) : Prop :=
  (a' = a /\ x = p /\ (a = 1 -> exists q, enc ra = p ++ q /\ q <> [])) \/
  (a = 1 /\ a' = 2 /\ p = enc ra ++ x).

Lemma enc_len_pos r : reply_ok r -> len (enc r) < 2 ^ 62 -> 0 < len (enc r).
Proof using.
  intros Hok Hl. pose proof (readElement_enc r [] Hok) as Hr. rewrite app_nil_r in Hr.
  apply Hr, readElement_ok in Hl. lia.
Qed.

Section one_reply.
Context (a : Z) (ra r : reply) (id fd : Z) (cb : nat) (c : CConn).
Context (Ha : a = 0 \/ a = 1) (Hra : reply_ok ra) (Hr : reply_ok r).
Context (Hmax : len (owed a ra r) <= cfg.(ResponseMaxBytes)) (Hcfg : cfg.(ResponseMaxBytes) < 2 ^ 62).
Context (Hcb : c.(callback) = Some cb).

Definition conn_with (x : bytes) (a' : Z) : CConn := set_cin x (set_authState a' c).

Lemma owed_len : len (enc r) < 2 ^ 62 /\ (a = 1 -> len (enc ra ++ enc r) < 2 ^ 62).
Proof using Ha Hmax Hcfg.
  unfold owed in Hmax. rewrite len_app in Hmax. pose proof (len_nonneg (if a =? 1 then enc ra else [])).
  split; [lia|]. intros ->. cbn [Z.eqb Pos.eqb] in Hmax. rewrite len_app. lia.
Qed.

(** More bytes: the loop passes over the authentication's answer, if it is
    complete, and stops before the reply. *)
Lemma progress_read p x a' d q s s1 fuel :
  progress a ra p x a' -> p ++ d ++ q = owed a ra r ->
  creplaced id (conn_with (x ++ d) a') [] s s1 -> (length (x ++ d) <= fuel)%nat ->
  exists s2 x2 a2 fuel2, read_replies cfg fuel id s1 = read_replies cfg fuel2 id s2 /\
    creplaced id (conn_with x2 a2) [] s s2 /\ (length x2 <= fuel2)%nat /\ progress a ra (p ++ d) x2 a2.
Proof using Ha Hra Hr Hmax Hcfg.
  intros Hpr Hpq Hrep Hf. pose proof owed_len as [Hl1 Hl2].
  destruct Hpr as [(-> & -> & Hpre)|(-> & -> & ->)].
  2: { exists s1, (x ++ d), 2, fuel. split_and!; [done|done|done|]. right.
       split_and!; [done|done|by rewrite app_assoc]. }
  destruct (decide (a = 1)) as [->|Hn1].
  2: { exists s1, (p ++ d), a, fuel. split_and!; [done..|]. left. split_and!; done. }
  unfold owed in Hpq. cbn [Z.eqb Pos.eqb] in Hpq. rewrite app_assoc in Hpq.
  apply app_eq_inv in Hpq as [(k & E1 & E2)|(k & E1 & E2)]; [|destruct k as [|z k]].
  - (* the answer is complete *)
    assert (readElement (enc ra ++ k) = Ok (len (enc ra))) as Hrd.
    { apply readElement_enc; [done|]. specialize (Hl2 eq_refl). rewrite E2 in Hl2.
      rewrite !len_app in *. pose proof (len_nonneg q). lia. }
    destruct fuel as [|fuel].
    { apply readElement_ok in Hrd. rewrite E1 in Hf. unfold len in Hrd. lia. }
    destruct (read_auth fuel id _ [] s s1 (enc ra) k Hrep eq_refl E1 Hrd) as (s2 & -> & Hs2).
    exists s2, k, 2, fuel. split_and!; [done|exact Hs2| |by right].
    apply (f_equal length) in E1. rewrite !length_app in *.
    assert (0 < len (enc ra)) as Hpos.
    { apply enc_len_pos; [done|]. specialize (Hl2 eq_refl). rewrite len_app in Hl2.
      pose proof (len_nonneg (enc r)). lia. }
    unfold len in Hpos. lia.
  - rewrite app_nil_r in E1.
    assert (readElement (enc ra ++ []) = Ok (len (enc ra))) as Hrd.
    { apply readElement_enc; [done|]. specialize (Hl2 eq_refl). rewrite app_nil_r.
      rewrite len_app in Hl2. pose proof (len_nonneg (enc r)). lia. }
    destruct fuel as [|fuel].
    { apply readElement_ok in Hrd. rewrite app_nil_r, E1 in Hrd. unfold len in Hrd. lia. }
    destruct (read_auth fuel id _ [] s s1 (enc ra) [] Hrep eq_refl) as (s2 & -> & Hs2);
      [by rewrite app_nil_r|done|].
    exists s2, [], 2, fuel. split_and!; [done|exact Hs2|cbn; lia|]. right. by rewrite app_nil_r.
  - exists s1, (p ++ d), 1, fuel. split_and!; [done..|]. left. split_and!; [done..|]. intros _.
    by exists (z :: k).
Qed.

(** Before the last byte, nothing is there to be read. *)
Lemma progress_wait p x a' q :
  progress a ra p x a' -> p ++ q = owed a ra r -> q <> [] ->
  readElement x = Err rWaitMore /\ (p <> [] -> x = [] -> a' <> 0).
Proof using Ha Hra Hr Hmax Hcfg.
  intros Hpr Hpq Hq. pose proof owed_len as [Hl1 Hl2]. unfold owed in Hpq.
  destruct Hpr as [(-> & -> & Hpre)|(-> & -> & ->)].
  - split; [|done]. destruct (decide (a = 1)) as [->|Hn1].
    + destruct (Hpre eq_refl) as (q' & E & Hq'). eapply (readElement_strict ra); [done| |exact E|done].
      specialize (Hl2 eq_refl). rewrite len_app in Hl2. pose proof (len_nonneg (enc r)). lia.
    + rewrite (proj2 (Z.eqb_neq a 1)) in Hpq by done. cbn [app] in Hpq.
      by eapply (readElement_strict r); [..|symmetry; exact Hpq|].
  - split; [|done]. cbn [Z.eqb Pos.eqb] in Hpq. rewrite <- app_assoc in Hpq.
    apply app_inv_head in Hpq. by eapply (readElement_strict r); [..|symmetry; exact Hpq|].
Qed.

Lemma progress_len p x a' : progress a ra p x a' -> len x <= len p.
Proof using.
  intros [(_ & -> & _)|(_ & _ & ->)]; [lia|]. rewrite len_app. pose proof (len_nonneg (enc ra)). lia.
Qed.

(** One event before the last. *)
Lemma wait_event p x a' d q w s :
  pool_ok cfg s -> live id fd cb (conn_with x a') s -> progress a ra p x a' ->
  p ++ d ++ q = owed a ra r -> q <> [] -> d <> [] ->
  exists t x2 a2, on_event cfg fd false w (CRData d) s = Ok t /\
    creplaced id (conn_with x2 a2) [] s t /\ progress a ra (p ++ d) x2 a2.
Proof using Ha Hra Hr Hmax Hcfg.
  intros Hp Hl Hpr Hpq Hq Hd. pose proof (progress_len _ _ _ Hpr) as Hlx.
  destruct (on_event_data id fd cb _ w d s Hp Hl) as (s1 & Hr1 & ->).
  { cbn. rewrite <- Hpq in Hmax. rewrite !len_app in *. pose proof (len_nonneg q). lia. }
  destruct (progress_read p x a' d q s s1 _ Hpr Hpq Hr1 (le_n _)) as (s2 & x2 & a2 & f & E & Hr2 & Hf & Hpr2).
  cbn [conn_with set_cin cin] in E |- *. rewrite E. rewrite app_assoc in Hpq.
  destruct (progress_wait (p ++ d) x2 a2 q Hpr2 Hpq Hq) as [Hw Hnz].
  rewrite (read_wait f id _ [] s s2 Hr2 Hf Hw). cbn [rbind].
  exists s2, x2, a2. split_and!; [|done|done]. unfold release.
  rewrite (creplaced_at _ _ _ _ _ Hr2). cbn [rbind conn_with set_cin set_authState cin authState].
  destruct (Z.eqb_spec (len x2) 0) as [E0|]; [|done]. apply len_0_inv in E0.
  destruct (Z.eqb_spec a2 0); [|done]. exfalso. by apply Hnz; [destruct p, d|..].
Qed.

Lemma wait_events p x a' ds q w s :
  pool_ok cfg s -> live id fd cb (conn_with x a') s -> progress a ra p x a' ->
  p ++ concat ds ++ q = owed a ra r -> q <> [] -> Forall (fun d => d <> []) ds ->
  exists t x2 a2, data_events fd w ds s = Ok t /\
    creplaced id (conn_with x2 a2) [] s t /\ progress a ra (p ++ concat ds) x2 a2.
Proof using Ha Hra Hr Hmax Hcfg.
  revert p x a' s. induction ds as [|d ds IH]; intros p x a' s Hp Hl Hpr Hpq Hq Hds.
  { exists s, x, a'. cbn [concat]. rewrite app_nil_r. split_and!; [done| |done].
    apply creplaced_same. apply Hl. }
  apply Forall_cons in Hds as [Hd Hds]. cbn [concat] in Hpq. rewrite <- app_assoc in Hpq.
  assert (concat ds ++ q <> []) as Hq' by (by intros [_ ?]%app_nil).
  destruct (wait_event p x a' d _ w s Hp Hl Hpr Hpq Hq' Hd) as (s1 & x1 & a1 & E & Hr1 & Hpr1).
  cbn [data_events]. rewrite E. cbn [rbind].
  destruct (IH (p ++ d) x1 a1 s1) as (t & x2 & a2 & -> & Hr2 & Hpr2).
  - by eapply pool_replaced.
  - by eapply live_replaced.
  - done.
  - by rewrite <- app_assoc.
  - done.
  - done.
  - exists t, x2, a2. split_and!; [done|exact (creplaced_trans _ _ _ _ _ _ _ _ Hr1 Hr2)|].
    cbn [concat]. by rewrite app_assoc.
Qed.

(** The last event: the callback is called and the connection is idle again. *)
Lemma last_event p x a' d w s :
  pool_ok cfg s -> live id fd cb (conn_with x a') s -> progress a ra p x a' ->
  p ++ d = owed a ra r ->
  exists t, on_event cfg fd false w (CRData d) s = Ok (with_idle (s.(fdIdle) ++ [id]) t) /\
    creplaced id (idle_of c) [CbReply cb (reader_of r) (error_of r)] s t.
Proof using Ha Hra Hr Hmax Hcfg Hcb.
  intros Hp Hl Hpr Hpq. pose proof (progress_len _ _ _ Hpr) as Hlx. pose proof owed_len as [Hl1 _].
  destruct (on_event_data id fd cb _ w d s Hp Hl) as (s1 & Hr1 & ->).
  { cbn. rewrite <- Hpq in Hmax. rewrite !len_app in *. lia. }
  assert (p ++ d ++ [] = owed a ra r) as Hpq' by (by rewrite app_nil_r).
  destruct (progress_read p x a' d [] s s1 _ Hpr Hpq' Hr1 (le_n _)) as (s2 & x2 & a2 & f & E & Hr2 & Hf & Hpr2).
  cbn [conn_with set_cin cin] in E |- *. rewrite E.
  assert (x2 = enc r /\ a2 <> 1) as [-> Ha2].
  { rewrite Hpq in Hpr2. unfold owed in Hpr2. destruct Hpr2 as [(-> & -> & Hq)|(-> & -> & E2)].
    - destruct Ha as [->| ->]; [done|]. destruct (Hq eq_refl) as (q & Hq' & Hne). exfalso.
      apply Hne, length_zero_iff_nil. apply (f_equal length) in Hq'. cbn in Hq'.
      rewrite !length_app in Hq'. lia.
    - by apply app_inv_head in E2. }
  pose proof (enc_len_pos r Hr Hl1) as Hpos.
  destruct f as [|f]; [unfold len in Hpos; lia|].
  pose proof (readElement_enc r [] Hr) as Hrd. rewrite app_nil_r in Hrd. specialize (Hrd Hl1).
  rewrite <- (app_nil_r (enc r)) in Hrd at 1.
  destruct (read_one f id _ [] s s2 cb (enc r) [] (reader_of r) (error_of r) Hr2 Ha2 Hcb) as (s3 & -> & Hr3);
    [by cbn; rewrite app_nil_r|done|exact (err_enc r Hr Hl1)|].
  rewrite (read_wait f id _ _ s s3 Hr3); [|cbn; lia|done]. cbn [rbind app] in *.
  destruct (release_idle id fd cb _ s3 (pool_replaced _ _ _ _ _ _ _ _ Hp Hl Hr3 eq_refl eq_refl)
              (live_replaced _ _ _ _ _ _ _ _ Hl Hr3 eq_refl eq_refl eq_refl) eq_refl eq_refl)
    as (s4 & s5 & Hr4 & -> & ->).
  pose proof (creplaced_trans _ _ _ _ _ _ _ _ Hr3 Hr4) as Hr5. rewrite app_nil_r in Hr5.
  destruct Hr3 as (_ & _ & -> & _). eexists. split; [reflexivity|exact Hr5].
Qed.
End one_reply.

(** C14: one call, one reply.  A connection in use that gets its reply (after the
    answer to its authentication, when it is new and the client has a password),
    in any number of reads and cut anywhere, calls its callback exactly once,
    with a reader of exactly the reply's bytes and its error if it is one, not
    before the last byte; then it is idle, at the end of the queue, and nothing
    else of the client has changed. *)
Theorem one_reply_one_callback ra r ds d w id fd cb c s :
  pool_ok cfg s -> live id fd cb c s -> c.(cin) = [] -> (c.(authState) = 0 \/ c.(authState) = 1) ->
  reply_ok ra -> reply_ok r -> concat ds ++ d = owed c.(authState) ra r ->
  Forall (fun d => d <> []) ds -> d <> [] ->
  len (owed c.(authState) ra r) <= cfg.(ResponseMaxBytes) -> cfg.(ResponseMaxBytes) < 2 ^ 62 ->
  exists t, data_events fd w (ds ++ [d]) s = Ok (with_idle (s.(fdIdle) ++ [id]) t) /\
    creplaced id (idle_of c) [CbReply cb (reader_of r) (error_of r)] s t.
Proof using.
  intros Hp Hl Hci Ha Hra Hr Hd Hds Hd0 Hmax Hcfg.
  assert (conn_with c [] c.(authState) = c) as Ec by (destruct c; cbn in *; by subst).
  assert (progress c.(authState) ra [] [] c.(authState)) as Hpr.
  { left. split_and!; [done..|]. intros E1. exists (enc ra). split; [done|]. intros E.
    rewrite E1 in Hmax. unfold owed in Hmax. cbn [Z.eqb Pos.eqb] in Hmax. rewrite len_app in Hmax.
    assert (0 < len (enc ra)) as Hpos.
    { apply enc_len_pos; [done|]. pose proof (len_nonneg (enc r)). lia. }
    rewrite E in Hpos. unfold len in Hpos. cbn in Hpos. lia. }
  destruct (wait_events c.(authState) ra r id fd cb c Ha Hra Hr Hmax Hcfg [] [] c.(authState) ds d w s)
    as (s1 & x & a & E & Hr1 & Hpr1); [done|by rewrite Ec|done..|].
  rewrite data_events_app, E. cbn [rbind data_events].
  assert (live id fd cb (conn_with c x a) s1) as Hl1 by (by eapply live_replaced; [exact Hl|..]).
  assert (pool_ok cfg s1) as Hp1 
    by exact (pool_replaced _ _ _ _ _ _ _ _ Hp Hl Hr1 eq_refl eq_refl).
  destruct (last_event c.(authState) ra r id fd cb c Ha Hra Hr Hmax Hcfg ltac:(apply Hl)
              ([] ++ concat ds) x a d w s1 Hp1 Hl1 Hpr1 Hd) as (t & -> & Ht).
  cbn [rbind]. pose proof (creplaced_trans _ _ _ _ _ _ _ _ Hr1 Ht) as Hrt. cbn [app] in Hrt.
  destruct Hr1 as (_ & _ & -> & _). by exists t.
Qed.

(** ** Requests *)

Lemma append_args_eq args out : append_args args out = out ++ bulks (arg_text <$> args).
Proof using.
  revert out. induction args as [|a args IH]; intros out; cbn [append_args fmap list_fmap].
  - by rewrite app_nil_r.
  - rewrite IH, bulks_cons. unfold bulk, resp_header, strconv.AppendInt. change (bs "$") with [36].
    by app_norm.
Qed.

Lemma append_command_eq args out : append_command args out = out ++ command (arg_text <$> args).
Proof using.
  unfold append_command. rewrite append_args_eq. unfold command, resp_header, strconv.AppendInt.
  change (bs "*") with [42]. unfold len at 2. rewrite length_fmap. by app_norm.
Qed.

Lemma auth_command_eq :
  auth_command cfg = if bool_decide (cfg.(auth) = []) then [] else command [bs "AUTH"; cfg.(auth)].
Proof using.
  unfold auth_command. case_bool_decide; [done|]. unfold strconv.AppendInt, command, bulks, bulk, resp_header.
  cbn [fmap list_fmap concat]. rewrite app_nil_r.
  change (strconv.FormatInt 10 (len [bs "AUTH"; cfg.(auth)])) with (bs "2").
  change (strconv.FormatInt 10 (len (bs "AUTH"))) with (bs "4").
  change (bs "*2") with (42 :: bs "2"). change (bs "$4") with (36 :: bs "4"). change (bs "$") with [36].
  by app_norm.
Qed.

(** What a connection that [Exec] has just taken has to send. *)
Definition greeting (new : bool) : bytes :=
  if new && negb (bool_decide (cfg.(auth) = [])) then command [bs "AUTH"; cfg.(auth)] else [].

Lemma Exec_new id fd cb args s :
  pool_ok cfg s -> fresh id (Some fd) s -> s.(fdIdle) = [] ->
  Z.of_nat (size (view s.(fdConns))) < cfg.(poolSize) ->
  exists s' c, Exec cfg id (Some fd) cb args s = Ok s' /\ pool_ok cfg s' /\ live id fd cb c s' /\
    c.(cin) = [] /\ c.(cout) = greeting true ++ command (arg_text <$> args) /\
    c.(authState) = (if bool_decide (cfg.(auth) = []) then 0 else 1) /\
    s'.(fdIdle) = [] /\ s'.(cinterest) !! fd = Some CReadWrite /\ s'.(clog) = s.(clog) ++ [fd_count s'].
Proof using.
  intros Hp Hfr Hi Hsz. pose proof (Exec_post cfg id (Some fd) cb args s Hp Hfr) as Hpost.
  destruct Hfr as [Hid Hfd]. destruct (Hfd fd eq_refl) as [H0 Hv].
  pose proof (pool_table cfg s Hp) as Ht. rewrite Exec_open in * by done.
  destruct (Z.leb_spec cfg.(poolSize) (Len s.(fdConns))) as [Hf|_].
  { rewrite (Len_size _ Ht) in Hf. lia. }
  destruct (Add_free fd id _ Ht H0 Hv) as (t & Hadd & _ & Hview & _).
  cbn [activateFreeConn with_cconns fdConns] in *. rewrite Hadd in *. cbn [checked rbind] in *.
  set (c0 := mkCConn fd (Some cb) [] _ None _) in *.
  eexists _, (if cfg.(has_timeout) then set_death (Some TActive) c0 else c0).
  split; [reflexivity|]. split; [exact Hpost|].
  destruct cfg.(has_timeout) eqn:Eh; (split_and!; [split_and!|..]);
    cbn [CModReadWrite OnFdCount cemit with_table with_cconns with_cinterest cupdate fdConns conns fdIdle clog
         cinterest c0 set_death cfd callback cin cout death authState];
    rewrite ?Hview, ?lookup_insert_eq, ?alter_insert_eq, ?append_command_eq, ?auth_command_eq, ?Eh; try done;
    rewrite ?lookup_insert_eq; try done; unfold greeting; cbn [andb]; by case_bool_decide.
Qed.

Lemma Exec_idle nid nfd id ids cb args s c :
  pool_ok cfg s -> s.(fdIdle) = id :: ids -> s.(conns) !! id = Some c -> c.(cout) = [] ->
  exists s' c', Exec cfg nid nfd cb args s = Ok s' /\ pool_ok cfg s' /\
    s'.(conns) = <[id := c']> s.(conns) /\ s'.(fdConns) = s.(fdConns) /\ s'.(fdIdle) = ids /\
    c'.(cfd) = c.(cfd) /\ c'.(callback) = Some cb /\ c'.(cin) = [] /\ c'.(authState) = 0 /\
    c'.(cout) = command (arg_text <$> args) /\
    c'.(death) = (if cfg.(has_timeout) then Some TActive else None) /\
    s'.(clog) = s.(clog) ++ [fd_count s'; CEvTrigger c.(cfd)].
Proof using.
  intros Hp Hi Hid Ho. pose proof (fill_alone_post cfg id ids cb args s Hp Hi) as Hpost.
  destruct (pool_pop cfg s id ids Hp Hi) as [Hp1 Hn].
  assert (id ∈ s.(fdIdle)) as Hin by (rewrite Hi; by left).
  destruct (pool_idle cfg s Hp id Hin) as (c0 & Hid0 & _ & Hd & Hci & Ha). assert (c0 = c) as -> by congruence.
  destruct (pool_conn cfg s Hp id c Hid) as [_ Hdeath].
  rewrite (Exec_fill cfg id nid nfd ids) by (done || by apply Z.leb_le, (pool_Len cfg s)).
  unfold fill_alone in *. unfold cconn_at in *.
  cbn [with_idle conns] in Hpost |- *. rewrite Hid in *. cbn [checked rbind] in *. rewrite Ho in *.
  change (0 <? len []) with false in *. cbv iota in *.
  pose proof (append_command_eq args []) as Eout. cbn [app] in Eout.
  set (c1 := set_cout (append_command args []) (set_callback (Some cb) c)).
  set (s1 := cupdate id _ _) in *.
  assert (s1.(conns) = <[id := c1]> s.(conns)) as E1.
  { unfold s1. cbn. apply map_eq. intros i. rewrite lookup_insert. case_decide as E.
    - subst i. by rewrite lookup_alter_eq, Hid.
    - by rewrite lookup_alter_ne. }
  assert (pool_ok cfg s1) as Hp2 by (by apply pool_update).
  assert (s1.(conns) !! id = Some c1) as E1i by (by rewrite E1, lookup_insert_eq).
  destruct cfg.(has_timeout) eqn:Eh.
  - destruct Hdeath as [_ [t Et]]; [done|]. unfold timer_Reset, cconn_at in *. rewrite E1i in *.
    cbn [checked rbind c1 set_cout set_callback death] in *. rewrite Et in *. cbn [checked rbind] in *.
    rewrite lookup_cupdate, decide_True, E1i in * by done.
    cbn [fmap option_fmap option_map checked rbind c1 set_death set_cout set_callback cfd] in *. eexists _, (set_death (Some TActive) c1). split; [reflexivity|].
    split; [exact Hpost|]. split_and!; try done.
    + cbn [OnFdCount cemit cupdate with_cconns conns]. by rewrite E1, alter_insert_eq.
    + cbn. by rewrite <- app_assoc.
  - cbn [rbind] in *. rewrite E1i in *. cbn [checked rbind c1 set_cout set_callback cfd] in *. eexists _, c1.
    split; [reflexivity|]. split; [exact Hpost|]. split_and!; try done.
    + cbn. destruct c.(death) as [t|] eqn:Et; [|done]. destruct Hdeath as [Hdeath _].
      by discriminate Hdeath.
    + cbn. by rewrite <- app_assoc.
Qed.

(** C29: what a call sends that no other call disturbs, on a pool within its size.  With
    nothing idle and room in the pool, when connecting succeeds, it opens a connection
    whose output is the authentication, when the client has a password, and the command
    with the call's arguments, and the poller watches it for writing.  With a connection
    idle it takes the one that has waited longest; if that one has no output left and is
    still in the table (the server has not closed it meanwhile), its output is the command
    alone and its descriptor is in the queue of the poller.  Either way that connection is
    in use by the call and its timer runs if the client has a timeout.  What happens when
    the two conditions fail is [early_reply_panics] and [closed_idle_connection_taken]. *)
Theorem Exec_sends id fd cb args s :
  pool_ok cfg s -> fresh id (Some fd) s ->
  (s.(fdIdle) = [] -> Z.of_nat (size (view s.(fdConns))) < cfg.(poolSize) ->
     exists s' c, Exec cfg id (Some fd) cb args s = Ok s' /\ live id fd cb c s' /\
       c.(cout) = greeting true ++ command (arg_text <$> args) /\
       s'.(cinterest) !! fd = Some CReadWrite) /\
  (forall i ids c, s.(fdIdle) = i :: ids -> s.(conns) !! i = Some c -> c.(cout) = [] ->
     view s.(fdConns) !! c.(cfd) = Some i ->
     exists s' c', Exec cfg id (Some fd) cb args s = Ok s' /\ live i c.(cfd) cb c' s' /\
       c'.(cout) = command (arg_text <$> args) /\ s'.(fdIdle) = ids /\
       s'.(clog) = s.(clog) ++ [fd_count s'; CEvTrigger c.(cfd)]).
Proof using.
  intros Hp Hfr. split.
  - intros Hi Hsz. destruct (Exec_new id fd cb args s Hp Hfr Hi Hsz)
      as (s' & c & ? & _ & ? & _ & ? & _ & _ & ? & _). by exists s', c.
  - intros i ids c Hi Hid Ho Hv.
    destruct (Exec_idle id (Some fd) i ids cb args s c Hp Hi Hid Ho)
      as (s' & c' & ? & _ & E1 & E2 & ? & ? & ? & _ & _ & ? & ? & ?).
    exists s', c'. split_and!; try done. split_and!; try done; [by rewrite E2|].
    by rewrite E1, lookup_insert_eq.
Qed.

(** ** Closing *)

(** Closing a connection of the table, and closing it once more. *)
Lemma close_used id typ e s c :
  pool_ok cfg s -> s.(conns) !! id = Some c -> view s.(fdConns) !! c.(cfd) = Some id ->
  cfg.(sys_close_fails) c.(cfd) = false -> typ <> bs "free" ->
  exists s', closeConnWithError cfg id typ e s = Ok s' /\ pool_ok cfg s' /\
    s'.(conns) = s.(conns) /\ s'.(fdIdle) = s.(fdIdle) /\
    view s'.(fdConns) = delete c.(cfd) (view s.(fdConns)) /\
    Delete c.(cfd) s'.(fdConns) = None /\
    s'.(clog) = s.(clog) ++ [fd_count s'; CEvSysClose c.(cfd)]
                  ++ match e with Some _ => [CEvError typ] | None => [] end
                  ++ match c.(callback) with Some cb => [CbError cb (default eClosed e)] | None => [] end.
Proof using.
  intros Hp Hid Hv Hf Htyp. pose proof (cclose_post cfg id typ e s Hp) as Hpost.
  pose proof (pool_table cfg s Hp) as Ht. pose proof (view_Cap _ _ _ Ht Hv) as [H0 Hcap].
  destruct (Delete_used _ _ _ Ht Hv) as (t & Hdel & Hok & Hview & Ecap).
  unfold closeConnWithError, cconn_at in *. rewrite Hid in *. cbn [checked rbind] in *.
  rewrite Hdel in *. cbn [checked rbind] in *. rewrite Hf in *.
  assert (Delete c.(cfd) t = None) as Hdel2.
  { rewrite Delete_free; [|done|done|by rewrite Hview, lookup_delete_eq].
    by rewrite Ecap, (proj2 (Z.ltb_lt _ _) Hcap). }
  eexists. split; [reflexivity|]. split; [exact Hpost|].
  destruct e, c.(callback); rewrite ?bool_decide_false by done; cbn;
    split_and!; try done; by rewrite <- ?app_assoc.
Qed.

(** What [Close] does to the connections [l] of a table of [k]. *)
Fixpoint closing (s : Client) (k : Z) (l : list (Z * Z)) : list cevent :=
  match l with
  | [] => []
  | (fd, id) :: l =>
      [CEvFdCount (IdleCount s) (k - 1 - IdleCount s); CEvSysClose fd]
        ++ match s.(conns) !! id with
           | Some c => match c.(callback) with Some cb => [CbError cb eClosed] | None => [] end
           | None => []
           end
        ++ closing s (k - 1) l
  end.

Lemma closing_ext s s' k l :
  s'.(conns) = s.(conns) -> s'.(fdIdle) = s.(fdIdle) -> closing s' k l = closing s k l.
Proof using.
  intros E1 E2. revert k. induction l as [|[fd id] l IH]; intros k; [done|]. cbn [closing].
  unfold IdleCount. by rewrite E1, E2, IH.
Qed.

Definition close_step (r : cresult Client) '((fd, _) : Z * Z) : cresult Client :=
  let! s := r in
  let! o := checked (Get fd s.(fdConns)) in
  match o with
  | Some id => closeConnWithError cfg id [] None s
  | None => Ok s
  end.

Lemma close_loop l s :
  pool_ok cfg s -> (forall fd, cfg.(sys_close_fails) fd = false) -> NoDup l.*1 ->
  (forall fd id, (fd, id) ∈ l -> view s.(fdConns) !! fd = Some id) ->
  exists s', foldl close_step (Ok s) l = Ok s' /\ s'.(conns) = s.(conns) /\ s'.(fdIdle) = s.(fdIdle) /\
    (forall fd, view s'.(fdConns) !! fd = if decide (fd ∈ l.*1) then None else view s.(fdConns) !! fd) /\
    s'.(clog) = s.(clog) ++ closing s (Len s.(fdConns)) l.
Proof using.
  revert s. induction l as [|[fd id] l IH]; intros s Hp Hf Hnd Hin.
  { exists s. split_and!; try done. by rewrite app_nil_r. }
  rewrite fmap_cons in Hnd. apply NoDup_cons in Hnd as [Hfd Hnd]. cbn in Hfd.
  pose proof (Hin fd id ltac:(by left)) as Hv. pose proof (pool_table cfg s Hp) as Ht.
  pose proof (view_Cap _ _ _ Ht Hv) as [H0 _]. destruct (pool_conns cfg s Hp fd id Hv) as (c & Hid & Ec).
  rewrite <- Ec in Hv.
  destruct (close_used id [] None s c Hp Hid Hv (Hf _) ltac:(done)) as (s1 & E1 & Hp1 & F1 & F2 & F3 & _ & F4).
  destruct (IH s1 Hp1 Hf Hnd) as (s' & E' & G1 & G2 & G3 & G4).
  { intros fd' id' Hx. rewrite F3, Ec, lookup_delete_ne; [by apply Hin; right|].
    intros ->. apply Hfd. apply list_elem_of_fmap. by exists (fd', id'). }
  exists s'. cbn [foldl]. unfold close_step at 2. cbn [rbind]. rewrite Ec in Hv.
  rewrite (Get_view _ _ Ht H0), Hv. cbn [checked rbind]. rewrite E1.
  split_and!; [done|congruence|congruence| |].
  - intros fd'. rewrite G3, F3, Ec, fmap_cons. cbn [fst]. clear -Hfd. rewrite lookup_delete.
    destruct (decide (fd' = fd)) as [->|Hne].
    { rewrite (decide_True (P := fd ∈ fd :: l.*1)) by left.
      case_decide; [done|]. by rewrite decide_True. }
    rewrite (decide_False (P := fd = fd')) by congruence.
    apply decide_ext. rewrite elem_of_cons. tauto.
  - rewrite G4, F4, <- app_assoc, (closing_ext s s1) by done. f_equal. cbn [closing].
    assert (Len s1.(fdConns) = Len s.(fdConns) - 1) as El.
    { rewrite (Len_size _ Ht), (Len_size _ (pool_table cfg s1 Hp1)), F3, Ec, map_size_delete_Some by done.
      assert (size (view s.(fdConns)) <> 0%nat); [|lia]. intros E%map_size_empty_iff. by rewrite E, lookup_empty in Hv. }
    unfold fd_count, ActiveCount, IdleCount. rewrite Hid, Ec, F2, El.
    cbn [app default]. by destruct c.(callback).
Qed.

Lemma Close_closes s :
  pool_ok cfg s -> (forall fd, cfg.(sys_close_fails) fd = false) ->
  exists s', Close cfg s = Ok s' /\ view s'.(fdConns) = ∅ /\
    s'.(clog) = s.(clog) ++ closing s (Len s.(fdConns)) (Foreach s.(fdConns)).
Proof using.
  intros Hp Hf. pose proof (pool_table cfg s Hp) as Ht.
  destruct (close_loop (Foreach s.(fdConns)) s Hp Hf) as (s' & E & _ & _ & Hv & El).
  { by apply Foreach_nodup. }
  { intros fd id. by apply Foreach_view. }
  exists s'. split_and!; [exact E| |done].
  apply map_empty. intros fd. rewrite Hv. case_decide as Hn; [done|].
  destruct (view s.(fdConns) !! fd) as [id|] eqn:Ev; [|done]. exfalso. apply Hn.
  apply list_elem_of_fmap. exists (fd, id). split; [done|]. by apply Foreach_view.
Qed.

(** [Close]: every connection of the table is closed, once, and the callback of
    every call that waits for a reply is called, once, with an error; the table is
    empty afterwards. *)
Theorem Close_calls_back s :
  pool_ok cfg s -> (forall fd, cfg.(sys_close_fails) fd = false) ->
  exists s' l, Close cfg s = Ok s' /\ view s'.(fdConns) = ∅ /\
    l ≡ₚ map_to_list (view s.(fdConns)) /\ s'.(clog) = s.(clog) ++ closing s (Len s.(fdConns)) l.
Proof using.
  intros Hp Hf. destruct (Close_closes s Hp Hf) as (s' & E & Ev & El).
  exists s', (Foreach s.(fdConns)). split_and!; try done. by apply Foreach_list, Hp.
Qed.

(** a call that times out: when the timer of a connection in use fires, the
    connection leaves the table, its descriptor is closed, [OnError] is told, and
    the callback is called once, with the time-out as its error. *)
Theorem timeout_calls_back id fd cb c s :
  pool_ok cfg s -> live id fd cb c s -> cfg.(has_timeout) = true -> cfg.(sys_close_fails) fd = false ->
  exists s', on_timer cfg id s = Ok s' /\ view s'.(fdConns) = delete fd (view s.(fdConns)) /\
    s'.(fdIdle) = s.(fdIdle) /\
    s'.(clog) = s.(clog) ++ [fd_count s'; CEvSysClose fd; CEvError (bs "timeout"); CbError cb eTimeout].
Proof using.
  intros Hp Hl Ht Hf. pose proof (live_busy _ _ _ _ _ Hp Hl) as (Hn & _).
  destruct Hl as (Hv & Hid & <- & Hcb & Hd). unfold on_timer.
  rewrite Ht in Hd.
  destruct (set_death_same cfg id TInactive s c TActive Hid Hd Hp Hn) as (Hp1 & E1 & E2 & _).
  set (s1 := cupdate id _ s) in *.
  destruct (close_used id (bs "timeout") (Some eTimeout) s1 (set_death (Some TInactive) c))
    as (s' & -> & _ & _ & Ei & Ev & _ & El); try done.
  { unfold s1. by rewrite lookup_cupdate, decide_True, Hid by done. }
  exists s'. split_and!; [done|by rewrite Ev|by rewrite Ei|]. rewrite El. cbn. by rewrite Hcb.
Qed.

(** ** What goes wrong *)

(** A request that loses its connection.  The server closes the connection of
    a call: the callback is told, but the timer keeps running, and when it fires
    it deletes the descriptor from the table once more, which panics in the
    timer's goroutine: the whole program stops. *)
Theorem closed_connection_panics id fd cb c w s :
  pool_ok cfg s -> live id fd cb c s -> cfg.(has_timeout) = true -> cfg.(sys_close_fails) fd = false ->
  exists s' c', on_event cfg fd false w CREof s = Ok s' /\
    s'.(clog) = s.(clog) ++ [fd_count s'; CEvSysClose fd; CbError cb eClosed] /\
    s'.(conns) !! id = Some c' /\ c'.(death) = Some TActive /\ on_timer cfg id s' = Panic.
Proof using.
  intros Hp Hl Ht Hf. pose proof (live_busy _ _ _ _ _ Hp Hl) as (Hn & _).
  destruct Hl as (Hv & Hid & <- & Hcb & Hd). pose proof (pool_table cfg s Hp) as Htab.
  pose proof (view_Cap _ _ _ Htab Hv) as [H0 _]. rewrite Ht in Hd.
  unfold on_event. rewrite (Get_view _ _ Htab H0), Hv. unfold cconn_at at 1. cbn [checked rbind].
  rewrite Hid. cbn [checked rbind]. rewrite Hcb, bool_decide_false, Ht by done. cbn [negb andb].
  destruct (set_death_same cfg id TActive s c TActive Hid Hd Hp Hn) as (Hp1 & _ & _ & _).
  unfold timer_Reset, cconn_at at 1. rewrite Hid. cbn [checked rbind]. rewrite Hd.
  cbn [checked rbind]. rewrite bool_decide_true by done. cbn [negb]. set (s1 := cupdate id _ s) in *.
  assert (s1.(conns) !! id = Some (set_death (Some TActive) c)) as Hid1
    by (unfold s1; by rewrite lookup_cupdate, decide_True, Hid by done).
  unfold readConn, cconn_at. rewrite Hid1. cbn [checked rbind].
  destruct (close_used id [] None s1 (set_death (Some TActive) c))
    as (s' & -> & _ & Ec & _ & _ & Hdel & El); try done.
  exists s', (set_death (Some TActive) c). split_and!; [done| |by rewrite Ec|done|].
  - rewrite El. cbn. by rewrite Hcb.
  - unfold on_timer, closeConnWithError, cconn_at. rewrite lookup_cupdate, decide_True, Ec, Hid1 by done.
    cbn [fmap option_fmap option_map checked rbind]. cbn. cbn in Hdel. by rewrite Hdel.
Qed.

(** a call that is lost.  The server closes an idle connection: it leaves the
    table but not the channel, and the next call takes it.  Its callback is not
    called: what the poller has for that descriptor is not found, whatever it is;
    and if a time-out is set, the timer then panics as above. *)
Theorem closed_idle_connection_taken id ids cb args nid nfd w s c :
  pool_ok cfg s -> s.(fdIdle) = id :: ids -> s.(conns) !! id = Some c ->
  view s.(fdConns) !! c.(cfd) = Some id -> c.(cout) = [] -> cfg.(sys_close_fails) c.(cfd) = false ->
  exists s1 s2 c2, on_event cfg c.(cfd) false w CREof s = Ok s1 /\
    Exec cfg nid nfd cb args s1 = Ok s2 /\
    s2.(clog) = s.(clog) ++ [fd_count s1; CEvSysClose c.(cfd); fd_count s2; CEvTrigger c.(cfd)] /\
    (forall wr w r, on_event cfg c.(cfd) wr w r s2 = Ok (cemit (CEvError (bs "warning")) s2)) /\
    s2.(conns) !! id = Some c2 /\ c2.(callback) = Some cb /\
    c2.(death) = (if cfg.(has_timeout) then Some TActive else None) /\ on_timer cfg id s2 = Panic.
Proof using.
  intros Hp Hi Hid Hv Ho Hf. pose proof (pool_table cfg s Hp) as Htab.
  assert (id ∈ s.(fdIdle)) as Hin by (rewrite Hi; by left).
  destruct (pool_idle cfg s Hp id Hin) as (c0 & Hid0 & Hcb & _). assert (c0 = c) as -> by congruence.
  pose proof (view_Cap _ _ _ Htab Hv) as [H0 _].
  destruct (close_used id [] None s c) as (s1 & Hcl & Hp1 & Ec & Ei & Ev & Hdel & El); try done.
  rewrite Hcb, app_nil_r in El. exists s1. rewrite Hi in Ei. rewrite <- Ec in Hid.
  destruct (Exec_idle nid nfd id ids cb args s1 c Hp1 Ei Hid Ho)
    as (s2 & c2 & -> & Hp2 & E1 & E2 & _ & Efd & Ecb & _ & _ & _ & Ed & El2).
  exists s2, c2. split_and!; try done.
  - unfold on_event. rewrite (Get_view _ _ Htab H0), Hv. unfold cconn_at at 1. cbn [checked rbind].
    rewrite <- Ec, Hid. cbn [checked rbind]. rewrite Hcb, bool_decide_true by done.
    cbn [negb andb rbind]. unfold readConn, cconn_at. rewrite <- Ec, Hid. exact Hcl.
  - by rewrite El2, El, <- app_assoc.
  - intros wr w' r. unfold on_event. rewrite (Get_view _ _ (pool_table cfg s2 Hp2) H0), E2, Ev.
    by rewrite lookup_delete_eq.
  - by rewrite E1, lookup_insert_eq.
  - unfold on_timer, closeConnWithError, cconn_at. rewrite lookup_cupdate, decide_True by done.
    rewrite E1, lookup_insert_eq. cbn. by rewrite Efd, E2, Hdel.
Qed.

(** a reply before the request is out.  The server answers before the client
    has written all of a command: the callback gets the reply and the connection
    is idle with the rest of the command in its output; the next call that takes
    it panics. *)
Theorem early_reply_panics r id fd cb c w nid nfd cb2 args s :
  pool_ok cfg s -> live id fd cb c s -> c.(cin) = [] -> c.(authState) = 0 -> c.(cout) <> [] ->
  s.(fdIdle) = [] -> reply_ok r -> len (enc r) <= cfg.(ResponseMaxBytes) ->
  cfg.(ResponseMaxBytes) < 2 ^ 62 ->
  exists s', on_event cfg fd false w (CRData (enc r)) s = Ok s' /\
    s'.(clog) = s.(clog) ++ [CbReply cb (reader_of r) (error_of r)] /\ s'.(fdIdle) = [id] /\
    Exec cfg nid nfd cb2 args s' = Panic.
Proof using.
  intros Hp Hl Hci Ha Ho Hi Hr Hmax Hcfg.
  assert (conn_with c [] 0 = c) as Ec by (destruct c; cbn in *; by subst).
  assert (progress 0 RNull [] [] 0) as Hpr by (left; split_and!; done).
  destruct (last_event 0 RNull r id fd cb c (or_introl eq_refl) I Hr Hmax Hcfg ltac:(apply Hl)
              [] [] 0 (enc r) w s Hp) as (t & E & Ht); [by rewrite Ec|done|done|].
  rewrite Hi in E. eexists. split; [exact E|]. cbn [app with_idle fdIdle clog].
  pose proof (creplaced_at _ _ _ _ _ Ht) as Hat. destruct Ht as (_ & _ & _ & _ & El).
  split_and!; [exact El|done|]. unfold Exec, call_fuel. cbn [with_idle fdIdle length app Nat.mul Nat.add].
  rewrite run_call_S by done. cbn [call_step activateFreeConn with_idle fdIdle rbind].
  rewrite run_call_S by done. cbn [call_step fillIdleConn].
  unfold cconn_at in *. cbn [with_idle conns]. rewrite Hat.
  cbn [checked rbind idle_of cout]. destruct (Z.ltb_spec 0 (len c.(cout))) as [|H0]; [done|].
  exfalso. apply Ho, len_0_inv. pose proof (len_nonneg c.(cout)). lia.
Qed.
End properties.

(** ** Witnesses *)

(** A client of two connections, with a password and a time-out, and one of one
    connection without. *)
Definition ex_cfg : config :=
  {| auth := bs "pw"; poolSize := 2; has_timeout := true; ResponseMaxBytes := 1048576;
     sys_close_fails := fun _ => false |}.
Definition ex_cfg1 : config :=
  {| auth := []; poolSize := 1; has_timeout := false; ResponseMaxBytes := 1048576;
     sys_close_fails := fun _ => false |}.

Local Abbreviation FdClient := (@Client (fdMap Z)).

Fixpoint crun (cfg : config) (l : list cinput) (s : FdClient) : FdClient :=
  match l with
  | [] => s
  | i :: l => match cstep cfg i s with Ok s => crun cfg l s | _ => s end
  end.

Definition ex_exec : cinput := CExec 1 (Some 5) 0 [AString (bs "GET"); ABytes (bs "k")].
Definition ex_busy (cfg : config) : FdClient := crun cfg [ex_exec] newClient.
Definition ex_written : cinput := CEvent 5 true (CWN 42) CRAgain.
Definition ex_replied : cinput :=
  CEvent 5 false (CWN 0) (CRData (bs "+OK" ++ crlf ++ bs "$1" ++ crlf ++ bs "v" ++ crlf)).
Definition ex_idle_client : FdClient := crun ex_cfg [ex_exec; ex_written; ex_replied] newClient.

Definition conn_of (id : Z) (s : FdClient) : CConn :=
  default (mkCConn 0 None [] [] None 0) (s.(conns) !! id).

Lemma ex_busy_reachable : creachable ex_cfg (ex_busy ex_cfg).
Proof.
  apply (creach_step _ ex_exec newClient); [apply creach_init| |reflexivity].
  split; [reflexivity|]. intros f [= <-]. split; [done|reflexivity].
Qed.

Lemma ex_busy1_reachable : creachable ex_cfg1 (ex_busy ex_cfg1).
Proof.
  apply (creach_step _ ex_exec newClient); [apply creach_init| |reflexivity].
  split; [reflexivity|]. intros f [= <-]. split; [done|reflexivity].
Qed.

Lemma ex_idle_reachable : creachable ex_cfg ex_idle_client.
Proof.
  apply (creach_step _ ex_replied (crun ex_cfg [ex_written] (ex_busy ex_cfg)));
    [|done|vm_compute; reflexivity].
  apply (creach_step _ ex_written (ex_busy ex_cfg)); [apply ex_busy_reachable|done|reflexivity].
Qed.

Lemma ex_busy_ok : pool_ok ex_cfg (ex_busy ex_cfg).
Proof. by apply creachable_ok, ex_busy_reachable. Qed.
Lemma ex_busy1_ok : pool_ok ex_cfg1 (ex_busy ex_cfg1).
Proof. by apply creachable_ok, ex_busy1_reachable. Qed.
Lemma ex_idle_ok : pool_ok ex_cfg ex_idle_client.
Proof. by apply creachable_ok, ex_idle_reachable. Qed.

Lemma Exec_sends_witness :
  (exists s' c, Exec ex_cfg 2 (Some 6) 1 [AString (bs "INCR"); AInt (-3)] (ex_busy ex_cfg) = Ok s' /\
     live ex_cfg 2 6 1 c s' /\
     c.(cout) = command [bs "AUTH"; bs "pw"] ++ command [bs "INCR"; bs "-3"] /\
     s'.(cinterest) !! 6 = Some CReadWrite) /\
  (exists s' c', Exec ex_cfg 2 (Some 6) 1 [AInt 7] ex_idle_client = Ok s' /\
     live ex_cfg 1 5 1 c' s' /\ c'.(cout) = command [bs "7"] /\ s'.(fdIdle) = [] /\
     s'.(clog) = ex_idle_client.(clog) ++ [fd_count s'; CEvTrigger 5]).
Proof.
  assert (forall f, Some 6 = Some f -> 0 <= f /\ (f = 6)) as Hf by (by intros f [= <-]).
  split.
  - apply (Exec_sends ex_cfg 2 6 1 [AString (bs "INCR"); AInt (-3)] (ex_busy ex_cfg) ex_busy_ok);
      [split; [reflexivity|]|reflexivity|reflexivity].
    intros f Ef. destruct (Hf f Ef) as [? ->]. split; [done|reflexivity].
  - assert (fresh 2 (Some 6) ex_idle_client) as Hfr.
    { split; [reflexivity|]. intros f Ef. destruct (Hf f Ef) as [? ->]. split; [done|reflexivity]. }
    apply (proj2 (Exec_sends ex_cfg 2 6 1 [AInt 7] ex_idle_client ex_idle_ok Hfr) 1 []
             (conn_of 1 ex_idle_client)); vm_compute; reflexivity.
Defined.

Lemma ex_live : live ex_cfg 1 5 0 (conn_of 1 (ex_busy ex_cfg)) (ex_busy ex_cfg).
Proof. by split_and!; vm_compute. Qed.

Lemma one_reply_one_callback_witness :
  exists t,
    data_events ex_cfg 5 (CWN 0) [bs "+O"; bs "K" ++ crlf ++ bs "$1"; crlf ++ bs "v" ++ crlf] (ex_busy ex_cfg)
    = Ok (with_idle [1] t) /\
    creplaced 1 (idle_of ex_cfg (conn_of 1 (ex_busy ex_cfg)))
      [CbReply 0 (mkReader (bs "$1" ++ crlf ++ bs "v" ++ crlf)) None] (ex_busy ex_cfg) t.
Proof.
  apply (one_reply_one_callback ex_cfg (RSimple (bs "OK")) (RBulk (bs "v"))
           [bs "+O"; bs "K" ++ crlf ++ bs "$1"] (crlf ++ bs "v" ++ crlf) (CWN 0) 1 5 0
           (conn_of 1 (ex_busy ex_cfg)) (ex_busy ex_cfg) ex_busy_ok ex_live);
    try by vm_compute.
  - by right.
  - apply index_byte_None. reflexivity.
  - by repeat constructor.
Defined.

Lemma Close_calls_back_witness :
  exists s' l, Close ex_cfg (ex_busy ex_cfg) = Ok s' /\ view s'.(fdConns) = ∅ /\
    l ≡ₚ map_to_list (view (ex_busy ex_cfg).(fdConns)) /\
    s'.(clog) = (ex_busy ex_cfg).(clog) ++ closing (ex_busy ex_cfg) 1 l.
Proof. by apply (Close_calls_back ex_cfg (ex_busy ex_cfg) ex_busy_ok). Defined.

Lemma timeout_calls_back_witness :
  exists s', on_timer ex_cfg 1 (ex_busy ex_cfg) = Ok s' /\ view s'.(fdConns) = delete 5 {[5 := 1]} /\
    s'.(fdIdle) = [] /\
    s'.(clog) = [CEvFdCount 0 1; fd_count s'; CEvSysClose 5; CEvError (bs "timeout"); CbError 0 eTimeout].
Proof.
  apply (timeout_calls_back ex_cfg 1 5 0 (conn_of 1 (ex_busy ex_cfg)) (ex_busy ex_cfg) ex_busy_ok ex_live);
    reflexivity.
Defined.

Lemma closed_connection_panics_witness :
  exists s' c', on_event ex_cfg 5 false (CWN 0) CREof (ex_busy ex_cfg) = Ok s' /\
    s'.(clog) = [CEvFdCount 0 1; fd_count s'; CEvSysClose 5; CbError 0 eClosed] /\
    s'.(conns) !! 1 = Some c' /\ c'.(death) = Some TActive /\ on_timer ex_cfg 1 s' = Panic.
Proof.
  apply (closed_connection_panics ex_cfg 1 5 0 (conn_of 1 (ex_busy ex_cfg)) (CWN 0) (ex_busy ex_cfg)
           ex_busy_ok ex_live); reflexivity.
Defined.

Lemma closed_idle_connection_taken_witness :
  exists s1 s2 c2, on_event ex_cfg 5 false (CWN 0) CREof ex_idle_client = Ok s1 /\
    Exec ex_cfg 2 (Some 6) 1 [AString (bs "PING")] s1 = Ok s2 /\
    s2.(clog) = ex_idle_client.(clog) ++ [fd_count s1; CEvSysClose 5; fd_count s2; CEvTrigger 5] /\
    (forall wr w r, on_event ex_cfg 5 wr w r s2 = Ok (cemit (CEvError (bs "warning")) s2)) /\
    s2.(conns) !! 1 = Some c2 /\ c2.(callback) = Some 1%nat /\
    c2.(death) = Some TActive /\ on_timer ex_cfg 1 s2 = Panic.
Proof.
  apply (closed_idle_connection_taken ex_cfg 1 [] 1 [AString (bs "PING")] 2 (Some 6) (CWN 0)
           ex_idle_client (conn_of 1 ex_idle_client) ex_idle_ok); vm_compute; reflexivity.
Defined.

Lemma early_reply_panics_witness :
  exists s', on_event ex_cfg1 5 false (CWN 0) (CRData (bs "-ERR busy" ++ crlf)) (ex_busy ex_cfg1) = Ok s' /\
    s'.(clog) = [CEvFdCount 0 1; CbReply 0 (mkReader []) (Some (bs "ERR busy"))] /\ s'.(fdIdle) = [1] /\
    Exec ex_cfg1 2 None 1 [AString (bs "PING")] s' = Panic.
Proof.
  apply (early_reply_panics ex_cfg1 (RError (bs "ERR busy")) 1 5 0 (conn_of 1 (ex_busy ex_cfg1)) (CWN 0)
           2 None 1 [AString (bs "PING")] (ex_busy ex_cfg1) ex_busy1_ok); try by vm_compute.
  apply index_byte_None. reflexivity.
Defined.
