(* ===== verification/ClientRace.v ===== *)
(** One connection of the client under concurrency (src/redis/client.go): the poller's
    loop, calls of [Exec], and the timer [death], whose function runs in a goroutine of
    its own.

    [Client] takes an event and a timer that fires as one step each.  Here every access to
    what they share is a step: the callback, the timer, the table of connections, the
    descriptor, the channel of idle connections.  A call has a time-out and no
    authentication before it, its command is written at once, and the pool is not over its
    size.  The server can do what it likes: answer, in pieces or not, say something that it
    was not asked for, send what is too large or no reply at all, or go away. *)

From stdpp Require Import gmap.
From S2P Require Import Prelude GoStd Util RespClient FdMap Client.

(** ** State *)

(** Where a call of [closeConnWithError] is: before [Delete], before the system call,
    before it looks at the callback. *)
Inductive closing := CDelete | CClose | CCall | CDone.

(** What the bytes that a read adds to [in] end with: a whole reply, a piece of one, or what
    is no reply. *)
Inductive tail := TEnd | TPart | TMalformed (e : rerror).

(** What the kernel has for the client: bytes that complete [n] replies, with what follows
    them; bytes that make [in] too large; the end of the stream; an error. *)
Inductive message := MData (n : nat) (t : tail) | MOversize | MEof | MError.

#[export] Instance tail_eq_dec : EqDecision tail.
Proof. solve_decision. Defined.
#[export] Instance message_eq_dec : EqDecision message.
Proof. solve_decision. Defined.

(** Where the loop is: waiting; it has the connection; the timer is set again; it has read
    and [n] replies are before it, with what follows them; before it stops the timer;
    before the channel; closing. *)
Inductive lpc :=
| LWait
| LGot (write : bool)
| LEvent (write : bool)
| LParse (n : nat) (t : tail)
| LStop
| LPut
| LClosing (p : closing) (e : cerror).

(** Where the call is that has taken the connection from the channel. *)
Inductive epc := EIdle | ESet (k : nat) | EReset (k : nat) | ETrigger (k : nat).

(** What a callback was called with. *)
Inductive outcome := Answered | Failed (e : cerror).

(** [unsent] is the command in [out], [asked] the one that the server has and has not
    answered, [incoming] what the kernel has from it; [idle] counts how often the
    connection is in the channel, [triggers] in the poller's queue; [tgs] are the
    goroutines of the timer; calls are numbered. *)
Record racing := mkRacing {
  cb : option nat;
  tm : timer;
  in_table : bool;
  fd_open : bool;
  idle : nat;
  triggers : nat;
  unsent : option nat;
  asked : option nat;
  incoming : option message;
  lp : lpc;
  ex : epc;
  tgs : list closing;
  calls : nat;
  answers : list (nat * outcome);
  crashed : bool;
}.

Definition set_lp l m := mkRacing m.(cb) m.(tm) m.(in_table) m.(fd_open) m.(idle) m.(triggers) m.(unsent) m.(asked) m.(incoming) l m.(ex) m.(tgs) m.(calls) m.(answers) m.(crashed).
Definition set_ex e m := mkRacing m.(cb) m.(tm) m.(in_table) m.(fd_open) m.(idle) m.(triggers) m.(unsent) m.(asked) m.(incoming) m.(lp) e m.(tgs) m.(calls) m.(answers) m.(crashed).
Definition set_tm t m := mkRacing m.(cb) t m.(in_table) m.(fd_open) m.(idle) m.(triggers) m.(unsent) m.(asked) m.(incoming) m.(lp) m.(ex) m.(tgs) m.(calls) m.(answers) m.(crashed).
Definition set_cb c m := mkRacing c m.(tm) m.(in_table) m.(fd_open) m.(idle) m.(triggers) m.(unsent) m.(asked) m.(incoming) m.(lp) m.(ex) m.(tgs) m.(calls) m.(answers) m.(crashed).
Definition set_tgs g m := mkRacing m.(cb) m.(tm) m.(in_table) m.(fd_open) m.(idle) m.(triggers) m.(unsent) m.(asked) m.(incoming) m.(lp) m.(ex) g m.(calls) m.(answers) m.(crashed).
Definition set_idle n m := mkRacing m.(cb) m.(tm) m.(in_table) m.(fd_open) n m.(triggers) m.(unsent) m.(asked) m.(incoming) m.(lp) m.(ex) m.(tgs) m.(calls) m.(answers) m.(crashed).
Definition set_triggers n m := mkRacing m.(cb) m.(tm) m.(in_table) m.(fd_open) m.(idle) n m.(unsent) m.(asked) m.(incoming) m.(lp) m.(ex) m.(tgs) m.(calls) m.(answers) m.(crashed).
Definition set_io u q r m := mkRacing m.(cb) m.(tm) m.(in_table) m.(fd_open) m.(idle) m.(triggers) u q r m.(lp) m.(ex) m.(tgs) m.(calls) m.(answers) m.(crashed).
Definition set_open t o m := mkRacing m.(cb) m.(tm) t o m.(idle) m.(triggers) m.(unsent) m.(asked) m.(incoming) m.(lp) m.(ex) m.(tgs) m.(calls) m.(answers) m.(crashed).
Definition new_call m := mkRacing m.(cb) m.(tm) m.(in_table) m.(fd_open) m.(idle) m.(triggers) m.(unsent) m.(asked) m.(incoming) m.(lp) m.(ex) m.(tgs) (S m.(calls)) m.(answers) m.(crashed).
Definition answer k o m := mkRacing m.(cb) m.(tm) m.(in_table) m.(fd_open) m.(idle) m.(triggers) m.(unsent) m.(asked) m.(incoming) m.(lp) m.(ex) m.(tgs) m.(calls) (m.(answers) ++ [(k, o)]) m.(crashed).
Definition crash m := mkRacing m.(cb) m.(tm) m.(in_table) m.(fd_open) m.(idle) m.(triggers) m.(unsent) m.(asked) m.(incoming) m.(lp) m.(ex) m.(tgs) m.(calls) m.(answers) true.

(** ** Steps *)

Definition is_active (t : timer) : bool := bool_decide (t = TActive).

(** [closeConnWithError(c, typ, err)]; deleting twice panics. *)
Definition close_step (p : closing) (e : cerror) (m : racing) : option (closing * racing) :=
  match p with
  | CDelete => Some (if m.(in_table) then (CClose, set_open false m.(fd_open) m) else (CDone, crash m))
  | CClose => Some (CCall, set_open m.(in_table) false m)
  | CCall => Some (CDone, match m.(cb) with Some k => answer k (Failed e) m | None => m end)
  | CDone => None
  end.

(** The loop: [Reset] also sets a timer that has fired, and says so. *)
Definition loop_step (m : racing) : option racing :=
  match m.(lp) with
  | LWait => None
  | LGot w =>
      match m.(cb) with
      | Some _ => Some (set_lp (if is_active m.(tm) then LEvent w else LWait) (set_tm TActive m))
      | None => Some (set_lp (LEvent w) m)
      end
  | LEvent true =>
      match m.(cb), m.(unsent) with
      | None, _ => Some (set_lp (LClosing CDelete eNotActive) m)
      | Some _, None => Some (set_lp LWait m)
      | Some _, Some k =>
          Some (if m.(fd_open) then set_lp LWait (set_io None (Some k) m.(incoming) m)
                else set_lp (LClosing CDelete eWrite) m)
      end
  | LEvent false =>
      if negb m.(fd_open) then Some (set_lp (LClosing CDelete eRead) m)
      else match m.(incoming), m.(cb) with
           | None, _ => Some (set_lp LWait m)
           | Some MEof, _ => Some (set_lp (LClosing CDelete eClosed) m)
           | Some MError, _ => Some (set_lp (LClosing CDelete eRead) m)
           | Some _, None => Some (set_lp LWait (set_io m.(unsent) m.(asked) None m))
           | Some x, Some _ =>
               Some (set_lp match x with MData n t => LParse n t | _ => LClosing CDelete eOversize end
                       (set_io m.(unsent) m.(asked) None m))
           end
  | LParse (S n) t =>
      match m.(cb) with
      | Some k => Some (set_lp (LParse n t) (answer k Answered m))
      | None => Some (crash m)
      end
  | LParse 0 TEnd => Some (set_lp LStop (set_cb None m))
  | LParse 0 TPart => Some (set_lp LWait m)
  | LParse 0 (TMalformed e) => Some (set_lp (LClosing CDelete (eElement e)) m)
  | LStop => Some (set_lp (if is_active m.(tm) then LPut else LWait) (set_tm TInactive m))
  | LPut => Some (set_lp LWait (set_idle (S m.(idle)) m))
  | LClosing p e =>
      match close_step p e m with
      | Some (p, m) => Some (set_lp (LClosing p e) m)
      | None => Some (set_lp LWait m)
      end
  end.

(** [fillIdleConn]; output that is left panics. *)
Definition exec_step (m : racing) : option racing :=
  match m.(ex) with
  | EIdle => None
  | ESet k =>
      Some match m.(unsent) with
           | Some _ => crash m
           | None => set_ex (EReset k) (set_io (Some k) m.(asked) m.(incoming) (set_cb (Some k) m))
           end
  | EReset k => Some (set_ex (ETrigger k) (set_tm TActive m))
  | ETrigger k => Some (set_ex EIdle (set_triggers (S m.(triggers)) m))
  end.

(** What happens: a call takes the connection and goes on; the poller returns an event,
    for a descriptor of its queue or for something incoming, and looks the connection up;
    the loop goes on; the timer fires; its goroutine goes on; something comes from the
    server. *)
Inductive raction :=
| AExec | AExecStep | AEvent (write : bool) | ALoop | AFire | ATimer (i : nat) | AServer (x : message).

Definition race_step (a : raction) (m : racing) : option racing :=
  if m.(crashed) then None
  else
    match a with
    | AExec =>
        match m.(idle), m.(ex) with
        | S n, EIdle => Some (set_ex (ESet m.(calls)) (new_call (set_idle n m)))
        | _, _ => None
        end
    | AExecStep => exec_step m
    | AEvent w =>
        match m.(lp), w, m.(triggers), m.(incoming) with
        | LWait, true, S n, _ => Some (set_lp (if m.(in_table) then LGot true else LWait) (set_triggers n m))
        | LWait, false, _, Some _ => Some (set_lp (if m.(in_table) then LGot false else LWait) m)
        | _, _, _, _ => None
        end
    | ALoop => loop_step m
    | AFire =>
        match m.(tm) with
        | TActive => Some (set_tgs (m.(tgs) ++ [CDelete]) (set_tm TInactive m))
        | TInactive => None
        end
    | ATimer i =>
        p ← m.(tgs) !! i;
        '(p, m) ← close_step p eTimeout m;
        Some (set_tgs (<[i := p]> m.(tgs)) m)
    | AServer x =>
        match m.(incoming), x with
        | Some _, _ | None, MData 0 TEnd => None
        | None, MData (S _) _ => Some (set_io m.(unsent) None (Some x) m)
        | None, _ => Some (set_io m.(unsent) m.(asked) (Some x) m)
        end
    end.

Fixpoint race (l : list raction) (m : racing) : option racing :=
  match l with
  | [] => Some m
  | a :: l => m ← race_step a m; race l m
  end.

(** A connection in the channel. *)
Definition idle_conn : racing :=
  mkRacing None TInactive true true 1 0 None None None LWait EIdle [] 0 [] false.

(** The loop is prompt: the timer does not fire while an event or a call is being
    handled, and no event is between the timer and its taking the connection out of the
    table. *)
Definition prompt_step (a : raction) (m : racing) : bool :=
  match a with
  | AFire => match m.(lp), m.(ex) with LWait, EIdle => true | _, _ => false end
  | AEvent _ => forallb (fun p => match p with CDelete => false | _ => true end) m.(tgs)
  | _ => true
  end.


(** All steps of a run satisfy [f]. *)
Fixpoint always (f : raction -> racing -> bool) (l : list raction) (m : racing) : bool :=
  match l with
  | [] => true
  | a :: l => f a m && match race_step a m with Some m => always f l m | None => true end
  end.
Definition prompt : list raction -> racing -> bool := always prompt_step.

(** ** Lemmas *)


Definition done_all (ts : list closing) : Prop := Forall (fun p => p = CDone) ts.



Lemma timers_done ts i e m : done_all ts -> (p ← ts !! i; close_step p e m) = None.
Proof.
  intros Hd. destruct (ts !! i) as [p|] eqn:E; [|done]. rewrite (proj1 (Forall_lookup _ _) Hd i p E). done.
Qed.











(** ** Properties *)


(** The timer and the loop against each other: the timer fires, and before its goroutine
    takes the connection out of the table a reply comes; [Reset] answers that the timer
    has fired, and sets it again.  When it fires again its goroutine deletes the
    connection a second time, and the panic ends the program. *)
Definition fires_twice : list raction :=
  [AExec; AExecStep; AExecStep; AExecStep; AEvent true; ALoop; ALoop; AFire; AServer (MData 1 TEnd); AEvent false; ALoop;
   ATimer 0; ATimer 0; ATimer 0; AFire; ATimer 1].

Theorem reset_sets_again :
  exists m, race fires_twice idle_conn = Some m /\ m.(crashed) = true /\ m.(answers) = [(0%nat, Failed eTimeout)].
Proof. eexists. split; [vm_compute; reflexivity|]. done. Qed.

(** A callback that takes longer than the time-out is called again, by the timer. *)
Definition slow_callback : list raction :=
  [AExec; AExecStep; AExecStep; AExecStep; AEvent true; ALoop; ALoop; AServer (MData 1 TEnd); AEvent false;
   ALoop; ALoop; ALoop; AFire; ATimer 0; ATimer 0; ATimer 0].

Theorem callback_twice :
  exists m, race slow_callback idle_conn = Some m /\
    m.(answers) = [(0%nat, Answered); (0%nat, Failed eTimeout)].
Proof. eexists. split; [vm_compute; reflexivity|]. done. Qed.

(** The condition on the server is needed: the server closes the connection, the loop calls
    the callback and leaves the timer running.  When the timer fires it deletes the
    connection a second time, on a prompt run too. *)
Definition server_closes : list raction :=
  [AExec; AExecStep; AExecStep; AExecStep; AEvent true; ALoop; ALoop; AServer MEof; AEvent false] ++
  replicate 6 ALoop ++ [AFire; ATimer 0].

Theorem eof_crashes :
  exists m, race server_closes idle_conn = Some m /\ prompt server_closes idle_conn = true /\
    m.(crashed) = true /\ m.(answers) = [(0%nat, Failed eClosed)].
Proof. eexists. split; [vm_compute; reflexivity|]. split; [vm_compute; reflexivity|]. done. Qed.

(** So does a reply that is none, and two replies to one command are two calls of its
    callback. *)
Definition server_sends (x : message) : list raction :=
  [AExec; AExecStep; AExecStep; AExecStep; AEvent true; ALoop; ALoop; AServer x; AEvent false] ++ replicate 4 ALoop.

Theorem unsound_replies :
  (exists m, race (server_sends (MData 0 (TMalformed rBulkEnd)) ++ replicate 3 ALoop ++ [AFire; ATimer 0]) idle_conn = Some m /\
    m.(crashed) = true) /\
  exists m, race (server_sends (MData 2 TEnd)) idle_conn = Some m /\
    m.(answers) = [(0%nat, Answered); (0%nat, Answered)].
Proof. split; (eexists; split; [vm_compute; reflexivity|done]). Qed.

(** ** A concrete run *)


