(* ===== verification/MultiClients.v ===== *)
(** Several clients behind one (src/redis/multi_clients.go): calls are dealt to the
    clients in turn.

    The counter is the [atomic.Int64] [ctr]: taking the next client is one step, and the
    call then goes on in steps of its own on that client, as in [ClientCalls].  The table
    [counts] has for each client what its last call of [OnFdCount] wrote, which its log
    tells; reading it while another goroutine writes is not modelled. *)

From stdpp Require Import gmap sorting.
From S2P Require Import Prelude GoStd Util RespClient FdMap Client ClientInv ClientCalls ClientSpec.

Section multi.
Context {M : Type} `{FdTable M Z}.
(** The settings that the clients share; [n] of them share the pool [size]. *)
Context (cfg : config) (n size : Z).

Definition client_config : config :=
  {| auth := cfg.(auth); poolSize := Z.quot size n + 1; has_timeout := cfg.(has_timeout);
     ResponseMaxBytes := cfg.(ResponseMaxBytes); sys_close_fails := cfg.(sys_close_fails) |}.

Record MultiCoreClients := mkMulti { clients : list (@Pool M); ctr : Z }.

Definition NewMultiCoreClients : MultiCoreClients :=
  mkMulti (replicate (Z.to_nat n) newPool) 0.

(** The index of the next call, and the counter after it; the remainder of a
    division by 0 panics. *)
Definition pick (ctr : Z) : option (Z * Z) :=
  let ctr := i64 (ctr + 1) in
  if n =? 0 then None else Some (Z.rem ctr n, ctr).

(** [Exec(args, f)], up to the call of [Exec] of a client that begins. *)
Definition multi_Exec (k : nat) (args : list arg) (m : MultiCoreClients) : @cresult MultiCoreClients :=
  let! (i, ctr) := checked (pick m.(ctr)) in
  let! cc := checked (at_ m.(clients) i) in
  let! cc := pool_step client_config (PCall k args) cc in
  Ok (mkMulti (<[Z.to_nat i := cc]> m.(clients)) ctr).

(** [Close()]: one client after the other. *)
Fixpoint close_clients (l : list (@Pool M)) : @cresult (list (@Pool M)) :=
  match l with
  | [] => Ok []
  | a :: l =>
      let! s := Close client_config a.(client) in
      let! l := close_clients l in
      Ok (mkPool s a.(calls) :: l)
  end.
Definition multi_Close (m : MultiCoreClients) : @cresult MultiCoreClients :=
  let! l := close_clients m.(clients) in Ok (mkMulti l m.(ctr)).

(** [counts[i]], from the log of the client [i]. *)
Definition counted (l : list cevent) : Z * Z :=
  foldl (fun d e => match e with CEvFdCount idle active => (idle, active) | _ => d end) (0, 0) l.

Definition multi_IdleCount (m : MultiCoreClients) : Z :=
  foldr (fun cc tot => (counted cc.(client).(clog)).1 + tot) 0 m.(clients).
Definition multi_ActiveCount (m : MultiCoreClients) : Z :=
  foldr (fun cc tot => (counted cc.(client).(clog)).2 + tot) 0 m.(clients).

(** Everything that can happen: a call begins, or something happens to one client. *)
Inductive minput :=
| MExec (k : nat) (args : list arg)
| MInput (i : nat) (a : paction).

Definition mstep (inp : minput) (m : MultiCoreClients) : @cresult MultiCoreClients :=
  match inp with
  | MExec k args => multi_Exec k args m
  | MInput i a =>
      let! cc := checked (m.(clients) !! i) in
      let! cc := pool_step client_config a cc in
      Ok (mkMulti (<[i := cc]> m.(clients)) m.(ctr))
  end.

(** Calls begin through the counter, with a number of their own. *)
Definition minput_ok (inp : minput) (m : MultiCoreClients) : Prop :=
  match inp with
  | MExec k args => Forall (paction_ok (PCall k args)) m.(clients)
  | MInput i a =>
      (forall k args, a <> PCall k args) /\ forall cc, m.(clients) !! i = Some cc -> paction_ok a cc
  end.

(** The states in which, on each client, at most [P] calls at a time were past the test of
    its table. *)
Inductive mreachable (P : Z) : MultiCoreClients -> Prop :=
| mreach_init : mreachable P NewMultiCoreClients
| mreach_step inp m m' :
    mreachable P m -> minput_ok inp m -> mstep inp m = Ok m' ->
    Forall (fun cc => pending cc <= P) m'.(clients) -> mreachable P m'.

(** The connections of all the clients. *)
Definition connections (m : MultiCoreClients) : Z :=
  foldr (fun cc k => Z.of_nat (base.size (view cc.(client).(fdConns))) + k) 0 m.(clients).

(** ** Lemmas: the counts *)

Section counts.
Implicit Types s : @Client M.

(** A client's counts add up to the length of its table. *)
Definition count_ok s : Prop := (counted s.(clog)).1 + (counted s.(clog)).2 = Len s.(fdConns).

Lemma counted_snoc l e :
  counted (l ++ [e]) = match e with CEvFdCount i a => (i, a) | _ => counted l end.
Proof using. unfold counted. by rewrite foldl_snoc. Qed.

Lemma OnFdCount_ok s : count_ok (OnFdCount s).
Proof using. unfold count_ok, OnFdCount. cbn. rewrite counted_snoc. cbn. unfold IdleCount, ActiveCount. lia. Qed.

Lemma count_emit e s : (forall i a, e <> CEvFdCount i a) -> count_ok s -> count_ok (cemit e s).
Proof using.
  unfold count_ok. intros He Hs. cbn. rewrite counted_snoc. destruct e; try done. by destruct (He idle active).
Qed.

Lemma ok_cconn_at {A} (Q : A -> Prop) id s k :
  (forall c, ok Q (k c)) -> ok Q (rbind (cconn_at id s) k).
Proof using. intros Hk. apply (ok_checked (fun _ : CConn => True)). auto. Qed.

Lemma close_count cfg' id typ e s : ok count_ok (closeConnWithError cfg' id typ e s).
Proof using.
  unfold closeConnWithError. apply ok_cconn_at. intros c. apply (ok_checked (fun _ : M => True)). intros t _.
  cbn zeta. set (s1 := cemit (CEvSysClose c.(cfd)) _).
  assert (count_ok s1) as H1 by (apply count_emit; [done|]; apply (OnFdCount_ok (with_table t s))).
  destruct (cfg'.(sys_close_fails) c.(cfd)), e, c.(callback); cbn [ok]; try case_bool_decide;
    repeat first [exact H1 | apply count_emit; [done|]].
Qed.

Lemma timer_count id s (f : cresult (@Client M * bool)) :
  f = timer_Reset id s \/ f = timer_Stop id s -> count_ok s -> ok (fun x => count_ok x.1) f.
Proof using.
  intros [->| ->] Hs; (apply ok_cconn_at; intros c); (apply (ok_checked (fun _ : timer => True)); intros t _); exact Hs.
Qed.

Lemma call_step_count cfg' id fd k args p s :
  count_ok s -> ok (fun x => count_ok x.2) (call_step cfg' id fd k args p s).
Proof using.
  intros Hs. destruct p as [| | | |f|i|i|i|i|i v|i|]; cbn [call_step activateFreeConn fillIdleConn]; try done.
  - by destruct s.(fdIdle).
  - by destruct s.(fdIdle).
  - destruct fd; [done|]. by apply count_emit.
  - apply (ok_checked (fun _ : M => True)). intros t _. cbn [ok].
    match goal with |- count_ok (_, CModReadWrite _ (OnFdCount ?s1)).2 => exact (OnFdCount_ok s1) end.
  - apply ok_cconn_at. intros c. destruct (0 <? _); [done|]. exact Hs.
  - eapply ok_bind; [by eapply timer_count; [left; reflexivity|]|]. by intros [].
  - by destruct s.(fdIdle).
  - eapply ok_bind; [apply close_count|]. done.
  - apply ok_cconn_at. intros c. cbn [ok]. apply count_emit; [done|]. apply OnFdCount_ok.
Qed.

Lemma writeConn_count cfg' id w s : count_ok s -> ok count_ok (writeConn cfg' id w s).
Proof using.
  intros Hs. unfold writeConn. apply ok_cconn_at. intros c. destruct (len c.(cout) =? 0); [done|].
  destruct w as [k|k|]; [| |apply close_count].
  - cbn zeta. destruct (k =? len c.(cout)); [by apply (count_emit (CEvSent _ _))|].
    apply (ok_checked (fun _ : bytes => True)). intros rest _. by apply (count_emit (CEvSent _ _)).
  - apply (ok_checked (fun _ : bytes => True)). intros rest _.
    destruct (0 <? k); [by apply (count_emit (CEvSent _ _))|done].
Qed.

Lemma read_replies_count cfg' fuel id s : count_ok s -> ok (fun x => count_ok x.1) (read_replies cfg' fuel id s).
Proof using.
  revert s. induction fuel as [|fuel IH]; intros s Hs; cbn [read_replies]; apply ok_cconn_at; intros c;
    (destruct (0 <? len c.(cin)); [|done]); [done|].
  destruct (readElement c.(cin)) as [bb|e| |]; [|destruct (decide _); [done|]|done..].
  2: { eapply ok_bind; [apply close_count|]. done. }
  eapply (ok_bind count_ok).
  { destruct (c.(authState) =? 1); [done|]. apply (ok_checked (fun _ : bytes => True)). intros b _.
    destruct (err (mkReader b)) as [[r' e]|?| |]; try done. apply (ok_checked (fun _ : nat => True)). intros cb _.
    by apply (count_emit (CbReply _ _ _)). }
  intros s1 H1. apply (ok_checked (fun _ : bytes => True)). intros rest _. by apply IH.
Qed.

Lemma release_count cfg' id s : count_ok s -> ok count_ok (release cfg' id s).
Proof using.
  intros Hs. unfold release. apply ok_cconn_at. intros c. destruct (_ && _); [|done].
  destruct (_ <=? _); [|apply close_count]. cbn zeta. eapply (ok_bind (fun x => count_ok x.1)).
  { destruct c.(death); [|done]. by eapply timer_count; [right; reflexivity|]. }
  intros [s1 stopped] H1. destruct (negb stopped); [done|]. by destruct (_ <? _).
Qed.

Lemma readConn_count cfg' id r s : count_ok s -> ok count_ok (readConn cfg' id r s).
Proof using.
  intros Hs. unfold readConn. apply ok_cconn_at. intros c.
  destruct r as [d| | |]; [|apply close_count|done|apply close_count].
  case_bool_decide; [by apply (count_emit (CEvError _))|]. cbn zeta. destruct (_ <? _); [apply close_count|].
  eapply ok_bind; [by apply read_replies_count|]. intros [s1 []] H1; [by apply release_count|done].
Qed.

Lemma pool_step_count cfg' a m :
  count_ok m.(client) -> ok (fun m => count_ok m.(client)) (pool_step cfg' a m).
Proof using.
  intros Hs. destruct a as [k args|k id fd|fd write w r|id]; cbn [pool_step]; [done| | |].
  - destruct (m.(calls) !! k) as [[p args]|]; [|done]. eapply ok_bind; [by apply call_step_count|]. by intros [].
  - eapply (ok_bind count_ok); [|done].
    unfold on_event. apply (ok_checked (fun _ : option Z => True)). intros [id|] _; [|by apply (count_emit (CEvError _))].
    apply ok_cconn_at. intros c. eapply (ok_bind (fun x => count_ok x.1)).
    { destruct (_ && _); [|done]. by eapply timer_count; [left; reflexivity|]. }
    intros [s1 alive] H1. destruct (negb alive); [done|]. destruct write; [|by apply readConn_count].
    case_bool_decide; [apply close_count|by apply writeConn_count].
  - eapply (ok_bind count_ok); [apply close_count|]. done.
Qed.
End counts.

(** ** Lemmas *)

(** A step changes one client, by a step of its own. *)
Lemma mstep_client inp m m' :
  mstep inp m = Ok m' ->
  exists i cc a cc', m.(clients) !! i = Some cc /\ (minput_ok inp m -> paction_ok a cc) /\
    pool_step client_config a cc = Ok cc' /\ m'.(clients) = <[i := cc']> m.(clients).
Proof using.
  intros Hs. destruct inp as [k args|i a]; cbn [mstep] in Hs.
  - unfold multi_Exec in Hs. destruct (pick m.(ctr)) as [[i c]|]; [|done]. cbn [checked rbind] in Hs.
    destruct (at_ m.(clients) i) as [cc|] eqn:Hi; [|done]. cbn [checked rbind] in Hs. injection Hs as <-.
    unfold at_ in Hi. case_bool_decide; [|done]. eexists (Z.to_nat i), cc, (PCall k args), _.
    split_and!; [done| |reflexivity|done]. intros Hok. by eapply Forall_lookup_1.
  - destruct (m.(clients) !! i) as [cc|] eqn:Hi; [|done]. cbn [checked rbind] in Hs.
    destruct (pool_step client_config a cc) as [cc'|?| |] eqn:E; try done. injection Hs as <-.
    exists i, cc, a, cc'. split_and!; [done| |done..]. intros [_ Hok]. by apply Hok.
Qed.

Lemma mreachable_clients P m :
  mreachable P m -> Forall (preachable client_config P) m.(clients) /\ length m.(clients) = Z.to_nat n.
Proof using.
  induction 1 as [|inp m m' Hr [IH1 IH2] Hin Hs Hp].
  - cbn. split; [|by rewrite length_replicate]. apply Forall_replicate. constructor.
  - destruct (mstep_client inp m m' Hs) as (i & cc & a & cc' & Hi & Hok & E & Em). rewrite Em in Hp |- *.
    split; [|by rewrite length_insert]. apply Forall_insert; [done|].
    eapply preach_step; [by eapply Forall_lookup_1|by apply Hok|exact E|].
    eapply (Forall_lookup_1 _ _ i cc' Hp), list_lookup_insert_eq. by eapply lookup_lt_Some.
Qed.

Lemma mreachable_inv P m :
  0 <= Z.quot size n + 1 -> 1 <= P -> cfg.(ResponseMaxBytes) < 2 ^ 62 -> mreachable P m ->
  Forall (pool_inv client_config P) m.(clients) /\ length m.(clients) = Z.to_nat n.
Proof using.
  intros Hsz HP Hmax Hr. destruct (mreachable_clients P m Hr) as [Hall Hlen]. split; [|done].
  eapply Forall_impl; [exact Hall|]. intros cc Hcc. by apply preachable_inv.
Qed.

Lemma mreachable_counts P m : mreachable P m -> Forall (fun cc => count_ok cc.(client)) m.(clients).
Proof using.
  induction 1 as [|inp m m' Hr IH Hin Hs Hp].
  - apply Forall_replicate. unfold count_ok. cbn. destruct empty_table_ok as [Ht Hv].
    by rewrite (Len_size _ Ht), Hv, map_size_empty.
  - destruct (mstep_client inp m m' Hs) as (i & cc & a & cc' & Hi & _ & E & ->). apply Forall_insert; [done|].
    pose proof (pool_step_count client_config a cc (proj1 (Forall_lookup _ _) IH _ _ Hi)) as Hc. by rewrite E in Hc.
Qed.

Lemma connections_bound m b :
  Forall (fun cc => Z.of_nat (base.size (view cc.(client).(fdConns))) <= b) m.(clients) ->
  connections m <= len m.(clients) * b.
Proof using.
  unfold connections, len. induction 1 as [|cc l Hc Hl IH]; cbn [foldr length]; [lia|]. lia.
Qed.

Lemma close_clients_empty l :
  (forall fd, cfg.(sys_close_fails) fd = false) -> Forall (fun cc => pool_ok client_config cc.(client)) l ->
  exists l', close_clients l = Ok l' /\ length l' = length l /\ Forall (fun cc => view cc.(client).(fdConns) = ∅) l'.
Proof using.
  intros Hf. induction 1 as [|a l Ha Hl (l' & E & El & Hl')]; [by exists []|].
  destruct (Close_closes client_config a.(client) Ha Hf) as (a' & Ea & Ev & _).
  exists (mkPool a' a.(calls) :: l'). cbn [close_clients]. rewrite Ea. cbn [rbind]. rewrite E. cbn [rbind].
  split_and!; [done|by cbn; rewrite El|by constructor].
Qed.

(** The calls that follow each other. *)
Fixpoint picks (k : nat) (ctr : Z) : option (list Z) :=
  match k with
  | O => Some []
  | S k => '(i, ctr) ← pick ctr; l ← picks k ctr; Some (i :: l)
  end.

Lemma picks_eq k c :
  0 < n -> 0 <= c -> c + Z.of_nat k < 2 ^ 63 ->
  picks k c = Some ((fun j => (c + j) mod n) <$> seqZ 1 (Z.of_nat k)).
Proof using.
  intros Hn. revert c. induction k as [|k IH]; intros c Hc Hk; [done|]. cbn [picks].
  unfold pick. rewrite (proj2 (Z.eqb_neq n 0)) by lia. rewrite i64_small by lia. cbn [mbind option_bind].
  rewrite IH by lia. cbn [mbind option_bind]. rewrite Z.rem_mod_nonneg by lia.
  rewrite (seqZ_cons 1 (Z.of_nat (S k))) by lia. rewrite fmap_cons. do 2 f_equal.
  replace (Z.pred (Z.of_nat (S k))) with (Z.of_nat k) by lia.
  rewrite <- (fmap_add_seqZ 1 1). rewrite <- list_fmap_compose. apply list_fmap_ext.
  intros j y _. cbn. f_equal. lia.
Qed.

(** ** Theorems *)

(** the calls are dealt evenly: of any [n] calls that follow each other, each
    client gets one, as long as the counter has not come to its end. *)
Theorem multi_round_robin c :
  0 < n -> 0 <= c -> c + n < 2 ^ 63 -> exists l, picks (Z.to_nat n) c = Some l /\ l ≡ₚ seqZ 0 n.
Proof using.
  intros Hn Hc Hmax. eexists. split; [apply picks_eq; lia|]. rewrite Z2Nat.id by lia.
  apply submseteq_length_Permutation; [|by rewrite length_fmap, !length_seqZ].
  apply NoDup_submseteq.
  - apply NoDup_fmap_2_strong; [|apply NoDup_seqZ]. intros x y Hx%elem_of_seqZ Hy%elem_of_seqZ E. cbn beta in E.
    assert (exists k, x - y = n * k) as [k Hk].
    { exists ((c + x) / n - (c + y) / n). pose proof (Z.div_mod (c + x) n). pose proof (Z.div_mod (c + y) n). nia. }
    destruct (Z.lt_trichotomy k 0) as [?|[->|?]]; nia.
  - intros x. rewrite list_elem_of_fmap. intros (j & -> & _). apply elem_of_seqZ.
    pose proof (Z.mod_pos_bound (c + j) n). lia.
Qed.

(** C38: the pool that the clients share, under any number of calls at a time.  As long as
    at most [P] calls at a time are, on one client, between finding its table not full and
    adding their connection to it, each client keeps the invariant of its own pool, with
    at most [P - 1] connections more than its part of the size asked for, and all of them
    together never have more connections than that size and [P] for each client.  (The
    parts are rounded down and one larger.) *)
Theorem multi_pool P m :
  0 < n -> 0 <= size -> 1 <= P -> cfg.(ResponseMaxBytes) < 2 ^ 62 -> mreachable P m ->
  Forall (fun cc => shape client_config cc.(client) /\
            Z.of_nat (base.size (view cc.(client).(fdConns))) + pending cc <= Z.quot size n + P) m.(clients) /\
  connections m <= size + n * P.
Proof using.
  intros Hn Hsz HP Hmax Hr. pose proof (Z.quot_pos size n Hsz Hn) as Hq.
  destruct (mreachable_inv P m) as [Hall Hlen]; [lia|done..|].
  assert (Forall (fun cc => shape client_config cc.(client) /\
    Z.of_nat (base.size (view cc.(client).(fdConns))) + pending cc <= Z.quot size n + P) m.(clients)) as Hf.
  { eapply Forall_impl; [exact Hall|]. intros cc [Hs Hb _ _]. split; [done|]. cbn in Hb. lia. }
  split; [done|]. pose proof (connections_bound m (Z.quot size n + P)) as Hb. unfold len in Hb. rewrite Hlen in Hb.
  pose proof (Z.mul_quot_le size n Hsz) as Hle.
  assert (Forall (fun cc => Z.of_nat (base.size (view cc.(client).(fdConns))) <= Z.quot size n + P) m.(clients)) as Hf'.
  { eapply Forall_impl; [exact Hf|]. intros cc [_ ?]. unfold pending in *. lia. }
  specialize (Hb Hf'). nia.
Qed.

(** What [IdleCount] and [ActiveCount] of the whole answer is old, but their sum is
    not: it is the number of connections. *)
Theorem multi_counts P m :
  0 <= Z.quot size n + 1 -> 1 <= P -> cfg.(ResponseMaxBytes) < 2 ^ 62 -> mreachable P m ->
  multi_IdleCount m + multi_ActiveCount m = connections m.
Proof using.
  intros Hsz HP Hmax Hr. pose proof (mreachable_counts P m Hr) as Hc.
  destruct (mreachable_inv P m Hsz HP Hmax Hr) as [Hp _].
  unfold multi_IdleCount, multi_ActiveCount, connections. clear Hr.
  induction m.(clients) as [|cc l IH]; [done|]. cbn [foldr].
  apply Forall_cons in Hc as [Hc Hl], Hp as [Hp Hpl]. specialize (IH Hl Hpl). unfold count_ok in Hc.
  rewrite (Len_size _ (sh_table _ _ (pi_shape _ _ _ Hp))) in Hc. lia.
Qed.

(** [Close] closes every connection of every client, when the pool of each is within its
    size. *)
Theorem multi_Close_all m :
  (forall fd, cfg.(sys_close_fails) fd = false) -> Forall (fun cc => pool_ok client_config cc.(client)) m.(clients) ->
  exists m', multi_Close m = Ok m' /\ connections m' = 0 /\ length m'.(clients) = length m.(clients).
Proof using.
  intros Hf Hall. destruct (close_clients_empty _ Hf Hall) as (l' & E & El & Hl). unfold multi_Close. rewrite E.
  cbn [rbind]. exists (mkMulti l' m.(ctr)). split_and!; [done| |done].
  unfold connections. cbn [clients]. clear E El. induction Hl as [|cc l Hc Hl IH]; [done|].
  cbn [foldr]. rewrite Hc, IH. done.
Qed.
End multi.

(** ** Witnesses *)

Lemma multi_round_robin_witness :
  exists l, picks 3 (Z.to_nat 3) 7 = Some l /\ l ≡ₚ seqZ 0 3.
Proof. apply (multi_round_robin 3 7); lia. Defined.

Definition ex_multi_cfg : config :=
  {| auth := []; poolSize := 0; has_timeout := true; ResponseMaxBytes := 1048576;
     sys_close_fails := fun _ => false |}.
Local Abbreviation FdMulti := (@MultiCoreClients (fdMap Z)).
Definition ex_multi0 : FdMulti := NewMultiCoreClients 2.

(** Two clients share a pool of three; the first call goes to the second client, which
    connects, writes and reads. *)
Fixpoint mrun_multi (l : list minput) (m : FdMulti) : FdMulti :=
  match l with
  | [] => m
  | i :: l => match mstep ex_multi_cfg 2 3 i m with Ok m => mrun_multi l m | _ => m end
  end.
Definition ex_mcall : list minput :=
  [MExec 0 [AString (bs "PING")]; MInput 1 (PStep 0 1 None); MInput 1 (PStep 0 1 None);
   MInput 1 (PStep 0 1 (Some 5)); MInput 1 (PStep 0 1 None)].
Definition ex_multi : FdMulti := mrun_multi (take 1 ex_mcall) ex_multi0.

Lemma ex_multi_reachable : mreachable ex_multi_cfg 2 3 1 ex_multi.
Proof.
  apply (mreach_step _ _ _ _ (MExec 0 [AString (bs "PING")]) ex_multi0); [constructor|by repeat constructor|reflexivity|].
  repeat constructor; by vm_compute.
Qed.

Lemma multi_pool_witness :
  Forall (fun cc => shape (client_config ex_multi_cfg 2 3) cc.(client) /\
            Z.of_nat (base.size (view cc.(client).(fdConns))) + pending cc <= Z.quot 3 2 + 1) ex_multi.(clients) /\
  connections ex_multi <= 3 + 2 * 1.
Proof. apply (multi_pool ex_multi_cfg 2 3 1); [done|done|done|done|apply ex_multi_reachable]. Defined.

Lemma multi_counts_witness : multi_IdleCount ex_multi + multi_ActiveCount ex_multi = connections ex_multi.
Proof. apply (multi_counts ex_multi_cfg 2 3 1); [done|done|done|apply ex_multi_reachable]. Defined.

(** The counts do not follow a connection that goes back to the pool: after the reply
    to the only call, one connection is idle and none active, and what is shown is the
    opposite. *)
Definition ex_answered : FdMulti :=
  mrun_multi (ex_mcall ++ [MInput 1 (PEvent 5 true (CWN 14) CRAgain);
                     MInput 1 (PEvent 5 false (CWN 0) (CRData (bs "+OK" ++ crlf)))]) ex_multi0.

Theorem counts_stale :
  ((fun cc => IdleCount cc.(client)) <$> ex_answered.(clients)) = [0; 1] /\
  ((fun cc => ActiveCount cc.(client)) <$> ex_answered.(clients)) = [0; 0] /\
  multi_IdleCount ex_answered = 0 /\ multi_ActiveCount ex_answered = 1.
Proof. by vm_compute. Qed.
