(* ===== verification/LockQueue.v ===== *)
(** The queue of descriptors that other goroutines want written
    (src/internal/lockqueue.go): a lock-free stack whose nodes come from a
    [sync.Pool], and the loop that empties it.

    Every access to shared memory is one step of the goroutine that makes it, and
    a schedule says who goes next: [qstep] computes the state after each.  The
    pool gives back any node it holds or a new one, and may lose nodes at any
    time.  [Add] runs in any number of goroutines, [SwapOutForEach] in one, the
    poller's. *)

From stdpp Require Import gmap.
From S2P Require Import Prelude.

(** ** State *)

Abbreviation loc := positive.

(** [lockQueueNode] *)
Record node := mkNode { value : Z; next : option loc }.

(** Where a call of [Add] is: before it loads the root, before it gets a node
    ([root] is what it loaded), before it writes the value, then the link, before
    the compare-and-swap, before it gives the node back; or it has returned. *)
Inductive adder :=
| ALoad (v : Z)
| AGet (v : Z) (root : option loc)
| AValue (v : Z) (root : option loc) (n : loc)
| ANext (v : Z) (root : option loc) (n : loc)
| ACas (v : Z) (root : option loc) (n : loc)
| APut (v : Z) (n : loc)
| ADone.

(** Where [SwapOutForEach] is: not running, at the test of its loop, after it has
    copied the node [ptr], before it calls [f]; or it has returned an error. *)
Inductive taker :=
| TIdle
| TLoop (ptr : option loc)
| TPut (ptr : loc) (v : Z) (next : option loc)
| TCall (v : Z) (next : option loc)
| TFailed.

Record lockQueue := mkQueue {
  heap : gmap loc node;
  root : option loc;
  pool : list loc;
  adders : gmap nat adder;
  tk : taker;
}.

Definition newQueue : lockQueue := mkQueue ∅ None [] ∅ TIdle.

Definition set_heap h (q : lockQueue) := mkQueue h q.(root) q.(pool) q.(adders) q.(tk).
Definition set_root r (q : lockQueue) := mkQueue q.(heap) r q.(pool) q.(adders) q.(tk).
Definition set_pool p (q : lockQueue) := mkQueue q.(heap) q.(root) p q.(adders) q.(tk).
Definition set_adder t a (q : lockQueue) :=
  mkQueue q.(heap) q.(root) q.(pool) (<[t := a]> q.(adders)) q.(tk).
Definition set_tk t (q : lockQueue) := mkQueue q.(heap) q.(root) q.(pool) q.(adders) t.

(** ** Steps *)

(** What the scheduler decides: a goroutine calls [Add], an adder goes on (and the
    pool gives it the node [n] if it asks), the taker starts or goes on ([ok]
    tells whether [f] answers [nil]), the pool loses its [i]-th node. *)
Inductive action :=
| Start (t : nat) (v : Z)
| Adder (t : nat) (n : loc)
| Taker (ok : bool)
| Lose (i : nat).

(** What happens to the queue as a whole. *)
Inductive label := Pushed (v : Z) | Taken | Called (v : Z) | Stopped (v : Z).

(** [pool.Get()]: a node of the pool, or a new one. *)
Definition pool_Get (n : loc) (q : lockQueue) : option lockQueue :=
  if decide (n ∈ q.(pool)) then Some (set_pool (filter (fun m => m <> n) q.(pool)) q)
  else match q.(heap) !! n with
       | None => Some (set_heap (<[n := mkNode 0 None]> q.(heap)) q)
       | Some _ => None
       end.

Definition Add_step (t : nat) (n : loc) (a : adder) (q : lockQueue)
  : option (lockQueue * option label) :=
  match a with
  | ALoad v => Some (set_adder t (AGet v q.(root)) q, None)
  | AGet v r => q ← pool_Get n q; Some (set_adder t (AValue v r n) q, None)
  | AValue v r m =>
      nd ← q.(heap) !! m;
      Some (set_adder t (ANext v r m) (set_heap (<[m := mkNode v nd.(next)]> q.(heap)) q), None)
  | ANext v r m =>
      nd ← q.(heap) !! m;
      Some (set_adder t (ACas v r m) (set_heap (<[m := mkNode nd.(value) r]> q.(heap)) q), None)
  | ACas v r m =>
      if decide (q.(root) = r) then Some (set_adder t ADone (set_root (Some m) q), Some (Pushed v))
      else Some (set_adder t (APut v m) q, None)
  | APut v m => Some (set_adder t (ALoad v) (set_pool (m :: q.(pool)) q), None)
  | ADone => None
  end.

Definition SwapOutForEach_step (ok : bool) (q : lockQueue) : option (lockQueue * option label) :=
  match q.(tk) with
  | TIdle => Some (set_tk (TLoop q.(root)) (set_root None q), Some Taken)
  | TLoop None => Some (set_tk TIdle q, None)
  | TLoop (Some p) =>
      tmp ← q.(heap) !! p; Some (set_tk (TPut p tmp.(value) tmp.(next)) q, None)
  | TPut p v nx => Some (set_tk (TCall v nx) (set_pool (p :: q.(pool)) q), None)
  | TCall v nx =>
      Some (if ok then (set_tk (TLoop nx) q, Some (Called v)) else (set_tk TFailed q, Some (Stopped v)))
  | TFailed => None
  end.

Definition qstep (a : action) (q : lockQueue) : option (lockQueue * option label) :=
  match a with
  | Start t v =>
      match q.(adders) !! t with
      | None | Some ADone => Some (set_adder t (ALoad v) q, None)
      | Some _ => None
      end
  | Adder t n => st ← q.(adders) !! t; Add_step t n st q
  | Taker ok => SwapOutForEach_step ok q
  | Lose i => Some (set_pool (delete i q.(pool)) q, None)
  end.

(** A schedule, and what it does. *)
Fixpoint qrun (l : list action) (q : lockQueue) : option (lockQueue * list label) :=
  match l with
  | [] => Some (q, [])
  | a :: l =>
      '(q, e) ← qstep a q;
      '(q, es) ← qrun l q;
      Some (q, match e with Some e => e :: es | None => es end)
  end.

(** ** What it should be

    A stack, the batch that the taker has taken, and whether it has failed: pushing
    puts a value on the stack, taking moves the whole stack into an empty batch,
    the batch is handed out in order, and an error drops the rest of it. *)
Record bag := mkBag { stack : list Z; batch : list Z; failed : bool }.

Definition bag_step (e : label) (b : bag) : option bag :=
  match e with
  | Pushed v => Some (mkBag (v :: b.(stack)) b.(batch) b.(failed))
  | Taken => if b.(failed) then None
             else match b.(batch) with [] => Some (mkBag [] b.(stack) false) | _ => None end
  | Called v => match b.(batch) with
                | w :: rest => if decide (v = w) then Some (mkBag b.(stack) rest b.(failed)) else None
                | [] => None
                end
  | Stopped v => match b.(batch) with
                 | w :: _ => if decide (v = w) then Some (mkBag b.(stack) [] true) else None
                 | [] => None
                 end
  end.

Definition bag_run (es : list label) (b : bag) : option bag :=
  foldl (fun b e => b ≫= bag_step e) (Some b) es.

(** ** The relation between them *)

(** The values that have been pushed, and those [f] has been called with. *)
Definition pushed (es : list label) : list Z :=
  omap (fun e => match e with Pushed v => Some v | _ => None end) es.
Definition called (es : list label) : list Z :=
  omap (fun e => match e with Called v => Some v | _ => None end) es.

(** The nodes from [p] on are [l], with their values. *)
Fixpoint chain (h : gmap loc node) (p : option loc) (l : list (loc * Z)) : Prop :=
  match l with
  | [] => p = None
  | (a, v) :: l => p = Some a /\ exists nx, h !! a = Some (mkNode v nx) /\ chain h nx l
  end.

(** The node that an adder has to itself. *)
Definition own (a : adder) : option loc :=
  match a with
  | AValue _ _ n | ANext _ _ n | ACas _ _ n | APut _ n => Some n
  | _ => None
  end.

(** What an adder knows of its node. *)
Definition adder_ok (h : gmap loc node) (a : adder) : Prop :=
  match a with
  | AValue _ _ n | APut _ n => is_Some (h !! n)
  | ANext v _ n => exists nx, h !! n = Some (mkNode v nx)
  | ACas v r n => h !! n = Some (mkNode v r)
  | _ => True
  end.

(** What the taker holds: the nodes [l] of its batch, and a value copied out of a
    node already. *)
Definition taker_ok (h : gmap loc node) (t : taker) (l : list (loc * Z)) (b : list Z) (f : bool) : Prop :=
  match t with
  | TIdle => l = [] /\ b = [] /\ f = false
  | TLoop p => chain h p l /\ b = l.*2 /\ f = false
  | TPut p v nx => exists nx' l', l = (p, v) :: l' /\ h !! p = Some (mkNode v nx') /\ chain h nx l' /\
                     b = v :: l'.*2 /\ f = false
  | TCall v nx => chain h nx l /\ b = v :: l.*2 /\ f = false
  | TFailed => l = [] /\ b = [] /\ f = true
  end.

(** Every node is in one place at most: on the stack, with the taker, in the pool
    or with one adder. *)
Record rep (q : lockQueue) (b : bag) (st l : list (loc * Z)) : Prop := {
  rep_stack : chain q.(heap) q.(root) st /\ b.(stack) = st.*2;
  rep_taker : taker_ok q.(heap) q.(tk) l b.(batch) b.(failed);
  rep_nodup : NoDup (st.*1 ++ l.*1 ++ q.(pool));
  rep_pool n : n ∈ q.(pool) -> is_Some (q.(heap) !! n);
  rep_adder t a : q.(adders) !! t = Some a -> adder_ok q.(heap) a;
  rep_own t a n : q.(adders) !! t = Some a -> own a = Some n -> n ∉ st.*1 ++ l.*1 ++ q.(pool);
  rep_owns t t' a a' n : q.(adders) !! t = Some a -> q.(adders) !! t' = Some a' ->
    own a = Some n -> own a' = Some n -> t = t';
}.

Definition represents (q : lockQueue) (b : bag) : Prop := exists st l, rep q b st l.

(** ** Lemmas *)

Lemma delete_none {A} (l : list A) i : l !! i = None -> delete i l = l.
Proof. revert i. induction l as [|a l IH]; intros [|i] H; try done. cbn in *. f_equal. auto. Qed.

Lemma chain_insert h p l n x : chain h p l -> (n ∉ l.*1) -> chain (<[n := x]> h) p l.
Proof.
  revert p. induction l as [|[a v] l IH]; intros p; [done|]. cbn [fmap list_fmap chain fst].
  intros [-> (nx & Ha & Hc)] [Hna Hn]%not_elem_of_cons. split; [done|]. exists nx.
  rewrite lookup_insert_ne by done. auto.
Qed.

Lemma chain_dom h p l n : chain h p l -> n ∈ l.*1 -> is_Some (h !! n).
Proof.
  revert p. induction l as [|[a v] l IH]; intros p; cbn [fmap list_fmap chain fst].
  - by intros _ ?%not_elem_of_nil.
  - intros [-> (nx & Ha & Hc)] [->|Hin]%elem_of_cons; [by eexists|eauto].
Qed.

Lemma adder_ok_insert h a n x : adder_ok h a -> own a <> Some n -> adder_ok (<[n := x]> h) a.
Proof.
  destruct a as [v|v r|v r m|v r m|v r m|v m|]; cbn; try done; intros Ha Hne;
    (rewrite lookup_insert_ne; [done|congruence]).
Qed.

Lemma taker_ok_insert h t l b f n x :
  taker_ok h t l b f -> (n ∉ l.*1) -> taker_ok (<[n := x]> h) t l b f.
Proof.
  destruct t as [|p|p v nx|v nx|]; cbn; try done.
  - intros (Hc & ? & ?) Hn. split_and!; [by apply chain_insert|done..].
  - intros (nx' & l' & -> & Hp & Hc & ? & ?) [Hnp Hn]%not_elem_of_cons. exists nx', l'.
    split_and!; [done|by rewrite lookup_insert_ne|by apply chain_insert|done..].
  - intros (Hc & ? & ?) Hn. split_and!; [by apply chain_insert|done..].
Qed.

Lemma taker_ok_dom h t l b f n : taker_ok h t l b f -> n ∈ l.*1 -> is_Some (h !! n).
Proof.
  destruct t as [|p|p v nx|v nx|]; cbn.
  - by intros (-> & _) ?%not_elem_of_nil.
  - intros (Hc & _). by eapply chain_dom.
  - intros (nx' & l' & -> & Hp & Hc & _) [->|Hin]%elem_of_cons; [by eexists|by eapply chain_dom].
  - intros (Hc & _). by eapply chain_dom.
  - by intros (-> & _) ?%not_elem_of_nil.
Qed.

(** The nodes in use are nodes of the heap. *)
Lemma rep_dom q b st l n : rep q b st l -> n ∈ st.*1 ++ l.*1 ++ q.(pool) -> is_Some (q.(heap) !! n).
Proof.
  intros [[Hc _] Ht _ Hp _ _ _]. rewrite !elem_of_app. intros [?|[?|?]].
  - by eapply chain_dom.
  - by eapply taker_ok_dom.
  - auto.
Qed.

(** An adder moves on and keeps its node, or has none. *)
Lemma rep_set_adder q b st l t a a' :
  rep q b st l -> q.(adders) !! t = Some a -> adder_ok q.(heap) a' ->
  (own a' = None \/ own a' = own a) -> rep (set_adder t a' q) b st l.
Proof.
  intros [Hst Ht Hnd Hp Ha Ho Hoo] Hta Hok Hown. split; try done; cbn [set_adder adders].
  - intros t' a2 [[<- <-]|[_ ?]]%lookup_insert_Some; eauto.
  - intros t' a2 n [[<- <-]|[_ ?]]%lookup_insert_Some E; [|by eapply Ho].
    destruct Hown as [E'|E']; [congruence|]. rewrite E' in E. by eapply Ho.
  - intros t1 t2 a1 a2 n [[<- <-]|[Hne1 H1]]%lookup_insert_Some [[<- <-]|[Hne2 H2]]%lookup_insert_Some
      E1 E2; try done.
    + destruct Hown as [E'|E']; [congruence|]. rewrite E' in E1. by eapply Hoo.
    + destruct Hown as [E'|E']; [congruence|]. rewrite E' in E2. by eapply Hoo.
    + by eapply Hoo.
Qed.

(** A goroutine that has no node calls [Add]. *)
Lemma rep_start q b st l t v :
  rep q b st l -> (q.(adders) !! t = None \/ q.(adders) !! t = Some ADone) ->
  rep (set_adder t (ALoad v) q) b st l.
Proof.
  intros Hr [Hn|Hd]; [|by eapply rep_set_adder; [..|left]]. destruct Hr as [Hst Ht Hnd Hp Ha Ho Hoo].
  split; try done; cbn [set_adder adders].
  - intros t' a2 [[<- <-]|[_ ?]]%lookup_insert_Some; [done|eauto].
  - intros t' a2 n [[<- <-]|[_ ?]]%lookup_insert_Some E; [done|by eapply Ho].
  - intros t1 t2 a1 a2 n [[<- <-]|[Hne1 H1]]%lookup_insert_Some [[<- <-]|[Hne2 H2]]%lookup_insert_Some
      E1 E2; try done. by eapply Hoo.
Qed.

(** An adder writes to its node. *)
Lemma rep_write q b st l t a a' n nd :
  rep q b st l -> q.(adders) !! t = Some a -> own a = Some n -> own a' = Some n ->
  adder_ok (<[n := nd]> q.(heap)) a -> adder_ok (<[n := nd]> q.(heap)) a' ->
  rep (set_adder t a' (set_heap (<[n := nd]> q.(heap)) q)) b st l.
Proof.
  intros [[Hc Hb] Ht Hnd Hp Ha Ho Hoo] Hta Hn Hn' Hok0 Hok.
  pose proof (Ho t a n Hta Hn) as Hout. rewrite !elem_of_app in Hout.
  eapply (rep_set_adder (set_heap (<[n := nd]> q.(heap)) q) b st l t a a');
    [|done|exact Hok|by right; congruence].
  split; cbn [set_heap heap root pool adders tk]; try done.
  - split; [apply chain_insert; tauto|done].
  - apply taker_ok_insert; tauto.
  - intros m Hm. destruct (decide (m = n)) as [->|]; [rewrite lookup_insert_eq; by eexists|].
    rewrite lookup_insert_ne by done. auto.
  - intros t2 a2 Ht2. destruct (decide (own a2 = Some n)) as [E|E].
    + assert (t2 = t) as -> by by eapply Hoo. by assert (a2 = a) as -> by congruence.
    + apply adder_ok_insert; eauto.
Qed.

(** An adder gets a node that nobody has. *)
Lemma rep_own_node q b st l t v r n :
  rep q b st l -> is_Some (q.(heap) !! n) -> (n ∉ st.*1 ++ l.*1 ++ q.(pool)) ->
  (forall t' a', q.(adders) !! t' = Some a' -> own a' <> Some n) ->
  rep (set_adder t (AValue v r n) q) b st l.
Proof.
  intros [Hst1 Ht1 Hnd1 Hp1 Ha1 Ho1 Hoo1] Hs Hn Hne. split; try done; cbn [set_adder adders].
  - intros t' a2 [[<- <-]|[_ ?]]%lookup_insert_Some; [done|eauto].
  - intros t' a2 m [[<- <-]|[_ ?]]%lookup_insert_Some E; [by injection E as <-|by eapply Ho1].
  - intros t1 t2 a1 a2 m [[<- <-]|[Hne1 H1]]%lookup_insert_Some
      [[<- <-]|[Hne2 H2]]%lookup_insert_Some E1 E2; try done.
    + injection E1 as <-. exfalso. by eapply Hne.
    + injection E2 as <-. exfalso. by eapply Hne.
    + by eapply Hoo1.
Qed.

(** An adder gets a node: from the pool, or a new one. *)
Lemma rep_get q q' b st l t v r n :
  rep q b st l -> q.(adders) !! t = Some (AGet v r) -> pool_Get n q = Some q' ->
  rep (set_adder t (AValue v r n) q') b st l.
Proof.
  intros Hr Hta Hget. pose proof Hr as [[Hc Hb] Ht Hnd Hp Ha Ho Hoo]. unfold pool_Get in Hget.
  case_decide as Hin.
  - injection Hget as <-. apply rep_own_node; [|by apply Hp| |].
    + split; try done; cbn [set_pool pool].
      * eapply sublist_NoDup; [exact Hnd|]. apply sublist_app; [done|]. apply sublist_app; [done|]. apply sublist_filter.
      * intros m [_ Hm]%list_elem_of_filter. auto.
      * intros t' a' m Hta' Hm. pose proof (Ho t' a' m Hta' Hm) as Hout.
        rewrite !elem_of_app, list_elem_of_filter in *. tauto.
    + cbn [set_pool pool]. rewrite !elem_of_app, list_elem_of_filter. rewrite app_assoc in Hnd.
      apply NoDup_app in Hnd as (_ & Hnd & _). intros [?|[?|[? _]]]; [..|done];
        by apply (Hnd n); [apply elem_of_app; auto|].
    + cbn [set_pool adders]. intros t' a' Hta' Hn. apply (Ho t' a' n Hta' Hn).
      rewrite !elem_of_app. auto.
  - destruct (q.(heap) !! n) as [|] eqn:Hn; [done|]. injection Hget as <-.
    assert (n ∉ st.*1 ++ l.*1 ++ q.(pool)) as Hout.
    { intros Hx. destruct (rep_dom _ _ _ _ _ Hr Hx) as [? E]. congruence. }
    assert (forall t' a', q.(adders) !! t' = Some a' -> own a' <> Some n) as Hne.
    { intros t' a' Hta' E. pose proof (Ha t' a' Hta') as Hok.
      destruct a' as [?|? ?|? ? m|? ? m|? ? m|? m|]; try done; injection E as ->; cbn in Hok;
        rewrite Hn in Hok; try done; by destruct Hok. }
    apply rep_own_node; [|cbn; rewrite lookup_insert_eq; by eexists|done|done].
    rewrite !elem_of_app in Hout. split; cbn [set_heap heap root pool adders tk]; try done.
    + split; [apply chain_insert; tauto|done].
    + apply taker_ok_insert; tauto.
    + intros m Hm. destruct (decide (m = n)) as [->|]; [rewrite lookup_insert_eq; by eexists|].
      rewrite lookup_insert_ne by done. auto.
    + intros t' a' Hta'. apply adder_ok_insert; eauto.
Qed.

(** The compare-and-swap succeeds: whatever happened since the root was loaded, it
    is the root again, so the node is linked to what is the stack now. *)
Lemma rep_push q b st l t v n :
  rep q b st l -> q.(adders) !! t = Some (ACas v q.(root) n) ->
  rep (set_adder t ADone (set_root (Some n) q)) (mkBag (v :: b.(stack)) b.(batch) b.(failed))
    ((n, v) :: st) l.
Proof.
  intros [[Hc Hb] Ht Hnd Hp Ha Ho Hoo] Hta.
  pose proof (Ho t _ n Hta eq_refl) as Hout. pose proof (Ha t _ Hta) as Hok. cbn in Hok.
  split; cbn [set_adder set_root heap root pool adders tk stack batch failed]; try done.
  - split; [|by rewrite Hb]. cbn. split; [done|]. by exists q.(root).
  - cbn. by apply NoDup_cons.
  - intros t' a2 [[<- <-]|[_ ?]]%lookup_insert_Some; [done|eauto].
  - intros t' a2 m [[<- <-]|[Hne Hta']]%lookup_insert_Some E; [done|]. cbn [fmap list_fmap fst app].
    apply not_elem_of_cons. split; [|by eapply Ho]. intros ->. apply Hne. by eapply Hoo.
  - intros t1 t2 a1 a2 m [[<- <-]|[Hne1 H1]]%lookup_insert_Some [[<- <-]|[Hne2 H2]]%lookup_insert_Some
      E1 E2; try done. by eapply Hoo.
Qed.

(** An adder gives its node back. *)
Lemma rep_put q b st l t v n :
  rep q b st l -> q.(adders) !! t = Some (APut v n) ->
  rep (set_adder t (ALoad v) (set_pool (n :: q.(pool)) q)) b st l.
Proof.
  intros [Hst Ht Hnd Hp Ha Ho Hoo] Hta.
  pose proof (Ho t _ n Hta eq_refl) as Hout. pose proof (Ha t _ Hta) as Hok. cbn in Hok.
  split; cbn [set_adder set_pool heap root pool adders tk]; try done.
  - rewrite app_assoc. apply NoDup_app. rewrite app_assoc in Hnd, Hout.
    apply NoDup_app in Hnd as (Hn1 & Hn2 & Hn3). rewrite elem_of_app in Hout. split_and!; [done| |].
    + intros m Hm. apply not_elem_of_cons. split; [intros ->; tauto|auto].
    + apply NoDup_cons. tauto.
  - intros m [->|Hm]%elem_of_cons; auto.
  - intros t' a2 [[<- <-]|[_ ?]]%lookup_insert_Some; [done|eauto].
  - intros t' a2 m [[<- <-]|[Hne Hta']]%lookup_insert_Some E; [done|].
    pose proof (Ho t' a2 m Hta' E) as Hm. rewrite !elem_of_app in *. rewrite elem_of_cons.
    intros [?|[?|[->|?]]]; try tauto. apply Hne. by eapply Hoo.
  - intros t1 t2 a1 a2 m [[<- <-]|[Hne1 H1]]%lookup_insert_Some [[<- <-]|[Hne2 H2]]%lookup_insert_Some
      E1 E2; try done. by eapply Hoo.
Qed.

(** The nodes of the stack, the taker and the pool change places. *)
Lemma rep_places q q' b b' st l st' l' g :
  rep q b st l -> q'.(heap) = q.(heap) -> q'.(adders) = q.(adders) ->
  chain q.(heap) q'.(root) st' -> b'.(stack) = st'.*2 ->
  taker_ok q.(heap) q'.(tk) l' b'.(batch) b'.(failed) ->
  st'.*1 ++ l'.*1 ++ q'.(pool) ++ g ≡ₚ st.*1 ++ l.*1 ++ q.(pool) -> rep q' b' st' l'.
Proof.
  intros Hr Eh Ea Hc Hb Ht Hp. pose proof Hr as [_ _ Hnd _ Ha Ho Hoo].
  assert (forall n, n ∈ st'.*1 ++ l'.*1 ++ q'.(pool) -> n ∈ st.*1 ++ l.*1 ++ q.(pool)) as Hsub.
  { intros n Hn. rewrite <- Hp. rewrite !elem_of_app in *. tauto. }
  split; rewrite ?Eh, ?Ea; try done.
  - rewrite <- Hp in Hnd. rewrite !app_assoc in Hnd. apply NoDup_app in Hnd as (Hnd & _).
    by rewrite <- app_assoc in Hnd.
  - intros n Hn. eapply rep_dom; [exact Hr|]. apply Hsub. rewrite !elem_of_app. auto.
  - intros t a n Hta E Hn. by apply (Ho t a n Hta E), Hsub.
Qed.

Lemma Add_step_rep t n a q q' e b st l :
  rep q b st l -> q.(adders) !! t = Some a -> Add_step t n a q = Some (q', e) ->
  exists b', match e with Some e => bag_step e b = Some b' | None => b' = b end /\ represents q' b'.
Proof.
  intros Hr Hta Hs. pose proof (rep_adder _ _ _ _ Hr t a Hta) as Hok.
  destruct a as [v|v r|v r m|v r m|v r m|v m|]; cbn [Add_step] in Hs; try done.
  - injection Hs as <- <-. exists b. split; [done|]. exists st, l.
    by eapply rep_set_adder; [..|left].
  - destruct (pool_Get n q) as [q1|] eqn:Hg; [|done]. injection Hs as <- <-. exists b. split; [done|].
    exists st, l. by eapply rep_get.
  - cbn in Hok. destruct (q.(heap) !! m) as [nd|] eqn:Hm; [|done]. injection Hs as <- <-.
    exists b. split; [done|]. exists st, l.
    eapply rep_write; [done..| |]; cbn; rewrite lookup_insert_eq; by eexists.
  - destruct Hok as [nx Hm]. rewrite Hm in Hs. injection Hs as <- <-.
    exists b. split; [done|]. exists st, l.
    eapply rep_write; [done..| |]; cbn; rewrite lookup_insert_eq; [by eexists|done].
  - case_decide as Hroot; injection Hs as <- <-.
    + subst r. eexists. split; [done|]. exists ((m, v) :: st), l. by apply rep_push.
    + exists b. split; [done|]. exists st, l. eapply rep_set_adder; [done..| |by right].
      cbn. rewrite Hok. by eexists.
  - injection Hs as <- <-. exists b. split; [done|]. exists st, l. by apply rep_put.
Qed.

Lemma Taker_step_rep ok q q' e b st l :
  rep q b st l -> SwapOutForEach_step ok q = Some (q', e) ->
  exists b', match e with Some e => bag_step e b = Some b' | None => b' = b end /\ represents q' b'.
Proof.
  intros Hr Hs. pose proof (rep_stack _ _ _ _ Hr) as [Hc Hb]. pose proof (rep_taker _ _ _ _ Hr) as Ht.
  destruct b as [bs bb bf]. cbn [stack batch failed] in *. unfold SwapOutForEach_step in Hs.
  destruct q.(tk) as [|[p|]|p v nx|v nx|] eqn:Etk; cbn [taker_ok] in Ht; [| | | | |done].
  - injection Hs as <- <-. destruct Ht as (-> & -> & ->). eexists. split; [done|]. exists [], st.
    eapply (rep_places q _ _ _ _ _ _ _ []); [exact Hr|done..|]. cbn. by rewrite app_nil_r.
  - destruct Ht as (Hl & Hbb & ->). destruct l as [|[a v] l]; [done|]. subst bb. destruct Hl as (E & nx & Ha & Hl).
    injection E as ->. rewrite Ha in Hs. injection Hs as <- <-. eexists. split; [done|].
    exists st, ((a, v) :: l). eapply (rep_places q _ _ _ _ _ _ _ []); [exact Hr|done..| |].
    + cbn. exists nx, l. by split_and!.
    + by rewrite app_nil_r.
  - destruct Ht as (Hl & -> & ->). injection Hs as <- <-. eexists. split; [done|].
    exists st, l. destruct l; [|by destruct p as [? ?], Hl].
    eapply (rep_places q _ _ _ _ _ _ _ []); [exact Hr|done..|]. by rewrite app_nil_r.
  - destruct Ht as (nx' & l' & -> & Hp & Hl & -> & ->). injection Hs as <- <-. eexists. split; [done|].
    exists st, l'. eapply (rep_places q _ _ _ _ _ _ _ []); [exact Hr|done..|]. cbn. rewrite app_nil_r.
    f_equiv. by rewrite Permutation_middle.
  - destruct Ht as (Hl & -> & ->). destruct ok; injection Hs as <- <-.
    + eexists. split; [cbn; by rewrite decide_True|]. exists st, l.
      eapply (rep_places q _ _ _ _ _ _ _ []); [exact Hr|done..|]. by rewrite app_nil_r.
    + eexists. split; [cbn; by rewrite decide_True|]. exists st, [].
      eapply (rep_places q _ _ _ _ _ _ _ l.*1); [exact Hr|done..|]. cbn.
      f_equiv. apply Permutation_app_comm.
Qed.

Lemma qstep_rep a q q' e b :
  represents q b -> qstep a q = Some (q', e) ->
  exists b', match e with Some e => bag_step e b = Some b' | None => b' = b end /\ represents q' b'.
Proof.
  intros (st & l & Hr) Hs. destruct a as [t v|t n|ok|i]; cbn [qstep] in Hs.
  - assert (q.(adders) !! t = None \/ q.(adders) !! t = Some ADone) as Hf.
    { destruct (q.(adders) !! t) as [[]|]; auto; done. }
    assert (Some (set_adder t (ALoad v) q, None) = Some (q', e)) as E
      by (by destruct Hf as [Hf|Hf]; rewrite Hf in Hs).
    injection E as <- <-. exists b. split; [done|]. exists st, l. by apply rep_start.
  - destruct (q.(adders) !! t) as [a|] eqn:Hta; [|done]. by eapply Add_step_rep.
  - by eapply Taker_step_rep.
  - injection Hs as <- <-. exists b. split; [done|]. exists st, l.
    destruct (q.(pool) !! i) as [n|] eqn:Hi.
    + eapply (rep_places q _ _ _ _ _ _ _ [n]); [exact Hr|done..|apply Hr|apply Hr|apply Hr|].
      cbn [set_pool pool]. do 2 f_equiv. rewrite (delete_Permutation q.(pool) i n Hi) at 2.
      apply Permutation_app_comm.
    + replace (set_pool (delete i q.(pool)) q) with q; [done|].
      destruct q as [? ? p ? ?]. cbn in *. unfold set_pool. cbn. by rewrite delete_none.
Qed.

Lemma represents_new : represents newQueue (mkBag [] [] false).
Proof.
  exists [], []. split; cbn; try done.
  - constructor.
  - by intros n ?%not_elem_of_nil.
Qed.

Lemma bag_run_cons e es b : bag_run (e :: es) b = b' ← bag_step e b; bag_run es b'.
Proof.
  unfold bag_run. cbn [foldl]. cbn. destruct (bag_step e b) as [b'|]; [done|]. cbn.
  induction es as [|e' es IH]; [done|]. exact IH.
Qed.

Lemma qrun_rep l q b q' es :
  represents q b -> qrun l q = Some (q', es) ->
  exists b', bag_run es b = Some b' /\ represents q' b'.
Proof.
  revert q b es. induction l as [|a l IH]; intros q b es Hr Hrun; cbn [qrun] in Hrun.
  { injection Hrun as <- <-. by exists b. }
  destruct (qstep a q) as [[q1 e]|] eqn:Hs; [|done]. cbn in Hrun.
  destruct (qrun l q1) as [[q2 es']|] eqn:Hl; [|done]. cbn in Hrun. injection Hrun as -> <-.
  destruct (qstep_rep a q q1 e b Hr Hs) as (b1 & Hb1 & Hr1).
  destruct (IH q1 b1 es' Hr1 Hl) as (b2 & Hb2 & Hr2). exists b2. split; [|done].
  destruct e as [e|]; [by rewrite bag_run_cons, Hb1|by subst].
Qed.

(** A failure stays. *)
Lemma bag_run_failed es b b' : bag_run es b = Some b' -> b.(failed) = true -> b'.(failed) = true.
Proof.
  revert b. induction es as [|e es IH]; intros b Hrun Hb; [injection Hrun as <-; done|].
  rewrite bag_run_cons in Hrun. destruct (bag_step e b) as [b1|] eqn:Hs; [|done].
  apply (IH b1 Hrun). destruct b as [bs bb bf]. cbn in *. subst bf.
  destruct e; cbn in Hs; try done; try (by injection Hs as <-);
    destruct bb; try done; case_decide; try done; by injection Hs as <-.
Qed.

(** What a run pushes and takes, while no call fails, is what it holds. *)
Lemma bag_run_keeps es b b' :
  bag_run es b = Some b' -> b'.(failed) = false ->
  pushed es ++ b.(batch) ++ b.(stack) ≡ₚ called es ++ b'.(batch) ++ b'.(stack).
Proof.
  revert b. induction es as [|e es IH]; intros b Hrun Hf.
  { by injection Hrun as <-. }
  rewrite bag_run_cons in Hrun. destruct (bag_step e b) as [b1|] eqn:Hs; [|done]. cbn in Hrun.
  specialize (IH b1 Hrun Hf). destruct b as [bs bb bf].
  destruct e as [v| |v|v]; cbn in *.
  - injection Hs as <-. cbn in IH. rewrite <- IH. solve_Permutation.
  - destruct bf; [done|]. destruct bb; [|done]. injection Hs as <-. cbn in *.
    rewrite <- IH. by rewrite app_nil_r.
  - destruct bb as [|w bb]; [done|]. case_decide; [|done]. subst w. injection Hs as <-. cbn in *.
    rewrite <- IH. solve_Permutation.
  - destruct bb as [|w bb]; [done|]. case_decide; [|done]. injection Hs as <-. exfalso.
    pose proof (bag_run_failed _ _ _ Hrun eq_refl). congruence.
Qed.

(** While nothing has failed, every call has succeeded. *)
Lemma bag_run_called es b b' :
  bag_run es b = Some b' -> b'.(failed) = false ->
  called es = omap (fun e => match e with Called v | Stopped v => Some v | _ => None end) es.
Proof.
  revert b. induction es as [|e es IH]; intros b Hrun Hf; [done|].
  rewrite bag_run_cons in Hrun. destruct (bag_step e b) as [b1|] eqn:Hs; [|done]. cbn in Hrun.
  specialize (IH b1 Hrun Hf). destruct e as [v| |v|v]; cbn; [exact IH|exact IH|by f_equal|].
  exfalso. destruct b as [bs [|w bb] bf]; cbn in Hs; [done|]. case_decide; [|done].
  injection Hs as <-. pose proof (bag_run_failed _ _ _ Hrun eq_refl). congruence.
Qed.

(** The stack has the last values pushed on top. *)
Lemma bag_run_order es b b' :
  bag_run es b = Some b' -> sublist b'.(stack) (rev (pushed es) ++ b.(stack)).
Proof.
  revert b. induction es as [|e es IH]; intros b Hrun.
  { by injection Hrun as <-. }
  rewrite bag_run_cons in Hrun. destruct (bag_step e b) as [b1|] eqn:Hs; [|done].
  specialize (IH b1 Hrun). destruct b as [bs bb bf].
  destruct e as [v| |v|v]; cbn in *.
  - injection Hs as <-. by rewrite <- app_assoc.
  - destruct bf; [done|]. destruct bb; [|done]. injection Hs as <-. cbn in IH.
    rewrite app_nil_r in IH. by apply sublist_inserts_r.
  - destruct bb; [done|]. case_decide; [|done]. by injection Hs as <-.
  - destruct bb; [done|]. case_decide; [|done]. by injection Hs as <-.
Qed.

Lemma represents_idle q b :
  represents q b -> q.(tk) = TIdle -> b.(batch) = [] /\ b.(failed) = false.
Proof. intros (st & l & Hr) E. pose proof (rep_taker _ _ _ _ Hr) as Ht. rewrite E in Ht. by destruct Ht as (_ & ? & ?). Qed.

Lemma represents_empty q b : represents q b -> q.(root) = None -> b.(stack) = [].
Proof.
  intros (st & l & Hr) E. destruct (rep_stack _ _ _ _ Hr) as [Hc ->]. rewrite E in Hc.
  destruct st as [|[]]; [done|]. by destruct Hc.
Qed.

Lemma qrun_cons a l q q1 e :
  qstep a q = Some (q1, e) ->
  qrun (a :: l) q =
  ('(q2, es) ← qrun l q1; Some (q2, match e with Some e => e :: es | None => es end)).
Proof. intros E. cbn [qrun]. by rewrite E. Qed.

(** The taker goes through the nodes that it has taken. *)
Lemma taker_loop q p l :
  q.(tk) = TLoop p -> chain q.(heap) p l ->
  exists q', qrun (replicate (S (3 * length l)) (Taker true)) q = Some (q', Called <$> l.*2) /\
    q'.(tk) = TIdle /\ q'.(root) = q.(root).
Proof.
  revert q p. induction l as [|[a v] l IH]; intros q p E Hc.
  - cbn in Hc. subst p. eexists. cbn [length Nat.mul replicate].
    erewrite qrun_cons; [|cbn; unfold SwapOutForEach_step; by rewrite E]. cbn. done.
  - destruct Hc as (-> & nx & Ha & Hc). cbn [length].
    replace (S (3 * S (length l))) with (S (S (S (S (3 * length l))))) by lia.
    edestruct (IH (set_tk (TLoop nx) (set_tk (TCall v nx) (set_pool (a :: q.(pool))
      (set_tk (TPut a v nx) q)))) nx) as (q' & Hrun & Htk & Hroot); [done|exact Hc|].
    exists q'. split; [|done]. cbn [replicate].
    erewrite qrun_cons; [|cbn; unfold SwapOutForEach_step; rewrite E, Ha; reflexivity].
    erewrite qrun_cons; [|reflexivity]. erewrite qrun_cons; [|reflexivity].
    cbn [replicate] in Hrun. cbn -[replicate qrun] in Hrun |- *. by rewrite Hrun.
Qed.

Lemma qrun_app l1 l2 (q : lockQueue) :
  qrun (l1 ++ l2) q = ('(q, e1) ← qrun l1 q; '(q, e2) ← qrun l2 q; Some (q, e1 ++ e2)).
Proof.
  revert q. induction l1 as [|a l1 IH]; intros q; cbn [app qrun].
  - cbn. by destruct (qrun l2 q) as [[? ?]|].
  - destruct (qstep a q) as [[q1 e]|]; [|done]. cbn. rewrite IH.
    destruct (qrun l1 q1) as [[q2 e1]|]; [|done]. cbn. destruct (qrun l2 q2) as [[q3 e2]|]; [|done].
    cbn. by destruct e.
Qed.

Definition is_taker (a : action) : bool := match a with Taker _ => true | _ => false end.

(** What is not the poller's leaves the taker alone, and the root too, unless it
    pushes a value. *)
Lemma add_frame a q q' e :
  is_taker a = false -> qstep a q = Some (q', e) ->
  q'.(tk) = q.(tk) /\
  match e with Some (Pushed _) => True | None => q'.(root) = q.(root) | _ => False end.
Proof.
  destruct a as [t v|t n|ok|i]; intros Ha E; [..|done|]; cbn [qstep] in E.
  - destruct (q.(adders) !! t) as [[]|]; by simplify_eq.
  - destruct (q.(adders) !! t) as [st|]; [|done]. cbn [mbind option_bind] in E.
    destruct st; cbn [Add_step] in E; unfold pool_Get, mbind, option_bind in E;
      simplify_eq/=; try done; repeat (case_match; simplify_eq/=; try done).
  - by simplify_eq.
Qed.

(** What the poller's goroutine does, alone, once it is between two rounds. *)
Lemma drains l q es :
  qrun l newQueue = Some (q, es) -> q.(tk) = TIdle ->
  exists vs q', qrun (replicate (2 + 3 * length vs) (Taker true)) q = Some (q', Taken :: (Called <$> vs)) /\
    called es ++ vs ≡ₚ pushed es /\ sublist vs (rev (pushed es)) /\
    q'.(tk) = TIdle /\ q'.(root) = None.
Proof.
  intros Hrun Htk. destruct (qrun_rep _ _ _ _ _ represents_new Hrun) as (b & Hb & Hr).
  destruct (represents_idle _ _ Hr Htk) as [Hbatch Hf].
  pose proof (bag_run_keeps _ _ _ Hb Hf) as Hp. cbn in Hp. rewrite app_nil_r, Hbatch in Hp. cbn in Hp.
  pose proof (bag_run_order _ _ _ Hb) as Ho.
  destruct Hr as (st & l0 & Hr). destruct (rep_stack _ _ _ _ Hr) as [Hc Hs].
  destruct (taker_loop (set_tk (TLoop q.(root)) (set_root None q)) q.(root) st) as (q' & Hq & Hi & Hn);
    [done|exact Hc|].
  exists b.(stack), q'. split_and!; [|by rewrite Hp| |done|done].
  - rewrite Hs, length_fmap.
    change (2 + 3 * length st)%nat with (S (S (3 * length st))).
    change (replicate (S (S (3 * length st))) (Taker true))
      with (Taker true :: replicate (S (3 * length st)) (Taker true)).
    erewrite qrun_cons; [|cbn; unfold SwapOutForEach_step; by rewrite Htk].
    by rewrite Hq.
  - cbn in Ho. by rewrite app_nil_r in Ho.
Qed.

(** [Add] by a goroutine that nothing interrupts. *)
Lemma Add_alone_steps q b t v :
  represents q b -> (q.(adders) !! t = None \/ q.(adders) !! t = Some ADone) ->
  exists n q', qrun (Start t v :: replicate 5 (Adder t n)) q = Some (q', [Pushed v]).
Proof.
  intros Hr Hf. set (q1 := set_adder t (ALoad v) q).
  assert (qstep (Start t v) q = Some (q1, None)) as H1.
  { cbn. by destruct Hf as [-> | ->]. }
  destruct (qstep_rep _ _ _ _ _ Hr H1) as (b1 & _ & st & l & Hr1).
  assert (exists n q2, pool_Get n (set_adder t (AGet v q.(root)) q1) = Some q2 /\
            q2.(root) = q.(root) /\ is_Some (q2.(heap) !! n)) as (n & q2 & Hg & Hroot & [nd Hn]).
  { unfold pool_Get, q1. cbn [set_adder pool heap]. destruct q.(pool) as [|n p] eqn:Ep.
    - exists (fresh (dom q.(heap))). rewrite decide_False by apply not_elem_of_nil.
      assert (q.(heap) !! fresh (dom q.(heap)) = None) as ->.
      { apply not_elem_of_dom, is_fresh. }
      eexists. split_and!; [done|done|]. cbn. rewrite lookup_insert_eq. by eexists.
    - exists n. rewrite decide_True by left. eexists. split_and!; [done|done|].
      cbn. apply (rep_pool _ _ _ _ Hr1). cbn. rewrite Ep. left. }
  exists n. eexists. erewrite qrun_cons by exact H1. cbn [replicate].
  erewrite qrun_cons; [|cbn; rewrite lookup_insert_eq; reflexivity].
  erewrite qrun_cons; [|cbn; rewrite lookup_insert_eq; cbn; rewrite Hg; reflexivity].
  erewrite qrun_cons; [|cbn; rewrite lookup_insert_eq; cbn; rewrite Hn; reflexivity].
  erewrite qrun_cons; [|cbn; rewrite lookup_insert_eq; cbn; rewrite lookup_insert_eq; reflexivity].
  erewrite qrun_cons; [|cbn; rewrite lookup_insert_eq; cbn; by rewrite decide_True].
  reflexivity.
Qed.

(** ** Theorems *)

(** C7: the lock-free queue refines its specification, a stack that is taken whole:
    under every schedule of any number of goroutines in [Add] and the poller in
    [SwapOutForEach], with a pool that hands out any node it holds and loses nodes
    at will, what happens is a run of the specification, and the linked nodes
    stand for its state: the compare-and-swap of a stale root never damages the
    list, and no node is in two places. *)
Theorem lockQueue_refines l q es :
  qrun l newQueue = Some (q, es) ->
  exists b, bag_run es (mkBag [] [] false) = Some b /\ represents q b.
Proof. apply qrun_rep, represents_new. Qed.

Definition a_schedule : list action :=
  [Start 0 10; Adder 0 1; Start 1 20; Adder 1 2; Adder 0 1; Adder 1 2; Adder 1 2; Adder 1 2;
   Adder 1 2; Adder 0 1; Adder 0 1; Adder 0 1; Adder 0 1; Taker true; Adder 0 1; Adder 0 1; Taker true].

Lemma lockQueue_refines_witness :
  exists q, qrun a_schedule newQueue = Some (q, [Pushed 20; Taken]) /\
    exists b, bag_run [Pushed 20; Taken] (mkBag [] [] false) = Some b /\ represents q b.
Proof.
  eexists. split; [by vm_compute|]. eapply (lockQueue_refines a_schedule). by vm_compute.
Defined.

(** nothing that is added is lost, and nothing is handed out twice: whenever
    the poller is between two rounds, however adders and the pool behaved, letting
    it run alone ends its loop after three steps a node, with an empty queue, and
    the function has then been called once for each value ever added, the values
    of the last round in the order opposite to their additions. *)
Theorem SwapOutForEach_drains l q es :
  qrun l newQueue = Some (q, es) -> q.(tk) = TIdle ->
  exists vs q', qrun (replicate (2 + 3 * length vs) (Taker true)) q = Some (q', Taken :: (Called <$> vs)) /\
    called es ++ vs ≡ₚ pushed es /\ sublist vs (rev (pushed es)) /\
    q'.(tk) = TIdle /\ q'.(root) = None.
Proof. exact (drains l q es). Qed.

Lemma SwapOutForEach_drains_witness :
  exists q1 es, qrun [Start 1 7; Adder 1 1; Adder 1 1; Adder 1 1; Adder 1 1; Adder 1 1] newQueue = Some (q1, es) /\
  exists vs q', qrun (replicate (2 + 3 * length vs) (Taker true)) q1 = Some (q', Taken :: (Called <$> vs)) /\
    called es ++ vs ≡ₚ pushed es /\ sublist vs (rev (pushed es)) /\
    q'.(tk) = TIdle /\ q'.(root) = None.
Proof.
  do 2 eexists. split; [by vm_compute|].
  eapply (SwapOutForEach_drains [Start 1 7; Adder 1 1; Adder 1 1; Adder 1 1; Adder 1 1; Adder 1 1]);
    by vm_compute.
Defined.

(** a call of [Add] that runs undisturbed returns after five steps with its
    value pushed, in every state that any schedule reaches: no goroutine that has
    stopped inside [Add] or inside the poller's loop can hold it up. *)
Theorem Add_alone l q es t v :
  qrun l newQueue = Some (q, es) -> (q.(adders) !! t = None \/ q.(adders) !! t = Some ADone) ->
  exists n q', qrun (Start t v :: replicate 5 (Adder t n)) q = Some (q', [Pushed v]).
Proof.
  intros Hrun Hf. destruct (qrun_rep _ _ _ _ _ represents_new Hrun) as (b & _ & Hr).
  by eapply Add_alone_steps.
Qed.

Lemma Add_alone_witness :
  exists q es, qrun a_schedule newQueue = Some (q, es) /\
  exists n q', qrun (Start 3 30 :: replicate 5 (Adder 3 n)) q = Some (q', [Pushed 30]).
Proof.
  do 2 eexists. split; [by vm_compute|]. eapply (Add_alone a_schedule); [by vm_compute|].
  left. by vm_compute.
Defined.
