(* ===== verification/PollLoop.v ===== *)
(** The loop of [Wait] that the pollers share (src/internal/internal_linux.go,
    internal_bsd.go): wait for the kernel, empty the queue of descriptors that
    [Trigger] added, go through the events.

    What differs is the kernel's object (an epoll descriptor with its eventfd, or a
    kqueue), which a class describes.  The queue is [LockQueue], step by step; the
    callback of [Wait] is an entry of the log and answers [nil] or an error. *)

From stdpp Require Import gmap.
From S2P Require Import Prelude LockQueue.

Definition READ : Z := 1.
Definition WRITE : Z := 2.
Definition EOF : Z := 4.

(** The kernel's side of a poller, in the state [K], with events [E]: what the
    system call of [Trigger] does; what else can happen to it, some of it only
    while the loop is at its system call ([true]); that call returning events; and
    the body of the loop for an event: the flags that [iter] is called with. *)
Class PollKernel (K E A : Type) := {
  signal : K -> K;
  kernel_step : A -> bool -> K -> option K;
  wait_returns : list E -> K -> option K;
  handle : E -> K -> K * option (Z * Z);
}.

(** Where [Wait] is: at its system call; emptying the queue, with the events that
    it got; going through them; or it has returned an error. *)
Inductive waiter (E : Type) :=
| WAtWait
| WSwap (evs : list E)
| WEvents (evs : list E)
| WError.
Arguments WAtWait {E}.
Arguments WSwap {E}.
Arguments WEvents {E}.
Arguments WError {E}.

(** [pending]: the calls of [Trigger] between [Add] and their system call. *)
Record Poll (K E : Type) := mkPoll {
  writeFds : lockQueue;
  pending : nat;
  kern : K;
  wt : waiter E;
}.
Arguments mkPoll {K E}.
Arguments writeFds {K E}.
Arguments pending {K E}.
Arguments kern {K E}.
Arguments wt {K E}.

Definition newPoll {K E} (k : K) : Poll K E := mkPoll newQueue 0 k WAtWait.

(** ** Steps *)

(** What the scheduler and the kernel decide: a step of a call of [Trigger] in the
    queue, its system call; a step of the kernel; the wait returns, or fails; a
    step of the loop over the queue, over the events ([ok]: [iter] answers [nil]). *)
Inductive paction (E A : Type) :=
| PQueue (a : action)
| PSignal
| PKernel (a : A)
| PWait (evs : list E)
| PWaitFails
| PTake (ok : bool)
| PEvent (ok : bool).
Arguments PQueue {E A}.
Arguments PSignal {E A}.
Arguments PKernel {E A}.
Arguments PWait {E A}.
Arguments PWaitFails {E A}.
Arguments PTake {E A}.
Arguments PEvent {E A}.

(** What happens: a descriptor is triggered; [iter] is called for one of the queue
    or for an event. *)
Inductive plabel := Triggered (fd : Z) | IterWrite (fd : Z) | IterEvent (fd flag : Z).

Section loop.
Context {K E A : Type} `{PollKernel K E A}.
Local Abbreviation Poll := (Poll K E).
Local Abbreviation paction := (paction E A).
Implicit Types (p : Poll) (k : K) (l : list paction).

Definition at_wait p : bool := match p.(wt) with WAtWait => true | _ => false end.

Definition pstep (a : paction) p : option (Poll * list plabel) :=
  match a with
  | PQueue (Taker _) => None
  | PQueue a =>
      '(q, e) ← qstep a p.(writeFds);
      Some match e with
           | Some (Pushed fd) => (mkPoll q (S p.(pending)) p.(kern) p.(wt), [Triggered fd])
           | _ => (mkPoll q p.(pending) p.(kern) p.(wt), [])
           end
  | PSignal =>
      match p.(pending) with
      | O => None
      | S n => Some (mkPoll p.(writeFds) n (signal p.(kern)) p.(wt), [])
      end
  | PKernel a =>
      k ← kernel_step a (at_wait p) p.(kern);
      Some (mkPoll p.(writeFds) p.(pending) k p.(wt), [])
  | PWait evs =>
      match p.(wt) with
      | WAtWait =>
          k ← wait_returns evs p.(kern);
          Some (mkPoll p.(writeFds) p.(pending) k (WSwap evs), [])
      | _ => None
      end
  | PWaitFails =>
      match p.(wt) with
      | WAtWait => Some (mkPoll p.(writeFds) p.(pending) p.(kern) WError, [])
      | _ => None
      end
  | PTake ok =>
      match p.(wt) with
      | WSwap evs =>
          '(q, e) ← SwapOutForEach_step ok p.(writeFds);
          let w := match q.(tk) with TIdle => WEvents evs | TFailed => WError | _ => WSwap evs end in
          Some (mkPoll q p.(pending) p.(kern) w,
                match e with Some (Called fd) | Some (Stopped fd) => [IterWrite fd] | _ => [] end)
      | _ => None
      end
  | PEvent ok =>
      match p.(wt) with
      | WEvents [] => Some (mkPoll p.(writeFds) p.(pending) p.(kern) WAtWait, [])
      | WEvents (ev :: evs) =>
          let (k, call) := handle ev p.(kern) in
          Some match call with
               | Some (fd, flag) =>
                   (mkPoll p.(writeFds) p.(pending) k (if ok : bool then WEvents evs else WError),
                    [IterEvent fd flag])
               | None => (mkPoll p.(writeFds) p.(pending) k (WEvents evs), [])
               end
      | _ => None
      end
  end.

Fixpoint prun l p : option (Poll * list plabel) :=
  match l with
  | [] => Some (p, [])
  | a :: l => '(p, e) ← pstep a p; '(p, es) ← prun l p; Some (p, e ++ es)
  end.

(** The descriptors that have been triggered, and those [iter] has been called
    with for it. *)
Definition triggered (es : list plabel) : list Z :=
  omap (fun e => match e with Triggered fd => Some fd | _ => None end) es.
Definition served (es : list plabel) : list Z :=
  omap (fun e => match e with IterWrite fd => Some fd | _ => None end) es.

(** A call of [Trigger] that nothing interrupts; [n] is what the pool gives it. *)
Definition Trigger (t : nat) (n : loc) (fd : Z) : list paction :=
  (PQueue <$> Start t fd :: replicate 5 (Adder t n)) ++ [PSignal].

(** ** Lemmas: runs *)

Lemma prun_cons a l p p1 e p2 es :
  pstep a p = Some (p1, e) -> prun l p1 = Some (p2, es) -> prun (a :: l) p = Some (p2, e ++ es).
Proof using. intros E1 E2. cbn [prun]. rewrite E1. cbn. by rewrite E2. Qed.

Lemma prun_app l1 l2 p :
  prun (l1 ++ l2) p = ('(p, e1) ← prun l1 p; '(p, e2) ← prun l2 p; Some (p, e1 ++ e2)).
Proof using.
  revert p. induction l1 as [|a l1 IH]; intros p; cbn [app prun].
  - cbn. by destruct (prun l2 p) as [[? ?]|].
  - destruct (pstep a p) as [[q1 e]|]; [|done]. cbn. rewrite IH.
    destruct (prun l1 q1) as [[q2 e1]|]; [|done]. cbn. destruct (prun l2 q2) as [[q3 e2]|]; [|done].
    cbn. by rewrite app_assoc.
Qed.

(** What every step keeps, every run keeps; what every step does, every run does. *)
Lemma prun_invariant (I : Poll -> Prop) (P : paction -> Prop) (Q : plabel -> Prop) l p p' es :
  (forall a p p' e, P a -> I p -> pstep a p = Some (p', e) -> I p' /\ Forall Q e) ->
  Forall P l -> I p -> prun l p = Some (p', es) -> I p' /\ Forall Q es.
Proof using.
  intros Hs Hl. revert p es. induction Hl as [|a l Ha _ IH]; intros p es Hi Hr; cbn [prun] in Hr; [by simplify_eq|].
  destruct (pstep a p) as [[p1 e]|] eqn:E1; [|done]. cbn in Hr.
  destruct (prun l p1) as [[p2 es2]|] eqn:E2; [|done]. cbn in Hr. injection Hr as -> <-.
  destruct (Hs _ _ _ _ Ha Hi E1) as [Hi1 Hq]. destruct (IH _ _ Hi1 E2). by rewrite Forall_app.
Qed.

Lemma Forall_label (es : list plabel) : Forall (fun _ => True) es.
Proof using. by apply Forall_true. Qed.

(** ** Lemmas: the queue inside *)

Definition queue_action (a : paction) : list action :=
  match a with PQueue a => [a] | PTake ok => [Taker ok] | _ => [] end.

(** The labels of the queue and of the poller agree. *)
Definition agree (qs : list label) (es : list plabel) : Prop :=
  pushed qs = triggered es /\
  omap (fun e => match e with Called v | Stopped v => Some v | _ => None end) qs = served es.

Lemma agree_app qs1 es1 qs2 es2 : agree qs1 es1 -> agree qs2 es2 -> agree (qs1 ++ qs2) (es1 ++ es2).
Proof using.
  intros [A1 A2] [B1 B2]. unfold agree, pushed, triggered, served in *. rewrite !omap_app. split; congruence.
Qed.

(** A step of a call of [Trigger] in the queue. *)
Lemma pstep_PQueue a p p' e :
  pstep (PQueue a) p = Some (p', e) ->
  is_taker a = false /\ p'.(kern) = p.(kern) /\ p'.(wt) = p.(wt) /\
  exists x, qstep a p.(writeFds) = Some (p'.(writeFds), x) /\
    match x with
    | Some (Pushed fd) => e = [Triggered fd] /\ p'.(pending) = S p.(pending)
    | _ => e = [] /\ p'.(pending) = p.(pending)
    end.
Proof using.
  intros Hs. assert (is_taker a = false) as Ha by (by destruct a). split; [done|].
  destruct a as [t v|t n|ok|i]; [..|done|]; cbn [pstep] in Hs;
    (destruct (qstep _ p.(writeFds)) as [[q1 x]|]; [|done]); cbn in Hs;
    (destruct x as [[]|]; simplify_eq/=; (split; [done|]); (split; [done|]); eexists; (split; [reflexivity|done])).
Qed.

Lemma pstep_queue a p p' e :
  pstep a p = Some (p', e) ->
  exists qs, qrun (queue_action a) p.(writeFds) = Some (p'.(writeFds), qs) /\ agree qs e.
Proof using.
  intros Hs.
  assert (forall b q1 x, qstep b p.(writeFds) = Some (q1, x) ->
    qrun [b] p.(writeFds) = Some (q1, match x with Some x => [x] | None => [] end)) as H1.
  { intros b q1 x E1. cbn [qrun]. rewrite E1. cbn. by destruct x. }
  destruct a as [a| |a|evs| |ok|ok].
  - apply pstep_PQueue in Hs as (Ha & _ & _ & x & E1 & Hx). pose proof (add_frame _ _ _ _ Ha E1) as [_ Hf].
    cbn [queue_action]. rewrite (H1 _ _ _ E1). eexists. split; [done|].
    destruct x as [[v| |v|v]|]; try done; destruct Hx as [-> _]; by split.
  - cbn in Hs. destruct p.(pending); [done|]. injection Hs as <- <-. by exists [].
  - cbn in Hs. destruct (kernel_step _ _ _); [|done]. injection Hs as <- <-. by exists [].
  - cbn in Hs. destruct p.(wt); try done. destruct (wait_returns _ _); [|done]. injection Hs as <- <-. by exists [].
  - cbn in Hs. destruct p.(wt); try done. injection Hs as <- <-. by exists [].
  - cbn [pstep] in Hs. destruct p.(wt); try done.
    destruct (SwapOutForEach_step ok p.(writeFds)) as [[q1 x]|] eqn:E1; [|done].
    cbn in Hs. injection Hs as <- <-. cbn [queue_action]. rewrite (H1 (Taker ok) q1 x E1). eexists. split; [done|].
    assert (match x with Some (Pushed _) => False | _ => True end) as Hx.
    { unfold SwapOutForEach_step, mbind, option_bind in E1. repeat (case_match; simplify_eq/=; try done). }
    destruct x as [[]|]; try done; by split.
  - cbn [pstep] in Hs. destruct p.(wt) as [| |[|ev evs]|]; try done; [injection Hs as <- <-; by exists []|].
    destruct (handle ev p.(kern)) as [k [[fd flag]|]]; injection Hs as <- <-; by exists [].
Qed.

Lemma prun_queue l p p' es :
  prun l p = Some (p', es) ->
  exists qs, qrun (mbind queue_action l) p.(writeFds) = Some (p'.(writeFds), qs) /\ agree qs es.
Proof using.
  revert p es. induction l as [|a l IH]; intros p es Hr; cbn [prun] in Hr.
  { injection Hr as <- <-. by exists []. }
  destruct (pstep a p) as [[p1 e]|] eqn:E1; [|done]. cbn in Hr.
  destruct (prun l p1) as [[p2 es2]|] eqn:E2; [|done]. cbn in Hr. injection Hr as -> <-.
  destruct (pstep_queue _ _ _ _ E1) as (q1 & F1 & A1). destruct (IH _ _ E2) as (q2 & F2 & A2).
  exists (q1 ++ q2). split; [|by apply agree_app].
  change (mbind queue_action (a :: l)) with (queue_action a ++ mbind queue_action l).
  rewrite qrun_app, F1. cbn. by rewrite F2.
Qed.

(** The loop over the queue runs only between the wait and the events. *)
Definition waiter_ok p : Prop :=
  match p.(wt) with WAtWait | WEvents _ => p.(writeFds).(tk) = TIdle | _ => True end.

Lemma pstep_waiter_ok a p p' e : waiter_ok p -> pstep a p = Some (p', e) -> waiter_ok p'.
Proof using.
  unfold waiter_ok. intros Hok Hs. destruct a as [a| |a|evs| |ok|ok].
  - apply pstep_PQueue in Hs as (Ha & _ & -> & x & E1 & _). by rewrite (proj1 (add_frame _ _ _ _ Ha E1)).
  - cbn in Hs. destruct p.(pending); by simplify_eq/=.
  - cbn in Hs. destruct (kernel_step _ _ _); by simplify_eq/=.
  - cbn in Hs. destruct p.(wt); try done. destruct (wait_returns _ _); by simplify_eq/=.
  - cbn in Hs. destruct p.(wt); by simplify_eq/=.
  - cbn [pstep] in Hs. destruct p.(wt); try done.
    destruct (SwapOutForEach_step ok p.(writeFds)) as [[q1 x]|]; [|done].
    cbn in Hs. injection Hs as <- <-. cbn [wt writeFds]. by destruct (tk q1) eqn:E1.
  - cbn [pstep] in Hs. destruct p.(wt) as [| |[|ev evs]|]; try done; [by simplify_eq/=|].
    destruct (handle ev p.(kern)) as [k [[fd flag]|]]; simplify_eq/=; [|done]. by destruct ok.
Qed.

Lemma prun_waiter_ok l p p' es : waiter_ok p -> prun l p = Some (p', es) -> waiter_ok p'.
Proof using.
  intros Hok Hr. refine (proj1 (prun_invariant waiter_ok (fun _ => True) (fun _ => True) l p p' es _ _ Hok Hr));
    [|by apply Forall_true].
  intros a q q' e _ Hq Hs. split; [by eapply pstep_waiter_ok|apply Forall_label].
Qed.

(** A run of the taker, inside its round, is one of the loop. *)
Lemma takes n p evs q' es :
  p.(wt) = WSwap evs -> p.(writeFds).(tk) <> TIdle -> Taken ∉ es ->
  qrun (replicate n (Taker true)) p.(writeFds) = Some (q', es) -> q'.(tk) = TIdle ->
  prun (replicate n (PTake true)) p
  = Some (mkPoll q' p.(pending) p.(kern) (WEvents evs), IterWrite <$> called es).
Proof using.
  revert p es. induction n as [|n IH]; intros p es Hw Hne Ht Hr Hi; cbn [replicate qrun] in Hr.
  { injection Hr as <- <-. done. }
  destruct (qstep (Taker true) p.(writeFds)) as [[q1 x]|] eqn:E1; [|done]. cbn in Hr.
  destruct (qrun (replicate n (Taker true)) q1) as [[q2 es2]|] eqn:E2; [|done]. cbn in Hr. injection Hr as -> <-.
  cbn [replicate]. set (w := match q1.(tk) with TIdle => WEvents evs | TFailed => WError | _ => WSwap evs end).
  replace (IterWrite <$> called _) with
    ((match x with Some (Called fd) | Some (Stopped fd) => [IterWrite fd] | _ => [] end) ++
     (IterWrite <$> called es2)).
  2: { cbn [qstep] in E1. unfold SwapOutForEach_step, mbind, option_bind in E1.
       repeat (case_match; simplify_eq/=; try done). }
  eapply (prun_cons _ _ _ (mkPoll q1 p.(pending) p.(kern) w)).
  { cbn [pstep]. rewrite Hw. cbn [qstep] in E1. rewrite E1. done. }
  destruct (q1.(tk)) eqn:E3; subst w.
  2-4: apply (IH (mkPoll q1 p.(pending) p.(kern) (WSwap evs)) es2);
    [done|by cbn; rewrite E3|destruct x; rewrite ?elem_of_cons in Ht; tauto|done|done].
  - destruct n as [|n]; cbn [replicate qrun] in E2; [by simplify_eq/=|].
    cbn [qstep] in E2. unfold SwapOutForEach_step in E2. rewrite E3 in E2. cbn in E2.
    destruct (qrun _ _) as [[? ?]|] in E2; [|done]. cbn in E2. injection E2 as -> <-.
    destruct x; rewrite !elem_of_cons in Ht; tauto.
  - cbn [qstep] in E1. unfold SwapOutForEach_step, mbind, option_bind in E1.
    destruct p.(writeFds).(tk) as [|[]|p0 v nx|v nx|]; repeat (case_match; simplify_eq/=; try done).
Qed.

(** What [Wait] does first with what it got. *)
Lemma triggers_served l p es evs p1 k :
  prun l (newPoll k) = Some (p, es) -> pstep (PWait evs) p = Some (p1, []) ->
  exists fds p', prun (replicate (2 + 3 * length fds) (PTake true)) p1 = Some (p', IterWrite <$> fds) /\
    p'.(wt) = WEvents evs /\ p'.(writeFds).(root) = None /\ served es ++ fds ≡ₚ triggered es /\
    (p.(writeFds).(root) <> None -> fds <> []).
Proof using.
  intros Hrun Hw. destruct (prun_queue _ _ _ _ Hrun) as (qs & Hq & Hp & Hs). cbn [newPoll writeFds] in Hq.
  assert (waiter_ok p) as Hok by (eapply (prun_waiter_ok l (newPoll k)); [done|exact Hrun]).
  cbn [pstep] in Hw. unfold waiter_ok in Hok. destruct p.(wt) eqn:Ew; try done.
  destruct (wait_returns evs p.(kern)) as [k1|]; [|done]. cbn in Hw. injection Hw as <-.
  destruct (drains _ _ _ Hq Hok) as (vs & q' & Hd & Hperm & _ & Hi & Hroot).
  destruct (qrun_rep _ _ _ _ _ represents_new Hq) as (b & Hb & Hr).
  destruct (represents_idle _ _ Hr Hok) as [_ Hf].
  pose proof (bag_run_called _ _ _ Hb Hf) as Hc. rewrite Hs in Hc.
  change (2 + 3 * length vs)%nat with (S (S (3 * length vs))) in *.
  cbn [replicate] in Hd. erewrite qrun_cons in Hd by (cbn; unfold SwapOutForEach_step; by rewrite Hok).
  set (q1 := set_tk _ (set_root None _)) in Hd.
  destruct (qrun (Taker true :: _) q1) as [[q2 es2]|] eqn:E2; [|done]. cbn [mbind option_bind] in Hd.
  injection Hd as -> ->.
  exists vs. eexists. split; [|split; [|split; [|split]]].
  - change (replicate (S (S (3 * length vs))) (PTake (E:=E) (A:=A) true))
      with (PTake (E:=E) (A:=A) true :: replicate (S (3 * length vs)) (PTake true)).
    replace (IterWrite <$> vs) with ([] ++ (IterWrite <$> called (Called <$> vs))).
    2: { cbn. f_equal. clear. unfold called. induction vs as [|v vs IH]; cbn; [done|]. by f_equal. }
    eapply (prun_cons _ _ _ (mkPoll q1 p.(pending) k1 (WSwap evs))).
    + cbn [pstep wt writeFds]. unfold SwapOutForEach_step. by rewrite Hok.
    + apply (takes (S (3 * length vs)) (mkPoll q1 p.(pending) k1 (WSwap evs))); try done.
      intros (v & Hv & _)%list_elem_of_fmap. done.
  - done.
  - done.
  - by rewrite <- Hc, <- Hp.
  - intros Hne ->. cbn [length Nat.mul replicate qrun qstep] in E2. unfold SwapOutForEach_step in E2.
    cbn [q1 set_tk set_root tk] in E2. destruct p.(writeFds).(root) as [x|]; [|done].
    destruct (heap q1 !! x); [|done]. cbn in E2. injection E2 as <-. done.
Qed.
End loop.
