(* ===== verification/Poll.v ===== *)
(** The poller for Linux (src/internal/internal_linux.go): the loop of [PollLoop]
    over an epoll descriptor whose wake-up is an eventfd.

    The eventfd is its counter; what [EpollWait] answers is part of the schedule.  What
    the descriptor watches is a map to the events, which [EpollCtl] changes; the event
    loop of the server ([Server]) never makes a call that it refuses. *)

From stdpp Require Import gmap.
From S2P Require Import Prelude GoStd Escape Util Http HttpSpec State StateSpec Server ServerInv ServerSpec LockQueue PollLoop.

Definition EPOLLIN : Z := 1.
Definition EPOLLOUT : Z := 4.

(** ** What it watches *)

(** [EpollCtl]: a descriptor is added once, and changed when it is there; anything else
    is an error, on which the callers panic ([None]). *)
Inductive ctl := EPOLL_CTL_ADD | EPOLL_CTL_MOD.

Definition EpollCtl (o : ctl) (fd ev : Z) (m : gmap Z Z) : option (gmap Z Z) :=
  match o, m !! fd with
  | EPOLL_CTL_ADD, None | EPOLL_CTL_MOD, Some _ => Some (<[fd := ev]> m)
  | _, _ => None
  end.

Definition AddReadWrite (fd : Z) : gmap Z Z -> option (gmap Z Z) :=
  EpollCtl EPOLL_CTL_ADD fd (Z.lor EPOLLIN EPOLLOUT).
Definition AddRead (fd : Z) : gmap Z Z -> option (gmap Z Z) := EpollCtl EPOLL_CTL_ADD fd EPOLLIN.
Definition ModRead (fd : Z) : gmap Z Z -> option (gmap Z Z) := EpollCtl EPOLL_CTL_MOD fd EPOLLIN.
Definition ModReadWrite (fd : Z) : gmap Z Z -> option (gmap Z Z) :=
  EpollCtl EPOLL_CTL_MOD fd (Z.lor EPOLLIN EPOLLOUT).

(** [OpenPoll] with the descriptors that the process has: what [EpollCreate1] and the
    system call for the eventfd answer ([None]: an error).  When the second fails, [err]
    is that of the first, which is nil. *)
Inductive open_panic := PanicErr | PanicNil | PanicCtl.

Definition open_poll (p r0 : option Z) (fds : gset Z) : gset Z * (open_panic + Z * Z * gmap Z Z) :=
  match p with
  | None => (fds, inl PanicErr)
  | Some p =>
      match r0 with
      | None => (fds, inl PanicNil)
      | Some r0 =>
          let fds := {[r0]} ∪ ({[p]} ∪ fds) in
          match AddRead r0 ∅ with
          | Some m => (fds, inr (p, r0, m))
          | None => (fds, inl PanicCtl)
          end
      end
  end.

(** [Close]: [ok] tells of which descriptors closing succeeds.  When it fails for the
    eventfd the other descriptor is left. *)
Definition close_poll (ok : Z -> bool) (fd wfd : Z) (fds : gset Z) : gset Z * bool :=
  if negb (ok wfd) then (fds, false)
  else if negb (ok fd) then (fds ∖ {[wfd]}, false)
  else (fds ∖ {[wfd]} ∖ {[fd]}, true).

Lemma open_close p r0 fds :
  p ∉ fds -> r0 ∉ fds -> p <> r0 ->
  exists fds' m, open_poll (Some p) (Some r0) fds = (fds', inr (p, r0, m)) /\
    close_poll (fun _ => true) p r0 fds' = (fds, true).
Proof.
  intros Hp Hr Hne. eexists _, _. split; [reflexivity|]. cbn. f_equal. apply set_eq. intros x.
  rewrite !elem_of_difference, !elem_of_union, !elem_of_singleton.
  split; [intros [[[?|[?|?]] ?] ?]; done|]. intros Hx. split_and!; [by right; right|congruence..].
Qed.

(** ** The loop of [Wait] *)

(** The flags that [iter] is called with for the events [ev]. *)
Definition flags (ev : Z) : Z :=
  let flag := 0 in
  let flag := if 0 <? Z.land ev EPOLLOUT then Z.lor flag WRITE else flag in
  if 0 <? Z.land ev EPOLLIN then Z.lor flag READ else flag.

(** The eventfd: its descriptor and its counter. *)
Record epoll := mkEpoll { wfd : Z; counter : Z }.

(** [Trigger] writes one to the eventfd. *)
Definition epoll_signal (k : epoll) : epoll := mkEpoll k.(wfd) (k.(counter) + 1).

(** [EpollWait] answers up to 64 events (none at its time-out of 100 ms and when it
    was interrupted), one for the eventfd only while its counter is positive. *)
Definition EpollWait_returns (evs : list (Z * Z)) (k : epoll) : option epoll :=
  if decide ((length evs <= 64)%nat /\ (k.(wfd) ∈ evs.*1 -> 0 < k.(counter))) then Some k else None.

(** The loop over the events; reading the eventfd resets it. *)
Definition handle_epoll (ev : Z * Z) (k : epoll) : epoll * option (Z * Z) :=
  let (fd, ev) := ev in
  if decide (fd <> k.(wfd)) then (k, Some (fd, flags ev)) else (mkEpoll k.(wfd) 0, None).

#[export] Instance epoll_kernel : PollKernel epoll (Z * Z) Empty_set := {
  signal := epoll_signal;
  kernel_step := fun a _ _ => match a with end;
  wait_returns := EpollWait_returns;
  handle := handle_epoll;
}.

Definition OpenPoll (wfd : Z) : Poll epoll (Z * Z) := newPoll (mkEpoll wfd 0).

(** ** The calls of the server *)

Definition mode_events (m : mode) : Z :=
  match m with MRead => EPOLLIN | MReadWrite => Z.lor EPOLLIN EPOLLOUT end.

Section server.
Context `{Env} {U : Type} (hd : @Handlers U).

(** The connections of the listener, as the kernel watches them. *)
Definition watching (s : @Listener U) : gmap Z Z := mode_events <$> s.(interest).

Lemma watching_mod (fd : Z) (g : mode) (s : @Listener U) :
  is_Some (s.(interest) !! fd) ->
  EpollCtl EPOLL_CTL_MOD fd (mode_events g) (watching s) = Some (watching (with_interest <[fd := g]> s)).
Proof using.
  intros [g0 Hg]. unfold EpollCtl, watching. rewrite lookup_fmap, Hg. cbn. by rewrite fmap_insert.
Qed.
End server.

(** ** Theorems *)

(** C12: the poller is never asked for what it refuses.  In every state of the listener,
    for every connection that is open, [ModRead] and [ModReadWrite] of its descriptor do
    not panic, and the kernel then watches what the model of the server says; nor does
    [AddRead] of a descriptor that the kernel has just given. *)
Theorem server_never_refused `{Env} {U : Type} (hd : @Handlers U) timeout s :
  max_ok -> reachable hd timeout s ->
  (forall id c, s.(conns) !! id = Some c -> c.(closedFlag) = false ->
     ModRead c.(fd) (watching s) = Some (watching (Server.ModRead c.(fd) s)) /\
     ModReadWrite c.(fd) (watching s) = Some (watching (Server.ModReadWrite c.(fd) s))) /\
  (forall nfd, s.(fdconns) !! nfd = None ->
     AddRead nfd (watching s) = Some (watching (with_interest <[nfd := MRead]> s))).
Proof.
  intros Hmax Hr. destruct (reachable_wf hd timeout s Hmax Hr) as [Hc _]. split.
  - intros id c Hid Hop. assert (is_Some (s.(interest) !! c.(fd))) as Hi.
    { apply elem_of_dom. rewrite (core_interest _ Hc). apply elem_of_dom. by eapply core_open. }
    split; [by apply (watching_mod c.(fd) MRead)|by apply (watching_mod c.(fd) MReadWrite)].
  - intros nfd Hn. apply not_elem_of_dom in Hn. rewrite <- (core_interest _ Hc) in Hn. apply not_elem_of_dom in Hn.
    unfold AddRead, EpollCtl, watching. rewrite lookup_fmap, Hn. cbn. by rewrite fmap_insert.
Qed.

(** C22: a descriptor that is triggered is written.  Whatever ran before, once
    [EpollWait] returns, for an event or by its time-out of a tenth of a second,
    [Wait] calls its callback with the flag [WRITE] once for each descriptor that
    was added and not served yet, before it looks at the events, in three steps a
    descriptor; no descriptor is forgotten, and none is served twice. *)
Theorem trigger_served wfd l p es evs p1 :
  prun l (OpenPoll wfd) = Some (p, es) -> pstep (PWait evs) p = Some (p1, []) ->
  exists fds p', prun (replicate (2 + 3 * length fds) (PTake true)) p1 = Some (p', IterWrite <$> fds) /\
    p'.(wt) = WEvents evs /\ served es ++ fds ≡ₚ triggered es.
Proof.
  intros Hrun Hw. destruct (triggers_served _ _ _ _ _ _ Hrun Hw) as (fds & p' & E & Hw' & _ & Hp & _).
  by exists fds, p'.
Qed.

(** Two calls of [Trigger], the second while [Wait] is between the queue and the
    eventfd. *)
Definition late_schedule (wfd fd1 fd2 : Z) : list (paction (Z * Z) Empty_set) :=
  Trigger 1 1 fd1 ++ [PWait [(wfd, EPOLLIN)]] ++ (replicate 5 (PTake true) ++ Trigger 2 1 fd2) ++
  [PEvent true; PEvent true].

(** A wake-up can be lost.  [Wait] empties the queue first and the eventfd
    afterwards: a [Trigger] that comes between the two is complete, its descriptor
    in the queue, and the counter is 0 when [Wait] goes back to [EpollWait]: the
    descriptor waits for another event or for the time-out. *)
Theorem wakeup_lost wfd fd1 fd2 :
  exists p, prun (late_schedule wfd fd1 fd2) (OpenPoll wfd)
            = Some (p, [Triggered fd1; IterWrite fd1; Triggered fd2]) /\
    p.(wt) = WAtWait /\ p.(kern).(counter) = 0 /\ p.(pending) = 0%nat /\ p.(writeFds).(root) <> None.
Proof.
  unfold late_schedule. set (second := replicate 5 _ ++ _).
  assert (exists p1, prun (Trigger 1 1 fd1) (OpenPoll wfd) = Some (p1, [Triggered fd1]) /\
            p1.(wt) = WAtWait /\ p1.(kern) = mkEpoll wfd 1 /\
            exists p2, prun second (mkPoll p1.(writeFds) p1.(pending) (mkEpoll wfd 1) (WSwap [(wfd, EPOLLIN)]))
                       = Some (p2, [IterWrite fd1; Triggered fd2]) /\
              p2.(wt) = WEvents [(wfd, EPOLLIN)] /\ p2.(pending) = 0%nat /\ p2.(kern) = mkEpoll wfd 2 /\
              p2.(writeFds).(root) <> None)
    as (p1 & E1 & Hw1 & Hc1 & p2 & E2 & Hw2 & Hp2 & Hk2 & Hr2).
  { eexists. split; [vm_compute; reflexivity|]. split; [done|]. split; [done|].
    eexists. split; [vm_compute; reflexivity|]. done. }
  exists (mkPoll p2.(writeFds) 0 (mkEpoll wfd 0) WAtWait). split; [|done].
  rewrite prun_app, E1. cbn [mbind option_bind]. rewrite prun_app. clearbody second.
  cbn [prun pstep]. rewrite Hw1. cbn [wait_returns epoll_kernel]. unfold EpollWait_returns. rewrite Hc1. cbn [Poll.wfd counter].
  rewrite decide_True by (split; [cbn; lia|lia]).
  cbn [mbind option_bind]. rewrite prun_app, E2. cbn [mbind option_bind prun pstep].
  rewrite Hw2, Hk2. cbn [handle epoll_kernel]. unfold handle_epoll. cbn [Poll.wfd]. rewrite decide_False by tauto. cbn. by rewrite Hp2.
Qed.

(** ** Witnesses *)

Definition ex_triggers {E A} : list (paction E A) :=
  (PQueue <$> [Start 1 7; Adder 1 1%positive; Start 2 8; Adder 2 2%positive; Adder 1 1%positive;
               Adder 2 2%positive; Adder 1 1%positive; Adder 1 1%positive; Adder 1 1%positive;
               Adder 2 2%positive; Adder 2 2%positive; Adder 2 2%positive; Adder 2 2%positive]) ++ [PSignal].

Lemma trigger_served_witness :
  exists p p1, prun ex_triggers (OpenPoll 4) = Some (p, [Triggered 7]) /\
    pstep (PWait [(4, 1)]) p = Some (p1, []) /\
    exists fds p', prun (replicate (2 + 3 * length fds) (PTake true)) p1 = Some (p', IterWrite <$> fds) /\
      p'.(wt) = WEvents [(4, 1)] /\ served [Triggered 7] ++ fds ≡ₚ triggered [Triggered 7].
Proof.
  do 2 eexists. split; [vm_compute; reflexivity|]. split; [vm_compute; reflexivity|].
  eapply (trigger_served 4 ex_triggers _ _ [(4, 1)]); vm_compute; reflexivity.
Defined.

Lemma server_never_refused_witness :
  ModReadWrite 5 (watching ex_listener) = Some (watching (Server.ModReadWrite 5 ex_listener)) /\
  AddRead 6 (watching ex_listener) = Some {[5 := EPOLLIN; 6 := EPOLLIN]}.
Proof.
  destruct (@server_never_refused default_env Z ex_handlers 0 ex_listener max_ok_default ex_reachable) as [H1 H2]. split.
  - apply (H1 1 (set_lastTs 10 (newConn 5))); [vm_compute; reflexivity|done].
  - rewrite H2 by done. vm_compute. reflexivity.
Defined.
