(* ===== verification/PollBsd.v ===== *)
(** The poller for the BSDs and Darwin (src/internal/internal_bsd.go): the loop of
    [PollLoop] over a kqueue.

    What is to be watched is collected in a slice, [changes], that the next call of
    [Kevent] hands to the kernel; other goroutines append to it too (one step
    here).  The kernel keeps a filter until its descriptor is closed, since
    nothing ever deletes one, and answers with an error event for a change of a
    closed descriptor.  The user event is that of [Trigger]. *)

From stdpp Require Import gmap.
From S2P Require Import Prelude LockQueue PollLoop GoStd Util RespClient FdMap Client ClientInv ClientSpec.

(** ** State *)

Inductive filter := EVFILT_READ | EVFILT_WRITE | EVFILT_USER.

#[export] Instance filter_eq_dec : EqDecision filter.
Proof. solve_decision. Defined.
#[export] Instance filter_countable : Countable filter.
Proof.
  apply (inj_countable' (fun f => match f with EVFILT_READ => 0 | EVFILT_WRITE => 1 | EVFILT_USER => 2 end)
           (fun n : Z => if n =? 0 then EVFILT_READ else if n =? 1 then EVFILT_WRITE else EVFILT_USER)).
  by intros [].
Defined.

(** An event of [Kevent]: [Ident], [Filter], and whether [EV_EOF] is among the flags. *)
Record kevent := mkKevent { ident : Z; filt : filter; ev_eof : bool }.

(** [changes] of the poller; in the kernel: the filters (but for the user event),
    the changes that it has refused, whether the user event is triggered, and
    whether the loop is inside [Kevent]. *)
Record kqueue := mkKqueue {
  changes : list (Z * filter);
  registered : gset (Z * filter);
  refused : list (Z * filter);
  user_event : bool;
  blocked : bool;
}.

Definition AddRead (fd : Z) (k : kqueue) : kqueue :=
  mkKqueue (k.(changes) ++ [(fd, EVFILT_READ)]) k.(registered) k.(refused) k.(user_event) k.(blocked).
Definition AddReadWrite (fd : Z) (k : kqueue) : kqueue :=
  mkKqueue (k.(changes) ++ [(fd, EVFILT_WRITE)]) k.(registered) k.(refused) k.(user_event) k.(blocked).
Definition ModRead (fd : Z) (k : kqueue) : kqueue := AddRead fd k.
Definition ModReadWrite (fd : Z) (k : kqueue) : kqueue := AddReadWrite fd k.

(** ** Steps *)

(** What else happens to a kqueue: its methods, by any goroutine; the loop calls
    [Kevent] ([bad]: the closed descriptors among the changes); a descriptor is
    closed. *)
Inductive kaction :=
| KAddRead (fd : Z)
| KAddReadWrite (fd : Z)
| KModRead (fd : Z)
| KModReadWrite (fd : Z)
| KEnter (bad : list Z)
| KClose (fd : Z).

Definition Kevent_enter (bad : list Z) (k : kqueue) : kqueue :=
  mkKqueue k.(changes)
    (k.(registered) ∪ list_to_set (base.filter (fun c => c.1 ∉ bad) k.(changes)))
    (base.filter (fun c => c.1 ∈ bad) k.(changes)) k.(user_event) true.

(** The kernel reports the filters that it has, the changes that it refused, and
    the user event while it is triggered. *)
Definition may_report (k : kqueue) (ev : kevent) : Prop :=
  match ev.(filt) with
  | EVFILT_USER => ev.(ident) = 0 /\ k.(user_event) = true
  | f => (ev.(ident), f) ∈ k.(registered) \/ (ev.(ident), f) ∈ k.(refused)
  end.

#[export] Instance may_report_dec k ev : Decision (may_report k ev).
Proof. unfold may_report. destruct ev as [i [] e]; cbn; apply _. Defined.

Definition is_user (ev : kevent) : bool := match ev.(filt) with EVFILT_USER => true | _ => false end.

(** [Kevent] returns up to 128 events (none when it was interrupted), resets the
    user event if it is one of them, and the loop drops [changes]. *)
Definition Kevent_returns (evs : list kevent) (k : kqueue) : option kqueue :=
  if decide (k.(blocked) = true /\ (length evs <= 128)%nat /\ Forall (may_report k) evs) then
    Some (mkKqueue [] k.(registered) [] (k.(user_event) && negb (existsb is_user evs)) false)
  else None.

(** The loop over the events; a filter that is not expected is printed. *)
Definition handle_kevent (ev : kevent) : option (Z * Z) :=
  if ev.(ident) =? 0 then None
  else
    match ev.(filt) with
    | EVFILT_WRITE => Some (ev.(ident), WRITE)
    | EVFILT_READ => Some (ev.(ident), if ev.(ev_eof) then Z.lor READ EOF else READ)
    | EVFILT_USER => None
    end.

(** [Trigger]: [NOTE_TRIGGER] on the user event. *)
Definition kqueue_signal (k : kqueue) : kqueue :=
  mkKqueue k.(changes) k.(registered) k.(refused) true k.(blocked).

Definition kqueue_step (a : kaction) (at_wait : bool) (k : kqueue) : option kqueue :=
  match a with
  | KAddRead fd => Some (AddRead fd k)
  | KAddReadWrite fd => Some (AddReadWrite fd k)
  | KModRead fd => Some (ModRead fd k)
  | KModReadWrite fd => Some (ModReadWrite fd k)
  | KEnter bad => if at_wait && negb k.(blocked) then Some (Kevent_enter bad k) else None
  | KClose fd =>
      Some (mkKqueue k.(changes) (base.filter (fun c => c.1 <> fd) k.(registered)) k.(refused)
              k.(user_event) k.(blocked))
  end.

#[export] Instance kqueue_kernel : PollKernel kqueue kevent kaction := {
  signal := kqueue_signal;
  kernel_step := kqueue_step;
  wait_returns := Kevent_returns;
  handle := fun ev k => (k, handle_kevent ev);
}.

Definition OpenPoll : Poll kqueue kevent := newPoll (mkKqueue [] ∅ [] false false).

Local Abbreviation Poll := (Poll kqueue kevent).
Local Abbreviation paction := (paction kevent kaction).
Implicit Types (p : Poll) (k : kqueue) (l : list paction).

(** ** Lemmas: the user event *)

(** While there is a descriptor in the queue, a [Trigger] is about to set the user
    event, or it is set, or the loop is about to empty the queue. *)
Definition wake_ok p : Prop :=
  p.(writeFds).(root) <> None ->
  (0 < p.(pending))%nat \/ p.(kern).(user_event) = true \/
  (exists evs, p.(wt) = WSwap evs /\ p.(writeFds).(tk) = TIdle) \/ p.(wt) = WError.

Lemma taker_root ok q q' e :
  SwapOutForEach_step ok q = Some (q', e) ->
  q'.(root) = match q.(tk) with TIdle => None | _ => q.(root) end.
Proof.
  unfold SwapOutForEach_step, mbind, option_bind. intros E. repeat (case_match; simplify_eq/=; try done).
Qed.

Lemma kernel_step_user a b k k' : kernel_step a b k = Some k' -> k'.(user_event) = k.(user_event).
Proof. destruct a; cbn; try (by intros [= <-]). case_match; [|done]. by intros [= <-]. Qed.

Lemma pstep_wake_ok a p p' e : waiter_ok p -> wake_ok p -> pstep a p = Some (p', e) -> wake_ok p'.
Proof.
  unfold wake_ok. intros Hw Hok Hs. destruct a as [a| |a|evs| |ok|ok].
  - apply pstep_PQueue in Hs as (Ha & -> & -> & x & E & Hx). destruct (add_frame _ _ _ _ Ha E) as [-> Hr].
    destruct x as [[]|]; try done; destruct Hx as [_ ->]; [lia|]. by rewrite Hr.
  - cbn in Hs. destruct p.(pending); [done|]. injection Hs as <- <-. cbn. auto.
  - cbn [pstep] in Hs. destruct (kernel_step _ _ _) as [k|] eqn:E; [|done]. apply kernel_step_user in E.
    cbn in Hs. injection Hs as <- <-. cbn. by rewrite E.
  - unfold waiter_ok in Hw. cbn [pstep] in Hs. destruct p.(wt); try done.
    destruct (wait_returns _ _); [|done]. cbn in Hs. injection Hs as <- <-. cbn. eauto 10.
  - cbn in Hs. destruct p.(wt); try done. injection Hs as <- <-. cbn. auto.
  - cbn [pstep] in Hs. destruct p.(wt) as [|evs| |] eqn:Ew; try done.
    destruct (SwapOutForEach_step _ _) as [[q x]|] eqn:E; [|done]. cbn in Hs. injection Hs as <- <-.
    cbn [writeFds pending kern wt]. rewrite (taker_root _ _ _ _ E). intros Hr.
    destruct p.(writeFds).(tk) eqn:Et; [done|..];
      (destruct (Hok Hr) as [?|[?|[(? & ? & ?)|?]]]; [tauto|tauto|congruence|congruence]).
  - cbn [pstep] in Hs. destruct p.(wt) as [| |[|ev evs]|] eqn:Ew; try done.
    + injection Hs as <- <-. cbn. intros Hr. destruct (Hok Hr) as [?|[?|[(? & ? & ?)|?]]]; try congruence; tauto.
    + cbn [handle kqueue_kernel] in Hs. intros Hr.
      assert (p'.(kern) = p.(kern) /\ p'.(pending) = p.(pending) /\ p'.(writeFds) = p.(writeFds)) as (E1 & E2 & E3)
        by (destruct (handle_kevent ev) as [[? ?]|]; by simplify_eq/=).
      rewrite E1, E2. rewrite E3 in Hr. destruct (Hok Hr) as [?|[?|[(? & ? & ?)|?]]]; try congruence; tauto.
Qed.

Lemma prun_wake_ok l p es : prun l OpenPoll = Some (p, es) -> wake_ok p.
Proof.
  intros Hr. refine (proj2 (proj1 (prun_invariant (fun p => waiter_ok p /\ wake_ok p) (fun _ => True) (fun _ => True)
                              l OpenPoll p es _ _ _ Hr))); [|by apply Forall_true|by split; [|intros []]].
  intros a q q' e _ [Hw Hk] Hs. split; [|by apply Forall_true].
  split; [by eapply pstep_waiter_ok|by eapply pstep_wake_ok].
Qed.

(** ** Lemmas: the filters *)

(** The kernel knows nothing of the filter [f] of [fd], and nobody has asked for it. *)
Definition unwatched (fd : Z) (f : filter) (c : kqueue) : Prop :=
  ((fd, f) ∉ c.(changes)) /\ ((fd, f) ∉ c.(registered)) /\ (fd, f) ∉ c.(refused).

Definition no_event (fd : Z) (f : filter) p : Prop :=
  match p.(wt) with
  | WSwap evs | WEvents evs => Forall (fun ev => (ev.(ident), ev.(filt)) <> (fd, f)) evs
  | _ => True
  end.

(** What asks for the write filter of [fd]. *)
Definition asks_write (fd : Z) (a : paction) : Prop :=
  a = PKernel (KAddReadWrite fd) \/ a = PKernel (KModReadWrite fd).

Lemma may_report_watched k ev fd f :
  unwatched fd f k -> f <> EVFILT_USER -> may_report k ev -> (ev.(ident), ev.(filt)) <> (fd, f).
Proof. intros (_ & ? & ?) Hf Hr [= <- <-]. unfold may_report in Hr. destruct ev.(filt); tauto. Qed.

Lemma pstep_unwatched a fd p p' e :
  ~ asks_write fd a -> unwatched fd EVFILT_WRITE p.(kern) /\ no_event fd EVFILT_WRITE p ->
  pstep a p = Some (p', e) ->
  (unwatched fd EVFILT_WRITE p'.(kern) /\ no_event fd EVFILT_WRITE p') /\
  Forall (fun x => x <> IterEvent fd WRITE) e.
Proof.
  intros Ha [Hu Hn] Hs. destruct a as [a| |a|evs| |ok|ok].
  - apply pstep_PQueue in Hs as (_ & -> & Hw & x & _ & Hx). unfold no_event. rewrite Hw. split; [done|].
    assert (e = [] \/ exists v, e = [Triggered v]) as [->|[v ->]] by (destruct x as [[]|]; destruct Hx as [-> _]; eauto); [done|].
    by repeat constructor.
  - cbn in Hs. destruct p.(pending); by simplify_eq/=.
  - cbn [pstep] in Hs. destruct (kernel_step _ _ _) as [k|] eqn:E; [|done]. cbn in Hs. injection Hs as <- <-.
    split; [|done]. split; [|done]. cbn [kern]. destruct Hu as (H1 & H2 & H3).
    unfold asks_write in Ha. destruct a as [f|f|f|f|bad|f]; cbn in E; [..|case_match; [|done]|];
      injection E as <-; split_and!; cbn; try done;
      rewrite ?elem_of_app, ?list_elem_of_singleton, ?elem_of_union, ?elem_of_list_to_set, ?list_elem_of_filter,
        ?elem_of_filter; try tauto; intros [?|[= <-]]; tauto.
  - cbn [pstep] in Hs. destruct p.(wt); try done. cbn [wait_returns kqueue_kernel] in Hs.
    unfold Kevent_returns in Hs. case_decide as Hd; [|done]. cbn in Hs. injection Hs as <- <-.
    split; [|done]. cbn. destruct Hu as (H1 & H2 & H3). split; [by split_and!; [apply not_elem_of_nil| |apply not_elem_of_nil]|].
    destruct Hd as (_ & _ & Hd). eapply Forall_impl; [exact Hd|]. intros ev Hev.
    by eapply may_report_watched.
  - cbn in Hs. destruct p.(wt); by simplify_eq/=.
  - cbn [pstep] in Hs. unfold no_event in *. destruct p.(wt) as [|evs| |] eqn:Ew; try done.
    destruct (SwapOutForEach_step _ _) as [[q x]|] eqn:E; [|done]. cbn in Hs. injection Hs as <- <-.
    split; [|destruct x as [[]|]; by repeat constructor]. split; [done|]. cbn. by destruct q.(tk).
  - cbn [pstep] in Hs. unfold no_event in *. destruct p.(wt) as [| |[|ev evs]|] eqn:Ew; try done.
    + by injection Hs as <- <-.
    + cbn [handle kqueue_kernel] in Hs. apply Forall_cons in Hn as [Hev Hn]. unfold handle_kevent in Hs.
      destruct (ev.(ident) =? 0); [by injection Hs as <- <-|].
      destruct ev.(filt) eqn:Ef; injection Hs as <- <-; cbn; (split; [split; [done|by destruct ok]|]);
        repeat constructor; intros [= E]; [by destruct ev.(ev_eof)|congruence].
Qed.

(** A filter that the kernel has stays until its descriptor is closed. *)
Lemma pstep_registered a x p p' e :
  a <> PKernel (KClose x.1) -> x ∈ p.(kern).(registered) -> pstep a p = Some (p', e) ->
  x ∈ p'.(kern).(registered).
Proof.
  intros Ha Hx Hs. destruct a as [a| |a|evs| |ok|ok].
  - by apply pstep_PQueue in Hs as (_ & -> & _).
  - cbn in Hs. destruct p.(pending); by simplify_eq/=.
  - cbn [pstep] in Hs. destruct (kernel_step _ _ _) as [k|] eqn:E; [|done]. cbn in Hs. injection Hs as <- <-.
    cbn [kern]. destruct a as [f|f|f|f|bad|f]; cbn in E; [..|case_match; [|done]|]; injection E as <-; try done.
    + cbn. rewrite elem_of_union. by left.
    + cbn. rewrite elem_of_filter. split; [|done]. intros <-. done.
  - cbn [pstep] in Hs. destruct p.(wt); try done. cbn [wait_returns kqueue_kernel] in Hs.
    unfold Kevent_returns in Hs. case_decide; [|done]. cbn in Hs. by injection Hs as <- <-.
  - cbn in Hs. destruct p.(wt); by simplify_eq/=.
  - cbn [pstep] in Hs. destruct p.(wt); try done.
    destruct (SwapOutForEach_step _ _) as [[q y]|]; [|done]. cbn in Hs. by injection Hs as <- <-.
  - cbn [pstep] in Hs. destruct p.(wt) as [| |[|ev evs]|]; try done; [by injection Hs as <- <-|].
    cbn [handle kqueue_kernel] in Hs. by destruct (handle_kevent ev) as [[? ?]|]; injection Hs as <- <-.
Qed.

(** ** Theorems *)

(** The user event alone. *)
Definition wake : kevent := mkKevent 0 EVFILT_USER false.

(** C23: a [Trigger] is never left waiting.  Whatever ran before, when the loop is at
    [Kevent] and there is a descriptor in the queue, all of the [Trigger]s having
    returned, then the user event is there: [Kevent] answers with it, with no other
    event and no time-out, and the loop calls its callback for that descriptor and
    for each other one that has been added and not served. *)
Theorem trigger_wakes l p es :
  prun l OpenPoll = Some (p, es) -> p.(wt) = WAtWait -> p.(pending) = 0%nat -> p.(writeFds).(root) <> None ->
  let enter := if p.(kern).(blocked) then [] else [PKernel (KEnter [])] in
  exists fds p', fds <> [] /\
    prun (enter ++ PWait [wake] :: replicate (2 + 3 * length fds) (PTake true)) p = Some (p', IterWrite <$> fds) /\
    p'.(wt) = WEvents [wake] /\ served es ++ fds ≡ₚ triggered es.
Proof.
  intros Hrun Hw Hp Hr enter.
  assert (p.(kern).(user_event) = true) as Hu.
  { destruct (prun_wake_ok l p es Hrun Hr) as [?|[?|[(evs & ? & _)|?]]]; [lia|done|congruence|congruence]. }
  assert (exists k, prun enter p = Some (mkPoll p.(writeFds) p.(pending) k p.(wt), []) /\
            k.(blocked) = true /\ k.(user_event) = true) as (k & He & Hb & Hk).
  { unfold enter. destruct p.(kern).(blocked) eqn:Hb.
    - exists p.(kern). by destruct p.
    - exists (Kevent_enter [] p.(kern)). cbn [prun pstep kernel_step kqueue_kernel kqueue_step]. unfold at_wait. rewrite Hw, Hb. done. }
  set (p1 := mkPoll p.(writeFds) p.(pending) k p.(wt)) in *.
  assert (exists p2, pstep (PWait [wake]) p1 = Some (p2, [])) as [p2 E2].
  { eexists. cbn [pstep p1 wt]. rewrite Hw. cbn [wait_returns kqueue_kernel kern]. unfold Kevent_returns.
    rewrite decide_True; [reflexivity|]. split_and!; [done|cbn; lia|by repeat constructor]. }
  assert (prun (l ++ enter) OpenPoll = Some (p1, es)) as Hrun1.
  { rewrite prun_app, Hrun. cbn [mbind option_bind]. rewrite He. cbn. by rewrite app_nil_r. }
  destruct (triggers_served _ _ _ _ _ _ Hrun1 E2) as (fds & p' & E & Hw' & _ & Hperm & Hne).
  exists fds, p'. split; [by apply Hne|]. split; [|done].
  rewrite prun_app, He. cbn [mbind option_bind prun]. rewrite E2. cbn [mbind option_bind]. by rewrite E.
Qed.

(** A change that the loop finds when it calls [Kevent] lasts until its descriptor
    is closed, and its events are reported. *)
Theorem change_kept fd f bad p p1 l p2 es :
  (fd, f) ∈ p.(kern).(changes) -> fd ∉ bad -> pstep (PKernel (KEnter bad)) p = Some (p1, []) ->
  PKernel (KClose fd) ∉ l -> prun l p1 = Some (p2, es) -> (fd, f) ∈ p2.(kern).(registered).
Proof.
  intros Hc Hb He Hl Hr.
  assert ((fd, f) ∈ p1.(kern).(registered)) as H1.
  { cbn [pstep kernel_step kqueue_kernel kqueue_step] in He. case_match; [|done]. cbn in He. injection He as <-. cbn.
    rewrite elem_of_union, elem_of_list_to_set, list_elem_of_filter. auto. }
  refine (proj1 (prun_invariant (fun p => (fd, f) ∈ p.(kern).(registered)) (fun a => a <> PKernel (KClose fd))
                   (fun _ => True) l p1 p2 es _ _ H1 Hr)).
  - intros a q q' e Ha Hq Hs. split; [by eapply (pstep_registered a (fd, f))|by apply Forall_true].
  - apply Forall_forall. intros a Hin ->. done.
Qed.

(** A change that is lost.  [AddReadWrite] from another goroutine while the loop
    is inside [Kevent], as the client makes it for a new connection, never reaches
    the kernel: the loop drops it when [Kevent] returns, and however long it runs
    on, until somebody asks again, no event calls for a write to that descriptor. *)
Theorem change_lost fd p p1 evs p2 l p3 es :
  p.(kern).(blocked) = true -> ((fd, EVFILT_WRITE) ∉ p.(kern).(registered)) ->
  ((fd, EVFILT_WRITE) ∉ p.(kern).(refused)) ->
  pstep (PKernel (KAddReadWrite fd)) p = Some (p1, []) -> pstep (PWait evs) p1 = Some (p2, []) ->
  Forall (fun a => ~ asks_write fd a) l -> prun l p2 = Some (p3, es) ->
  p2.(kern).(changes) = [] /\ (IterEvent fd WRITE ∉ es).
Proof.
  intros Hb Hr Hf E1 E2 Hl E3. cbn in E1. injection E1 as <-.
  cbn [pstep wt] in E2. destruct p.(wt); try done. cbn [wait_returns kqueue_kernel] in E2.
  unfold Kevent_returns in E2. case_decide as Hd; [|done]. cbn in E2. injection E2 as <-. split; [done|].
  assert (Forall (fun x => x <> IterEvent fd WRITE) es) as He.
  { refine (proj2 (prun_invariant (fun p => unwatched fd EVFILT_WRITE p.(kern) /\ no_event fd EVFILT_WRITE p)
                     (fun a => ~ asks_write fd a) _ l _ p3 es _ Hl _ E3)).
    - intros a q q' e Ha Hq Hs. by eapply pstep_unwatched.
    - cbn. split; [by split_and!; [apply not_elem_of_nil| |apply not_elem_of_nil]|].
      destruct Hd as (_ & _ & Hd). eapply Forall_impl; [exact Hd|]. intros ev Hev.
      unfold may_report in Hev. cbn in Hev. intros [= <- Ef]. rewrite Ef in Hev. tauto. }
  rewrite Forall_forall in He. intros Hin. by apply (He _ Hin).
Qed.

Section client.
Context {M : Type} `{FdTable M Z}.
Context (cfg : config).

(** Idle connections do not last.  Nothing takes a write filter back ([ModRead]
    only adds one for reading), so that a connection of the client, all of whose
    first events are writes, is still watched for writing when its reply has come
    and it is idle; the kernel may report it at once, and the client closes the
    connection as not active, but leaves it in the channel for the next call. *)
Theorem idle_connection_closed p0 bad p1 l p es id c w r (s : @Client M) :
  (c.(cfd), EVFILT_WRITE) ∈ p0.(kern).(changes) -> (c.(cfd) ∉ bad) -> c.(cfd) <> 0 ->
  pstep (PKernel (KEnter bad)) p0 = Some (p1, []) ->
  (PKernel (KClose c.(cfd)) ∉ l) -> prun l p1 = Some (p, es) ->
  p.(wt) = WAtWait -> p.(kern).(blocked) = true ->
  pool_ok cfg s -> id ∈ s.(fdIdle) -> s.(conns) !! id = Some c -> view s.(fdConns) !! c.(cfd) = Some id ->
  cfg.(sys_close_fails) c.(cfd) = false ->
  let ev := mkKevent c.(cfd) EVFILT_WRITE false in
  exists p' flag s', pstep (PWait [ev]) p = Some (p', []) /\ handle_kevent ev = Some (c.(cfd), flag) /\
    on_event cfg c.(cfd) (0 <? Z.land flag WRITE) w r s = Ok s' /\
    CEvError (bs "write") ∈ s'.(clog) /\ view s'.(fdConns) !! c.(cfd) = None /\ id ∈ s'.(fdIdle).
Proof using.
  intros Hc Hbad H0 He Hl Hr Hw Hb Hp Hin Hid Hv Hsc ev.
  pose proof (change_kept _ _ _ _ _ _ _ _ Hc Hbad He Hl Hr) as Hreg.
  destruct (pool_idle cfg s Hp id Hin) as (c0 & Hid0 & Hcb & _). assert (c0 = c) as -> by congruence.
  pose proof (pool_table cfg s Hp) as Htab. pose proof (view_Cap _ _ _ Htab Hv) as [Hge _].
  destruct (close_used cfg id (bs "write") (Some eNotActive) s c) as (s' & Hcl & _ & _ & Ei & Ev & _ & El); try done.
  eexists _, WRITE, s'. split_and!.
  - cbn [pstep]. rewrite Hw. cbn [wait_returns kqueue_kernel]. unfold Kevent_returns.
    rewrite decide_True; [reflexivity|]. split_and!; [done|cbn; lia|]. constructor; [|done]. by left.
  - unfold handle_kevent. cbn [ev ident filt]. by rewrite (proj2 (Z.eqb_neq _ _) H0).
  - change (0 <? Z.land WRITE WRITE) with true. unfold on_event. rewrite (Get_view _ _ Htab Hge), Hv.
    unfold cconn_at at 1. cbn [checked rbind]. rewrite Hid. cbn [checked rbind].
    rewrite Hcb, bool_decide_true by done. cbn [negb andb rbind]. exact Hcl.
  - rewrite El. rewrite !elem_of_app, !elem_of_cons. tauto.
  - by rewrite Ev, lookup_delete_eq.
  - by rewrite Ei.
Qed.
End client.

(** ** Witnesses *)

Definition ex_waiting : list paction := PKernel (KEnter []) :: Trigger 1 1 7.

(** The poller after a run. *)
Definition after (l : list paction) p : Poll := match prun l p with Some (p', _) => p' | None => p end.

Lemma trigger_wakes_witness :
  let p := after ex_waiting OpenPoll in
  exists fds p', fds <> [] /\
    prun ([] ++ PWait [wake] :: replicate (2 + 3 * length fds) (PTake true)) p = Some (p', IterWrite <$> fds) /\
    p'.(wt) = WEvents [wake] /\ served [Triggered 7] ++ fds ≡ₚ triggered [Triggered 7].
Proof.
  apply (trigger_wakes ex_waiting (after ex_waiting OpenPoll) [Triggered 7]); by vm_compute.
Defined.

(** What runs on after [Kevent] has been interrupted. *)
Definition ex_round : list paction := [PTake true; PTake true; PEvent true; PKernel (KEnter []); PWait []].

Lemma change_lost_witness :
  let p := after [PKernel (KEnter [])] OpenPoll in
  let p1 := after [PKernel (KAddReadWrite 9)] p in
  let p2 := after [PWait []] p1 in
  let p3 := after ex_round p2 in
  prun ex_round p2 = Some (p3, []) /\ p2.(kern).(changes) = [] /\ IterEvent 9 WRITE ∉ [].
Proof.
  intros p p1 p2 p3. split; [by vm_compute|].
  apply (change_lost 9 p p1 [] p2 ex_round p3 []); try by vm_compute.
  { apply not_elem_of_nil. }
  unfold ex_round. rewrite !Forall_cons, Forall_nil. split_and!; try done; by intros [?|?].
Defined.

(** A client's connection, the descriptor 5, has been connected, and the loop waits. *)
Definition ex_watched : Poll :=
  mkPoll newQueue 0 (mkKqueue [(5, EVFILT_WRITE)] ∅ [] false false) WAtWait.

Lemma idle_connection_closed_witness :
  let p1 := after [PKernel (KEnter [])] ex_watched in
  let ev := mkKevent 5 EVFILT_WRITE false in
  exists p' flag s', pstep (PWait [ev]) p1 = Some (p', []) /\ handle_kevent ev = Some (5, flag) /\
    on_event ex_cfg 5 (0 <? Z.land flag WRITE) (CWN 0) CRAgain ex_idle_client = Ok s' /\
    CEvError (bs "write") ∈ s'.(clog) /\ view s'.(fdConns) !! 5 = None /\ 1 ∈ s'.(fdIdle).
Proof.
  intros p1 ev.
  apply (idle_connection_closed ex_cfg ex_watched [] p1 [] p1 [] 1 (conn_of 1 ex_idle_client)
            (CWN 0) CRAgain ex_idle_client); try by vm_compute.
  - by vm_compute; left.
  - apply not_elem_of_nil.
  - apply not_elem_of_nil.
  - apply ex_idle_ok.
  - by vm_compute; left.
Defined.
