(* ===== verification/Wire.v ===== *)
(** A call of the client answered by the server: the client of src/redis/client.go
    and the event loop of src/server.go at the two ends of one connection, with
    the bytes between them.

    [wire_step] is one event at one end, in any order: the client or the server
    can write while its poller watches for it, and takes any part of what it has;
    either can read any part of what is on the way to it.  What [Exec], [OnRedis]
    and the reply writers put in is the subject; connecting, other connections,
    time-outs and failures are those of [ClientSpec] and [ServerSpec]. *)

From stdpp Require Import gmap.
From S2P Require Import Prelude GoStd Escape Util Redis Ws Http HttpSpec State StateSpec Server.
From S2P Require Import ServerInv ServerSpec RespClient FdMap Client ClientInv ClientSpec.

Section wire.
Context `{Env} {U M : Type} `{FdTable M Z}.
Context (hd : @Handlers U) (cfg : config).
(** The connection: identity and descriptor at the client and at the server; and
    the answer of the server's handler. *)
Context (cid fd sid sfd : Z) (answer : bytes).

(** Both ends, a [Trigger] of the client that its poller has not seen, and the
    bytes on the way to the server and to the client. *)
Record wire := mkWire {
  cl : @Client M;
  trig : bool;
  sv : @Listener U;
  up : bytes;
  down : bytes;
}.

(** An event that cannot happen now; or one that never ends. *)
Inductive wire_error := NotReady | Stuck.

Definition lift {E A} (r : res E A) : res wire_error A :=
  match r with Ok a => Ok a | Err _ => Err Stuck | Panic => Panic | OutOfFuel => OutOfFuel end.

(** One event; a number [k] stands for the [k + 1] first bytes, or all there are.
    The server's read may end with a write of the answer: [None] if the kernel
    takes nothing of it. *)
Inductive hop :=
| ClientWrites (k : nat)
| ServerReads (k : nat) (j : option nat)
| ServerWrites (k : nat)
| ClientReads (k : nat).

Definition part (k : nat) (b : bytes) : Z := Z.min (Z.of_nat (S k)) (len b).

(** The bytes the kernel has taken from a connection of the client. *)
Definition csent1 (id : Z) (e : cevent) : bytes :=
  match e with CEvSent id' p => if decide (id' = id) then p else [] | _ => [] end.
Definition csent (id : Z) (l : list cevent) : bytes := mbind (csent1 id) l.

(** What a log has more than another. *)
Definition news (f : bytes) (f' : bytes) : bytes := drop (length f) f'.

Definition client_can_write (w : wire) : bool :=
  w.(trig) || match w.(cl).(cinterest) !! fd with Some CReadWrite => true | _ => false end.
Definition client_can_read (w : wire) : bool :=
  match w.(cl).(cinterest) !! fd with Some CRead => true | _ => false end.
Definition server_can_write (w : wire) : bool :=
  match w.(sv).(interest) !! sfd with Some MReadWrite => true | _ => false end.

Definition wire_step (h : hop) (w : wire) : res wire_error wire :=
  match h with
  | ClientWrites k =>
      if negb (client_can_write w) then Err NotReady
      else
        let! c := checked (w.(cl).(Client.conns) !! cid) in
        let! s := lift (on_event cfg fd true (CWN (part k c.(cout))) CRAgain w.(cl)) in
        Ok (mkWire s false w.(sv) (w.(up) ++ news (csent cid w.(cl).(clog)) (csent cid s.(clog))) w.(down))
  | ServerReads k j =>
      let n := Z.to_nat (part k w.(up)) in
      if bool_decide (w.(up) = []) then Err NotReady
      else
        let a := match j with Some j => WN (part j answer) | None => WAgain (-1) end in
        let! s := lift (Server.readConn hd sid (RData (take n w.(up))) a w.(sv)) in
        Ok (mkWire w.(cl) w.(trig) s (drop n w.(up))
              (w.(down) ++ news (sent sid w.(sv).(log)) (sent sid s.(log))))
  | ServerWrites k =>
      if negb (server_can_write w) then Err NotReady
      else
        let! c := checked (w.(sv).(Server.conns) !! sid) in
        let! s := lift (Server.writeConn hd sid (WN (part k c.(outb))) w.(sv)) in
        Ok (mkWire w.(cl) w.(trig) s w.(up)
              (w.(down) ++ news (sent sid w.(sv).(log)) (sent sid s.(log))))
  | ClientReads k =>
      let n := Z.to_nat (part k w.(down)) in
      if bool_decide (w.(down) = []) || negb (client_can_read w) then Err NotReady
      else
        let! s := lift (on_event cfg fd false (CWAgain 0) (CRData (take n w.(down))) w.(cl)) in
        Ok (mkWire s w.(trig) w.(sv) w.(up) (drop n w.(down)))
  end.

Fixpoint wire_run (hs : list hop) (w : wire) : res wire_error wire :=
  match hs with
  | [] => Ok w
  | h :: hs => let! w := wire_step h w in wire_run hs w
  end.

(** What the program that made the call sees. *)
Definition is_callback (e : cevent) : bool :=
  match e with CbReply _ _ _ | CbError _ _ => true | _ => false end.
Definition callbacks (l : list cevent) : list cevent := List.filter is_callback l.

(** ** Lemmas *)

Lemma callbacks_app l1 l2 : callbacks (l1 ++ l2) = callbacks l1 ++ callbacks l2.
Proof using. apply List.filter_app. Qed.

Lemma csent_app id l1 l2 : csent id (l1 ++ l2) = csent id l1 ++ csent id l2.
Proof using. apply bind_app. Qed.

Lemma news_app a b : news a (a ++ b) = b.
Proof using. unfold news. by rewrite drop_app_length. Qed.

Lemma part_bound k b : b <> [] -> 0 < part k b <= len b.
Proof using.
  intros Hb. unfold part. destruct b as [|z b]; [done|]. rewrite len_cons. pose proof (len_nonneg b). lia.
Qed.
(** The client's kernel takes a part of the output. *)
Lemma client_writes cb c w k :
  pool_ok cfg w.(cl) -> live cfg cid fd cb c w.(cl) -> c.(cout) <> [] -> client_can_write w = true ->
  let m := Z.to_nat (part k c.(cout)) in
  exists w', wire_step (ClientWrites k) w = Ok w' /\
    pool_ok cfg w'.(cl) /\ live cfg cid fd cb (set_cout (drop m c.(cout)) c) w'.(cl) /\
    w'.(cl).(fdIdle) = w.(cl).(fdIdle) /\ callbacks w'.(cl).(clog) = callbacks w.(cl).(clog) /\
    w'.(trig) = false /\
    w'.(cl).(cinterest) !! fd = Some (if decide (drop m c.(cout) = []) then CRead else CReadWrite) /\
    w'.(sv) = w.(sv) /\ w'.(up) = w.(up) ++ take m c.(cout) /\ w'.(down) = w.(down).
Proof using.
  intros Hp Hl Hne Hw. cbn [wire_step]. rewrite Hw. cbn [negb]. pose proof Hl as (_ & Hid & _).
  rewrite Hid. cbn [checked checked_in rbind]. pose proof (part_bound k _ Hne) as Hm. set (m := part k c.(cout)) in *.
  destruct (write_event cfg cid fd cb _ m CRAgain _ Hp Hl Hm) as (t & E & Hr).
  rewrite E. cbn [lift rbind]. pose proof Hr as (_ & _ & Ei & _ & El).
  pose proof (live_replaced _ _ _ _ _ _ _ _ _ Hl Hr eq_refl eq_refl eq_refl) as Hl'.
  pose proof (pool_replaced _ _ _ _ _ _ _ _ _ Hp Hl Hr eq_refl eq_refl) as Hp'.
  eexists. split; [reflexivity|]. cbn [cl trig sv up down with_cinterest clog cinterest fdIdle].
  split_and!; try done.
  - by eapply pool_ext; [..|exact Hp'].
  - rewrite El, callbacks_app. cbn. by rewrite app_nil_r.
  - rewrite lookup_insert_eq. f_equal. destruct (Z.eqb_spec m (len c.(cout))) as [Em|Em].
    + rewrite decide_True; [done|]. rewrite Em. apply drop_ge. unfold len. lia.
    + rewrite decide_False; [done|]. intros E0%(f_equal length). rewrite length_drop in E0. cbn in E0.
      unfold len in *. lia.
  - f_equal. rewrite El, csent_app, news_app. unfold csent. cbn. by rewrite decide_True, app_nil_r.
Qed.

(** ** One exchange

    A connection of the client in use by the call [cb], with its command in the
    output and nothing else; the server's connection, fresh; a handler that answers
    the command with [answer]. *)
Section exchange.
Context (args : list bytes) (r : reply) (cb : nat) (c0 : CConn) (sc0 : Conn) (u : U) (w0 : wire).

Record exchange_start : Prop := {
  es_pool : pool_ok cfg w0.(cl);
  es_live : live cfg cid fd cb c0 w0.(cl);
  es_cout : c0.(cout) = command args;
  es_cin : c0.(cin) = [] /\ c0.(authState) = 0;
  es_client : client_can_write w0 = true;
  es_sconn : w0.(sv).(Server.conns) !! sid = Some sc0 /\ idle sc0;
  es_server : sc0.(srs) = newState /\ sc0.(inb) = [] /\ sc0.(outb) = [] /\ sc0.(Server.fd) = sfd;
  es_interest : w0.(sv).(interest) !! sfd = Some MRead;
  es_net : w0.(up) = [] /\ w0.(down) = [];
  es_answer : answer = enc r /\ reply_ok r /\ len answer <= cfg.(ResponseMaxBytes) < 2 ^ 62;
  es_handler req : (forall i : nat, Redis.Get req (Z.of_nat i) = Ok (args !! i)) ->
    hd.(OnRedis) req w0.(sv).(user) = (u, answer, true);
  es_command : len args <= 65535 /\ len (command args) <= RequestMaxBytes /\ max_ok;
}.

(** The client with [a] to write and [x] read of the reply. *)
Record client_at (w : wire) (a x : bytes) : Prop := {
  ca_pool : pool_ok cfg w.(cl);
  ca_live : live cfg cid fd cb (set_cout a (set_cin x c0)) w.(cl);
  ca_idle : w.(cl).(fdIdle) = w0.(cl).(fdIdle);
  ca_callbacks : callbacks w.(cl).(clog) = callbacks w0.(cl).(clog);
  ca_write : a <> [] -> client_can_write w = true;
  ca_read : a = [] -> w.(trig) = false /\ w.(cl).(cinterest) !! fd = Some CRead;
}.

(** The server with the input [inp], at [st], [o] to write, the requests [evs]
    handled. *)
Record server_at (w : wire) (inp : bytes) (st : serverReadState) (o : bytes) (evs : list event) : Prop := {
  sa_conn : w.(sv).(Server.conns) !! sid = Some (set_out o (set_in inp (set_srs st sc0)));
  sa_requests : requests w.(sv).(log) = requests w0.(sv).(log) ++ evs;
  sa_interest : w.(sv).(interest) !! sfd = Some match o with [] => MRead | _ => MReadWrite end;
}.

(** The request is the one that was sent. *)
Definition asked (req : Redis) : Prop := forall i : nat, Redis.Get req (Z.of_nat i) = Ok (args !! i).

(** The parser has taken [p] of the command. *)
Definition parsing (p inp : bytes) (st : serverReadState) : Prop :=
  state_ok inp st /\ len inp = len p /\
  forall x, len (p ++ x) < 2 ^ 32 -> process (inp ++ x) st = process (p ++ x) newState.

(** What the call comes to. *)
Record answered (w : wire) : Prop := {
  an_callbacks : callbacks w.(cl).(clog)
    = callbacks w0.(cl).(clog) ++ [CbReply cb (reader_of r) (error_of r)];
  an_idle : w.(cl).(fdIdle) = w0.(cl).(fdIdle) ++ [cid];
  an_request : exists req, asked req /\
    requests w.(sv).(log) = requests w0.(sv).(log) ++ [EvRedis sid req];
  an_net : w.(up) = [] /\ w.(down) = [];
}.

(** Where the exchange is: the command is on its way, the reply is, or the call is
    answered; with a bound on the events to come. *)
Inductive phase (w : wire) : nat -> Prop :=
| PhaseRequest p a inp st :
    client_at w a [] -> server_at w inp st [] [] -> w.(sv).(user) = w0.(sv).(user) ->
    w.(down) = [] -> p ++ w.(up) ++ a = command args -> w.(up) ++ a <> [] -> parsing p inp st ->
    phase w (2 * length a + length w.(up) + 2 * length answer)
| PhaseReply x o req :
    client_at w [] x -> server_at w [] newState o [EvRedis sid req] -> asked req -> w.(up) = [] ->
    x ++ w.(down) ++ o = answer -> w.(down) ++ o <> [] ->
    phase w (2 * length o + length w.(down))
| PhaseDone :
    answered w -> w.(trig) = false -> w.(cl).(cinterest) !! fd = Some CRead ->
    w.(sv).(interest) !! sfd = Some MRead -> phase w 0.

Context (Hst : exchange_start).

Lemma client_write w a x k :
  client_at w a x -> a <> [] ->
  exists w' m, wire_step (ClientWrites k) w = Ok w' /\ (0 < m <= length a)%nat /\
    client_at w' (drop m a) x /\ w'.(sv) = w.(sv) /\ w'.(up) = w.(up) ++ take m a /\
    w'.(down) = w.(down).
Proof using.
  intros [Hp Hl Hi Hc Hw _] Ha. pose proof (part_bound k a Ha) as Hm.
  destruct (client_writes _ _ w k Hp Hl Ha (Hw Ha)) as (w' & E & Hp' & Hl' & Ei & Ec & Et & Er & ? & ? & ?).
  cbn [set_cout cout] in *. exists w', (Z.to_nat (part k a)). split; [done|]. unfold len in Hm.
  split; [lia|]. split; [|done]. split; try done; [congruence..| |].
  - intros Hd. unfold client_can_write. rewrite Et, Er. by case_decide.
  - intros Hd. by rewrite Et, Er, decide_True.
Qed.

Lemma client_no_write w x k : client_at w [] x -> wire_step (ClientWrites k) w = Err NotReady.
Proof using.
  intros [_ _ _ _ _ Hr]. destruct (Hr eq_refl) as [E1 E2]. cbn [wire_step]. unfold client_can_write.
  by rewrite E1, E2.
Qed.

(** What the server's kernel takes of the output. *)
Lemma server_flush t evs o v :
  t.(Server.conns) !! sid = Some (set_out o sc0) -> wresult_ok (len o) v ->
  requests t.(log) = requests w0.(sv).(log) ++ evs -> (forall k, v = WAgain k -> drop (taken v) o <> []) ->
  exists s, Server.writeConn hd sid v t = Ok s /\
    sent sid s.(log) = sent sid t.(log) ++ take (taken v) o /\
    (forall w', w'.(sv) = s -> server_at w' [] newState (drop (taken v) o) evs).
Proof using Hst.
  intros Hid Hv Hreq Hag. destruct (es_sconn Hst) as [_ (Hop & Hl & Hws)].
  destruct (es_server Hst) as (Hs & Hin & _ & Hfd).
  destruct (writeConn_flushed hd sid v t (set_out o sc0)) as (s & E & Hf & Hr); [done..| |done|].
  { cbn. by rewrite Hws. }
  destruct (writeConn_input_kept hd sid v t s E) as [Hlog _].
  destruct Hf as (Ec & _ & _ & _ & Es & _ & _ & Ei). cbn [set_out outb Server.fd] in *.
  assert (sent sid s.(log) = sent sid t.(log) ++ take (taken v) o) as Esent.
  { apply (app_inv_tail (drop (taken v) o)). by rewrite <- app_assoc, take_drop. }
  exists s. split; [done|]. split; [done|]. intros w' <-. split.
  - rewrite Ec, lookup_insert_eq. f_equal. destruct sc0; cbn in *; by subst.
  - congruence.
  - rewrite Hfd in *. destruct (drop (taken v) o) as [|z l] eqn:Ed; [|by apply Ei].
    destruct v as [k|k|]; [|by destruct (Hag k)|done]. apply (Hr k); [done|].
    cbn [wresult_ok taken] in *. apply (f_equal length) in Ed. rewrite length_drop in Ed. cbn in Ed.
    unfold len in *. lia.
Qed.

Lemma server_write w o evs k :
  server_at w [] newState o evs -> o <> [] ->
  exists w' m, wire_step (ServerWrites k) w = Ok w' /\ (0 < m <= length o)%nat /\
    server_at w' [] newState (drop m o) evs /\ w'.(cl) = w.(cl) /\ w'.(trig) = w.(trig) /\
    w'.(up) = w.(up) /\ w'.(down) = w.(down) ++ take m o.
Proof using Hst.
  intros [Hc Hr Hi] Ho. cbn [wire_step]. unfold server_can_write. rewrite Hi, Hc.
  destruct (es_server Hst) as (Hs & Hin & _).
  assert (set_out o (set_in [] (set_srs newState sc0)) = set_out o sc0) as Ec
    by (destruct sc0; cbn in *; by subst).
  rewrite Ec in *. destruct o as [|z o']; [done|]. set (o := z :: o') in *.
  cbn [negb checked checked_in rbind set_out outb]. pose proof (part_bound k o Ho) as Hm.
  set (m := part k o) in *.
  destruct (server_flush w.(sv) evs o (WN m) Hc) as (s & E & Es & Hs'); [cbn; lia|done|done|].
  rewrite E. cbn [lift rbind taken] in *. rewrite Es, news_app.
  eexists _, (Z.to_nat m). split; [reflexivity|]. unfold len in Hm. split_and!; [lia|lia|..]; try done.
  by apply Hs'.
Qed.

Lemma server_no_write w inp st evs k :
  server_at w inp st [] evs -> wire_step (ServerWrites k) w = Err NotReady.
Proof using. intros [_ _ Hi]. cbn [wire_step]. unfold server_can_write. by rewrite Hi. Qed.

(** A part of the command arrives. *)
Lemma server_read_part w p a inp st k j :
  server_at w inp st [] [] -> w.(sv).(user) = w0.(sv).(user) -> w.(down) = [] ->
  p ++ w.(up) ++ a = command args -> parsing p inp st -> w.(up) <> [] ->
  let n := Z.to_nat (part k w.(up)) in
  drop n w.(up) ++ a <> [] ->
  exists w' inp' st', wire_step (ServerReads k j) w = Ok w' /\
    server_at w' inp' st' [] [] /\ w'.(sv).(user) = w0.(sv).(user) /\ w'.(cl) = w.(cl) /\
    w'.(trig) = w.(trig) /\ w'.(up) = drop n w.(up) /\ w'.(down) = [] /\
    parsing (p ++ take n w.(up)) inp' st'.
Proof using Hst.
  intros [Hc Hr Hi] Hu Hd Hcmd (Hok & Hlen & Hx) Hne n Hrest.
  destruct (es_command Hst) as (Ha & Hmax & Hmo). destruct (es_sconn Hst) as [_ Hidle].
  destruct (es_server Hst) as (Hs & Hin & Hout & _).
  set (d := take n w.(up)). set (q := drop n w.(up) ++ a) in *.
  assert (command args = (p ++ d) ++ q) as Hpq.
  { unfold d, q. by rewrite <- Hcmd, <- app_assoc, (app_assoc (take _ _)), take_drop. }
  assert (len (command args) < 2 ^ 32) as Hl32 by (unfold max_ok in Hmo; lia).
  assert (len (p ++ d) < len (command args)) as Hld.
  { rewrite Hpq, (len_app _ q). destruct q as [|z q']; [done|]. rewrite len_cons.
    pose proof (len_nonneg q'). lia. }
  set (c := set_out [] (set_in inp (set_srs st sc0))) in *.
  pose proof (command_not_wait_prefix args (p ++ d) q Hl32 Ha Hmo Hpq Hrest) as Hw.
  assert (len (c.(inb) ++ concat [d]) = len (p ++ d)) as Elen.
  { unfold c. cbn [set_out set_in inb concat]. by rewrite app_nil_r, !len_app, Hlen. }
  assert (process (c.(inb) ++ concat [d]) c.(srs) = process (p ++ d) newState) as Epr.
  { unfold c. cbn [set_out set_in set_srs inb srs concat]. rewrite app_nil_r. apply Hx. lia. }
  destruct (reads_wait hd sid [d] (match j with Some j => WN (part j answer) | None => WAgain (-1) end)
              w.(sv) c Hmo Hc) as (t & inp' & st' & E & Ht & Hok' & Hlen' & Hx').
  { destruct Hidle as (? & ? & ?). by split_and!. }
  { exact Hok. }
  { lia. }
  { by rewrite Epr. }
  cbn [reads] in E. cbn [wire_step]. rewrite bool_decide_false by done. fold n d.
  destruct (Server.readConn hd sid (RData d) _ w.(sv)) as [t'|?| |]; try done. injection E as ->.
  cbn [lift rbind]. destruct Ht as (Ec & _ & _ & _ & Ei & El & Eu & _). rewrite app_nil_r in El.
  eexists _, inp', st'. split; [reflexivity|]. rewrite El. cbn [cl trig sv up down].
  assert (news (sent sid w.(sv).(log)) (sent sid w.(sv).(log)) = []) as Enews.
  { unfold news. by apply drop_ge. }
  rewrite Enews, Hd. split_and!; try done.
  - split; cbn [sv]; [|by rewrite El|by rewrite Ei]. rewrite Ec, lookup_insert_eq.
    unfold c. by destruct sc0.
  - congruence.
  - split; [done|]. rewrite Hlen', Elen. split; [done|]. intros x Hxl. rewrite Hx'.
    + unfold c. cbn [set_out set_in set_srs inb srs concat]. rewrite app_nil_r, Hx; by rewrite ?app_assoc.
    + unfold c. cbn [set_out set_in set_srs inb srs concat]. rewrite app_nil_r.
      rewrite !len_app in *. lia.
Qed.
Lemma answer_pos : 0 < len answer < 2 ^ 62.
Proof using Hst.
  destruct (es_answer Hst) as (-> & Hr & Hl). split; [|lia]. apply enc_len_pos; [done|lia].
Qed.

(** The last part of the command arrives: the handler is called, and the answer
    begins to be written. *)
Lemma server_read_last w p inp st k j :
  server_at w inp st [] [] -> w.(sv).(user) = w0.(sv).(user) -> w.(down) = [] ->
  parsing p inp st -> w.(up) <> [] ->
  let n := Z.to_nat (part k w.(up)) in
  p ++ take n w.(up) = command args ->
  exists w' req o, wire_step (ServerReads k j) w = Ok w' /\ asked req /\
    server_at w' [] newState o [EvRedis sid req] /\ w'.(cl) = w.(cl) /\ w'.(trig) = w.(trig) /\
    w'.(up) = drop n w.(up) /\ w'.(down) ++ o = answer.
Proof using Hst.
  intros [Hc Hr Hi] Hu Hd (Hok & Hlen & Hx) Hne n Hcmd. set (d := take n w.(up)) in *.
  destruct (es_command Hst) as (Ha & Hmax & Hmo). destruct (es_sconn Hst) as [_ Hidle].
  destruct (es_server Hst) as (Hs & Hin & Hout & _). pose proof answer_pos as Hpos.
  assert (len (command args) < 2 ^ 32) as Hl32 by (unfold max_ok in Hmo; lia).
  pose proof (process_bulks_command args []) as Hp. rewrite app_nil_r in Hp. specialize (Hp Hl32 Ha).
  set (req := mkRedis _ _ _ _) in Hp. assert (asked req) as Hreq by (intros i; by apply Get_spans).
  set (c := set_out [] (set_in inp (set_srs st sc0))) in *.
  assert (process (c.(inb) ++ d) c.(srs) = (command args, mkState 999 (Some req) None, Ok tt)) as Hp1.
  { unfold c. cbn [set_out set_in set_srs inb srs]. rewrite Hx; by rewrite Hcmd. }
  set (v := match j with Some j => WN (part j answer) | None => WAgain (-1) end).
  assert (idle c) as Hic by (destruct Hidle as (? & ? & ?); by split_and!).
  pose proof (readConn_redis hd sid d v w.(sv) c (command args) (mkState 999 (Some req) None) req
                Hc Hic) as Hrd.
  assert (len (c.(inb) ++ d) <= RequestMaxBytes) as Hmax1.
  { unfold c. cbn [set_out set_in inb]. by rewrite len_app, Hlen, <- len_app, Hcmd. }
  specialize (Hrd Hmax1 Hp1 eq_refl eq_refl).
  assert (0 <= req.(read) <= len (command args)) as Hread
    by (unfold req; cbn [read]; pose proof (len_nonneg (command args)); lia).
  specialize (Hrd Hread). rewrite Hu, (es_handler Hst req Hreq) in Hrd.
  destruct Hrd as (t & Ht & Hrd). cbn [app] in Hrd, Ht.
  assert ((len (c.(outb) ++ answer) =? 0) = false) as E0.
  { unfold c. cbn [set_out outb app]. apply Z.eqb_neq. lia. }
  rewrite E0 in Hrd. cbn [wire_step]. rewrite bool_decide_false by done. fold n d v.
  rewrite Hrd. destruct Ht as (Ec & _ & _ & _ & _ & El & _).
  assert (wresult_ok (len answer) v) as Hv.
  { unfold v. destruct j as [j|]; cbn [wresult_ok]; [|lia].
    pose proof (part_bound j answer). destruct answer; [done|]. specialize (H1 ltac:(done)). lia. }
  destruct (server_flush t [EvRedis sid req] answer v) as (s & E & Es & Hs').
  { rewrite Ec, lookup_insert_eq. f_equal. unfold c, req. cbn [read set_out outb set_in app].
    rewrite drop_ge by (unfold len; lia). destruct sc0; cbn in *; by subst. }
  { done. }
  { by rewrite El, requests_app, Hr, app_nil_r. }
  { intros k' Ek. unfold v in *. destruct j; [done|]. intros Enil. change (answer = []) in Enil.
    apply (f_equal len) in Enil. rewrite len_nil in Enil. lia. }
  rewrite E. cbn [lift rbind]. eexists _, req, _. split; [reflexivity|]. split; [done|].
  split; [by apply Hs'|]. cbn [cl trig up down]. split_and!; try done. rewrite Hd, Es, El. cbn [app].
  replace (sent sid (w.(sv).(log) ++ [EvRedis sid req])) with (sent sid w.(sv).(log))
    by (unfold sent; rewrite bind_app; cbn; by rewrite app_nil_r).
  by rewrite news_app, take_drop.
Qed.
(** A part of the answer arrives, or the last of it. *)
Lemma client_read w x k :
  client_at w [] x -> w.(down) <> [] ->
  let n := Z.to_nat (part k w.(down)) in
  forall q, x ++ take n w.(down) ++ q = answer -> q <> [] ->
  exists w', wire_step (ClientReads k) w = Ok w' /\ client_at w' [] (x ++ take n w.(down)) /\
    w'.(sv) = w.(sv) /\ w'.(up) = w.(up) /\ w'.(down) = drop n w.(down).
Proof using Hst.
  intros [Hp Hl Hi Hc _ Hr] Hd n q Hq Hne. destruct (Hr eq_refl) as [Htr Hint].
  destruct (es_answer Hst) as (Ha & Hok & Hmax1 & Hmax2). destruct (es_cin Hst) as [_ Hau].
  cbn [wire_step]. rewrite bool_decide_false by done. unfold client_can_read. rewrite Hint.
  cbn [orb negb]. fold n. set (d := take n w.(down)) in *.
  assert (forall y, conn_with (set_cout [] c0) y 0 = set_cout [] (set_cin y c0)) as Ec.
  { intros y. unfold conn_with. destruct c0; cbn in *; by subst. }
  assert (d <> []) as Hd0.
  { unfold d, n. pose proof (part_bound k w.(down) Hd). destruct w.(down); [done|].
    by destruct (Z.to_nat (part k _)) eqn:E; [lia|]. }
  destruct (wait_event cfg 0 RNull r cid fd cb (set_cout [] c0) (or_introl eq_refl) I Hok)
    with (p := x) (x := x) (a' := 0) (d := d) (q := q) (w := CWAgain 0) (s := w.(cl))
    as (t & x2 & a2 & E & Hrep & Hpr); try done.
  { unfold owed. cbn [Z.eqb app]. by rewrite <- Ha. }
  { by rewrite Ec. }
  { left. by split_and!. }
  { unfold owed. cbn [Z.eqb app]. by rewrite <- Ha. }
  destruct Hpr as [(-> & -> & _)|(? & _)]; [|done]. rewrite Ec in Hrep.
  rewrite E. cbn [lift rbind]. eexists. split; [reflexivity|]. cbn [sv up down]. split_and!; try done.
  split; cbn [cl trig].
  - by eapply pool_replaced.
  - by eapply live_replaced.
  - destruct Hrep as (_ & _ & E3 & _). congruence.
  - destruct Hrep as (_ & _ & _ & _ & E5). by rewrite E5, app_nil_r.
  - done.
  - intros _. split; [done|]. destruct Hrep as (_ & _ & _ & E4 & _). congruence.
Qed.

Lemma client_read_last w x k :
  client_at w [] x -> w.(down) <> [] ->
  let n := Z.to_nat (part k w.(down)) in
  x ++ take n w.(down) = answer ->
  exists w', wire_step (ClientReads k) w = Ok w' /\
    callbacks w'.(cl).(clog)
      = callbacks w0.(cl).(clog) ++ [CbReply cb (reader_of r) (error_of r)] /\
    w'.(cl).(fdIdle) = w0.(cl).(fdIdle) ++ [cid] /\ w'.(trig) = false /\
    w'.(cl).(cinterest) !! fd = Some CRead /\
    w'.(sv) = w.(sv) /\ w'.(up) = w.(up) /\ w'.(down) = drop n w.(down).
Proof using Hst.
  intros [Hp Hl Hi Hc _ Hr] Hd n Hq. destruct (Hr eq_refl) as [Htr Hint].
  destruct (es_answer Hst) as (Ha & Hok & Hmax1 & Hmax2). destruct (es_cin Hst) as [_ Hau].
  cbn [wire_step]. rewrite bool_decide_false by done. unfold client_can_read. rewrite Hint.
  cbn [orb negb]. fold n. set (d := take n w.(down)) in *.
  assert (conn_with (set_cout [] c0) x 0 = set_cout [] (set_cin x c0)) as Ec.
  { unfold conn_with. destruct c0; cbn in *; by subst. }
  destruct (last_event cfg 0 RNull r cid fd cb (set_cout [] c0) (or_introl eq_refl) I Hok)
    with (p := x) (x := x) (a' := 0) (d := d) (w := CWAgain 0) (s := w.(cl))
    as (t & E & Hrep); try done.
  { unfold owed. cbn [Z.eqb app]. by rewrite <- Ha. }
  { apply (es_live Hst). }
  { by rewrite Ec. }
  { left. by split_and!. }
  { unfold owed. cbn [Z.eqb app]. by rewrite <- Ha. }
  rewrite E. cbn [lift rbind]. eexists. split; [reflexivity|]. cbn [cl trig sv up down].
  destruct Hrep as (_ & _ & E3 & E4 & E5). cbn [with_idle clog fdIdle cinterest].
  split_and!; try done; [|congruence..]. rewrite E5, callbacks_app, Hc. done.
Qed.
Lemma client_at_ends w w' a x :
  client_at w a x -> w'.(cl) = w.(cl) -> w'.(trig) = w.(trig) -> client_at w' a x.
Proof using. intros [????? ?] E1 E2. split; unfold client_can_write in *; by rewrite ?E1, ?E2. Qed.

Lemma server_at_ends w w' inp st o evs :
  server_at w inp st o evs -> w'.(sv) = w.(sv) -> server_at w' inp st o evs.
Proof using. intros [???] E. by split; rewrite E. Qed.

Lemma no_read_up w k j : w.(up) = [] -> wire_step (ServerReads k j) w = Err NotReady.
Proof using. intros E. cbn [wire_step]. by rewrite E. Qed.
Lemma no_read_down w k : w.(down) = [] -> wire_step (ClientReads k) w = Err NotReady.
Proof using. intros E. cbn [wire_step]. by rewrite E. Qed.

Lemma drop_part k b : b <> [] -> (length (drop (Z.to_nat (part k b)) b) < length b)%nat.
Proof using.
  intros Hb. pose proof (part_bound k b Hb). rewrite length_drop. unfold len in *. lia.
Qed.

(** What an event may do: nothing, or lead on. *)
Definition goes_on (n : nat) (v : res wire_error wire) : Prop :=
  v = Err NotReady \/ exists w' n', v = Ok w' /\ (n' < n)%nat /\ phase w' n'.

Lemma request_step w p a inp st h :
  client_at w a [] -> server_at w inp st [] [] -> w.(sv).(user) = w0.(sv).(user) ->
  w.(down) = [] -> p ++ w.(up) ++ a = command args -> w.(up) ++ a <> [] -> parsing p inp st ->
  goes_on (2 * length a + length w.(up) + 2 * length answer) (wire_step h w).
Proof using Hst.
  intros Hc Hs Hu Hd Hcmd Hne Hpar. destruct h as [k|k j|k|k].
  - destruct (decide (a = [])) as [->|Ha]; [left; by eapply client_no_write|right].
    destruct (client_write w a [] k Hc Ha) as (w' & m & E & Hm & Hc' & E1 & E2 & E3).
    eexists w', _. split; [exact E|]. split.
    2: { eapply (PhaseRequest w' p (drop m a) inp st); try congruence; try done.
         - by eapply server_at_ends.
         - by rewrite E2, <- app_assoc, take_drop.
         - by rewrite E2, <- app_assoc, take_drop. }
    rewrite E2, length_app, length_drop, length_take. lia.
  - destruct (decide (w.(up) = [])) as [Hup|Hup]; [left; by apply no_read_up|right].
    pose proof (drop_part k _ Hup) as Hlt. set (n := Z.to_nat (part k w.(up))) in *.
    destruct (decide (drop n w.(up) ++ a = [])) as [Hend|Hend].
    + apply app_nil in Hend as [E1 ->]. rewrite app_nil_r in Hcmd.
      destruct (server_read_last w p inp st k j Hs Hu Hd Hpar Hup) as (w' & req & o & E & Hq & Hs' & F1 & F2 & F3 & F4).
      { fold n. by rewrite <- (take_drop n w.(up)), E1, app_nil_r in Hcmd. }
      fold n in F3. eexists w', _. split; [exact E|]. split.
      2: { eapply (PhaseReply w' [] o req); try done; [by eapply client_at_ends|congruence|].
           rewrite F4. intros E0%(f_equal len). rewrite len_nil in E0. pose proof answer_pos. lia. }
      apply (f_equal length) in F4. rewrite length_app in F4. cbn [length]. lia.
    + destruct (server_read_part w p a inp st k j Hs Hu Hd Hcmd Hpar Hup Hend)
        as (w' & inp' & st' & E & Hs' & F1 & F2 & F3 & F4 & F5 & F6). fold n in F4, F6.
      eexists w', _. split; [exact E|]. split.
      2: { eapply (PhaseRequest w' _ a inp' st'); try done; [by eapply client_at_ends|..]; rewrite F4; [|done].
           by rewrite <- Hcmd, <- app_assoc, (app_assoc (take n _)), take_drop. }
      rewrite F4. lia.
  - left. by eapply server_no_write.
  - left. by apply no_read_down.
Qed.

Lemma reply_step w x o req h :
  client_at w [] x -> server_at w [] newState o [EvRedis sid req] -> asked req -> w.(up) = [] ->
  x ++ w.(down) ++ o = answer -> w.(down) ++ o <> [] ->
  goes_on (2 * length o + length w.(down)) (wire_step h w).
Proof using Hst.
  intros Hc Hs Hreq Hup Ha Hne. destruct h as [k|k j|k|k].
  - left. by eapply client_no_write.
  - left. by apply no_read_up.
  - destruct (decide (o = [])) as [->|Ho]; [left; by eapply server_no_write|right].
    destruct (server_write w o _ k Hs Ho) as (w' & m & E & Hm & Hs' & F1 & F2 & F3 & F4).
    eexists w', _. split; [exact E|]. split.
    2: { eapply (PhaseReply w' x (drop m o) req); try done; try congruence.
         - by eapply client_at_ends.
         - by rewrite F4, <- app_assoc, take_drop.
         - by rewrite F4, <- app_assoc, take_drop. }
    rewrite F4, length_app, length_drop, length_take. lia.
  - destruct (decide (w.(down) = [])) as [Hd|Hd]; [left; by apply no_read_down|right].
    pose proof (drop_part k _ Hd) as Hlt. set (n := Z.to_nat (part k w.(down))) in *.
    destruct (decide (drop n w.(down) ++ o = [])) as [Hend|Hend].
    + apply app_nil in Hend as [E1 ->]. rewrite app_nil_r in Ha.
      destruct (client_read_last w x k Hc Hd) as (w' & E & F1 & F2 & F3 & F4 & F5 & F6 & F7).
      { fold n. by rewrite <- (take_drop n w.(down)), E1, app_nil_r in Ha. }
      fold n in F7. eexists w', _. split; [exact E|]. split; [|apply PhaseDone; [split|..]]; try done.
      * cbn. lia.
      * exists req. split; [done|]. rewrite F5. apply Hs.
      * split; congruence.
      * rewrite F5. apply Hs.
    + destruct (client_read w x k Hc Hd (drop n w.(down) ++ o)) as (w' & E & Hc' & F1 & F2 & F3).
      { fold n. by rewrite (app_assoc (take n _)), take_drop. }
      { done. }
      fold n in F3, Hc'. eexists w', _. split; [exact E|]. split.
      2: { eapply (PhaseReply w' _ o req); try done; [by eapply server_at_ends|congruence|..]; rewrite F3; [|done].
           by rewrite <- app_assoc, (app_assoc (take n _)), take_drop. }
      rewrite F3. lia.
Qed.

Lemma phase_step w n h : phase w n -> goes_on n (wire_step h w).
Proof using Hst.
  intros [p a inp st ??????|x o req ??????|[_ _ _ [Hu Hd]] Ht Hi Hs].
  - by eapply request_step.
  - by eapply reply_step.
  - left. destruct h; cbn [wire_step]; unfold client_can_write, client_can_read, server_can_write;
      by rewrite ?Ht, ?Hi, ?Hs, ?Hu, ?Hd.
Qed.

(** Something can happen until the call is answered. *)
Lemma phase_progress w n :
  phase w n ->
  (answered w /\ forall h, wire_step h w = Err NotReady) \/
  (callbacks w.(cl).(clog) = callbacks w0.(cl).(clog) /\ exists h w', wire_step h w = Ok w').
Proof using Hst.
  intros Hph. destruct Hph as [p a inp st Hc Hs Hu Hd Hcmd Hne Hpar|x o req Hc Hs Hreq Hup Ha Hne|Han Ht Hi Hs].
  - right. split; [apply Hc|]. destruct (decide (a = [])) as [->|Ha].
    + assert (w.(up) <> []) as Hup by (by rewrite app_nil_r in Hne). exists (ServerReads 0 None).
      destruct (request_step w p [] inp st (ServerReads 0 None)) as [E|(w' & _ & E & _)]; try done; [|by exists w'].
      exfalso. cbn [wire_step] in E. rewrite bool_decide_false in E by done.
      by destruct (Server.readConn _ _ _ _ _).
    + exists (ClientWrites 0). destruct (client_write w a [] 0 Hc Ha) as (w' & _ & E & _). by exists w'.
  - right. split; [apply Hc|]. destruct (decide (o = [])) as [->|Ho].
    + assert (w.(down) <> []) as Hd by (by rewrite app_nil_r in Hne). exists (ClientReads 0).
      destruct (reply_step w x [] req (ClientReads 0)) as [E|(w' & _ & E & _)]; try done; [|by exists w'].
      exfalso. cbn [wire_step] in E. rewrite bool_decide_false in E by done. unfold client_can_read in E.
      destruct (ca_read _ _ _ Hc eq_refl) as [_ Ei]. rewrite Ei in E. cbn [orb negb] in E.
      by destruct (on_event _ _ _ _ _ _).
    + exists (ServerWrites 0). destruct (server_write w o _ 0 Hs Ho) as (w' & _ & E & _). by exists w'.
  - left. split; [done|]. intros h. destruct (phase_step w 0 h) as [E|(? & ? & _ & ? & _)]; [by constructor|done|lia].
Qed.

Lemma phase_run hs w n w' :
  phase w n -> wire_run hs w = Ok w' -> exists n', phase w' n' /\ (length hs + n' <= n)%nat.
Proof using Hst.
  revert w n. induction hs as [|h hs IH]; intros w n Hph Hrun.
  { injection Hrun as <-. by exists n. }
  cbn [wire_run] in Hrun. destruct (phase_step w n h Hph) as [E|(w1 & n1 & E & Hn & Hph1)];
    rewrite E in Hrun; [done|]. cbn [rbind] in Hrun.
  destruct (IH w1 n1 Hph1 Hrun) as (n' & ? & ?). exists n'. split; [done|]. cbn [length]. lia.
Qed.

Lemma phase_start : phase w0 (2 * length (command args) + 2 * length answer).
Proof using Hst.
  destruct Hst as [Hp Hl Hco [Hci Hau] Hcw [Hsc Hidle] (Hs & Hin & Hout & Hfd) Hi [Hu Hd] Han Hh Hcmd].
  replace (2 * length (command args))%nat with (2 * length (command args) + length w0.(up))%nat
    by (rewrite Hu; cbn; lia).
  assert (command args <> []) as Hne.
  { unfold command. pose proof (len_resp_header 42 (len args)) as Hlen. intros E.
    apply (f_equal len) in E. rewrite len_app, len_nil in E. pose proof (len_nonneg (bulks args)). lia. }
  eapply (PhaseRequest w0 [] (command args) [] newState); try done.
  - split; try done.
    + replace (set_cout (command args) (set_cin [] c0)) with c0; [done|].
      rewrite <- Hco, <- Hci. by destruct c0.
  - split; try done; [|by rewrite app_nil_r]. rewrite Hsc. f_equal. destruct sc0; cbn in *; by subst.
  - by rewrite Hu.
  - by rewrite Hu.
  - split_and!; [|done|done]. split; [done|by left].
Qed.
End exchange.

(** ** Theorem *)

(** C4: a call between this client and this server.  However the events at the two
    ends interleave, whatever part of its bytes each write takes and each read
    gives: no event panics or waits; every event moves bytes on, so that after at
    most two events for each byte of the command and of the answer nothing is left
    to happen; until the call is answered something can happen at one of the ends,
    so it never gets stuck; and at the end the handler has been called once, with
    the arguments of the call, the callback has been called once, with the
    handler's answer, and the connection is back in the client's pool. *)
Theorem call_answered args r cb c0 sc0 u w0 hs w :
  exchange_start args r cb c0 sc0 u w0 -> wire_run hs w0 = Ok w ->
  (length hs <= 2 * length (command args) + 2 * length answer)%nat /\
  (forall h, wire_step h w = Err NotReady \/ exists w', wire_step h w = Ok w') /\
  ((answered args r cb w0 w /\ forall h, wire_step h w = Err NotReady) \/
   (callbacks w.(cl).(clog) = callbacks w0.(cl).(clog) /\ exists h w', wire_step h w = Ok w')).
Proof using.
  intros Hst Hrun. pose proof (phase_start _ _ _ _ _ _ _ Hst) as Hph.
  destruct (phase_run _ _ _ _ _ _ _ Hst hs w0 _ w Hph Hrun) as (n & Hph' & Hn).
  split_and!; [lia| |by eapply phase_progress].
  intros h. destruct (phase_step _ _ _ _ _ _ _ Hst w n h Hph') as [E|(w' & _ & E & _)]; eauto.
Qed.
(** All of what is there. *)
Lemma part_all b : b <> [] -> part (length b) b = len b.
Proof using. unfold part, len. lia. Qed.

(** A new connection of a client that has a password, and a handler that answers
    the authentication. *)
Record auth_start (args : list bytes) (ra : reply) (cb : nat) (c0 : CConn) (sc0 : Conn) (u : U)
  (w0 : wire) : Prop := {
  as_pool : pool_ok cfg w0.(cl);
  as_live : live cfg cid fd cb c0 w0.(cl);
  as_cout : c0.(cout) = command [bs "AUTH"; cfg.(auth)] ++ command args;
  as_cin : c0.(cin) = [] /\ c0.(authState) = 1;
  as_client : client_can_write w0 = true;
  as_sconn : w0.(sv).(Server.conns) !! sid = Some sc0 /\ idle sc0;
  as_server : sc0.(srs) = newState /\ sc0.(inb) = [] /\ sc0.(outb) = [] /\ sc0.(Server.fd) = sfd;
  as_net : w0.(up) = [] /\ w0.(down) = [];
  as_answer : answer = enc ra /\ reply_ok ra /\ len answer + 5 <= cfg.(ResponseMaxBytes) < 2 ^ 62;
  as_handler req : (forall i : nat, Redis.Get req (Z.of_nat i) = Ok ([bs "AUTH"; cfg.(auth)] !! i)) ->
    hd.(OnRedis) req w0.(sv).(user) = (u, answer, true);
  as_command : len c0.(cout) <= RequestMaxBytes /\ max_ok;
}.

Lemma owed_null ra : len (owed 1 ra RNull) = len (enc ra) + 5.
Proof using. unfold owed. cbn [Z.eqb Pos.eqb]. by rewrite len_app. Qed.

(** The client reads the answer to its authentication. *)
Lemma client_reads_auth ra cb c w :
  pool_ok cfg w.(cl) -> live cfg cid fd cb c w.(cl) -> c.(cin) = [] -> c.(authState) = 1 ->
  reply_ok ra -> len (enc ra) + 5 <= cfg.(ResponseMaxBytes) < 2 ^ 62 ->
  w.(down) = enc ra -> w.(cl).(cinterest) !! fd = Some CRead ->
  exists w', wire_step (ClientReads (length w.(down))) w = Ok w' /\
    w'.(cl).(clog) = w.(cl).(clog) /\ w'.(cl).(cinterest) = w.(cl).(cinterest) /\
    w'.(trig) = w.(trig) /\ w'.(sv) = w.(sv) /\ w'.(up) = w.(up) /\ w'.(down) = [].
Proof using.
  intros Hp Hl Hci Hau Hok Hmax Hd Hi. pose proof (len_nonneg (enc ra)) as H0'.
  assert (0 < len (enc ra)) as Hpos by (apply enc_len_pos; [done|lia]).
  assert (w.(down) <> []) as Hne by (rewrite Hd; intros E; rewrite E in Hpos; done).
  cbn [wire_step]. rewrite bool_decide_false by done. unfold client_can_read. rewrite Hi, part_all by done.
  cbn [orb negb]. replace (take (Z.to_nat (len w.(down))) w.(down)) with w.(down)
    by (rewrite take_ge; [done|unfold len; lia]).
  replace (drop (Z.to_nat (len w.(down))) w.(down)) with (@nil Z)
    by (rewrite drop_ge; [done|unfold len; lia]).
  assert (conn_with c [] 1 = c) as Ec by (unfold conn_with; destruct c; cbn in *; by subst).
  destruct (wait_event cfg 1 ra RNull cid fd cb c (or_intror eq_refl) Hok I)
    with (p := @nil Z) (x := @nil Z) (a' := 1) (d := w.(down)) (q := enc RNull) (w := CWAgain 0)
         (s := w.(cl)) as (t & x2 & a2 & E & Hr & _); try done.
  { rewrite owed_null. lia. }
  { lia. }
  { by rewrite Ec. }
  { left. split_and!; try done. intros _. exists (enc ra). split; [done|]. congruence. }
  { unfold owed. cbn [Z.eqb Pos.eqb app]. by rewrite Hd. }
  rewrite E. cbn [lift rbind]. destruct Hr as (_ & _ & _ & E4 & E5). rewrite app_nil_r in E5.
  eexists. split; [reflexivity|]. by cbn [cl trig sv up down].
Qed.

(** The server reads both commands at once. *)
Lemma server_reads_auth args c0 sc0 u w :
  w.(sv).(Server.conns) !! sid = Some sc0 -> idle sc0 -> sc0.(srs) = newState -> sc0.(inb) = [] ->
  sc0.(outb) = [] -> sc0.(Server.fd) = sfd -> 0 < len answer -> w.(down) = [] ->
  w.(up) = c0.(cout) -> c0.(cout) = command [bs "AUTH"; cfg.(auth)] ++ command args -> c0.(cout) <> [] ->
  len c0.(cout) <= RequestMaxBytes -> max_ok ->
  (forall req, (forall i : nat, Redis.Get req (Z.of_nat i) = Ok ([bs "AUTH"; cfg.(auth)] !! i)) ->
     hd.(OnRedis) req w.(sv).(user) = (u, answer, true)) ->
  exists w' req, wire_step (ServerReads (length c0.(cout)) (Some (length answer))) w = Ok w' /\
    (forall i : nat, Redis.Get req (Z.of_nat i) = Ok ([bs "AUTH"; cfg.(auth)] !! i)) /\
    w'.(sv).(Server.conns) !! sid = Some (set_out [] (set_in (command args) sc0)) /\
    requests w'.(sv).(log) = requests w.(sv).(log) ++ [EvRedis sid req] /\
    w'.(sv).(interest) !! sfd = Some MRead /\
    w'.(cl) = w.(cl) /\ w'.(trig) = w.(trig) /\ w'.(up) = [] /\ w'.(down) = answer.
Proof using.
  intros Hid Hidle Hs Hin Hout Hfd Hpos Hd Hu Ho Hne Hlc Hmo Hh.
  assert (part (length answer) answer = len answer) as Epa.
  { apply part_all. intros E. rewrite E in Hpos. done. }
  cbn [wire_step]. rewrite bool_decide_false by congruence. rewrite Hu, part_all, Epa by done.
  rewrite take_ge, drop_ge by (unfold len; lia). set (v := WN (len answer)).
  destruct (readConn_command hd sid c0.(cout) v w.(sv) sc0 [bs "AUTH"; cfg.(auth)] (command args))
    as (req & Hreq & Hc); try done.
  { by rewrite Hin. }
  { by rewrite <- Ho. }
  rewrite (Hh req Hreq) in Hc. destruct (Hc eq_refl) as (t & Ht & ->). rewrite Hout. cbn [app].
  rewrite (proj2 (Z.eqb_neq (len answer) 0)) by lia. pose proof Ht as (Ec & _ & _ & _ & _ & El & _).
  rewrite Hout in Ec. cbn [app] in Ec.
  destruct Hidle as (Hop & Hlk & Hws).
  destruct (writeConn_flushed hd sid v t (set_out answer (set_in (command args) sc0)))
    as (s & E & Hf & Hr); try done.
  { by rewrite Ec, lookup_insert_eq. }
  { cbn. by rewrite Hws. }
  { cbn. lia. }
  destruct (writeConn_input_kept hd sid v t s E) as [Hlog _]. rewrite E. cbn [lift rbind].
  destruct Hf as (Ec' & _ & _ & _ & Es & _). cbn [set_out outb taken Server.fd set_in] in *.
  assert (drop (taken v) answer = []) as Edr by (unfold v; cbn [taken]; apply drop_ge; unfold len; lia).
  rewrite Edr in Es, Ec'. rewrite app_nil_r in Es.
  eexists _, req. split; [reflexivity|]. cbn [cl trig sv up down]. split_and!; try done.
  - by rewrite Ec', lookup_insert_eq.
  - by rewrite Hlog, El, requests_app.
  - rewrite <- Hfd. by apply (Hr (len answer)).
  - rewrite Hd, Es, El. cbn [app].
    replace (sent sid (w.(sv).(log) ++ [EvRedis sid req])) with (sent sid w.(sv).(log))
      by (unfold sent; rewrite bind_app; cbn; by rewrite app_nil_r).
    by rewrite news_app.
Qed.

(** C40: a password does not work between this client and this server.  A new
    connection sends the authentication and the command together; when they
    arrive in one read, the server answers the first and leaves the second in its
    buffer, where nothing looks at it before more bytes come.  The client, which
    has its answer to the authentication, sends nothing more: no event is
    possible at either end, and the callback has not been called. *)
Theorem authenticated_call_waits args ra cb c0 sc0 u w0 :
  auth_start args ra cb c0 sc0 u w0 ->
  exists w, wire_run [ClientWrites (length c0.(cout)); ServerReads (length c0.(cout)) (Some (length answer));
                      ClientReads (length answer)] w0 = Ok w /\
    callbacks w.(cl).(clog) = callbacks w0.(cl).(clog) /\
    (exists req, requests w.(sv).(log) = requests w0.(sv).(log) ++ [EvRedis sid req] /\
       forall i : nat, Redis.Get req (Z.of_nat i) = Ok ([bs "AUTH"; cfg.(auth)] !! i)) /\
    (exists sc, w.(sv).(Server.conns) !! sid = Some sc /\ sc.(inb) = command args) /\
    forall h, wire_step h w = Err NotReady.
Proof using.
  intros [Hp Hl Ho [Hci Hau] Hcw [Hsc Hidle] (Hs & Hin & Hout & Hfd) [Hu Hd] (Ha & Hok & Hmax) Hh [Hlc Hmo]].
  set (acmd := command [bs "AUTH"; cfg.(auth)]) in *. pose proof (len_nonneg (enc ra)) as Hl0.
  assert (0 < len answer) as Hpos by (rewrite Ha; apply enc_len_pos; [done|rewrite Ha in Hmax; lia]).
  assert (0 < len c0.(cout)) as Hco.
  { rewrite Ho. unfold acmd, command. pose proof (len_resp_header 42 (len [bs "AUTH"; cfg.(auth)])).
    rewrite !len_app. pose proof (len_nonneg (bulks [bs "AUTH"; cfg.(auth)])).
    pose proof (len_nonneg (command args)). unfold command in *. rewrite len_app in *. lia. }
  assert (c0.(cout) <> []) as Hne by (intros E; rewrite E in Hco; done).
  destruct (client_writes cb c0 w0 (length c0.(cout)) Hp Hl Hne Hcw)
    as (w1 & E1 & Hp1 & Hl1 & _ & Hc1 & Ht1 & Hi1 & Hs1 & Hu1 & Hd1).
  rewrite part_all in * by done.
  rewrite take_ge in Hu1 by (unfold len; lia). rewrite drop_ge in Hl1, Hi1 by (unfold len; lia).
  rewrite Hu in Hu1. cbn [app] in Hu1. rewrite decide_True in Hi1 by done.
  destruct (server_reads_auth args c0 sc0 u w1) as (w2 & req & E2 & Hreq & Hc2 & Hr2 & Hi2 & F1 & F2 & F3 & F4);
    try congruence; try done.
  { intros req' Hr. rewrite Hs1. by apply Hh. }
  rewrite Hs1 in Hr2.
  destruct (client_reads_auth ra cb (set_cout [] c0) w2) as (w3 & E3 & G1 & G2 & G3 & G4 & G5 & G6);
    try done; try congruence.
  rewrite F4 in E3. cbn [wire_run]. exists w3. rewrite E1. cbn [rbind]. rewrite E2. cbn [rbind].
  rewrite E3. cbn [rbind]. split; [done|]. split_and!.
  - congruence.
  - exists req. split; [congruence|exact Hreq].
  - rewrite G4. eexists. split; [exact Hc2|]. by destruct sc0.
  - assert (w3.(trig) = false) as Et by congruence. assert (w3.(up) = []) as Eu by congruence.
    assert (w3.(cl).(cinterest) !! fd = Some CRead) as Eci by congruence.
    assert (w3.(sv).(interest) !! sfd = Some MRead) as Esi by congruence.
    intros [k|k j|k|k]; cbn [wire_step]; unfold client_can_write, server_can_write;
      by rewrite ?Et, ?Eci, ?Esi, ?Eu, ?G6.
Qed.
End wire.

(** ** Witnesses *)

Local Abbreviation ex_wire := (@wire Z (fdMap Z)).

Definition ex_wire1 : ex_wire := mkWire (ex_busy ex_cfg1) false ex_listener [] [].
Definition ex_wire_auth : ex_wire := mkWire (ex_busy ex_cfg) false ex_listener [] [].
Definition ex_hops : list hop :=
  [ClientWrites 3; ServerReads 1 None; ClientWrites 200; ServerReads 0 (Some 0%nat); ServerReads 200 (Some 1%nat);
   ClientReads 0; ServerWrites 0; ClientReads 0; ServerWrites 200; ClientReads 200].

Lemma ex_start :
  @exchange_start default_env Z (fdMap Z) _ ex_handlers ex_cfg1 1 5 1 5 ok_reply [bs "GET"; bs "k"]
    (RSimple (bs "OK")) 0 (conn_of 1 (ex_busy ex_cfg1)) (set_lastTs 10 (newConn 5)) 1 ex_wire1.
Proof.
  split.
  - apply ex_busy1_ok.
  - split_and!; vm_compute; reflexivity.
  - vm_compute. reflexivity.
  - split; vm_compute; reflexivity.
  - vm_compute. reflexivity.
  - split; [vm_compute; reflexivity|by split_and!].
  - by split_and!.
  - reflexivity.
  - by split.
  - split; [reflexivity|]. split; [apply index_byte_None; reflexivity|]. split; [by vm_compute|done].
  - by intros req _.
  - split_and!; [by vm_compute..|apply max_ok_default].
Qed.

Lemma ex_auth_start :
  @auth_start default_env Z (fdMap Z) _ ex_handlers ex_cfg 1 5 1 5 ok_reply [bs "GET"; bs "k"]
    (RSimple (bs "OK")) 0 (conn_of 1 (ex_busy ex_cfg)) (set_lastTs 10 (newConn 5)) 1 ex_wire_auth.
Proof.
  split.
  - apply ex_busy_ok.
  - split_and!; vm_compute; reflexivity.
  - vm_compute. reflexivity.
  - split; vm_compute; reflexivity.
  - vm_compute. reflexivity.
  - split; [vm_compute; reflexivity|by split_and!].
  - by split_and!.
  - by split.
  - split; [reflexivity|]. split; [apply index_byte_None; reflexivity|]. split; [by vm_compute|done].
  - by intros req _.
  - split; [by vm_compute|apply max_ok_default].
Qed.

Local Abbreviation ex_run1 :=
  (@wire_run default_env Z (fdMap Z) _ ex_handlers ex_cfg1 1 5 1 5 ok_reply).
Local Abbreviation ex_run2 :=
  (@wire_run default_env Z (fdMap Z) _ ex_handlers ex_cfg 1 5 1 5 ok_reply).

Definition ok_wire (w : ex_wire) (v : res wire_error ex_wire) : ex_wire :=
  match v with Ok w => w | _ => w end.

Lemma call_answered_witness :
  let w := ok_wire ex_wire1 (ex_run1 ex_hops ex_wire1) in
  ex_run1 ex_hops ex_wire1 = Ok w /\
  answered 1 1 [bs "GET"; bs "k"] (RSimple (bs "OK")) 0 ex_wire1 w /\
  forall h, @wire_step default_env Z (fdMap Z) _ ex_handlers ex_cfg1 1 5 1 5 ok_reply h w = Err NotReady.
Proof.
  intros w. assert (ex_run1 ex_hops ex_wire1 = Ok w) as Hrun by (vm_compute; reflexivity).
  split; [exact Hrun|].
  destruct (call_answered _ _ _ _ _ _ _ _ _ _ _ _ _ _ ex_hops w ex_start Hrun) as (_ & _ & [Ha|[E _]]).
  - exact Ha.
  - vm_compute in E. discriminate E.
Defined.

Lemma authenticated_call_waits_witness :
  exists w, ex_run2 [ClientWrites 42; ServerReads 42 (Some 5%nat); ClientReads 5] ex_wire_auth = Ok w /\
    callbacks w.(cl).(clog) = [] /\
    (exists req, requests w.(sv).(log) = [EvRedis 1 req] /\
       forall i : nat, Redis.Get req (Z.of_nat i) = Ok ([bs "AUTH"; bs "pw"] !! i)) /\
    (exists sc, w.(sv).(Server.conns) !! 1 = Some sc /\ sc.(inb) = command [bs "GET"; bs "k"]) /\
    forall h, @wire_step default_env Z (fdMap Z) _ ex_handlers ex_cfg 1 5 1 5 ok_reply h w = Err NotReady.
Proof.
  exact (authenticated_call_waits _ _ _ _ _ _ _ _ _ _ _ _ _ _ ex_auth_start).
Defined.
