(* ===== verification/Echo.v ===== *)
(** The example server (src/examples/allservers.go): the handlers of the program
    that tests the library against itself, over the models of requests and
    responses.  They answer later, from a timer; the function of the timer is what
    is modelled.  The theorems are what the program checks when it runs: what a
    client sends, it gets back. *)

From S2P Require Import Prelude GoStd Escape Util Redis Ws Http HttpSpec HttpQuery HttpResp State StateSpec.

Section echo.
Context {M : Type} `{QueryMapLaws M} `{Env}.

(** ** [OnHTTP] *)

(** What it writes: an upgrade for [/ws], otherwise the query [a], or the body, or
    the header [x-resh] in hexadecimal. *)
Definition echo_text (req : @Request M) : res error (@Request M * bytes) :=
  let! (req, x) := GetQuery (bs "a") req in
  if len x =? 0 then
    let! x := Body req.(HttpQuery.http) in
    if len x =? 0 then
      let! v := GetHeader req.(HttpQuery.http) (bs "x-resh") in
      Ok (req, (hex.DecodeString v).1)
    else Ok (req, x)
  else Ok (req, x).

Definition echo_OnHTTP (req : @Request M) (c : sink) : res error (option Websocket * sink) :=
  if bool_decide (req.(HttpQuery.http).(Path) = bs "/ws") then UpgradeWebsocket [] req.(HttpQuery.http) c
  else
    let! (req, x) := echo_text req in
    let! c := Bytes 200 (bs "text/plain") x c in
    Ok (None, Flush c).

(** The handlers of the two smaller programs: the one with a certificate
    (src/examples/ssl.go) sends the body back, the other (src/examples/echo.go) always
    the same text. *)
Definition ssl_OnHTTP (req : HTTP) (c : sink) : res error sink :=
  let! x := Body req in
  let! c := Bytes 200 (bs "text/plain") x c in
  Ok (Flush c).
Definition hello_OnHTTP (c : sink) : res error sink := Text 200 (bs "hello world") c.

(** ** [OnWSData] *)

Definition echo_OnWSData (data : bytes) : bytes := WriteBinary data.

(** ** [OnRedis] *)

(** [Conn.Tag], whether the client is known; what it writes, or nothing yet. *)
Definition echo_OnRedis (tag : bool) (c : Redis) (out : bytes) : res error (bool * bytes) :=
  if negb tag then
    let! cmd := Str c 0 in
    if negb (bool_decide (cmd = bs "AUTH")) then Ok (tag, WriteError out (bs "No AUTH"))
    else
      let! pwd := Str c 1 in
      if negb (bool_decide (pwd = bs "pwd")) then Ok (tag, WriteError out (bs "AUTH failed"))
      else Ok (true, WriteSimpleString out (bs "OK"))
  else Ok (tag, out).

(** The function of the timer. *)
Definition echo_redis (c : Redis) (out : bytes) : res error bytes :=
  let! (off, _) := Int64 c 1 in
  let! x := Get c (i64 (1 + off + 1)) in
  Ok (WriteBulk out (default [] x)).

(** ** Lemmas *)

(** How the program's clients send [x]: as the query [a], as the body, or as a
    header. *)
Inductive sends (x : bytes) : bytes -> list (bytes * bytes) -> bytes -> Prop :=
| by_query path kvs hs :
    (63 ∉ path) -> Forall bytes_pair kvs -> value_of kvs (bs "a") = Some x ->
    sends x (path ++ 63 :: query_string kvs) hs []
| by_body target hs : (63 ∉ target) -> sends x target hs x
| by_header target hs :
    (63 ∉ target) -> first_value (bs "x-resh") hs = Some (hex.EncodeToString x) -> sends x target hs [].

(** Asking a map that is [nil] answers the empty string. *)
Hypothesis MGet_nil_empty : forall k, MGet_nil k = Ok [].

Lemma target_path_plain target : (63 ∉ target) -> target_path target = target.
Proof using. intros Hq. unfold target_path. by rewrite (proj2 (index_byte_None 63 target) Hq). Qed.

(** What the handler finds in the request, however it came. *)
Lemma echo_text_sent x method target ver hs out body r :
  sends x target hs body -> x <> [] -> Forall is_byte x ->
  request_ok method target ver hs -> (CR ∉ out) -> decode false (target_path target) = Some (47 :: out) ->
  parse (set_data (request method target ver hs) newHTTP) = Ok r -> r.(bodyLen) = len body ->
  exists r', echo_text (mkRequest (set_data (r.(Http.data) ++ body) r) None) = Ok (r', x).
Proof using All.
  intros Hs Hx Hb Hok HC Hout Hp Hbl.
  assert ((len x =? 0) = false) as Hlx by (apply Z.eqb_neq; intros E; by apply len_0_inv in E).
  assert (forall d, Body (set_data (d ++ body) r) = Ok body) as Hbody.
  { intros d. unfold Body. cbn [set_data Http.data bodyLen]. rewrite Hbl, slice_suffix; [done|].
    rewrite len_app. lia. }
  unfold echo_text. destruct Hs as [path kvs hs Hq Hkvs Hv|target hs Hq|target hs Hq Hv].
  - assert (target_path (path ++ 63 :: query_string kvs) = path) as Ep.
    { unfold target_path. rewrite index_byte_app by done. by rewrite take_app_length. }
    rewrite Ep in Hout. rewrite app_nil_r. replace (set_data r.(Http.data) r) with r by by destruct r.
    destruct (Query_first method path ver hs kvs out r Hok Hkvs Hq Hout Hp) as (h & E).
    unfold GetQuery. rewrite E. cbn [rbind]. rewrite MGet_pairs, Hv. cbn [default id rbind]. rewrite Hlx. by eexists.
  - rewrite target_path_plain in Hout by done.
    destruct (parse_plain_shape method target ver hs out r Hok Hq Hout Hp) as (tl & _ & _ & Hqs & _).
    unfold GetQuery, Query. cbn [HttpQuery.http qmap set_data qStart]. rewrite Hqs.
    cbn [Z.ltb Z.compare rbind]. rewrite MGet_nil_empty. cbn [rbind HttpQuery.http].
    change (len [] =? 0) with true. cbv iota. rewrite Hbody. cbn [rbind]. rewrite Hlx. by eexists.
  - pose proof Hout as Hout'. rewrite target_path_plain in Hout by done.
    destruct (parse_plain_shape method target ver hs out r Hok Hq Hout Hp) as (tl & _ & _ & Hqs & _).
    unfold GetQuery, Query. cbn [HttpQuery.http qmap set_data qStart]. rewrite Hqs.
    cbn [Z.ltb Z.compare rbind]. rewrite MGet_nil_empty. cbn [rbind HttpQuery.http].
    change (len [] =? 0) with true. cbv iota. rewrite Hbody. cbn [rbind].
    change (len [] =? 0) with true. cbv iota.
    rewrite (GetHeader_parse_request method target ver hs out [] (bs "x-resh") r Hok Hout' HC Hp).
    rewrite Hv. cbn [default id rbind]. rewrite hex.DecodeString_Encode by done. by eexists.
Qed.

(** ** Theorems *)

(** C17: what goes in comes out.  A client sends bytes in the query, in the body or
    in a header of a well-formed request; the server reads the request off its
    input, whatever follows it; the example's handler finds the bytes, and from
    what it writes the client reads a response with status 200 whose body is
    these bytes, whatever is sent after it. *)
Theorem http_echo x method target ver hs out body rest c rest' :
  let rq := request method target ver hs in
  sends x target hs body -> x <> [] -> Forall is_byte x -> len x < 2 ^ 63 ->
  request_ok method target ver hs -> prefixb [42] method = false ->
  decode false (target_path target) = Some (47 :: out) -> (CR ∉ out) -> out <> bs "ws" ->
  default 0 ((fun v => (strconv.Atoi v).1) <$> last_value (bs "content-length") hs) = len body ->
  len (rq ++ body) < 2 ^ 32 ->
  exists inp n r resp,
    process (rq ++ body ++ rest) newState = (inp ++ rest, mkState n None (Some r), Ok tt) /\
    echo_OnHTTP (mkRequest r None) c = Ok (None, mkSink (c.(HttpResp.out) ++ resp) (S c.(triggers))) /\
    read_response (resp ++ rest') = Some (200, full_fields (bs "text/plain") [] (len x), x, rest').
Proof using All.
  intros rq Hs Hx Hb Hlx Hok Hm Hout HC Hws Hcl Hl.
  destruct (process_request method target ver hs out body rest Hok Hm (decoded_unesc _ _ Hout) Hcl Hl)
    as (r & Hp & _ & Hbl & _ & Hpr).
  destruct (echo_text_sent x method target ver hs out body r Hs Hx Hb Hok HC Hout Hp Hbl) as (r' & Et).
  destruct (respFull_reads 200 (bs "text/plain") [] x c rest') as (resp & Er & Hread);
    [unfold strconv.minInt64, strconv.maxInt64; lia|done|by apply index_byte_None|constructor|done|].
  eexists _, _, _, resp. split; [exact Hpr|]. split; [|exact Hread].
  unfold echo_OnHTTP. cbn [HttpQuery.http set_data Path].
  assert (r.(Path) = 47 :: out) as ->.
  { apply decoded_unesc in Hout. rewrite parse_request_eq in Hp by (done || by rewrite Hout).
    injection Hp as <-. rewrite Hout. cbn [set_data Path].
    by destruct (foldl_apply_header_fields
      (set_Path (47 :: out) (query_of method target (set_hdrLen (len rq) newHTTP))) hs) as (_ & _ & _ & E & _). }
  rewrite bool_decide_false by (intros [= E]; by apply Hws). rewrite Et. cbn [rbind]. unfold Bytes. rewrite Er.
  done.
Qed.

(** The same with the program that only looks at the body, empty or not. *)
Theorem ssl_echo x method target ver hs out rest c rest' :
  let rq := request method target ver hs in
  len x < 2 ^ 63 -> request_ok method target ver hs -> prefixb [42] method = false ->
  unesc false (target_path target) (target_path target) = 47 :: out ->
  default 0 ((fun v => (strconv.Atoi v).1) <$> last_value (bs "content-length") hs) = len x ->
  len (rq ++ x) < 2 ^ 32 ->
  exists inp n r resp,
    process (rq ++ x ++ rest) newState = (inp ++ rest, mkState n None (Some r), Ok tt) /\
    ssl_OnHTTP r c = Ok (mkSink (c.(HttpResp.out) ++ resp) (S c.(triggers))) /\
    read_response (resp ++ rest') = Some (200, full_fields (bs "text/plain") [] (len x), x, rest').
Proof using M H H0 H1.
  intros rq Hlx Hok Hm Hout Hcl Hl.
  destruct (process_request method target ver hs out x rest Hok Hm Hout Hcl Hl) as (r & _ & _ & Hbl & _ & Hpr).
  destruct (respFull_reads 200 (bs "text/plain") [] x c rest') as (resp & Er & Hread);
    [unfold strconv.minInt64, strconv.maxInt64; lia|done|by apply index_byte_None|constructor|done|].
  eexists _, _, _, resp. split; [exact Hpr|]. split; [|exact Hread].
  assert (Body (set_data (r.(Http.data) ++ x) r) = Ok x) as Hb.
  { unfold Body. cbn [set_data Http.data bodyLen]. rewrite Hbl, slice_suffix; [done|]. rewrite len_app. lia. }
  unfold ssl_OnHTTP. rewrite Hb. cbn [rbind]. unfold Bytes. by rewrite Er.
Qed.

(** The same for a command: the argument that the first one points to. *)
Theorem redis_echo args off x rest out :
  len (command args ++ rest) < 2 ^ 32 -> len args <= 65535 -> 0 <= off < 2 ^ 62 ->
  args !! 1%nat = Some (strconv.FormatInt 10 off) -> args !! Z.to_nat (off + 2) = Some x ->
  exists r,
    process (command args ++ rest) newState = (command args ++ rest, mkState 999 (Some r) None, Ok tt) /\
    echo_OnRedis true r out = Ok (true, out) /\ echo_redis r out = Ok (out ++ bulk x).
Proof using.
  intros Hl Ha Hoff Ho Hx. eexists. split; [by apply process_bulks_command|]. split; [done|].
  set (r := mkRedis _ _ _ _).
  assert (forall i : nat, Get r (Z.of_nat i) = Ok (args !! i)) as Hget.
  { intros i. apply Get_spans. rewrite len_app in Hl. pose proof (len_nonneg rest). lia. }
  unfold echo_redis, Int64, Str. change 1 with (Z.of_nat 1) at 1. rewrite Hget, Ho. cbn [default id rbind].
  rewrite strconv.ParseInt_FormatInt by (unfold strconv.minInt64, strconv.maxInt64; lia). cbn [rbind].
  rewrite i64_small by lia. replace (1 + off + 1) with (Z.of_nat (Z.to_nat (off + 2))) by lia.
  rewrite Hget, Hx. cbn [rbind default id]. unfold WriteBulk. by rewrite WriteBulkString_bulk.
Qed.

(** Nobody is served before the password. *)
Theorem redis_auth tag c out tag' out' :
  echo_OnRedis tag c out = Ok (tag', out') -> tag = false -> tag' = true ->
  Str c 0 = Ok (bs "AUTH") /\ Str c 1 = Ok (bs "pwd") /\ out' = out ++ bs "+OK" ++ crlf.
Proof using.
  unfold echo_OnRedis. intros E -> ->. cbn [negb] in E.
  destruct (Str c 0) as [cmd| | |]; [|done..]. cbn [rbind] in E. case_bool_decide as E1; [|done]. cbn [negb] in E.
  destruct (Str c 1) as [pwd| | |]; [|done..]. cbn [rbind] in E. case_bool_decide as E2; [|done]. cbn [negb] in E.
  injection E as <-. subst. done.
Qed.
End echo.

(** ** Witnesses *)

(** A map whose [nil] answers the empty string. *)
#[local] Instance nil_query_map : QueryMap (list (bytes * bytes)) := {
  NewMap := @NewMap _ list_query_map;
  MSet := @MSet _ list_query_map;
  MGet := @MGet _ list_query_map;
  MGet_nil := fun _ => Ok [];
}.
#[local] Instance nil_query_map_laws : QueryMapLaws (list (bytes * bytes)).
Proof. constructor; [exact (@MGet_new _ _ list_query_map_laws)|exact (@MGet_set _ _ list_query_map_laws)]. Qed.

Lemma http_echo_witness :
  let rq := request (bs "POST") (bs "/p%20q") (bs "HTTP/1.1") ex_headers in
  exists inp n r resp,
    @process default_env (rq ++ bs "ok" ++ bs "more") newState = (inp ++ bs "more", mkState n None (Some r), Ok tt) /\
    @echo_OnHTTP (list (bytes * bytes)) nil_query_map (mkRequest r None) (mkSink [] 0)
    = Ok (None, mkSink resp 1) /\
    read_response (resp ++ bs "next") = Some (200, full_fields (bs "text/plain") [] 2, bs "ok", bs "next").
Proof.
  apply (@http_echo _ nil_query_map nil_query_map_laws default_env (fun _ => eq_refl) (bs "ok") (bs "POST")
           (bs "/p%20q") (bs "HTTP/1.1") ex_headers (bs "p q") (bs "ok") (bs "more") (mkSink [] 0) (bs "next")).
  - apply by_body. compute_done.
  - done.
  - apply (bool_decide_unpack _). by vm_compute.
  - by vm_compute.
  - apply ex_request_ok; [compute_done|compute_done|by vm_compute].
  - by vm_compute.
  - by vm_compute.
  - compute_done.
  - done.
  - by vm_compute.
  - by vm_compute.
Defined.

Lemma redis_echo_witness :
  let args := [bs "test"; bs "1"; bs "junk"; bs "x"] in
  exists r,
    @process default_env (command args ++ bs "more") newState
    = (command args ++ bs "more", mkState 999 (Some r) None, Ok tt) /\
    echo_OnRedis true r [] = Ok (true, []) /\ echo_redis r [] = Ok (bulk (bs "x")).
Proof.
  apply (@redis_echo default_env [bs "test"; bs "1"; bs "junk"; bs "x"] 1 (bs "x") (bs "more") []); by vm_compute || lia.
Defined.
